(** * ORIENT-H regret engine: a shallow embedding of [server/regret_engine.py]

    The development follows the source file top-down: game constants, the
    [Patient] and [GameState] classes, the [GameSimulator], the
    [CFRRegretMinimizer], the [StrategyGenerator] and the
    [DynamicRegretAnalyzer].  Theorems come after all the definitions.

    Modelling conventions.
    - Python floats are idealised as exact rationals in canonical form
      ([Qc]); every arithmetic expression of the source is transcribed
      operator by operator.  [math.sqrt] has no rational counterpart and is
      a section variable [sqrt] of the functions that call it.  What is
      proved therefore holds of the program up to rounding: where doubles
      round (an urgency such as 3 * 0.3, a weighted average next to its
      largest term, a clock at 2^53 and beyond) the program can order, sign
      or advance a value differently.
    - Python objects that the source mutates through references ([Patient]
      and [GameState] instances) live in an explicit store; a reference is
      an index into the store.
    - Python dictionaries keep insertion order, and the source relies on it
      ([max] over a dict returns the first maximal key), so a dictionary is
      an association list with in-place update and append-on-new-key.
    - A raised Python exception is the [Raise] outcome of the store monad. *)

From Stdlib Require Import QArith Qcanon Qround ZArith List String Lia Bool.
From stdpp Require Import base numbers list strings gmap.
Import ListNotations.

Local Open Scope string_scope.
Local Open Scope list_scope.
Local Open Scope Z_scope.
Local Open Scope Qc_scope.

(* ================================================================== *)
(** ** Numbers *)

(** Integer and decimal literals of the source as rationals. *)
Definition qz (z : Z) : Qc := Qc_of_Z z.
Definition qfrac (n : Z) (d : positive) : Qc := Q2Qc (n # d).

Definition Qcltb (x y : Qc) : bool :=
  match x ?= y with Lt => true | _ => false end.
Definition Qcleb (x y : Qc) : bool :=
  match x ?= y with Gt => false | _ => true end.

(** Python's two-argument [max(a, b)] keeps [a] unless [b > a];
    [min(a, b)] keeps [a] unless [b < a]. *)
Definition pymax (a b : Qc) : Qc := if Qcltb a b then b else a.
Definition pymin (a b : Qc) : Qc := if Qcltb b a then b else a.

(** [sum(xs)]: left-to-right accumulation starting from 0. *)
Definition pysum (xs : list Qc) : Qc := fold_left Qcplus xs 0.

(** [max(xs)] over a non-empty iterable; [None] is Python's ValueError. *)
Definition pymax_list (xs : list Qc) : option Qc :=
  match xs with
  | [] => None
  | x :: rest => Some (fold_left pymax rest x)
  end.

(** [len(xs)] as a float operand. *)
Definition qlen {A} (xs : list A) : Qc := qz (Z.of_nat (length xs)).

(* ================================================================== *)
(** ** Insertion-ordered dictionaries *)

Module Dict.
Section Dict.
Context {V : Type}.

Definition t := list (string * V).

Definition keys (d : t) : list string := map fst d.
Definition values (d : t) : list V := map snd d.

(** [d.get(k)] *)
Fixpoint get (d : t) (k : string) : option V :=
match d with
| [] => None
| (k', v) :: rest => if String.eqb k k' then Some v else get rest k
end.

(** [d.get(k, dflt)] *)
Definition get_or (d : t) (k : string) (dflt : V) : V :=
match get d k with Some v => v | None => dflt end.

(** [d[k] = v]: overwrite in place, or append a new key at the end. *)
Fixpoint set (d : t) (k : string) (v : V) : t :=
match d with
| [] => [(k, v)]
| (k', v') :: rest =>
    if String.eqb k k' then (k', v) :: rest else (k', v') :: set rest k v
end.

(** [{k: f(k) for k in ks}] *)
Definition comprehension (ks : list string) (f : string -> V) : t :=
fold_left (fun d k => set d k (f k)) ks [].

(** [{k: f(v) for k, v in d.items()}] *)
Definition map_values {W} (f : V -> W) (d : t) : list (string * W) :=
map (fun kv => (fst kv, f (snd kv))) d.

(** A [defaultdict] read [d[k]]: a missing key is first inserted with
  the factory value [dflt]. *)
Definition touch (dflt : V) (d : t) (k : string) : t :=
match get d k with Some _ => d | None => d ++ [(k, dflt)] end.

(** Python dictionaries never hold a key twice. *)
Definition wf (d : t) : Prop := List.NoDup (keys d).
End Dict.
Arguments t : clear implicits.
End Dict.

(** [max(d, key=d.get)]: the first key, in insertion order, whose value is
    maximal ([max] replaces its candidate only on a strictly greater
    key-value). *)
Fixpoint argmax_from (best : string) (bv : Qc) (d : Dict.t Qc) : string :=
  match d with
  | [] => best
  | (k, v) :: rest =>
      if Qcltb bv v then argmax_from k v rest else argmax_from best bv rest
  end.

Definition argmax (d : Dict.t Qc) : option string :=
  match d with
  | [] => None
  | (k, v) :: rest => Some (argmax_from k v rest)
  end.

(* ================================================================== *)
(** ** CFR regret minimizer *)

Module CFRRegretMinimizer.

Record IterationRecord := mkIterationRecord {
  iteration : Z;
  it_strategy_values : Dict.t Qc;
  selected_strategy : string;
  probabilities : Dict.t Qc;
  reward : Qc
}.

Record t := mk {
  regret_sum : Dict.t Qc;               (* defaultdict(float) *)
  strategy_sum : Dict.t Qc;             (* defaultdict(float) *)
  iteration_history : list IterationRecord;
  regret_history : list Qc;
  cumulative_regret : Qc;
  distance_to_optimal_history : list Qc;
  total_iterations : Z;
  strategy_values : Dict.t (list Qc);   (* defaultdict(list) *)
  prev_probs : Dict.t Qc
}.

(** [__init__] *)
Definition init : t :=
  {| regret_sum := []; strategy_sum := []; iteration_history := [];
     regret_history := []; cumulative_regret := 0;
     distance_to_optimal_history := []; total_iterations := 0%Z;
     strategy_values := []; prev_probs := [] |}.

Definition set_regret_sum (L : t) (d : Dict.t Qc) : t :=
  {| regret_sum := d; strategy_sum := strategy_sum L;
     iteration_history := iteration_history L;
     regret_history := regret_history L;
     cumulative_regret := cumulative_regret L;
     distance_to_optimal_history := distance_to_optimal_history L;
     total_iterations := total_iterations L;
     strategy_values := strategy_values L; prev_probs := prev_probs L |}.

(** The comprehension [{s: max(0, self.regret_sum[s]) for s in strategies}]
    reads the defaultdict, so each read may insert a zero entry. *)
Definition positive_regrets_step (acc : Dict.t Qc * Dict.t Qc) (s : string)
  : Dict.t Qc * Dict.t Qc :=
  let rs := Dict.touch 0 (fst acc) s in
  (rs, Dict.set (snd acc) s (pymax 0 (Dict.get_or rs s 0))).

Definition get_strategy_probabilities (L : t) (strategies : list string)
  : t * Dict.t Qc :=
  let '(rs, positive_regrets) :=
    fold_left positive_regrets_step strategies (regret_sum L, []) in
  let total := pysum (Dict.values positive_regrets) in
  (set_regret_sum L rs,
   if Qcltb 0 total
   then Dict.map_values (fun r => r / total) positive_regrets
   else Dict.comprehension strategies (fun _ => 1 / qlen strategies)).

(** One pass of the loop [for strategy, value in strategy_values.items()]. *)
Definition regret_step (node_value : Qc) (L : t) (kv : string * Qc) : t :=
  let '(strategy, value) := kv in
  let instant_regret := value - node_value in
  let rs := Dict.touch 0 (regret_sum L) strategy in
  let sv := Dict.touch [] (strategy_values L) strategy in
  {| regret_sum := Dict.set rs strategy (Dict.get_or rs strategy 0 + instant_regret);
     strategy_sum := strategy_sum L;
     iteration_history := iteration_history L;
     regret_history := regret_history L;
     cumulative_regret := cumulative_regret L;
     distance_to_optimal_history := distance_to_optimal_history L;
     total_iterations := total_iterations L;
     strategy_values := Dict.set sv strategy (Dict.get_or sv strategy [] ++ [value]);
     prev_probs := prev_probs L |}.

Definition node_value_of (probs values : Dict.t Qc) (strategies : list string) : Qc :=
  pysum (map (fun s => Dict.get_or probs s 0 * Dict.get_or values s 0) strategies).

Definition best_value_of (values : Dict.t Qc) : Qc :=
  match pymax_list (Dict.values values) with Some b => b | None => 0 end.

Section WithSqrt.
Variable sqrt : Qc -> Qc.

(** The "distance to Nash equilibrium" diagnostic of [update_regrets]. *)
Definition distance_of (probs prev : Dict.t Qc) (strategies : list string) : Qc :=
  let prob_values := map (fun s => Dict.get_or probs s 0) strategies in
  let mean_prob :=
    match prob_values with [] => 0 | _ => pysum prob_values / qlen prob_values end in
  let variance :=
    match prob_values with
    | [] => 1
    | _ => pysum (map (fun p => (p - mean_prob) ^ 2) prob_values) / qlen prob_values
    end in
  let std_dev := sqrt variance in
  match prev with
  | [] => std_dev
  | _ =>
      let prob_change :=
        sqrt (pysum (map (fun s => (Dict.get_or probs s 0 - Dict.get_or prev s 0) ^ 2)
                         strategies)) in
      std_dev + prob_change * qfrac 5 10
  end.

Definition update_regrets (L : t) (values : Dict.t Qc) (selected : string) : t :=
  match values with
  | [] => L
  | _ =>
      let strategies := Dict.keys values in
      let '(L1, probs) := get_strategy_probabilities L strategies in
      let node_value := node_value_of probs values strategies in
      let L2 := fold_left (regret_step node_value) values L1 in
      let best_value := best_value_of values in
      let instant_regret := best_value - node_value in
      let cum := cumulative_regret L2 + instant_regret in
      let '(L3, probs') := get_strategy_probabilities L2 strategies in
      let distance :=
        match strategies with
        | [] => 1
        | _ => distance_of probs' (prev_probs L3) strategies
        end in
      {| regret_sum := regret_sum L3;
         strategy_sum := strategy_sum L3;
         iteration_history := iteration_history L3;
         regret_history := regret_history L3 ++ [cum];
         cumulative_regret := cum;
         distance_to_optimal_history := distance_to_optimal_history L3 ++ [distance];
         total_iterations := (total_iterations L3 + 1)%Z;
         strategy_values := strategy_values L3;
         prev_probs := match strategies with [] => prev_probs L3 | _ => probs' end |}
  end.
End WithSqrt.

(** [np.random.choice(items, p=probabilities)] with the uniform draw [u]
    of the random source injected: inverse-CDF sampling.  [None] is the
    ValueError numpy raises on an empty population. *)
Fixpoint choice (items : Dict.t Qc) (u : Qc) : option string :=
  match items with
  | [] => None
  | (s, p) :: rest =>
      match rest with
      | [] => Some s
      | _ => if Qcltb u p then Some s else choice rest (u - p)
      end
  end.

Definition select_strategy (L : t) (strategies : list string) (u : Qc)
  : t * option string :=
  let '(L1, probs) := get_strategy_probabilities L strategies in
  (L1, choice probs u).

Definition get_average_strategy (L : t) : Dict.t Qc :=
  let total := pysum (Dict.values (strategy_sum L)) in
  if Qcltb 0 total
  then Dict.map_values (fun v => v / total) (strategy_sum L)
  else [].

Definition strategy_sum_step (d : Dict.t Qc) (sp : string * Qc) : Dict.t Qc :=
  let d' := Dict.touch 0 d (fst sp) in
  Dict.set d' (fst sp) (Dict.get_or d' (fst sp) 0 + snd sp).

Definition record_iteration (L : t) (values : Dict.t Qc) (selected : string)
    (probs : Dict.t Qc) (rew : Qc) : t :=
  {| regret_sum := regret_sum L;
     strategy_sum := fold_left strategy_sum_step probs (strategy_sum L);
     iteration_history :=
       iteration_history L ++
         [ {| iteration := total_iterations L; it_strategy_values := values;
              selected_strategy := selected; probabilities := probs;
              reward := rew |} ];
     regret_history := regret_history L;
     cumulative_regret := cumulative_regret L;
     distance_to_optimal_history := distance_to_optimal_history L;
     total_iterations := total_iterations L;
     strategy_values := strategy_values L;
     prev_probs := prev_probs L |}.

Record Statistics := mkStatistics {
  st_total_iterations : Z;
  st_cumulative_regret : Qc;
  average_strategy : Dict.t Qc;
  regret_by_strategy : Dict.t Qc;
  strategy_frequency : Dict.t Qc;
  nash_distance : Qc
}.

(** [get_statistics] only reads the learner. *)
Definition get_statistics (L : t) : Statistics :=
  {| st_total_iterations := total_iterations L;
     st_cumulative_regret := cumulative_regret L;
     average_strategy := get_average_strategy L;
     regret_by_strategy := regret_sum L;
     strategy_frequency := strategy_sum L;
     nash_distance := List.last (distance_to_optimal_history L) 1 |}.

End CFRRegretMinimizer.

(* ================================================================== *)
(** ** Game constants *)

(** The three patient types.  Every constructor call of the source
    ([create_scenario], [spawn_patient]) first indexes [INITIAL_HEALTH] and
    [PATHWAYS] with the type, so no patient of another type exists. *)
Inductive PType := Critical | Moderate | Minor.

(** The agent names ['nurse'] and ['doctor']. *)
Inductive Agent := nurse | doctor.

#[global] Instance PType_eq_dec : EqDecision PType.
Proof. solve_decision. Defined.
#[global] Instance Agent_eq_dec : EqDecision Agent.
Proof. solve_decision. Defined.

Definition DOCTOR_HEALING_POWER : Qc := qz 60.
Definition NURSE_HEALING_POWER : Qc := qz 40.
Definition COOPERATIVE_BONUS : Qc := qfrac 12 10.

Definition ROOM_EFFECTIVENESS : Dict.t Qc :=
  [("TRIAGE", qfrac 1 10); ("TB", qfrac 30 100); ("LAB", qfrac 15 100);
   ("ICU", qfrac 50 100)].

Definition ROOM_TREATMENT_TIME : Dict.t Qc :=
  [("TRIAGE", qz 5); ("TB", qz 15); ("LAB", qz 20); ("ICU", qz 45)].

Definition WAITING_PENALTY (ty : PType) : Qc :=
  match ty with Critical => - qz 3 | Moderate => - qz 2 | Minor => - qz 1 end.

Definition COMPLETION_REWARD (ty : PType) : Qc :=
  match ty with Critical => qz 100 | Moderate => qz 60 | Minor => qz 30 end.

Definition INITIAL_HEALTH (ty : PType) : Qc :=
  match ty with Critical => qz 30 | Moderate => qz 50 | Minor => qz 70 end.

Definition PATHWAYS (ty : PType) : list string :=
  match ty with
  | Critical => ["TRIAGE"; "TB"; "ICU"]
  | Moderate => ["TRIAGE"; "TB"; "LAB"; "TB"]
  | Minor => ["TRIAGE"; "TB"]
  end.

(** The module-level table [ROOM_POSITIONS] as the source initialises it;
    [set_rooms] overwrites entries at run time, so the simulator below takes
    the current table as an argument. *)
Definition ROOM_POSITIONS : Dict.t (Qc * Qc) :=
  [("ENT", (qz 0, qz 0)); ("TRIAGE", (qz 2, qz 0)); ("TB", (qz 5, qz 3));
   ("LAB", (qz 8, - qz 2)); ("ICU", (qz 10, qz 5))].

Definition room_distance (sqrt : Qc -> Qc) (positions : Dict.t (Qc * Qc))
    (r1 r2 : string) : Qc :=
  let p1 := Dict.get_or positions r1 (qz 0, qz 0) in
  let p2 := Dict.get_or positions r2 (qz 0, qz 0) in
  sqrt ((fst p1 - fst p2) ^ 2 + (snd p1 - snd p2) ^ 2).

(* ================================================================== *)
(** ** Exceptions and Python list indexing *)

Inductive exn :=
| IndexError
| ValueError
| KeyError
| InvalidRef.  (* a reference outside the store: no Python counterpart *)

(** [xs[i]] with Python's negative indices; [None] is IndexError. *)
Definition py_index {A} (xs : list A) (i : Z) : option A :=
  if (0 <=? i)%Z then xs !! Z.to_nat i
  else if (0 <=? i + Z.of_nat (length xs))%Z
       then xs !! Z.to_nat (i + Z.of_nat (length xs))
       else None.

(** [xs.remove(x)] under an equality test: drop the first equal element;
    [None] is ValueError. *)
Fixpoint list_remove {A} (eqb : A -> bool) (xs : list A) : option (list A) :=
  match xs with
  | [] => None
  | y :: rest =>
      if eqb y then Some rest
      else match list_remove eqb rest with
           | Some rest' => Some (y :: rest')
           | None => None
           end
  end.

(* ================================================================== *)
(** ** Data classes *)

Module Patient.

Record t := mk {
  id : Z;
  ptype : PType;
  health : Qc;
  pathway : list string;
  current_step : Z;
  arrival_time : Qc;
  waiting_time : Qc;
  being_treated_by : list Agent;
  deadline : Qc;
  doctor_required : bool
}.

#[global] Instance eq_dec : EqDecision t.
Proof. solve_decision. Defined.

(** The dataclass constructor followed by [__post_init__]. *)
Definition new (id : Z) (ptype : PType) (health : Qc) (pathway : list string)
    (current_step : Z) (arrival_time waiting_time : Qc)
    (being_treated_by : list Agent) (deadline : Qc) (doctor_required : bool) : t :=
  {| id := id; ptype := ptype; health := health; pathway := pathway;
     current_step := current_step; arrival_time := arrival_time;
     waiting_time := waiting_time; being_treated_by := being_treated_by;
     deadline :=
       if bool_decide (deadline = 0)
       then match ptype with
            | Critical => qz 25 | Moderate => qz 45 | Minor => qz 30
            end
       else deadline;
     doctor_required :=
       if doctor_required then true else bool_decide (ptype = Critical) |}.

Definition is_complete (p : t) : bool :=
  (Z.of_nat (length (pathway p)) <=? current_step p)%Z.

(** [next_room]: [Some None] is Python's [None]; the outer [None] is the
    IndexError of the subscript. *)
Definition next_room (p : t) : option (option string) :=
  if is_complete p then Some None
  else match py_index (pathway p) (current_step p) with
       | Some r => Some (Some r)
       | None => None
       end.

Definition urgency (p : t) : Qc :=
  let type_weight :=
    match ptype p with Critical => qz 3 | Moderate => qz 2 | Minor => qz 1 end in
  let health_urgency := (qz 100 - health p) / qz 100 in
  type_weight * health_urgency.

(** [clone]: a fresh object built by the constructor from copies of all
    the fields. *)
Definition clone (p : t) : t :=
  new (id p) (ptype p) (health p) (pathway p) (current_step p)
      (arrival_time p) (waiting_time p) (being_treated_by p)
      (deadline p) (doctor_required p).

Definition set_health (p : t) (h : Qc) : t :=
  {| id := id p; ptype := ptype p; health := h; pathway := pathway p;
     current_step := current_step p; arrival_time := arrival_time p;
     waiting_time := waiting_time p; being_treated_by := being_treated_by p;
     deadline := deadline p; doctor_required := doctor_required p |}.

Definition set_waiting_time (p : t) (w : Qc) : t :=
  {| id := id p; ptype := ptype p; health := health p; pathway := pathway p;
     current_step := current_step p; arrival_time := arrival_time p;
     waiting_time := w; being_treated_by := being_treated_by p;
     deadline := deadline p; doctor_required := doctor_required p |}.

Definition set_current_step (p : t) (n : Z) : t :=
  {| id := id p; ptype := ptype p; health := health p; pathway := pathway p;
     current_step := n; arrival_time := arrival_time p;
     waiting_time := waiting_time p; being_treated_by := being_treated_by p;
     deadline := deadline p; doctor_required := doctor_required p |}.

Definition set_being_treated_by (p : t) (l : list Agent) : t :=
  {| id := id p; ptype := ptype p; health := health p; pathway := pathway p;
     current_step := current_step p; arrival_time := arrival_time p;
     waiting_time := waiting_time p; being_treated_by := l;
     deadline := deadline p; doctor_required := doctor_required p |}.

End Patient.

(** A reference to an object of the store. *)
Abbreviation ref := nat.

Module GameState.

Record t := mk {
  patients : list ref;           (* List[Patient]: references *)
  nurse_pos : string;
  doctor_pos : string;
  nurse_busy_until : Qc;
  doctor_busy_until : Qc;
  current_time : Qc;
  total_reward : Qc;
  total_penalty : Qc;
  completed_patients : Z
}.

(** [GameState()] with the dataclass defaults. *)
Definition default : t :=
  {| patients := []; nurse_pos := "ENT"; doctor_pos := "ENT";
     nurse_busy_until := 0; doctor_busy_until := 0; current_time := 0;
     total_reward := 0; total_penalty := 0; completed_patients := 0%Z |}.

Definition set_patients (s : t) (l : list ref) : t :=
  {| patients := l; nurse_pos := nurse_pos s; doctor_pos := doctor_pos s;
     nurse_busy_until := nurse_busy_until s;
     doctor_busy_until := doctor_busy_until s;
     current_time := current_time s; total_reward := total_reward s;
     total_penalty := total_penalty s;
     completed_patients := completed_patients s |}.

Definition set_total_penalty (s : t) (x : Qc) : t :=
  {| patients := patients s; nurse_pos := nurse_pos s; doctor_pos := doctor_pos s;
     nurse_busy_until := nurse_busy_until s;
     doctor_busy_until := doctor_busy_until s;
     current_time := current_time s; total_reward := total_reward s;
     total_penalty := x;
     completed_patients := completed_patients s |}.

Definition set_total_reward (s : t) (x : Qc) : t :=
  {| patients := patients s; nurse_pos := nurse_pos s; doctor_pos := doctor_pos s;
     nurse_busy_until := nurse_busy_until s;
     doctor_busy_until := doctor_busy_until s;
     current_time := current_time s; total_reward := x;
     total_penalty := total_penalty s;
     completed_patients := completed_patients s |}.

Definition set_completed_patients (s : t) (n : Z) : t :=
  {| patients := patients s; nurse_pos := nurse_pos s; doctor_pos := doctor_pos s;
     nurse_busy_until := nurse_busy_until s;
     doctor_busy_until := doctor_busy_until s;
     current_time := current_time s; total_reward := total_reward s;
     total_penalty := total_penalty s;
     completed_patients := n |}.

Definition set_current_time (s : t) (x : Qc) : t :=
  {| patients := patients s; nurse_pos := nurse_pos s; doctor_pos := doctor_pos s;
     nurse_busy_until := nurse_busy_until s;
     doctor_busy_until := doctor_busy_until s;
     current_time := x; total_reward := total_reward s;
     total_penalty := total_penalty s;
     completed_patients := completed_patients s |}.

(** [state.<agent>_busy_until = b; state.<agent>_pos = room] *)
Definition set_busy_pos (s : t) (a : Agent) (b : Qc) (room : string) : t :=
  match a with
  | nurse =>
      {| patients := patients s; nurse_pos := room; doctor_pos := doctor_pos s;
         nurse_busy_until := b; doctor_busy_until := doctor_busy_until s;
         current_time := current_time s; total_reward := total_reward s;
         total_penalty := total_penalty s;
         completed_patients := completed_patients s |}
  | doctor =>
      {| patients := patients s; nurse_pos := nurse_pos s; doctor_pos := room;
         nurse_busy_until := nurse_busy_until s; doctor_busy_until := b;
         current_time := current_time s; total_reward := total_reward s;
         total_penalty := total_penalty s;
         completed_patients := completed_patients s |}
  end.

(** [state.<agent>_busy_until = b] *)
Definition set_busy (s : t) (a : Agent) (b : Qc) : t :=
  match a with
  | nurse => set_busy_pos s nurse b (nurse_pos s)
  | doctor => set_busy_pos s doctor b (doctor_pos s)
  end.

Definition pos_of (s : t) (a : Agent) : string :=
  match a with nurse => nurse_pos s | doctor => doctor_pos s end.

Definition busy_until_of (s : t) (a : Agent) : Qc :=
  match a with nurse => nurse_busy_until s | doctor => doctor_busy_until s end.

End GameState.

(* ================================================================== *)
(** ** The object store and its monad *)

Record Store := mkStore {
  patient_objs : list Patient.t;
  state_objs : list GameState.t
}.

Definition empty_store : Store := {| patient_objs := []; state_objs := [] |}.

Inductive Outcome (A : Type) :=
| Ok (a : A) (st : Store)
| Raise (e : exn) (st : Store).
Arguments Ok {A} a st.
Arguments Raise {A} e st.

Definition M (A : Type) := Store -> Outcome A.

Definition ret {A} (a : A) : M A := fun st => Ok a st.
Definition raise {A} (e : exn) : M A := fun st => Raise e st.
Definition bind {A B} (m : M A) (f : A -> M B) : M B :=
  fun st => match m st with
            | Ok a st' => f a st'
            | Raise e st' => Raise e st'
            end.

Notation "x <- m ;; k" := (bind m (fun x => k))
  (at level 100, m at next level, right associativity).
Notation "m ;;; k" := (bind m (fun _ => k))
  (at level 100, right associativity).

Definition store_of {A} (o : Outcome A) : Store :=
  match o with Ok _ st => st | Raise _ st => st end.

Definition get_patient (r : ref) : M Patient.t :=
  fun st => match patient_objs st !! r with
            | Some p => Ok p st
            | None => Raise InvalidRef st
            end.

Definition put_patient (r : ref) (p : Patient.t) : M unit :=
  fun st => match patient_objs st !! r with
            | Some _ =>
                Ok tt {| patient_objs := <[r := p]> (patient_objs st);
                         state_objs := state_objs st |}
            | None => Raise InvalidRef st
            end.

Definition new_patient (p : Patient.t) : M ref :=
  fun st => Ok (length (patient_objs st))
               {| patient_objs := patient_objs st ++ [p];
                  state_objs := state_objs st |}.

Definition get_state (r : ref) : M GameState.t :=
  fun st => match state_objs st !! r with
            | Some s => Ok s st
            | None => Raise InvalidRef st
            end.

Definition put_state (r : ref) (s : GameState.t) : M unit :=
  fun st => match state_objs st !! r with
            | Some _ =>
                Ok tt {| patient_objs := patient_objs st;
                         state_objs := <[r := s]> (state_objs st) |}
            | None => Raise InvalidRef st
            end.

Definition new_state (s : GameState.t) : M ref :=
  fun st => Ok (length (state_objs st))
               {| patient_objs := patient_objs st;
                  state_objs := state_objs st ++ [s] |}.

(** [obj.field = f(obj.field)] *)
Definition modify_patient (r : ref) (f : Patient.t -> Patient.t) : M unit :=
  p <- get_patient r ;; put_patient r (f p).
Definition modify_state (r : ref) (f : GameState.t -> GameState.t) : M unit :=
  s <- get_state r ;; put_state r (f s).

(** A [for] loop threading an accumulator. *)
Fixpoint foldM {A B} (f : B -> A -> M B) (xs : list A) (b : B) : M B :=
  match xs with
  | [] => ret b
  | x :: rest => b' <- f b x ;; foldM f rest b'
  end.

(** A list comprehension whose element expression reads the store. *)
Fixpoint mapM {A B} (f : A -> M B) (xs : list A) : M (list B) :=
  match xs with
  | [] => ret []
  | x :: rest => y <- f x ;; ys <- mapM f rest ;; ret (y :: ys)
  end.

(** [[x for x in xs if c(x)]] with a condition that reads the store. *)
Fixpoint filterM {A} (c : A -> M bool) (xs : list A) : M (list A) :=
  match xs with
  | [] => ret []
  | x :: rest =>
      b <- c x ;; ys <- filterM c rest ;; ret (if b : bool then x :: ys else ys)
  end.

(** [GameState.clone]: a new state object over new patient objects. *)
Definition clone_state (state : ref) : M ref :=
  s <- get_state state ;;
  ps <- mapM (fun r => p <- get_patient r ;; new_patient (Patient.clone p))
             (GameState.patients s) ;;
  new_state (GameState.set_patients s ps).

(* ================================================================== *)
(** ** Actions and metrics *)

(** The action tokens of [AGENT_ACTIONS]: [TREAT_PATIENT k] stands for the
    string ['TREAT_PATIENT_k'], whose number the simulator recovers with
    [int(action.split('_')[-1])]. *)
Inductive Action :=
| TREAT_PATIENT (k : Z)
| WAIT.

Module Metrics.
Record t := mk {
  total_healing : Qc;
  total_penalty : Qc;
  patients_completed : Z;
  cooperation_events : Z;
  idle_time : Qc
}.

Definition zero : t :=
  {| total_healing := 0; total_penalty := 0; patients_completed := 0%Z;
     cooperation_events := 0%Z; idle_time := 0 |}.

Definition add_healing (m : t) (x : Qc) : t :=
  {| total_healing := total_healing m + x; total_penalty := total_penalty m;
     patients_completed := patients_completed m;
     cooperation_events := cooperation_events m; idle_time := idle_time m |}.
Definition add_penalty (m : t) (x : Qc) : t :=
  {| total_healing := total_healing m; total_penalty := total_penalty m + x;
     patients_completed := patients_completed m;
     cooperation_events := cooperation_events m; idle_time := idle_time m |}.
Definition add_completed (m : t) : t :=
  {| total_healing := total_healing m; total_penalty := total_penalty m;
     patients_completed := (patients_completed m + 1)%Z;
     cooperation_events := cooperation_events m; idle_time := idle_time m |}.
Definition add_cooperation (m : t) : t :=
  {| total_healing := total_healing m; total_penalty := total_penalty m;
     patients_completed := patients_completed m;
     cooperation_events := (cooperation_events m + 1)%Z; idle_time := idle_time m |}.
Definition add_idle (m : t) (x : Qc) : t :=
  {| total_healing := total_healing m; total_penalty := total_penalty m;
     patients_completed := patients_completed m;
     cooperation_events := cooperation_events m; idle_time := idle_time m + x |}.
End Metrics.

(** [abs(x)] *)
Definition Qcabs (x : Qc) : Qc := if Qcltb x 0 then - x else x.

(* ================================================================== *)
(** ** Game simulator *)

Module GameSimulator.

Definition nurse_speed : Qc := qz 4.
Definition doctor_speed : Qc := qfrac 25 10.

Definition speed_of (a : Agent) : Qc :=
  match a with nurse => nurse_speed | doctor => doctor_speed end.

(** [create_scenario] *)
Definition create_scenario (patient_types : list PType) : M ref :=
  state <- new_state GameState.default ;;
  foldM (fun i ptype =>
           r <- new_patient
                  (Patient.new (i + 1) ptype (INITIAL_HEALTH ptype) (PATHWAYS ptype)
                               0 0 0 [] 0 false) ;;
           modify_state state
             (fun s => GameState.set_patients s (GameState.patients s ++ [r])) ;;;
           ret (i + 1)%Z)
        patient_types 0%Z ;;;
  ret state.

(** One pass of the loop of [apply_waiting_penalties]. *)
Definition waiting_step (time_delta : Qc) (penalty : Qc) (r : ref) : M Qc :=
  patient <- get_patient r ;;
  match Patient.being_treated_by patient with
  | [] =>
      let rate := WAITING_PENALTY (Patient.ptype patient) in
      modify_patient r
        (fun p => Patient.set_waiting_time p (Patient.waiting_time p + time_delta)) ;;;
      modify_patient r
        (fun p => Patient.set_health p (pymax 0 (Patient.health p + rate * time_delta))) ;;;
      ret (penalty + rate * time_delta)
  | _ => ret penalty
  end.

Definition apply_waiting_penalties (state : ref) (time_delta : Qc) : M Qc :=
  s <- get_state state ;;
  penalty <- foldM (waiting_step time_delta) (GameState.patients s) 0 ;;
  modify_state state
    (fun s => GameState.set_total_penalty s (GameState.total_penalty s + penalty)) ;;;
  ret penalty.

(** [patient.next_room] on a referenced patient. *)
Definition read_next_room (r : ref) : M (option string) :=
  p <- get_patient r ;;
  match Patient.next_room p with
  | Some room => ret room
  | None => raise IndexError
  end.

Definition treat_patient (state patient : ref) (agent : Agent) (duration : Qc)
    (cooperative : bool) : M Qc :=
  room <- read_next_room patient ;;
  match room with
  | None => ret 0
  | Some room =>
      let base_power :=
        if bool_decide (agent = doctor)
        then DOCTOR_HEALING_POWER else NURSE_HEALING_POWER in
      let effectiveness := Dict.get_or ROOM_EFFECTIVENESS room (qfrac 2 10) in
      let base_power :=
        if cooperative then base_power * COOPERATIVE_BONUS else base_power in
      let healing :=
        base_power * effectiveness
        * (duration / Dict.get_or ROOM_TREATMENT_TIME room (qz 10)) in
      modify_patient patient
        (fun p => Patient.set_health p (pymin (qz 100) (Patient.health p + healing))) ;;;
      modify_patient patient
        (fun p => Patient.set_current_step p (Patient.current_step p + 1)%Z) ;;;
      p <- get_patient patient ;;
      reward <-
        (if Patient.is_complete p
         then modify_state state
                (fun s => GameState.set_completed_patients s
                            (GameState.completed_patients s + 1)%Z) ;;;
              ret (healing + COMPLETION_REWARD (Patient.ptype p))
         else ret healing) ;;
      modify_state state
        (fun s => GameState.set_total_reward s (GameState.total_reward s + reward)) ;;;
      ret reward
  end.

(** [being_treated_by.remove(agent)] *)
Definition remove_agent (agent : Agent) (r : ref) : M unit :=
  p <- get_patient r ;;
  match list_remove (fun a => bool_decide (a = agent)) (Patient.being_treated_by p) with
  | Some l => put_patient r (Patient.set_being_treated_by p l)
  | None => raise ValueError
  end.

Section WithRooms.
Variable sqrt : Qc -> Qc.
Variable positions : Dict.t (Qc * Qc).

Definition _execute_agent_action (state : ref) (agent : Agent) (action : Action)
    (metrics : Metrics.t) : M (Qc * Metrics.t) :=
  match action with
  | TREAT_PATIENT k =>
      let patient_idx := (k - 1)%Z in
      s <- get_state state ;;
      if (patient_idx <? Z.of_nat (length (GameState.patients s)))%Z
      then
        match py_index (GameState.patients s) patient_idx with
        | None => raise IndexError
        | Some patient =>
            room <- read_next_room patient ;;
            match room with
            | None => ret (0, metrics)
            | Some "" => ret (0, metrics)
            | Some room =>
                let current_pos := GameState.pos_of s agent in
                let travel_time :=
                  room_distance sqrt positions current_pos room / speed_of agent in
                let treatment_time := Dict.get_or ROOM_TREATMENT_TIME room (qz 10) in
                p <- get_patient patient ;;
                let cooperative :=
                  (0 <? Z.of_nat (length (Patient.being_treated_by p)))%Z in
                let metrics :=
                  if cooperative then Metrics.add_cooperation metrics else metrics in
                let busy_until :=
                  GameState.current_time s + travel_time + treatment_time in
                modify_state state
                  (fun s => GameState.set_busy_pos s agent busy_until room) ;;;
                modify_patient patient
                  (fun p => Patient.set_being_treated_by p
                              (Patient.being_treated_by p ++ [agent])) ;;;
                reward <- treat_patient state patient agent treatment_time cooperative ;;
                remove_agent agent patient ;;;
                ret (reward, metrics)
            end
        end
      else ret (0, metrics)
  | WAIT =>
      s <- get_state state ;;
      put_state state (GameState.set_busy s agent (GameState.current_time s + 1)) ;;;
      ret (0, Metrics.add_idle metrics 1)
  end.

(** [state.patients.remove(p)]: the first element that is [p] or equals
    it field by field (the dataclass [__eq__]). *)
Definition remove_from_roster (state : ref) (p : ref) : M unit :=
  s <- get_state state ;;
  target <- get_patient p ;;
  objs <- mapM (fun r => x <- get_patient r ;; ret (r, x)) (GameState.patients s) ;;
  match list_remove
          (fun rx => bool_decide (fst rx = p) || bool_decide (snd rx = target)) objs with
  | Some objs' => put_state state (GameState.set_patients s (map fst objs'))
  | None => raise ValueError
  end.

(** The agent's turn inside one tick. *)
Definition agent_turn (state : ref) (agent : Agent) (actions : list Action)
    (st : nat * Metrics.t) : M (nat * Metrics.t) :=
  let '(idx, metrics) := st in
  s <- get_state state ;;
  if Qcleb (GameState.busy_until_of s agent) (GameState.current_time s)
     && bool_decide (idx < length actions)%nat
  then
    match actions !! idx with
    | None => raise IndexError
    | Some action =>
        rm <- _execute_agent_action state agent action metrics ;;
        ret (S idx, Metrics.add_healing (snd rm) (fst rm))
    end
  else ret (idx, metrics).

Record LoopVars := mkLoopVars {
  metrics : Metrics.t;
  nurse_action_idx : nat;
  doctor_action_idx : nat
}.

(** The body of the [while] loop of [simulate_action_sequence]. *)
Definition tick (state : ref) (nurse_actions doctor_actions : list Action)
    (v : LoopVars) : M LoopVars :=
  let time_step := 1 in
  penalty <- apply_waiting_penalties state time_step ;;
  let metrics := Metrics.add_penalty (metrics v) (Qcabs penalty) in
  s <- get_state state ;;
  dead <- filterM (fun r => p <- get_patient r ;; ret (Qcleb (Patient.health p) 0))
                  (GameState.patients s) ;;
  metrics <-
    foldM (fun metrics p =>
             modify_state state
               (fun s => GameState.set_total_penalty s
                           (GameState.total_penalty s - qz 50)) ;;;
             remove_from_roster state p ;;;
             ret (Metrics.add_penalty metrics (qz 50)))
          dead metrics ;;
  nt <- agent_turn state nurse nurse_actions (nurse_action_idx v, metrics) ;;
  dt <- agent_turn state doctor doctor_actions (doctor_action_idx v, snd nt) ;;
  let nurse_idx := fst nt in
  let doctor_idx := fst dt in
  let metrics := snd dt in
  s <- get_state state ;;
  completed <- filterM (fun r => p <- get_patient r ;; ret (Patient.is_complete p))
                       (GameState.patients s) ;;
  metrics <-
    foldM (fun metrics p =>
             remove_from_roster state p ;;;
             ret (Metrics.add_completed metrics))
          completed metrics ;;
  modify_state state
    (fun s => GameState.set_current_time s (GameState.current_time s + time_step)) ;;;
  ret {| metrics := metrics; nurse_action_idx := nurse_idx;
         doctor_action_idx := doctor_idx |}.

(** The loop guard [state.current_time < simulation_time and state.patients]. *)
Definition loop_guard (s : GameState.t) (simulation_time : Qc) : bool :=
  Qcltb (GameState.current_time s) simulation_time
  && negb (bool_decide (GameState.patients s = [])).

Fixpoint simulate_loop (fuel : nat) (state : ref)
    (nurse_actions doctor_actions : list Action) (simulation_time : Qc)
    (v : LoopVars) : M LoopVars :=
  s <- get_state state ;;
  if loop_guard s simulation_time
  then match fuel with
       | O => ret v
       | S fuel' =>
           v' <- tick state nurse_actions doctor_actions v ;;
           simulate_loop fuel' state nurse_actions doctor_actions simulation_time v'
       end
  else ret v.

(** Every iteration advances the clock by one, so the loop runs at most
    [ceil(simulation_time - current_time)] times. *)
Definition ticks_bound (s : GameState.t) (simulation_time : Qc) : nat :=
  Z.to_nat (Qceiling (simulation_time - GameState.current_time s)).

Definition simulate_action_sequence (initial_state : ref)
    (nurse_actions doctor_actions : list Action) (simulation_time : Qc)
  : M (ref * Metrics.t) :=
  state <- clone_state initial_state ;;
  s <- get_state state ;;
  v <- simulate_loop (ticks_bound s simulation_time) state
         nurse_actions doctor_actions simulation_time
         {| metrics := Metrics.zero; nurse_action_idx := 0%nat;
            doctor_action_idx := 0%nat |} ;;
  ret (state, metrics v).

End WithRooms.
End GameSimulator.

(* ================================================================== *)
(** ** Strategy generator *)

(** [sorted(xs, key=key)]: Python's sort is stable, so the result is the
    one a stable insertion sort computes. *)
Fixpoint insert_by {A} (key : A -> Qc) (x : A) (l : list A) : list A :=
  match l with
  | [] => [x]
  | y :: rest => if Qcltb (key y) (key x) then y :: insert_by key x rest
                 else x :: y :: rest
  end.

Definition sorted_by {A} (key : A -> Qc) (l : list A) : list A :=
  fold_right (insert_by key) [] l.

(** The objects [state.patients] refers to, in roster order. *)
Definition read_roster (state : ref) : M (list Patient.t) :=
  s <- get_state state ;; mapM get_patient (GameState.patients s).

Module StrategyGenerator.

Record Info := mkInfo {
  description : string;
  priority : string;
  cooperation : bool
}.

Definition STRATEGIES : Dict.t Info :=
  [("PARALLEL_CRITICAL",
     {| description := "Both agents work on critical patient first, then split";
        priority := "critical_first"; cooperation := true |});
   ("SEQUENTIAL_SEVERITY",
     {| description := "Handle patients in order of severity, one at a time";
        priority := "severity"; cooperation := false |});
   ("DOCTOR_CRITICAL_NURSE_OTHERS",
     {| description := "Doctor handles critical, nurse handles others";
        priority := "split_by_type"; cooperation := false |});
   ("COOPERATIVE_ALL",
     {| description := "Both agents work together on each patient";
        priority := "fifo"; cooperation := true |});
   ("NEAREST_FIRST",
     {| description := "Each agent takes nearest patient";
        priority := "distance"; cooperation := false |});
   ("NURSE_TRIAGE_DOCTOR_TREAT",
     {| description := "Nurse does triage, doctor does treatment";
        priority := "role_based"; cooperation := false |})].

(** The two action lists under construction. *)
Definition Seqs := (list Action * list Action)%type.

Definition append_nurse (a : Action) (acc : Seqs) : Seqs := (fst acc ++ [a], snd acc).
Definition append_doctor (a : Action) (acc : Seqs) : Seqs := (fst acc, snd acc ++ [a]).

(** [for _ in range(n): body] *)
Definition times (n : nat) (body : Seqs -> Seqs) (acc : Seqs) : Seqs :=
  Nat.iter n body acc.

(** The padding of the shorter list with WAIT. *)
Definition pad (acc : Seqs) : Seqs :=
  let max_len := Nat.max (length (fst acc)) (length (snd acc)) in
  (fst acc ++ repeat WAIT (max_len - length (fst acc)),
   snd acc ++ repeat WAIT (max_len - length (snd acc))).

Definition treat (p : Patient.t) : Action := TREAT_PATIENT (Patient.id p).
Definition neg_urgency (p : Patient.t) : Qc := - Patient.urgency p.

Definition critical_first_step (acc : Seqs) (p : Patient.t) : Seqs :=
  if bool_decide (Patient.ptype p = Critical)
  then times (length (Patient.pathway p))
             (fun acc => append_doctor (treat p) (append_nurse (treat p) acc)) acc
  else times (length (Patient.pathway p))
             (fun acc => append_doctor WAIT (append_nurse (treat p) acc)) acc.

Definition both_step (acc : Seqs) (p : Patient.t) : Seqs :=
  times (length (Patient.pathway p))
        (fun acc => append_doctor (treat p) (append_nurse (treat p) acc)) acc.

Definition split_by_type_step (acc : Seqs) (p : Patient.t) : Seqs :=
  if bool_decide (Patient.ptype p = Critical)
  then times (length (Patient.pathway p)) (append_doctor (treat p)) acc
  else times (length (Patient.pathway p)) (append_nurse (treat p)) acc.

(** [for i, p in enumerate(patients)] *)
Definition distance_step (st : nat * Seqs) (p : Patient.t) : nat * Seqs :=
  let '(i, acc) := st in
  (S i,
   if (i mod 2 =? 0)%nat
   then times (length (Patient.pathway p)) (append_nurse (treat p)) acc
   else times (length (Patient.pathway p)) (append_doctor (treat p)) acc).

Definition role_based_step (acc : Seqs) (p : Patient.t) : Seqs :=
  times (length (Patient.pathway p) - 1) (append_doctor (treat p))
        (append_nurse (treat p) acc).

(** [generate_action_sequences] on the patient objects of [state.patients];
    [None] is the KeyError of [STRATEGIES[strategy_name]]. *)
Definition generate_action_sequences (patients : list Patient.t)
    (strategy_name : string) : option Seqs :=
  match Dict.get STRATEGIES strategy_name with
  | None => None
  | Some strategy =>
      let prio := priority strategy in
      Some
        (if String.eqb prio "critical_first" then
           fold_left critical_first_step (sorted_by neg_urgency patients) ([], [])
         else if String.eqb prio "severity" then
           fold_left both_step (sorted_by neg_urgency patients) ([], [])
         else if String.eqb prio "split_by_type" then
           pad (fold_left split_by_type_step patients ([], []))
         else if String.eqb prio "fifo" then
           fold_left both_step patients ([], [])
         else if String.eqb prio "distance" then
           pad (snd (fold_left distance_step patients (0%nat, ([], []))))
         else if String.eqb prio "role_based" then
           pad (fold_left role_based_step patients ([], []))
         else ([], []))
  end.

End StrategyGenerator.

(* ================================================================== *)
(** ** Unity commands *)

Module Command.
(** The command dictionaries sent to Unity; [from_room] is present only
    in ESCORT commands. *)
Record t := mk {
  action : string;
  target : string;
  patient_id : Z;
  duration : Z;
  from_room : option string
}.

#[global] Instance eq_dec : EqDecision t.
Proof. solve_decision. Defined.

Definition treatment_times : Dict.t Z :=
  [("TRIAGE", 5%Z); ("TB", 15%Z); ("LAB", 20%Z); ("ICU", 45%Z)].

Definition escort (room : string) (pid : Z) (from : string) : t :=
  {| action := "ESCORT"; target := room; patient_id := pid; duration := 0%Z;
     from_room := Some from |}.
Definition treat (room : string) (pid : Z) : t :=
  {| action := "TREAT"; target := room; patient_id := pid;
     duration := Dict.get_or treatment_times room 10%Z; from_room := None |}.
Definition leave (room : string) (pid : Z) : t :=
  {| action := "LEAVE_PATIENT"; target := room; patient_id := pid;
     duration := 0%Z; from_room := None |}.
Definition move_ent : t :=
  {| action := "MOVE"; target := "ENT"; patient_id := (-1)%Z; duration := 0%Z;
     from_room := None |}.
End Command.

Module PlanCompiler.

(** The loop state of [_generate_unity_commands]. *)
Record Acc := mkAcc {
  nurse_commands : list Command.t;
  doctor_commands : list Command.t;
  patient_locations : gmap Z string;
  has_doctor_commands : bool
}.

(** [cmds.append(ESCORT); cmds.append(TREAT)] for the nurse / the doctor. *)
Definition nurse_pair (room : string) (pid : Z) (from : string) (a : Acc) : Acc :=
  {| nurse_commands :=
       nurse_commands a ++ [Command.escort room pid from; Command.treat room pid];
     doctor_commands := doctor_commands a;
     patient_locations := patient_locations a;
     has_doctor_commands := has_doctor_commands a |}.

Definition doctor_pair (room : string) (pid : Z) (from : string) (a : Acc) : Acc :=
  {| nurse_commands := nurse_commands a;
     doctor_commands :=
       doctor_commands a ++ [Command.escort room pid from; Command.treat room pid];
     patient_locations := patient_locations a;
     has_doctor_commands := true |}.

Definition nurse_leave (room : string) (pid : Z) (a : Acc) : Acc :=
  {| nurse_commands := nurse_commands a ++ [Command.leave room pid];
     doctor_commands := doctor_commands a;
     patient_locations := patient_locations a;
     has_doctor_commands := has_doctor_commands a |}.

Definition doctor_leave (room : string) (pid : Z) (a : Acc) : Acc :=
  {| nurse_commands := nurse_commands a;
     doctor_commands := doctor_commands a ++ [Command.leave room pid];
     patient_locations := patient_locations a;
     has_doctor_commands := has_doctor_commands a |}.

Definition set_location (pid : Z) (room : string) (a : Acc) : Acc :=
  {| nurse_commands := nurse_commands a;
     doctor_commands := doctor_commands a;
     patient_locations := <[pid := room]> (patient_locations a);
     has_doctor_commands := has_doctor_commands a |}.

Definition set_has_doctor (b : bool) (a : Acc) : Acc :=
  {| nurse_commands := nurse_commands a;
     doctor_commands := doctor_commands a;
     patient_locations := patient_locations a;
     has_doctor_commands := b |}.

(** The body of [for room in patient.pathway]. *)
Definition room_step (strategy : string) (patient : Patient.t) (a : Acc)
    (room : string) : Acc :=
  let is_critical := bool_decide (Patient.ptype patient = Critical) in
  let pid := Patient.id patient in
  (* every id of [patients] is a key of [patient_locations] *)
  let from := default "WAITING" (patient_locations a !! pid) in
  let a' :=
    if String.eqb strategy "DOCTOR_CRITICAL_NURSE_OTHERS" then
      if is_critical then doctor_pair room pid from a
      else nurse_pair room pid from a
    else if String.eqb strategy "NURSE_TRIAGE_DOCTOR_TREAT" then
      if String.eqb room "TRIAGE"
      then nurse_leave room pid (nurse_pair room pid from a)
      else doctor_pair room pid from a
    else if String.eqb strategy "PARALLEL_CRITICAL" then
      if is_critical
      then doctor_pair room pid from (nurse_pair room pid from a)
      else nurse_pair room pid from a
    else if String.eqb strategy "COOPERATIVE_ALL" then
      doctor_pair room pid from (nurse_pair room pid from a)
    else
      let a1 := nurse_pair room pid from a in
      if is_critical && (String.eqb room "TB" || String.eqb room "ICU")
      then doctor_pair room pid from a1
      else a1 in
  set_location pid room a'.

(** The body of [for patient in patients]. *)
Definition patient_step (strategy : string) (a : Acc) (patient : Patient.t) : Acc :=
  let a1 :=
    fold_left (room_step strategy patient) (Patient.pathway patient)
              (set_has_doctor false a) in
  if bool_decide (List.last (map Some (Patient.pathway patient)) None = Some "ICU")
     && has_doctor_commands a1
  then doctor_leave "ICU" (Patient.id patient) a1
  else a1.

(** The roster in the order the compiler processes it. *)
Definition ordered_roster (info : StrategyGenerator.Info)
    (patients : list Patient.t) : list Patient.t :=
  if String.eqb (StrategyGenerator.priority info) "critical_first"
     || String.eqb (StrategyGenerator.priority info) "severity"
  then sorted_by StrategyGenerator.neg_urgency patients
  else patients.

(** The strategy-specific generation: everything before the comment
    "Final verification". *)
Definition primary_commands (strategy : string) (patients : list Patient.t) : Acc :=
  fold_left (patient_step strategy) patients
    {| nurse_commands := []; doctor_commands := [];
       patient_locations :=
         list_to_map (map (fun p => (Patient.id p, "WAITING")) patients);
       has_doctor_commands := false |}.

(** The set [missing_patients] of the verification pass. *)
Definition all_patient_ids (patients : list Patient.t) : gset Z :=
  list_to_set (map Patient.id patients).

Definition nurse_covered (nurse_cmds : list Command.t) : gset Z :=
  list_to_set
    (map Command.patient_id
       (filter (fun cmd =>
                  (Command.action cmd = "ESCORT" \/ Command.action cmd = "TREAT")
                  /\ (0 < Command.patient_id cmd)%Z)
               nurse_cmds)).

Definition missing_patients (patients : list Patient.t)
    (nurse_cmds : list Command.t) : gset Z :=
  all_patient_ids patients ∖ nurse_covered nurse_cmds.

(** The fallback commands of one missed patient id. *)
Definition fallback_for (patients : list Patient.t) (patient_id : Z) : list Command.t :=
  match List.find (fun p => bool_decide (Patient.id p = patient_id)) patients with
  | Some patient =>
      flat_map (fun room => [Command.escort room patient_id "WAITING";
                             Command.treat room patient_id])
               (Patient.pathway patient)
  | None => []
  end.

(** The repair pass; a Python set iterates in an order the language does
    not fix, here the order of [elements].  The statements about the
    repaired list are about its members, not their order. *)
Definition repair (patients : list Patient.t) (nurse_cmds : list Command.t)
  : list Command.t :=
  nurse_cmds ++ flat_map (fallback_for patients)
                         (elements (missing_patients patients nurse_cmds)).

Definition ensure_nonempty (cmds : list Command.t) : list Command.t :=
  match cmds with [] => [Command.move_ent] | _ => cmds end.

(** [_generate_unity_commands] on the patient objects of [state.patients];
    [None] is the KeyError of [STRATEGIES[strategy]]. *)
Definition _generate_unity_commands (patients : list Patient.t) (strategy : string)
  : option (list Command.t * list Command.t) :=
  match Dict.get StrategyGenerator.STRATEGIES strategy with
  | None => None
  | Some strategy_info =>
      let patients := ordered_roster strategy_info patients in
      let a := primary_commands strategy patients in
      let nurse_cmds := repair patients (nurse_commands a) in
      Some (ensure_nonempty nurse_cmds, ensure_nonempty (doctor_commands a))
  end.

End PlanCompiler.

(* ================================================================== *)
(** ** The analyzer *)

(** [try: body except Exception: return dflt]; the mutations made before
    the exception stay. *)
Definition try_except {A} (body : M A) (dflt : A) : M A :=
  fun st => match body st with
            | Ok a st' => Ok a st'
            | Raise _ st' => Ok dflt st'
            end.

(** The draws one learning round takes from numpy's random source: a
    standard normal deviate per evaluated strategy and the uniform deviate
    of [np.random.choice]. *)
Record RoundDraws := mkRoundDraws {
  normal : string -> Qc;
  uniform : Qc
}.

Module DynamicRegretAnalyzer.

Record t := mk {
  cfr : CFRRegretMinimizer.t;
  patient_counter : Z;
  current_state : option ref;
  room_positions : Dict.t (Qc * Qc)    (* the global ROOM_POSITIONS *)
}.

(** [__init__] *)
Definition init : t :=
  {| cfr := CFRRegretMinimizer.init; patient_counter := 0%Z;
     current_state := None; room_positions := ROOM_POSITIONS |}.

Definition set_cfr (A : t) (L : CFRRegretMinimizer.t) : t :=
  {| cfr := L; patient_counter := patient_counter A;
     current_state := current_state A; room_positions := room_positions A |}.

(** [set_rooms]: [ROOM_POSITIONS.update(room_coords)] *)
Definition set_rooms (A : t) (room_coords : Dict.t (Qc * Qc)) : t :=
  {| cfr := cfr A; patient_counter := patient_counter A;
     current_state := current_state A;
     room_positions :=
       fold_left (fun d kv => Dict.set d (fst kv) (snd kv)) room_coords
                 (room_positions A) |}.

Definition spawn_patient (A : t) (ptype : PType) : M (t * ref) :=
  let counter := (patient_counter A + 1)%Z in
  let deadline :=
    match ptype with Critical => qz 25 | Moderate => qz 45 | Minor => qz 30 end in
  let doctor_required := bool_decide (ptype = Critical) in
  patient <- new_patient
               (Patient.new counter ptype (INITIAL_HEALTH ptype) (PATHWAYS ptype)
                            0 0 0 [] deadline doctor_required) ;;
  state <- match current_state A with
           | None => new_state GameState.default
           | Some state => ret state
           end ;;
  modify_state state
    (fun s => GameState.set_patients s (GameState.patients s ++ [patient])) ;;;
  ret ({| cfr := cfr A; patient_counter := counter;
          current_state := Some state; room_positions := room_positions A |},
       patient).

Definition reset (A : t) : t :=
  {| cfr := cfr A; patient_counter := 0%Z; current_state := None;
     room_positions := room_positions A |}.

(** The loop [for patient in self.current_state.patients] of [step_patient]. *)
Fixpoint step_loop (patient_id : Z) (roster : list ref) : M bool :=
  match roster with
  | [] => ret false
  | r :: rest =>
      patient <- get_patient r ;;
      if bool_decide (Patient.id patient = patient_id)
      then
        (if Patient.is_complete patient then ret tt
         else modify_patient r
                (fun p => Patient.set_current_step p (Patient.current_step p + 1)%Z)) ;;;
        patient <- get_patient r ;;
        ret (Patient.is_complete patient)
      else step_loop patient_id rest
  end.

Definition step_patient (A : t) (patient_id : Z) : M bool :=
  try_except
    (match current_state A with
     | None => ret false
     | Some state =>
         s <- get_state state ;; step_loop patient_id (GameState.patients s)
     end)
    false.

Definition remove_patient (A : t) (patient_id : Z) : M unit :=
  try_except
    (match current_state A with
     | None => ret tt
     | Some state =>
         s <- get_state state ;;
         kept <- filterM (fun r => p <- get_patient r ;;
                                   ret (negb (bool_decide (Patient.id p = patient_id))))
                         (GameState.patients s) ;;
         modify_state state (fun s => GameState.set_patients s kept)
     end)
    tt.

(** The value of one simulation run. *)
Definition run_value (m : Metrics.t) : Qc :=
  Metrics.total_healing m * 1
  + qz (Metrics.patients_completed m) * qz 50
  + qz (Metrics.cooperation_events m) * qz 10
  - Metrics.total_penalty m * 1
  - Metrics.idle_time m * qz 2.

Section WithSqrt.
Variable sqrt : Qc -> Qc.

(** One pass of the inner loop [for _ in range(num_simulations)]. *)
Definition simulation_run (A : t) (state : ref) (strategy_name : string)
    (total_reward : Qc) : M Qc :=
  roster <- read_roster state ;;
  match StrategyGenerator.generate_action_sequences roster strategy_name with
  | None => raise KeyError
  | Some (nurse_actions, doctor_actions) =>
      fm <- GameSimulator.simulate_action_sequence sqrt (room_positions A)
              state nurse_actions doctor_actions (qz 100) ;;
      ret (total_reward + run_value (snd fm))
  end.

(** [np.random.normal(0, scale)] is [0 + scale * z] for a standard
    normal deviate [z]. *)
Definition noise_scale (A : t) : Qc :=
  pymax (qfrac 1 10)
        (qz 10 / qz (CFRRegretMinimizer.total_iterations (cfr A) + 1)).

Definition evaluate_all_strategies (A : t) (state : ref) (num_simulations : nat)
    (normal : string -> Qc) : M (Dict.t Qc) :=
  foldM (fun strategy_values strategy_name =>
           total_reward <-
             foldM (fun total _ => simulation_run A state strategy_name total)
                   (seq 0 num_simulations) 0 ;;
           let avg_value := total_reward / qz (Z.of_nat num_simulations) in
           ret (Dict.set strategy_values strategy_name
                  (avg_value + (0 + noise_scale A * normal strategy_name))))
        (Dict.keys StrategyGenerator.STRATEGIES) [].

(** What one iteration of the learning loop does to the learner once
    the strategies are evaluated; [None] when [np.random.choice] or
    [strategy_values[selected]] raises. *)
Definition learning_round (L : CFRRegretMinimizer.t) (strategy_values : Dict.t Qc)
    (u : Qc) : option CFRRegretMinimizer.t :=
  let strategies := Dict.keys strategy_values in
  let '(L1, probs) := CFRRegretMinimizer.get_strategy_probabilities L strategies in
  let '(L2, selected) := CFRRegretMinimizer.select_strategy L1 strategies u in
  match selected with
  | None => None
  | Some selected =>
      let L3 := CFRRegretMinimizer.update_regrets sqrt L2 strategy_values selected in
      match Dict.get strategy_values selected with
      | None => None
      | Some v =>
          Some (CFRRegretMinimizer.record_iteration L3 strategy_values selected probs v)
      end
  end.

Record PlanResult := mkPlanResult {
  success : bool;
  strategy : string;
  description : string;
  expected_value : option Qc;
  all_strategy_values : option (Dict.t Qc);
  nurse_plan : list Command.t;
  doctor_plan : list Command.t;
  learning_stats : CFRRegretMinimizer.Statistics;
  expected_reward : Qc
}.

Definition NUM_CFR_ITERATIONS : nat := 20.

(** The body of [for iteration in range(NUM_CFR_ITERATIONS)]. *)
Definition plan_round (state : ref) (rng : nat -> RoundDraws)
    (acc : t * Dict.t Qc) (iteration : nat) : M (t * Dict.t Qc) :=
  let A := fst acc in
  strategy_values <-
    evaluate_all_strategies A state 5 (normal (rng iteration)) ;;
  match learning_round (cfr A) strategy_values (uniform (rng iteration)) with
  | None => raise ValueError
  | Some L => ret (set_cfr A L, strategy_values)
  end.

(** The final selection. *)
Definition best_strategy_of (L : CFRRegretMinimizer.t) (strategy_values : Dict.t Qc)
  : option string :=
  match CFRRegretMinimizer.get_average_strategy L with
  | [] => argmax strategy_values
  | avg_strategy => argmax avg_strategy
  end.

Definition idle_result (A : t) : PlanResult :=
  {| success := true; strategy := "IDLE"; description := "No patients";
     expected_value := None; all_strategy_values := None;
     nurse_plan := []; doctor_plan := [];
     learning_stats := CFRRegretMinimizer.get_statistics (cfr A);
     expected_reward := 0 |}.

Definition plan_for (A : t) (state : ref) (rng : nat -> RoundDraws)
  : M (t * PlanResult) :=
  acc <- foldM (plan_round state rng) (seq 0 NUM_CFR_ITERATIONS) (A, []) ;;
  let A := fst acc in
  let strategy_values := snd acc in
  match best_strategy_of (cfr A) strategy_values with
  | None => raise ValueError
  | Some best_strategy =>
      match Dict.get StrategyGenerator.STRATEGIES best_strategy with
      | None => raise KeyError
      | Some info =>
          roster <- read_roster state ;;
          match PlanCompiler._generate_unity_commands roster best_strategy with
          | None => raise KeyError
          | Some (nurse_commands, doctor_commands) =>
              ret (A,
                   {| success := true; strategy := best_strategy;
                      description := StrategyGenerator.description info;
                      expected_value :=
                        Some (Dict.get_or strategy_values best_strategy 0);
                      all_strategy_values := Some strategy_values;
                      nurse_plan := nurse_commands;
                      doctor_plan := doctor_commands;
                      learning_stats := CFRRegretMinimizer.get_statistics (cfr A);
                      expected_reward :=
                        Dict.get_or strategy_values best_strategy 0 |})
          end
      end
  end.

Definition analyze_and_plan (A : t) (rng : nat -> RoundDraws) : M (t * PlanResult) :=
  match current_state A with
  | None => ret (A, idle_result A)
  | Some state =>
      s <- get_state state ;;
      match GameState.patients s with
      | [] => ret (A, idle_result A)
      | _ => plan_for A state rng
      end
  end.

End WithSqrt.

(** One entry of the patient list that [get_queue_status] reports. *)
Record QueueEntry := mkQueueEntry {
  q_id : Z;
  q_type : PType;
  q_health : Qc;
  q_next_room : option string;
  q_urgency : Qc;
  q_current_step : Z;
  q_pathway_length : Z;
  q_steps_remaining : Z
}.

(** The dictionary built for one patient; [None] is the IndexError of
    [p.next_room]. *)
Definition queue_entry (p : Patient.t) : option QueueEntry :=
  match Patient.next_room p with
  | None => None
  | Some room =>
      Some {| q_id := Patient.id p;
              q_type := Patient.ptype p;
              q_health := Patient.health p;
              q_next_room := room;
              q_urgency := Patient.urgency p;
              q_current_step := Patient.current_step p;
              q_pathway_length := Z.of_nat (length (Patient.pathway p));
              q_steps_remaining :=
                (Z.of_nat (length (Patient.pathway p)) - Patient.current_step p)%Z |}
  end.

(** [get_queue_status]: the queue size and the entries, in roster order. *)
Definition get_queue_status (A : t) : M (Z * list QueueEntry) :=
  match current_state A with
  | None => ret (0%Z, [])
  | Some state =>
      patients <- read_roster state ;;
      entries <- mapM (fun p => match queue_entry p with
                                | Some e => ret e
                                | None => raise IndexError
                                end) patients ;;
      ret (Z.of_nat (length patients), entries)
  end.

End DynamicRegretAnalyzer.

(* ================================================================== *)
(** ** The server endpoints (app.py)

    The module-level [analyzer] object is the analyzer record that the
    endpoints take and return; request and response bodies are the values
    read from and written to the JSON documents. *)

Module App.

Inductive Response (A : Type) :=
| Failure (error : string)
| Success (body : A).
Arguments Failure {A} error.
Arguments Success {A} body.

(** [kw in s] on strings. *)
Fixpoint contains (kw s : string) : bool :=
  String.prefix kw s
  || match s with
     | EmptyString => false
     | String _ rest => contains kw rest
     end.

Definition critical_keywords : list string :=
  ["chest pain"; "stroke"; "unconscious"; "severe"; "critical"; "heart";
   "emergency"; "dying"].
Definition moderate_keywords : list string :=
  ["fracture"; "broken"; "infection"; "test"; "blood"; "xray"; "breathing";
   "moderate"].
Definition minor_keywords : list string :=
  ["cut"; "bruise"; "fever"; "cold"; "minor"; "small"; "mild"].

(** [parse_patients_rules], from [desc_lower = description.lower()] on. *)
Definition parse_patients_rules (desc_lower : string) : list (PType * string) :=
  let count :=
    if contains "two" desc_lower || contains "2" desc_lower then 2%nat
    else if contains "three" desc_lower || contains "3" desc_lower then 3%nat
    else if contains "four" desc_lower || contains "4" desc_lower then 4%nat
    else 1%nat in
  let has_critical := existsb (fun kw => contains kw desc_lower) critical_keywords in
  let has_moderate := existsb (fun kw => contains kw desc_lower) moderate_keywords in
  let has_minor := existsb (fun kw => contains kw desc_lower) minor_keywords in
  if Nat.eqb count 1 then
    if has_critical then [(Critical, "critical condition")]
    else if has_moderate then [(Moderate, "moderate condition")]
    else [(Minor, "minor condition")]
  else
    let '(patients, count) :=
      if has_critical
      then ([(Critical, "critical condition")], (count - 1)%nat)
      else ([], count) in
    let '(patients, count) :=
      if has_moderate && Nat.ltb 0 count
      then (patients ++ [(Moderate, "moderate condition")], (count - 1)%nat)
      else (patients, count) in
    let '(patients, count) :=
      if has_minor && Nat.ltb 0 count
      then (patients ++ [(Minor, "minor condition")], (count - 1)%nat)
      else (patients, count) in
    patients ++ repeat (Minor, "unspecified condition") count.

(** The body of a successful [/complete_step] response. *)
Record StepResponse := mkStepResponse {
  patient_complete : bool;
  step_queue_status : Z * list DynamicRegretAnalyzer.QueueEntry
}.

(** [/complete_step]; [patient_id] is [data.get('patient_id')]. *)
Definition complete_step (A : DynamicRegretAnalyzer.t) (patient_id : option Z)
  : M (Response StepResponse) :=
  match patient_id with
  | None => ret (Failure "No patient_id provided")
  | Some patient_id =>
      is_complete <- DynamicRegretAnalyzer.step_patient A patient_id ;;
      (if is_complete : bool
       then DynamicRegretAnalyzer.remove_patient A patient_id
       else ret tt) ;;;
      queue <- DynamicRegretAnalyzer.get_queue_status A ;;
      ret (Success {| patient_complete := is_complete; step_queue_status := queue |})
  end.

(** [/patient_exit] *)
Definition patient_exit (A : DynamicRegretAnalyzer.t) (patient_id : option Z)
  : M (Response (Z * list DynamicRegretAnalyzer.QueueEntry)) :=
  match patient_id with
  | None => ret (Failure "No patient_id provided")
  | Some patient_id =>
      DynamicRegretAnalyzer.remove_patient A patient_id ;;;
      queue <- DynamicRegretAnalyzer.get_queue_status A ;;
      ret (Success queue)
  end.

(** [/reset]: the module-level [analyzer] becomes a new object; the
    module-level room table of the engine stays as it is. *)
Definition reset (A : DynamicRegretAnalyzer.t) : DynamicRegretAnalyzer.t :=
  {| DynamicRegretAnalyzer.cfr := CFRRegretMinimizer.init;
     DynamicRegretAnalyzer.patient_counter := 0%Z;
     DynamicRegretAnalyzer.current_state := None;
     DynamicRegretAnalyzer.room_positions := DynamicRegretAnalyzer.room_positions A |}.


Section WithSqrt.
Variable sqrt : Qc -> Qc.


End WithSqrt.
End App.

(* ================================================================== *)
(** * Specification vocabulary *)

Import CFRRegretMinimizer.

(** The accumulated regret of a strategy: the defaultdict value. *)
Definition regret_of (L : CFRRegretMinimizer.t) (s : string) : Qc :=
  Dict.get_or (regret_sum L) s 0.

Definition positive_part (L : CFRRegretMinimizer.t) (ks : list string) : Dict.t Qc :=
  map (fun s => (s, pymax 0 (regret_of L s))) ks.

Definition uniform_policy (ks : list string) : Dict.t Qc :=
  map (fun s => (s, 1 / qlen ks)) ks.

Definition policy_of (L : CFRRegretMinimizer.t) (ks : list string) : Dict.t Qc :=
  let total := pysum (Dict.values (positive_part L ks)) in
  if Qcltb 0 total
  then Dict.map_values (fun r => r / total) (positive_part L ks)
  else uniform_policy ks.

(** A probability distribution over the keys [ks]. *)
Definition distribution_over (ks : list string) (d : Dict.t Qc) : Prop :=
  Dict.keys d = ks /\ Forall (Qcle 0) (Dict.values d) /\ pysum (Dict.values d) = 1.

(** The fields of the learner other than the two defaultdicts that
    [get_strategy_probabilities] and the regret loop write. *)
Definition learner_frame (L L' : CFRRegretMinimizer.t) : Prop :=
  strategy_sum L' = strategy_sum L /\
  iteration_history L' = iteration_history L /\
  regret_history L' = regret_history L /\
  cumulative_regret L' = cumulative_regret L /\
  distance_to_optimal_history L' = distance_to_optimal_history L /\
  total_iterations L' = total_iterations L /\
  prev_probs L' = prev_probs L.


(** The fixed catalog: the keys of [STRATEGIES], in their order. *)
Definition catalog : list string := Dict.keys StrategyGenerator.STRATEGIES.

(** The learner states the orchestrator can produce: the fresh learner, and
    any state reached by a learning round on an evaluation of the catalog. *)
Inductive reachable_learner (sqrt : Qc -> Qc) : CFRRegretMinimizer.t -> Prop :=
| reachable_init : reachable_learner sqrt CFRRegretMinimizer.init
| reachable_round (L L' : CFRRegretMinimizer.t) (values : Dict.t Qc) (u : Qc) :
    reachable_learner sqrt L ->
    Dict.keys values = catalog ->
    DynamicRegretAnalyzer.learning_round sqrt L values u = Some L' ->
    reachable_learner sqrt L'.

(** What the learner's probability accumulator looks like: empty before
    the first recorded iteration, afterwards one non-negative entry per
    catalog strategy with a positive total. *)
Definition strategy_sum_ok (L : CFRRegretMinimizer.t) : Prop :=
  (strategy_sum L = [] /\ iteration_history L = []) \/
  (Dict.keys (strategy_sum L) = catalog /\
   Forall (Qcle 0) (Dict.values (strategy_sum L)) /\
   0 < pysum (Dict.values (strategy_sum L)) /\
   iteration_history L <> []).

Import StrategyGenerator.

(** The two action lists have the same length. *)
Definition balanced (acc : Seqs) : Prop := length (fst acc) = length (snd acc).

Import PlanCompiler.

(** The rooms of the TREAT commands a command list holds for one patient
    id, in list order. *)
Definition is_treat_for (pid : Z) (c : Command.t) : bool :=
  String.eqb (Command.action c) "TREAT" && Z.eqb (Command.patient_id c) pid.

Definition treat_targets (pid : Z) (cmds : list Command.t) : list string :=
  map Command.target (List.filter (is_treat_for pid) cmds).

(** [Covers path n d]: the two room lists [n] and [d] together hold one
    entry per location of [path], in the order of [path]; each location is
    in [n], in [d] or in both. *)
Inductive Covers : list string -> list string -> list string -> Prop :=
| Covers_nil : Covers [] [] []
| Covers_nurse r path n d : Covers path n d -> Covers (r :: path) (r :: n) d
| Covers_doctor r path n d : Covers path n d -> Covers (r :: path) n (r :: d)
| Covers_both r path n d : Covers path n d -> Covers (r :: path) (r :: n) (r :: d).

(** Which agent the strategy-specific branches of [_generate_unity_commands]
    give the ESCORT and TREAT pair of a pathway step to. *)
Definition nurse_treats (strategy : string) (p : Patient.t) (room : string) : bool :=
  if String.eqb strategy "DOCTOR_CRITICAL_NURSE_OTHERS"
  then negb (bool_decide (Patient.ptype p = Critical))
  else if String.eqb strategy "NURSE_TRIAGE_DOCTOR_TREAT"
  then String.eqb room "TRIAGE"
  else true.

Definition doctor_treats (strategy : string) (p : Patient.t) (room : string) : bool :=
  if String.eqb strategy "DOCTOR_CRITICAL_NURSE_OTHERS"
  then bool_decide (Patient.ptype p = Critical)
  else if String.eqb strategy "NURSE_TRIAGE_DOCTOR_TREAT"
  then negb (String.eqb room "TRIAGE")
  else if String.eqb strategy "PARALLEL_CRITICAL"
  then bool_decide (Patient.ptype p = Critical)
  else if String.eqb strategy "COOPERATIVE_ALL"
  then true
  else bool_decide (Patient.ptype p = Critical)
       && (String.eqb room "TB" || String.eqb room "ICU").

Definition nurse_cmds_for (strategy : string) (p : Patient.t) (room from : string)
  : list Command.t :=
  if nurse_treats strategy p room
  then [Command.escort room (Patient.id p) from; Command.treat room (Patient.id p)]
       ++ (if String.eqb strategy "NURSE_TRIAGE_DOCTOR_TREAT"
           then [Command.leave room (Patient.id p)] else [])
  else [].

Definition doctor_cmds_for (strategy : string) (p : Patient.t) (room from : string)
  : list Command.t :=
  if doctor_treats strategy p room
  then [Command.escort room (Patient.id p) from; Command.treat room (Patient.id p)]
  else [].

(** The primary generation of [_generate_unity_commands] for a strategy:
    the roster is ordered, then compiled, with no repair pass. *)
Definition primary_for (strategy : string) (patients : list Patient.t) : option Acc :=
  match Dict.get STRATEGIES strategy with
  | None => None
  | Some info => Some (primary_commands strategy (ordered_roster info patients))
  end.

(** The set [missing_patients] that the verification pass of
    [_generate_unity_commands] computes after the primary generation. *)
Definition missed_by (strategy : string) (patients : list Patient.t) : gset Z :=
  match Dict.get STRATEGIES strategy with
  | None => ∅
  | Some info =>
      let roster := ordered_roster info patients in
      missing_patients roster (nurse_commands (primary_commands strategy roster))
  end.

(** The patient ids of the ESCORT and TREAT commands of a command list. *)
Definition is_escort_or_treat (c : Command.t) : bool :=
  String.eqb (Command.action c) "ESCORT" || String.eqb (Command.action c) "TREAT".

Definition escort_treat_ids (cmds : list Command.t) : list Z :=
  map Command.patient_id (List.filter is_escort_or_treat cmds).

(** *** Stores *)

(** The store after the assignment of a whole object. *)
Definition upd_patient (st : Store) (r : ref) (p : Patient.t) : Store :=
  {| patient_objs := <[r := p]> (patient_objs st); state_objs := state_objs st |}.
Definition upd_state (st : Store) (r : ref) (s : GameState.t) : Store :=
  {| patient_objs := patient_objs st; state_objs := <[r := s]> (state_objs st) |}.

(** Hoare triples of the store monad, with a postcondition for normal
    return and one for a raised exception. *)
Definition hoare {A} (P : Store -> Prop) (m : M A)
    (Q : A -> Store -> Prop) (E : exn -> Store -> Prop) : Prop :=
  forall st, P st ->
    match m st with
    | Ok a st' => Q a st'
    | Raise e st' => E e st'
    end.

(** [st'] keeps every object of [st] as it is and may hold new ones. *)
Definition extends (st st' : Store) : Prop :=
  (exists ps, patient_objs st' = patient_objs st ++ ps) /\
  (exists ss, state_objs st' = state_objs st ++ ss).

(** The patient invariant of the data model. *)
Definition patient_ok (p : Patient.t) : Prop :=
  0 <= Patient.health p /\ Patient.health p <= qz 100 /\
  (0 <= Patient.current_step p)%Z /\
  (Patient.current_step p <= Z.of_nat (length (Patient.pathway p)))%Z /\
  (Patient.is_complete p = true <->
   Patient.current_step p = Z.of_nat (length (Patient.pathway p))).

Definition all_ok (st : Store) : Prop := Forall patient_ok (patient_objs st).

(** [m] keeps a store invariant, whether it returns or raises. *)
Definition preserves {A} (I : Store -> Prop) (m : M A) : Prop :=
  forall st, I st -> I (store_of (m st)).

Import GameSimulator.

(** The stores that spawning, the step-complete and removal operations,
    cloning and the simulator (whole runs, single ticks, and the waiting
    and treatment steps inside a tick) can produce from the empty store. *)
Inductive reachable_store : Store -> Prop :=
| reach_empty : reachable_store empty_store
| reach_create_scenario (types : list PType) (st : Store) :
    reachable_store st ->
    reachable_store (store_of (create_scenario types st))
| reach_spawn (A : DynamicRegretAnalyzer.t) (ty : PType) (st : Store) :
    reachable_store st ->
    reachable_store (store_of (DynamicRegretAnalyzer.spawn_patient A ty st))
| reach_step_patient (A : DynamicRegretAnalyzer.t) (pid : Z) (st : Store) :
    reachable_store st ->
    reachable_store (store_of (DynamicRegretAnalyzer.step_patient A pid st))
| reach_remove_patient (A : DynamicRegretAnalyzer.t) (pid : Z) (st : Store) :
    reachable_store st ->
    reachable_store (store_of (DynamicRegretAnalyzer.remove_patient A pid st))
| reach_clone (state : ref) (st : Store) :
    reachable_store st ->
    reachable_store (store_of (clone_state state st))
| reach_waiting (state : ref) (time_delta : Qc) (st : Store) :
    reachable_store st -> 0 <= time_delta ->
    reachable_store (store_of (apply_waiting_penalties state time_delta st))
| reach_treat (state patient : ref) (agent : Agent) (duration : Qc)
    (cooperative : bool) (st : Store) :
    reachable_store st -> 0 <= duration ->
    reachable_store
      (store_of (treat_patient state patient agent duration cooperative st))
| reach_action (sqrt : Qc -> Qc) (positions : Dict.t (Qc * Qc)) (state : ref)
    (agent : Agent) (action : Action) (metrics : Metrics.t) (st : Store) :
    reachable_store st ->
    reachable_store
      (store_of (_execute_agent_action sqrt positions state agent action metrics st))
| reach_tick (sqrt : Qc -> Qc) (positions : Dict.t (Qc * Qc)) (state : ref)
    (nurse_actions doctor_actions : list Action) (v : LoopVars) (st : Store) :
    reachable_store st ->
    reachable_store
      (store_of (tick sqrt positions state nurse_actions doctor_actions v st))
| reach_simulate (sqrt : Qc -> Qc) (positions : Dict.t (Qc * Qc)) (state : ref)
    (nurse_actions doctor_actions : list Action) (simulation_time : Qc) (st : Store) :
    reachable_store st ->
    reachable_store
      (store_of (simulate_action_sequence sqrt positions state nurse_actions
                                          doctor_actions simulation_time st)).

(** The healing of one treatment, as [treat_patient] computes it. *)
Definition healing_of (agent : Agent) (cooperative : bool) (room : string)
    (duration : Qc) : Qc :=
  (if cooperative
   then (if bool_decide (agent = doctor)
         then DOCTOR_HEALING_POWER else NURSE_HEALING_POWER) * COOPERATIVE_BONUS
   else (if bool_decide (agent = doctor)
         then DOCTOR_HEALING_POWER else NURSE_HEALING_POWER))
  * Dict.get_or ROOM_EFFECTIVENESS room (qfrac 2 10)
  * (duration / Dict.get_or ROOM_TREATMENT_TIME room (qz 10)).

(** The patient after one treatment: healed, capped at 100, one step on. *)
Definition treated (p : Patient.t) (healing : Qc) : Patient.t :=
  Patient.set_current_step
    (Patient.set_health p (pymin (qz 100) (Patient.health p + healing)))
    (Patient.current_step p + 1).

(** The tokens a generated sequence may hold for a roster: WAIT, or the
    treat token carrying the id of a roster patient. *)
Definition token_of (patients : list Patient.t) (a : Action) : Prop :=
  a = WAIT \/ exists p, In p patients /\ a = TREAT_PATIENT (Patient.id p).

Definition good_seqs (patients : list Patient.t) (acc : Seqs) : Prop :=
  Forall (token_of patients) (fst acc) /\ Forall (token_of patients) (snd acc).

(** *** The invariant of a simulation run

    [st0] is the caller's store, [state] the clone the simulator works on,
    [ids] the ids of all patient objects once the clone exists.  [TOT]
    switches on the part of the invariant under which the run raises no
    exception. *)
Definition id_at (ids : list Z) (r : ref) : Z := default 0%Z (ids !! r).

Definition roster_fact (st0 : Store) (ids : list Z) (TOT : Prop) (t : Qc)
    (s : GameState.t) : Prop :=
  Forall (fun r => (length (patient_objs st0) <= r < length ids)%nat)
         (GameState.patients s) /\
  GameState.current_time s = t /\
  (TOT -> List.NoDup (map (id_at ids) (GameState.patients s))).

Definition sim_inv (st0 : Store) (state : ref) (ids : list Z) (TOT : Prop)
    (t : Qc) (st : Store) : Prop :=
  extends st0 st /\
  Patient.id <$> patient_objs st = ids /\
  (length (state_objs st0) <= state)%nat /\
  (exists s, state_objs st !! state = Some s /\ roster_fact st0 ids TOT t s) /\
  (TOT -> all_ok st).

Definition sim_exc (st0 : Store) (state : ref) (ids : list Z) (TOT : Prop)
    (e : exn) (st : Store) : Prop :=
  (exists t, sim_inv st0 state ids TOT t st) /\ ~ TOT.

(** The action tokens that index a roster position from the front. *)
Definition front_token (a : Action) : Prop :=
  match a with TREAT_PATIENT k => (1 <= k)%Z | WAIT => True end.

(** The roster of the simulated state satisfies [R]. *)
Definition roster_sat (state : ref) (R : list ref -> Prop) (st : Store) : Prop :=
  exists s, state_objs st !! state = Some s /\ R (GameState.patients s).

(** [state] is the state object [s], and the objects its roster refers to
    are [objs], in roster order. *)
Definition roster_objs (st : Store) (state : ref) (s : GameState.t)
    (objs : list Patient.t) : Prop :=
  state_objs st !! state = Some s /\
  Forall2 (fun r p => patient_objs st !! r = Some p) (GameState.patients s) objs.

(** A state the simulator can run on: its roster holds patients with
    distinct ids, and every patient object satisfies the data invariant. *)
Definition roster_ready (st : Store) (state : ref) : Prop :=
  exists s objs,
    roster_objs st state s objs /\ List.NoDup (map Patient.id objs) /\ all_ok st.

(** *** The final selection of a plan *)

(** [k] is the first key of [d], in the dictionary's order, whose value is
    maximal: the value of [k] is strictly greater than every earlier value
    and at least every later one. *)
Definition first_max (d : Dict.t Qc) (k : string) : Prop :=
  exists pre p post,
    d = pre ++ (k, p) :: post /\
    Forall (fun kv => snd kv < p) pre /\
    Forall (fun kv => snd kv <= p) post.

(** The analyzer has a scenario with a non-empty roster of patients with
    distinct ids, all at least 1 (as [spawn_patient] numbers them), and
    every patient object satisfies the data invariant. *)
Definition plan_ready (A : DynamicRegretAnalyzer.t) (st : Store) : Prop :=
  exists state s objs,
    DynamicRegretAnalyzer.current_state A = Some state /\
    roster_objs st state s objs /\
    objs <> [] /\
    List.NoDup (map Patient.id objs) /\
    Forall (fun p => (1 <= Patient.id p)%Z) objs /\
    all_ok st.

(** What the rounds of a plan keep of the store [st0] they start from:
    every object of [st0] as it is, and the data invariant of every patient
    object. *)
Definition world (st0 st : Store) : Prop := extends st0 st /\ all_ok st.

(** A stand-in for [math.sqrt] in concrete runs: the square root to twelve
    decimal places, exact on the squares of such numbers. *)
Definition sqrt_approx (x : Qc) : Qc :=
  Q2Qc (Z.sqrt (Qfloor (this x * inject_Z (10 ^ 24))) # 10 ^ 12).

(** Draws under which two strategies tie: every normal deviate is 0 except
    the one of COOPERATIVE_ALL in the last of the 20 rounds, which is 1. *)
Definition tie_draws (iteration : nat) : RoundDraws :=
  {| normal := fun s => if Nat.eqb iteration 19 && String.eqb s "COOPERATIVE_ALL"
                        then 1 else 0;
     uniform := 0 |}.

(** One Critical patient is spawned and a plan is asked for. *)
Definition tie_run : M (DynamicRegretAnalyzer.t * DynamicRegretAnalyzer.PlanResult) :=
  a <- DynamicRegretAnalyzer.spawn_patient DynamicRegretAnalyzer.init Critical ;;
  DynamicRegretAnalyzer.analyze_and_plan sqrt_approx (fst a) tie_draws.

(** *** Devices for the further properties *)

(** [simulate_action_sequence] with [extra] more iterations allowed to its
    loop than the bound [ticks_bound]. *)
Definition simulate_with_fuel (sqrt : Qc -> Qc) (positions : Dict.t (Qc * Qc))
    (extra : nat) (initial_state : ref) (nurse_actions doctor_actions : list Action)
    (simulation_time : Qc) : M (ref * Metrics.t) :=
  state <- clone_state initial_state ;;
  s <- get_state state ;;
  v <- simulate_loop sqrt positions (ticks_bound s simulation_time + extra) state
         nurse_actions doctor_actions simulation_time
         {| metrics := Metrics.zero; nurse_action_idx := 0%nat;
            doctor_action_idx := 0%nat |} ;;
  ret (state, metrics v).

(** A ward with two patients: a fresh analyzer after a Critical and a
    Minor patient were spawned, and the store this leaves. *)
Definition ward2_analyzer : DynamicRegretAnalyzer.t :=
  {| DynamicRegretAnalyzer.cfr := CFRRegretMinimizer.init;
     DynamicRegretAnalyzer.patient_counter := 2;
     DynamicRegretAnalyzer.current_state := Some 0%nat;
     DynamicRegretAnalyzer.room_positions := ROOM_POSITIONS |}.

Definition ward2_store : Store :=
  store_of (DynamicRegretAnalyzer.spawn_patient
              {| DynamicRegretAnalyzer.cfr := CFRRegretMinimizer.init;
                 DynamicRegretAnalyzer.patient_counter := 1;
                 DynamicRegretAnalyzer.current_state := Some 0%nat;
                 DynamicRegretAnalyzer.room_positions := ROOM_POSITIONS |}
              Minor
              (store_of (DynamicRegretAnalyzer.spawn_patient
                           DynamicRegretAnalyzer.init Critical empty_store))).

(** No patient object is being treated by anybody. *)
Definition idle (st : Store) : Prop :=
  Forall (fun p => Patient.being_treated_by p = []) (patient_objs st).

(** *** The analyzer's scenario *)

(** The id of the patient object that [r] refers to. *)
Definition id_of (st : Store) (r : ref) : Z :=
  default 0%Z (Patient.id <$> patient_objs st !! r).

(** A roster of existing patient objects with distinct ids, all between 1
    and the analyzer's patient counter. *)
Definition roster_wf (A : DynamicRegretAnalyzer.t) (st : Store) (roster : list ref)
  : Prop :=
  Forall (fun r => is_Some (patient_objs st !! r)) roster /\
  List.NoDup (map (id_of st) roster) /\
  Forall (fun r => (1 <= id_of st r <= DynamicRegretAnalyzer.patient_counter A)%Z)
         roster.

(** The invariant of the analyzer and the store it works on. *)
Definition scenario_ok (A : DynamicRegretAnalyzer.t) (st : Store) : Prop :=
  all_ok st /\
  (0 <= DynamicRegretAnalyzer.patient_counter A)%Z /\
  match DynamicRegretAnalyzer.current_state A with
  | None => True
  | Some state =>
      exists s, state_objs st !! state = Some s /\ roster_wf A st (GameState.patients s)
  end.

(** The roster of the analyzer's scenario; empty when there is none. *)
Definition roster_of (A : DynamicRegretAnalyzer.t) (st : Store) : list ref :=
  match DynamicRegretAnalyzer.current_state A with
  | None => []
  | Some state =>
      match state_objs st !! state with
      | Some s => GameState.patients s
      | None => []
      end
  end.

(** Everything of the analyzer but its learner. *)
Definition same_scenario (A A' : DynamicRegretAnalyzer.t) : Prop :=
  DynamicRegretAnalyzer.patient_counter A' = DynamicRegretAnalyzer.patient_counter A /\
  DynamicRegretAnalyzer.current_state A' = DynamicRegretAnalyzer.current_state A /\
  DynamicRegretAnalyzer.room_positions A' = DynamicRegretAnalyzer.room_positions A.

(** The patient after a step was reported complete. *)
Definition stepped (p : Patient.t) : Patient.t :=
  if Patient.is_complete p then p
  else Patient.set_current_step p (Patient.current_step p + 1).

(** The analyzers and stores that the operations of the Unity connection
    produce from a fresh analyzer. *)
Inductive reachable_world (sqrt : Qc -> Qc)
  : DynamicRegretAnalyzer.t -> Store -> Prop :=
| world_init : reachable_world sqrt DynamicRegretAnalyzer.init empty_store
| world_spawn A st ptype A' r st' :
    reachable_world sqrt A st ->
    DynamicRegretAnalyzer.spawn_patient A ptype st = Ok (A', r) st' ->
    reachable_world sqrt A' st'
| world_step A st patient_id :
    reachable_world sqrt A st ->
    reachable_world sqrt A
      (store_of (DynamicRegretAnalyzer.step_patient A patient_id st))
| world_remove A st patient_id :
    reachable_world sqrt A st ->
    reachable_world sqrt A
      (store_of (DynamicRegretAnalyzer.remove_patient A patient_id st))
| world_plan A st rng A' result st' :
    reachable_world sqrt A st ->
    DynamicRegretAnalyzer.analyze_and_plan sqrt A rng st = Ok (A', result) st' ->
    reachable_world sqrt A' st'
| world_set_rooms A st room_coords :
    reachable_world sqrt A st ->
    reachable_world sqrt (DynamicRegretAnalyzer.set_rooms A room_coords) st
| world_reset A st :
    reachable_world sqrt A st ->
    reachable_world sqrt (DynamicRegretAnalyzer.reset A) st
| world_new_analyzer A st :
    reachable_world sqrt A st ->
    reachable_world sqrt (App.reset A) st.
(* ================================================================== *)
(** * Theorems *)

(** ** Arithmetic helpers *)

Lemma Qcltb_lt (x y : Qc) : Qcltb x y = true <-> x < y.
Proof.
  unfold Qcltb. rewrite Qclt_alt. destruct (x ?= y); split; congruence.
Qed.

Lemma Qcltb_ge (x y : Qc) : Qcltb x y = false <-> y <= x.
Proof.
  rewrite <- not_true_iff_false, Qcltb_lt. split.
  - apply Qcnot_lt_le.
  - apply Qcle_not_lt.
Qed.

Lemma Qcleb_le (x y : Qc) : Qcleb x y = true <-> x <= y.
Proof.
  unfold Qcleb. rewrite Qcle_alt. destruct (x ?= y); split; congruence.
Qed.

Lemma pymax_lower (a b : Qc) : a <= pymax a b.
Proof.
  unfold pymax. destruct (Qcltb a b) eqn:H.
  - apply Qclt_le_weak, Qcltb_lt, H.
  - apply Qcle_refl.
Qed.

Lemma pymax_upper (a b : Qc) : b <= pymax a b.
Proof.
  unfold pymax. destruct (Qcltb a b) eqn:H.
  - apply Qcle_refl.
  - apply Qcltb_ge, H.
Qed.

Lemma pymax_cases (a b : Qc) : pymax a b = a \/ pymax a b = b.
Proof. unfold pymax. destruct (Qcltb a b); auto. Qed.

Lemma pymax_nonpos (b : Qc) : b <= 0 -> pymax 0 b = 0.
Proof.
  intros H. unfold pymax. destruct (Qcltb 0 b) eqn:E; [|reflexivity].
  apply Qcltb_lt in E. exfalso. eapply Qclt_not_le; eauto.
Qed.

Lemma pymin_upper (a b : Qc) : pymin a b <= a.
Proof.
  unfold pymin. destruct (Qcltb b a) eqn:H.
  - apply Qclt_le_weak, Qcltb_lt, H.
  - apply Qcle_refl.
Qed.

Lemma pymin_lower (a b c : Qc) : c <= a -> c <= b -> c <= pymin a b.
Proof. unfold pymin. destruct (Qcltb b a); auto. Qed.

Lemma fold_left_Qcplus (xs : list Qc) (a : Qc) :
  fold_left Qcplus xs a = a + fold_left Qcplus xs 0.
Proof.
  revert a. induction xs as [|x xs IH]; intros a; simpl.
  - ring.
  - rewrite (IH (a + x)), (IH (0 + x)). ring.
Qed.

Lemma pysum_nil : pysum [] = 0.
Proof. reflexivity. Qed.

Lemma pysum_cons (x : Qc) (xs : list Qc) : pysum (x :: xs) = x + pysum xs.
Proof. unfold pysum. simpl. rewrite fold_left_Qcplus. ring. Qed.

Lemma pysum_app (xs ys : list Qc) : pysum (xs ++ ys) = pysum xs + pysum ys.
Proof.
  induction xs as [|x xs IH]; simpl.
  - rewrite pysum_nil. ring.
  - rewrite !pysum_cons, IH. ring.
Qed.

Lemma pysum_nonneg (xs : list Qc) : Forall (Qcle 0) xs -> 0 <= pysum xs.
Proof.
  induction 1 as [|x xs Hx _ IH].
  - apply Qcle_refl.
  - rewrite pysum_cons. now apply Qcplus_nonneg_nonneg.
Qed.

Lemma pysum_map_div (xs : list Qc) (t : Qc) :
  pysum (map (fun r => r / t) xs) = pysum xs / t.
Proof.
  induction xs as [|x xs IH]; simpl.
  - rewrite pysum_nil. unfold Qcdiv. ring.
  - rewrite !pysum_cons, IH. unfold Qcdiv. ring.
Qed.

Lemma qz_0 : qz 0 = 0.
Proof. apply Z2Qc_inj_0. Qed.

Lemma qz_pos (z : Z) : (0 < z)%Z -> 0 < qz z.
Proof. intros H. unfold qz. rewrite <- Z2Qc_inj_0. apply (proj1 (Z2Qc_inj_lt 0 z) H). Qed.

Lemma qz_nonneg (z : Z) : (0 <= z)%Z -> 0 <= qz z.
Proof. intros H. unfold qz. rewrite <- Z2Qc_inj_0. apply (proj1 (Z2Qc_inj_le 0 z) H). Qed.

Lemma pysum_repeat (x : Qc) (n : nat) :
  pysum (repeat x n) = qz (Z.of_nat n) * x.
Proof.
  induction n as [|n IH].
  - cbn [repeat]. change (Z.of_nat 0) with 0%Z. rewrite pysum_nil, qz_0. ring.
  - cbn [repeat]. rewrite pysum_cons, IH, Nat2Z.inj_succ.
    unfold Z.succ, qz. rewrite Z2Qc_inj_add, Z2Qc_inj_1. ring.
Qed.

Lemma Qcdiv_nonneg (a b : Qc) : 0 <= a -> 0 < b -> 0 <= a / b.
Proof.
  intros Ha Hb. unfold Qcdiv. apply Qcmult_nonneg_nonneg; [assumption|].
  apply Qclt_le_weak, Qcinv_pos, Hb.
Qed.

Lemma Qcdiv_self (a : Qc) : 0 < a -> a / a = 1.
Proof.
  intros Ha. unfold Qcdiv. apply Qcmult_inv_r.
  intros ->. now apply (Qclt_not_eq 0 0).
Qed.

(** ** Dictionaries *)

Section DictFacts.
Context {V : Type}.
Implicit Types (d : Dict.t V) (k : string) (v : V).

Lemma dict_get_None d k : Dict.get d k = None <-> ~ In k (Dict.keys d).
Proof.
  induction d as [|[k' v'] d IH]; simpl.
  - tauto.
  - destruct (String.eqb k k') eqn:E.
    + apply String.eqb_eq in E. subst. split; [discriminate|tauto].
    + apply String.eqb_neq in E. rewrite IH. split; [intros H [?|?]|]; try tauto.
      congruence.
Qed.

Lemma dict_get_Some_In d k v : Dict.get d k = Some v -> In (k, v) d.
Proof.
  induction d as [|[k' v'] d IH]; simpl; [discriminate|].
  destruct (String.eqb k k') eqn:E.
  - apply String.eqb_eq in E. intros [= ->]. subst. now left.
  - intros H. right. auto.
Qed.

Lemma dict_get_In d k v : Dict.wf d -> In (k, v) d -> Dict.get d k = Some v.
Proof.
  unfold Dict.wf. induction d as [|[k' v'] d IH]; simpl; [tauto|].
  intros Hnd [H|H].
  - injection H as -> ->. now rewrite String.eqb_refl.
  - inversion Hnd as [|? ? Hni Hnd']; subst.
    destruct (String.eqb k k') eqn:E.
    + apply String.eqb_eq in E. subst. exfalso. apply Hni.
      change k' with (fst (k', v)). now apply in_map.
    + auto.
Qed.

Lemma dict_set_absent d k v :
  ~ In k (Dict.keys d) -> Dict.set d k v = d ++ [(k, v)].
Proof.
  induction d as [|[k' v'] d IH]; simpl; intros H; [reflexivity|].
  destruct (String.eqb k k') eqn:E.
  - apply String.eqb_eq in E. subst. tauto.
  - rewrite IH; tauto.
Qed.

Lemma dict_keys_set d k v :
  In k (Dict.keys d) -> Dict.keys (Dict.set d k v) = Dict.keys d.
Proof.
  induction d as [|[k' v'] d IH]; simpl; [tauto|].
  intros H. destruct (String.eqb k k') eqn:E; [reflexivity|].
  simpl. f_equal. apply IH. apply String.eqb_neq in E. destruct H; congruence.
Qed.

Lemma dict_get_set_eq d k v : Dict.get (Dict.set d k v) k = Some v.
Proof.
  induction d as [|[k' v'] d IH]; simpl.
  - now rewrite String.eqb_refl.
  - destruct (String.eqb k k') eqn:E; simpl; now rewrite E.
Qed.

Lemma dict_get_set_ne d k k' v :
  k <> k' -> Dict.get (Dict.set d k v) k' = Dict.get d k'.
Proof.
  intros Hne. induction d as [|[k0 v0] d IH]; simpl.
  - apply String.eqb_neq in Hne. rewrite String.eqb_sym in Hne. now rewrite Hne.
  - destruct (String.eqb k k0) eqn:E; simpl.
    + apply String.eqb_eq in E. subst.
      destruct (String.eqb k' k0) eqn:E'; [|reflexivity].
      apply String.eqb_eq in E'. congruence.
    + now rewrite IH.
Qed.

Lemma dict_get_app_absent d k k' v :
  Dict.get (d ++ [(k, v)]) k' =
  match Dict.get d k' with
  | Some x => Some x
  | None => if String.eqb k' k then Some v else None
  end.
Proof.
  induction d as [|[k0 v0] d IH]; simpl; [reflexivity|].
  destruct (String.eqb k' k0); [reflexivity|apply IH].
Qed.

(** Reading a defaultdict never changes what a later read returns. *)
Lemma dict_get_or_touch d k k' (dflt : V) :
  Dict.get_or (Dict.touch dflt d k) k' dflt = Dict.get_or d k' dflt.
Proof.
  unfold Dict.touch, Dict.get_or. destruct (Dict.get d k) eqn:E; [reflexivity|].
  rewrite dict_get_app_absent. destruct (Dict.get d k') eqn:E'; [reflexivity|].
  destruct (String.eqb k' k); reflexivity.
Qed.

Lemma dict_touch_In d k (dflt : V) : In k (Dict.keys (Dict.touch dflt d k)).
Proof.
  unfold Dict.touch. destruct (Dict.get d k) eqn:E.
  - apply dict_get_Some_In in E. change k with (fst (k, v)). now apply in_map.
  - unfold Dict.keys. rewrite map_app. apply in_or_app. right. now left.
Qed.

Lemma dict_get_or_fold_touch (ks : list string) d k (dflt : V) :
  Dict.get_or (fold_left (Dict.touch dflt) ks d) k dflt = Dict.get_or d k dflt.
Proof.
  revert d. induction ks as [|k0 ks IH]; intros d; simpl; [reflexivity|].
  now rewrite IH, dict_get_or_touch.
Qed.

Lemma dict_comprehension_from (f : string -> V) (ks : list string) d :
  List.NoDup ks -> (forall k, In k ks -> ~ In k (Dict.keys d)) ->
  fold_left (fun d k => Dict.set d k (f k)) ks d = d ++ map (fun k => (k, f k)) ks.
Proof.
  revert d. induction ks as [|k ks IH]; intros d Hnd Hdis; simpl.
  - now rewrite app_nil_r.
  - inversion Hnd as [|? ? Hni Hnd']; subst.
    rewrite dict_set_absent by (apply Hdis; now left).
    rewrite IH; [now rewrite <- app_assoc|assumption|].
    intros k' Hk'. unfold Dict.keys. rewrite map_app, in_app_iff. simpl.
    intros [H|[H|[]]].
    + apply (Hdis k'); [now right|exact H].
    + congruence.
Qed.

Lemma dict_comprehension_nodup (f : string -> V) (ks : list string) :
  List.NoDup ks -> Dict.comprehension ks f = map (fun k => (k, f k)) ks.
Proof.
  intros H. unfold Dict.comprehension.
  rewrite dict_comprehension_from; [reflexivity|assumption|]. intros k _ [].
Qed.

Lemma dict_keys_map_values {W} (f : V -> W) d :
  Dict.keys (Dict.map_values f d) = Dict.keys d.
Proof. unfold Dict.keys, Dict.map_values. rewrite map_map. reflexivity. Qed.

Lemma dict_values_map_values {W} (f : V -> W) d :
  Dict.values (Dict.map_values f d) = map f (Dict.values d).
Proof. unfold Dict.values, Dict.map_values. rewrite !map_map. reflexivity. Qed.

Lemma dict_keys_tabulate (f : string -> V) (ks : list string) :
  Dict.keys (map (fun k => (k, f k)) ks) = ks.
Proof. unfold Dict.keys. rewrite map_map. simpl. apply map_id. Qed.

Lemma dict_values_tabulate (f : string -> V) (ks : list string) :
  Dict.values (map (fun k => (k, f k)) ks) = map f ks.
Proof. unfold Dict.values. rewrite map_map. reflexivity. Qed.

Lemma dict_get_tabulate (f : string -> V) (ks : list string) k :
  In k ks -> Dict.get (map (fun k => (k, f k)) ks) k = Some (f k).
Proof.
  induction ks as [|k0 ks IH]; simpl; [tauto|].
  destruct (String.eqb k k0) eqn:E.
  - apply String.eqb_eq in E. now subst.
  - apply String.eqb_neq in E. intros [H|H]; [congruence|auto].
Qed.
End DictFacts.

(** ** The regret-matching policy in closed form *)

Lemma positive_regrets_fold (ks : list string) (rs pr : Dict.t Qc) :
  List.NoDup ks -> (forall k, In k ks -> ~ In k (Dict.keys pr)) ->
  fold_left positive_regrets_step ks (rs, pr) =
  (fold_left (Dict.touch 0) ks rs,
   pr ++ map (fun s => (s, pymax 0 (Dict.get_or rs s 0))) ks).
Proof.
  revert rs pr. induction ks as [|k ks IH]; intros rs pr Hnd Hdis; simpl.
  - now rewrite app_nil_r.
  - inversion Hnd as [|? ? Hni Hnd']; subst.
    unfold positive_regrets_step at 2. simpl.
    rewrite dict_set_absent by (apply Hdis; now left).
    rewrite IH; [|assumption|].
    + rewrite <- app_assoc. simpl. f_equal. f_equal. rewrite dict_get_or_touch.
      f_equal. apply map_ext. intros s. now rewrite dict_get_or_touch.
    + intros k' Hk'. unfold Dict.keys. rewrite map_app, in_app_iff. simpl.
      intros [H|[H|[]]].
      * apply (Hdis k'); [now right|exact H].
      * congruence.
Qed.

Lemma get_strategy_probabilities_spec (L : CFRRegretMinimizer.t) (ks : list string) :
  List.NoDup ks ->
  get_strategy_probabilities L ks =
  (set_regret_sum L (fold_left (Dict.touch 0) ks (regret_sum L)), policy_of L ks).
Proof.
  intros Hnd. unfold get_strategy_probabilities.
  rewrite positive_regrets_fold by (assumption || intros ? _ []).
  cbn [app]. unfold policy_of, positive_part, regret_of, uniform_policy.
  rewrite dict_comprehension_nodup by assumption. reflexivity.
Qed.

Lemma regret_of_touched (L : CFRRegretMinimizer.t) (ks : list string) (s : string) :
  regret_of (set_regret_sum L (fold_left (Dict.touch 0) ks (regret_sum L))) s
  = regret_of L s.
Proof. unfold regret_of. simpl. apply dict_get_or_fold_touch. Qed.

Lemma qlen_pos {A} (xs : list A) : xs <> [] -> 0 < qlen xs.
Proof.
  intros H. apply qz_pos. destruct xs; [congruence|]. simpl length. lia.
Qed.

Lemma uniform_policy_distribution (ks : list string) :
  ks <> [] -> distribution_over ks (uniform_policy ks).
Proof.
  intros Hne. pose proof (qlen_pos ks Hne) as Hpos.
  unfold distribution_over, uniform_policy.
  rewrite dict_keys_tabulate, dict_values_tabulate. split; [reflexivity|]. split.
  - apply List.Forall_forall. intros x Hx. apply in_map_iff in Hx as (s & <- & _).
    apply Qcdiv_nonneg; [discriminate|assumption].
  - replace (map (fun _ : string => 1 / qlen ks) ks)
      with (repeat (1 / qlen ks) (length ks)).
    + rewrite pysum_repeat. fold (qlen ks). unfold Qcdiv.
      rewrite Qcmult_1_l. apply Qcmult_inv_r.
      intros E. rewrite E in Hpos. now apply (Qclt_not_eq 0 0).
    + clear. generalize (1 / qlen ks). intros c.
      induction ks; simpl; [reflexivity|]. now f_equal.
Qed.

Lemma policy_of_distribution (L : CFRRegretMinimizer.t) (ks : list string) :
  ks <> [] -> distribution_over ks (policy_of L ks).
Proof.
  intros Hne. unfold policy_of.
  destruct (Qcltb 0 (pysum (Dict.values (positive_part L ks)))) eqn:E.
  - apply Qcltb_lt in E. unfold distribution_over.
    rewrite dict_keys_map_values, dict_values_map_values.
    unfold positive_part at 1. rewrite dict_keys_tabulate.
    split; [reflexivity|]. split.
    + apply List.Forall_forall. intros x Hx. apply in_map_iff in Hx as (r & <- & Hr).
      apply Qcdiv_nonneg; [|assumption].
      unfold positive_part in Hr. rewrite dict_values_tabulate in Hr.
      apply in_map_iff in Hr as (s & <- & _). apply pymax_lower.
    + rewrite pysum_map_div. now apply Qcdiv_self.
  - now apply uniform_policy_distribution.
Qed.

Lemma policy_of_uniform (L : CFRRegretMinimizer.t) (ks : list string) :
  (forall s, In s ks -> regret_of L s <= 0) -> policy_of L ks = uniform_policy ks.
Proof.
  intros Hle. unfold policy_of.
  replace (pysum (Dict.values (positive_part L ks))) with (Q2Qc 0); [reflexivity|].
  unfold positive_part. rewrite dict_values_tabulate.
  induction ks as [|k ks IH]; [reflexivity|]. simpl map.
  rewrite pysum_cons, <- IH by (intros; apply Hle; now right).
  rewrite pymax_nonpos by (apply Hle; now left). ring.
Qed.

(** ** The learner: [update_regrets] *)

Lemma learner_frame_refl L : learner_frame L L.
Proof. repeat split. Qed.

Lemma learner_frame_trans L1 L2 L3 :
  learner_frame L1 L2 -> learner_frame L2 L3 -> learner_frame L1 L3.
Proof.
  unfold learner_frame. intros (?&?&?&?&?&?&?) (?&?&?&?&?&?&?).
  repeat split; congruence.
Qed.

Lemma regret_step_at (node : Qc) (L : CFRRegretMinimizer.t) (s s' : string) (v : Qc) :
  regret_of (regret_step node L (s, v)) s' =
  if String.eqb s' s then regret_of L s + (v - node) else regret_of L s'.
Proof.
  unfold regret_of, regret_step. cbn [regret_sum].
  destruct (String.eqb s' s) eqn:E.
  - apply String.eqb_eq in E. subst s'.
    unfold Dict.get_or at 1. rewrite dict_get_set_eq.
    now rewrite dict_get_or_touch.
  - apply String.eqb_neq in E.
    unfold Dict.get_or at 1. rewrite dict_get_set_ne by congruence.
    fold (Dict.get_or (Dict.touch 0 (regret_sum L) s) s' 0).
    apply dict_get_or_touch.
Qed.

Lemma regret_fold (node : Qc) (values : Dict.t Qc) (L : CFRRegretMinimizer.t) :
  Dict.wf values ->
  let L' := fold_left (regret_step node) values L in
  (forall s v, In (s, v) values -> regret_of L' s = regret_of L s + (v - node)) /\
  (forall s, ~ In s (Dict.keys values) -> regret_of L' s = regret_of L s) /\
  learner_frame L L'.
Proof.
  unfold Dict.wf. revert L.
  induction values as [|[k x] values IH]; intros L Hnd; cbn [fold_left].
  - split; [intros ? ? []|]. split; [reflexivity|apply learner_frame_refl].
  - simpl in Hnd. inversion Hnd as [|? ? Hni Hnd']; subst.
    destruct (IH (regret_step node L (k, x)) Hnd') as (Hin & Hout & Hfr).
    split; [|split].
    + intros s v [H|H].
      * injection H as -> ->. rewrite Hout by assumption.
        now rewrite regret_step_at, String.eqb_refl.
      * rewrite (Hin s v H), regret_step_at.
        destruct (String.eqb s k) eqn:E; [|reflexivity].
        apply String.eqb_eq in E. subst. exfalso. apply Hni.
        change k with (fst (k, v)). now apply in_map.
    + intros s Hs. simpl in Hs. rewrite Hout by tauto. rewrite regret_step_at.
      destruct (String.eqb s k) eqn:E; [|reflexivity].
      apply String.eqb_eq in E. subst. tauto.
    + eapply learner_frame_trans; [|exact Hfr]. repeat split.
Qed.

Lemma fold_pymax_spec (xs : list Qc) (x : Qc) :
  let b := fold_left pymax xs x in
  In b (x :: xs) /\ Forall (fun v => v <= b) (x :: xs).
Proof.
  revert x. induction xs as [|y xs IH]; intros x; simpl.
  - split; [now left|]. constructor; [apply Qcle_refl|constructor].
  - destruct (IH (pymax x y)) as (Hin & Hall). simpl in Hin.
    remember (fold_left pymax xs (pymax x y)) as b eqn:Eb. clear Eb.
    inversion Hall as [|? ? Hb Hall']; subst. split.
    + destruct Hin as [H|H]; [|right; now right].
      destruct (pymax_cases x y) as [E|E]; rewrite E in H; auto.
    + constructor; [|constructor; [|assumption]].
      * eapply Qcle_trans; [apply pymax_lower|exact Hb].
      * eapply Qcle_trans; [apply pymax_upper|exact Hb].
Qed.

Lemma best_value_of_spec (values : Dict.t Qc) :
  values <> [] ->
  In (best_value_of values) (Dict.values values) /\
  Forall (fun v => v <= best_value_of values) (Dict.values values).
Proof.
  intros Hne. unfold best_value_of. destruct values as [|[k v] values]; [congruence|].
  simpl. apply (fold_pymax_spec (Dict.values values) v).
Qed.

Lemma node_value_of_items (probs values : Dict.t Qc) :
  Dict.wf values ->
  node_value_of probs values (Dict.keys values) =
  pysum (map (fun kv => Dict.get_or probs (fst kv) 0 * snd kv) values).
Proof.
  intros Hwf. unfold node_value_of, Dict.keys. rewrite map_map. f_equal.
  apply map_ext_in. intros [k v] Hin. simpl. f_equal.
  unfold Dict.get_or. now rewrite (dict_get_In values k v Hwf Hin).
Qed.

(** C3. On a non-empty value map, [update_regrets] adds [values[s] - V] to
    the regret of every strategy [s] of the map, where [V] is the expected
    value [sum of policy[s] * values[s]] under the regret-matching policy
    over the map's strategies; it adds [max(values) - V] to the cumulative
    regret, appends the new cumulative total to the regret history and
    increments the iteration counter by one.  On an empty map it returns
    the learner unchanged. *)
Theorem C3_update_regrets (sqrt : Qc -> Qc) (L : CFRRegretMinimizer.t)
    (selected : string) :
  update_regrets sqrt L [] selected = L /\
  forall values : Dict.t Qc,
    values <> [] -> Dict.wf values ->
    let policy := snd (get_strategy_probabilities L (Dict.keys values)) in
    let V := pysum (map (fun kv => Dict.get_or policy (fst kv) 0 * snd kv) values) in
    let L' := update_regrets sqrt L values selected in
    (forall s v, In (s, v) values -> regret_of L' s = regret_of L s + (v - V)) /\
    (exists best,
        In best (Dict.values values) /\
        Forall (fun v => v <= best) (Dict.values values) /\
        cumulative_regret L' = cumulative_regret L + (best - V)) /\
    regret_history L' = regret_history L ++ [cumulative_regret L'] /\
    total_iterations L' = (total_iterations L + 1)%Z.
Proof.
  split; [reflexivity|].
  intros values Hne Hwf policy V L'.
  assert (Hnd : List.NoDup (Dict.keys values)) by exact Hwf.
  subst policy V L'. unfold update_regrets.
  destruct values as [|kv0 values0] eqn:Ev; [congruence|]. rewrite <- Ev in *.
  clear Ev kv0 values0.
  rewrite (get_strategy_probabilities_spec L _ Hnd). cbn [snd].
  set (L1 := set_regret_sum L _).
  rewrite (node_value_of_items _ _ Hwf).
  set (V := pysum _).
  destruct (regret_fold V values L1 Hwf) as (Hin & _ & Hfr).
  set (L2 := fold_left (regret_step V) values L1) in *.
  rewrite (get_strategy_probabilities_spec L2 _ Hnd).
  destruct Hfr as (_ & _ & Hrh & Hcr & _ & Hti & _).
  cbn [regret_sum regret_history cumulative_regret total_iterations set_regret_sum].
  split; [|split; [|split]].
  - intros s v Hsv. unfold regret_of at 1. cbn [regret_sum set_regret_sum].
    rewrite dict_get_or_fold_touch.
    change (Dict.get_or (regret_sum L2) s 0) with (regret_of L2 s).
    rewrite (Hin s v Hsv). unfold L1. now rewrite regret_of_touched.
  - exists (best_value_of values).
    destruct (best_value_of_spec values Hne) as (Hb1 & Hb2).
    split; [assumption|]. split; [assumption|]. now rewrite Hcr.
  - now rewrite Hrh.
  - now rewrite Hti.
Qed.

(** ** The learner: the probability accumulator and the average policy *)

Lemma catalog_nodup : List.NoDup catalog.
Proof.
  unfold catalog. simpl.
  repeat (constructor; [simpl; intuition discriminate|]). constructor.
Qed.

Lemma catalog_nonempty : catalog <> [].
Proof. discriminate. Qed.

Lemma get_strategy_probabilities_frame (L : CFRRegretMinimizer.t) (ks : list string) :
  learner_frame L (fst (get_strategy_probabilities L ks)).
Proof.
  unfold get_strategy_probabilities.
  destruct (fold_left positive_regrets_step ks (regret_sum L, [])). repeat split.
Qed.

Lemma regret_fold_frame (node : Qc) (values : Dict.t Qc) (L : CFRRegretMinimizer.t) :
  learner_frame L (fold_left (regret_step node) values L).
Proof.
  revert L. induction values as [|[k v] values IH]; intros L; cbn [fold_left].
  - apply learner_frame_refl.
  - eapply learner_frame_trans; [|apply IH]. repeat split.
Qed.

Lemma update_regrets_strategy_sum (sqrt : Qc -> Qc) (L : CFRRegretMinimizer.t)
    (values : Dict.t Qc) (sel : string) :
  strategy_sum (update_regrets sqrt L values sel) = strategy_sum L /\
  iteration_history (update_regrets sqrt L values sel) = iteration_history L.
Proof.
  unfold update_regrets. destruct values as [|kv values]; [now split|].
  set (vs := kv :: values).
  pose proof (get_strategy_probabilities_frame L (Dict.keys vs)) as F1.
  destruct (get_strategy_probabilities L (Dict.keys vs)) as [L1 probs].
  pose proof (regret_fold_frame (node_value_of probs vs (Dict.keys vs)) vs L1) as F2.
  set (L2 := fold_left _ vs L1) in *.
  pose proof (get_strategy_probabilities_frame L2 (Dict.keys vs)) as F3.
  destruct (get_strategy_probabilities L2 (Dict.keys vs)) as [L3 probs'].
  cbn [fst strategy_sum iteration_history] in *.
  destruct F1 as (?&?&_), F2 as (?&?&_), F3 as (?&?&_). split; congruence.
Qed.

Lemma dict_values_get (d : Dict.t Qc) :
  Dict.wf d -> Dict.values d = map (fun k => Dict.get_or d k 0) (Dict.keys d).
Proof.
  intros Hwf. unfold Dict.values, Dict.keys. rewrite map_map.
  apply map_ext_in. intros [k v] Hin. simpl.
  unfold Dict.get_or. now rewrite (dict_get_In d k v Hwf Hin).
Qed.

Lemma strategy_sum_step_keys (d : Dict.t Qc) (k : string) (p : Qc) :
  In k (Dict.keys d) -> Dict.keys (strategy_sum_step d (k, p)) = Dict.keys d.
Proof.
  intros Hin. unfold strategy_sum_step. cbn [fst snd].
  assert (E : Dict.touch 0 d k = d).
  { unfold Dict.touch. destruct (Dict.get d k) eqn:G; [reflexivity|].
    apply dict_get_None in G. tauto. }
  rewrite E. now apply dict_keys_set.
Qed.

Lemma strategy_sum_step_at (d : Dict.t Qc) (k k' : string) (p : Qc) :
  Dict.get_or (strategy_sum_step d (k, p)) k' 0 =
  if String.eqb k' k then Dict.get_or d k 0 + p else Dict.get_or d k' 0.
Proof.
  unfold strategy_sum_step. cbn [fst snd]. destruct (String.eqb k' k) eqn:E.
  - apply String.eqb_eq in E. subst k'.
    unfold Dict.get_or at 1. rewrite dict_get_set_eq. now rewrite dict_get_or_touch.
  - apply String.eqb_neq in E.
    unfold Dict.get_or at 1. rewrite dict_get_set_ne by congruence.
    fold (Dict.get_or (Dict.touch 0 d k) k' 0). apply dict_get_or_touch.
Qed.

Lemma strategy_sum_fold_keys (probs d : Dict.t Qc) :
  (forall k, In k (Dict.keys probs) -> In k (Dict.keys d)) ->
  Dict.keys (fold_left strategy_sum_step probs d) = Dict.keys d.
Proof.
  revert d. induction probs as [|[k p] probs IH]; intros d Hsub; cbn [fold_left].
  - reflexivity.
  - assert (Hk : In k (Dict.keys d)) by (apply Hsub; now left).
    rewrite IH; [now apply strategy_sum_step_keys|].
    intros k' Hk'. rewrite strategy_sum_step_keys by assumption.
    apply Hsub. now right.
Qed.

Lemma dict_get_or_cons (d : Dict.t Qc) (k k0 : string) (p dflt : Qc) :
  Dict.get_or ((k0, p) :: d) k dflt =
  if String.eqb k k0 then p else Dict.get_or d k dflt.
Proof. unfold Dict.get_or. simpl. now destruct (String.eqb k k0). Qed.

Lemma strategy_sum_fold_at (probs d : Dict.t Qc) (k : string) :
  Dict.wf probs ->
  Dict.get_or (fold_left strategy_sum_step probs d) k 0 =
  Dict.get_or d k 0 + Dict.get_or probs k 0.
Proof.
  unfold Dict.wf. revert d.
  induction probs as [|[k0 p] probs IH]; intros d Hnd; cbn [fold_left].
  - change (Dict.get_or [] k 0) with (Q2Qc 0). ring.
  - simpl in Hnd. inversion Hnd as [|? ? Hni Hnd']; subst.
    rewrite IH by assumption. rewrite strategy_sum_step_at, dict_get_or_cons.
    destruct (String.eqb k k0) eqn:E; [|reflexivity].
    apply String.eqb_eq in E. subst k0.
    apply dict_get_None in Hni. unfold Dict.get_or at 2. rewrite Hni. ring.
Qed.

Lemma strategy_sum_fold_fresh (probs d : Dict.t Qc) :
  Dict.wf probs -> (forall k, In k (Dict.keys probs) -> ~ In k (Dict.keys d)) ->
  fold_left strategy_sum_step probs d = d ++ map (fun kv => (fst kv, 0 + snd kv)) probs.
Proof.
  unfold Dict.wf. revert d.
  induction probs as [|[k p] probs IH]; intros d Hnd Hdis; cbn [fold_left].
  - simpl. now rewrite app_nil_r.
  - simpl in Hnd. inversion Hnd as [|? ? Hni Hnd']; subst.
    assert (Hk : ~ In k (Dict.keys d)) by (apply Hdis; now left).
    assert (E : strategy_sum_step d (k, p) = d ++ [(k, 0 + p)]).
    { unfold strategy_sum_step. cbn [fst snd].
      assert (G : Dict.get d k = None) by now apply dict_get_None.
      unfold Dict.touch. rewrite G.
      assert (S1 : Dict.set (d ++ [(k, Q2Qc 0)]) k
                     (Dict.get_or (d ++ [(k, Q2Qc 0)]) k 0 + p)
                   = d ++ [(k, 0 + p)]).
      { unfold Dict.get_or. rewrite dict_get_app_absent, G, String.eqb_refl.
        clear - Hk. induction d as [|[k1 v1] d IHd]; simpl.
        - now rewrite String.eqb_refl.
        - destruct (String.eqb k k1) eqn:E1.
          + apply String.eqb_eq in E1. subst. simpl in Hk. tauto.
          + f_equal. apply IHd. simpl in Hk. tauto. }
      exact S1. }
    rewrite E, IH; [simpl; now rewrite <- app_assoc|assumption|].
    intros k' Hk'. unfold Dict.keys. rewrite map_app, in_app_iff. simpl.
    intros [H|[H|[]]].
    + apply (Hdis k'); [now right|exact H].
    + congruence.
Qed.

Lemma pysum_map_plus {A} (f g : A -> Qc) (xs : list A) :
  pysum (map (fun x => f x + g x) xs) = pysum (map f xs) + pysum (map g xs).
Proof.
  induction xs as [|x xs IH]; simpl.
  - rewrite pysum_nil. ring.
  - rewrite !pysum_cons, IH. ring.
Qed.

(** Adding a distribution over the catalog to the accumulator. *)
Lemma record_sum_ok (d probs : Dict.t Qc) :
  distribution_over catalog probs ->
  d = [] \/ (Dict.keys d = catalog /\ Forall (Qcle 0) (Dict.values d)) ->
  let d' := fold_left strategy_sum_step probs d in
  Dict.keys d' = catalog /\ Forall (Qcle 0) (Dict.values d') /\
  pysum (Dict.values d') = pysum (Dict.values d) + 1.
Proof.
  intros (Hk & Hnn & Hsum) Hd d'.
  assert (Hwf : Dict.wf probs) by (unfold Dict.wf; rewrite Hk; apply catalog_nodup).
  destruct Hd as [-> | (Hkd & Hnnd)].
  - subst d'. rewrite strategy_sum_fold_fresh by (assumption || intros ? _ []).
    cbn [app]. split; [|split].
    + unfold Dict.keys. rewrite map_map. exact Hk.
    + unfold Dict.values. rewrite map_map. apply List.Forall_forall.
      intros x Hx. apply in_map_iff in Hx as ([k p] & <- & Hin). simpl.
      rewrite Qcplus_0_l. rewrite List.Forall_forall in Hnn. apply Hnn.
      change p with (snd (k, p)). now apply in_map.
    + unfold Dict.values. rewrite map_map. simpl.
      rewrite <- Hsum. change (pysum []) with (Q2Qc 0). rewrite Qcplus_0_l.
      f_equal. apply map_ext. intros [k p]. simpl. ring.
  - assert (Hk' : Dict.keys d' = catalog).
    { subst d'. rewrite strategy_sum_fold_keys; [exact Hkd|].
      intros k. now rewrite Hk, Hkd. }
    assert (Hwf' : Dict.wf d') by (unfold Dict.wf; rewrite Hk'; apply catalog_nodup).
    assert (Hwfd : Dict.wf d) by (unfold Dict.wf; rewrite Hkd; apply catalog_nodup).
    assert (Hv : Dict.values d' =
                 map (fun k => Dict.get_or d k 0 + Dict.get_or probs k 0) catalog).
    { rewrite (dict_values_get d' Hwf'), Hk'. apply map_ext. intros k.
      subst d'. now apply strategy_sum_fold_at. }
    split; [exact Hk'|]. rewrite Hv. split.
    + apply List.Forall_forall. intros x Hx. apply in_map_iff in Hx as (k & <- & Hin).
      apply Qcplus_nonneg_nonneg.
      * rewrite (dict_values_get d Hwfd), Hkd, List.Forall_forall in Hnnd.
        apply Hnnd. now apply (in_map (fun k => Dict.get_or d k 0)).
      * rewrite (dict_values_get probs Hwf), Hk, List.Forall_forall in Hnn.
        apply Hnn. now apply (in_map (fun k => Dict.get_or probs k 0)).
    + rewrite pysum_map_plus.
      rewrite (dict_values_get d Hwfd), Hkd.
      rewrite (dict_values_get probs Hwf), Hk in Hsum. now rewrite Hsum.
Qed.

Lemma learning_round_strategy_sum (sqrt : Qc -> Qc) (L L' : CFRRegretMinimizer.t)
    (values : Dict.t Qc) (u : Qc) :
  Dict.keys values = catalog ->
  DynamicRegretAnalyzer.learning_round sqrt L values u = Some L' ->
  strategy_sum L' = fold_left strategy_sum_step (policy_of L catalog) (strategy_sum L) /\
  iteration_history L' <> [].
Proof.
  intros Hk. unfold DynamicRegretAnalyzer.learning_round. rewrite Hk.
  rewrite (get_strategy_probabilities_spec L catalog catalog_nodup).
  set (L1 := set_regret_sum L _).
  unfold select_strategy.
  pose proof (get_strategy_probabilities_frame L1 catalog) as F2.
  destruct (get_strategy_probabilities L1 catalog) as [L2 probs2].
  destruct (choice probs2 u) as [sel|]; [|discriminate].
  destruct (Dict.get values sel) as [v|]; [|discriminate].
  intros [= <-]. cbn [strategy_sum iteration_history record_iteration].
  destruct (update_regrets_strategy_sum sqrt L2 values sel) as (E1 & _).
  rewrite E1. destruct F2 as (E2 & _). cbn [fst] in E2. rewrite E2.
  split; [reflexivity|]. intros H. now apply app_eq_nil in H as [_ ?].
Qed.

Lemma learning_round_ok (sqrt : Qc -> Qc) (L L' : CFRRegretMinimizer.t)
    (values : Dict.t Qc) (u : Qc) :
  Dict.keys values = catalog ->
  DynamicRegretAnalyzer.learning_round sqrt L values u = Some L' ->
  strategy_sum_ok L ->
  strategy_sum_ok L' /\
  pysum (Dict.values (strategy_sum L')) = pysum (Dict.values (strategy_sum L)) + 1.
Proof.
  intros Hk Hround Hok.
  destruct (learning_round_strategy_sum sqrt L L' values u Hk Hround) as (E & Hne).
  pose proof (policy_of_distribution L catalog catalog_nonempty) as Hdist.
  assert (Hd : strategy_sum L = [] \/
               (Dict.keys (strategy_sum L) = catalog /\
                Forall (Qcle 0) (Dict.values (strategy_sum L)))).
  { destruct Hok as [(H & _)|(H1 & H2 & _)]; [left; exact H|right; split; assumption]. }
  assert (Hpos : 0 <= pysum (Dict.values (strategy_sum L))).
  { destruct Hok as [(H & _)|(_ & H2 & _)].
    - rewrite H. apply Qcle_refl.
    - apply pysum_nonneg, H2. }
  destruct (record_sum_ok (strategy_sum L) (policy_of L catalog) Hdist Hd)
    as (K1 & K2 & K3).
  rewrite <- E in K1, K2, K3. split; [|exact K3].
  right. split; [exact K1|]. split; [exact K2|]. split; [|exact Hne].
  rewrite K3. apply Qcplus_nonneg_pos; [exact Hpos|reflexivity].
Qed.

Lemma reachable_strategy_sum_ok (sqrt : Qc -> Qc) (L : CFRRegretMinimizer.t) :
  reachable_learner sqrt L -> strategy_sum_ok L.
Proof.
  induction 1 as [|L L' values u _ IH Hk Hround].
  - left. now split.
  - eapply learning_round_ok; eauto.
Qed.

Lemma average_strategy_distribution (L : CFRRegretMinimizer.t) :
  strategy_sum_ok L ->
  (iteration_history L = [] /\ get_average_strategy L = []) \/
  (iteration_history L <> [] /\ distribution_over catalog (get_average_strategy L)).
Proof.
  intros [(E1 & E2)|(Hk & Hnn & Hpos & Hne)].
  - left. split; [exact E2|]. unfold get_average_strategy. now rewrite E1.
  - right. split; [exact Hne|]. unfold get_average_strategy.
    apply Qcltb_lt in Hpos as Hb. rewrite Hb. unfold distribution_over.
    rewrite dict_keys_map_values, dict_values_map_values.
    split; [exact Hk|]. split.
    + apply List.Forall_forall. intros x Hx. apply in_map_iff in Hx as (r & <- & Hr).
      apply Qcdiv_nonneg; [|assumption].
      rewrite List.Forall_forall in Hnn. now apply Hnn.
    + rewrite pysum_map_div. now apply Qcdiv_self.
Qed.

(** C2 (as the code has it).  [get_strategy_probabilities] over the catalog
    returns, in every learner state, non-negative probabilities that sum to
    1 over the six catalog strategies, and the uniform distribution when no
    strategy has positive accumulated regret.  [get_average_strategy]
    returns such a distribution in every reachable learner state in which
    an iteration has been recorded; before the first recorded iteration it
    returns the empty dictionary. *)
Theorem C2_policies_are_distributions (sqrt : Qc -> Qc) (L : CFRRegretMinimizer.t) :
  (let policy := snd (get_strategy_probabilities L catalog) in
   distribution_over catalog policy /\
   ((forall s, In s catalog -> regret_of L s <= 0) ->
    policy = uniform_policy catalog)) /\
  (reachable_learner sqrt L ->
   (iteration_history L = [] /\ get_average_strategy L = []) \/
   (iteration_history L <> [] /\ distribution_over catalog (get_average_strategy L))).
Proof.
  split.
  - rewrite (get_strategy_probabilities_spec L catalog catalog_nodup). cbn [snd].
    split.
    + apply policy_of_distribution, catalog_nonempty.
    + apply policy_of_uniform.
  - intros Hr. apply average_strategy_distribution.
    eapply reachable_strategy_sum_ok, Hr.
Qed.

(** C2 as stated fails for [get_average_strategy]: in the fresh learner,
    which is reachable, it returns the empty dictionary, whose
    probabilities sum to 0 over no strategy at all. *)
Lemma C2_average_policy_counterexample :
  reachable_learner (fun x => x) CFRRegretMinimizer.init /\
  ~ distribution_over catalog (get_average_strategy CFRRegretMinimizer.init).
Proof.
  split; [constructor|]. intros (H & _). discriminate H.
Qed.

Lemma C3_update_regrets_witness :
  [("A", qz 1); ("B", qz 3)] <> [] /\
  Dict.wf [("A", qz 1); ("B", qz 3)] /\
  total_iterations
    (update_regrets (fun x => x) CFRRegretMinimizer.init
                    [("A", qz 1); ("B", qz 3)] "A") = 1%Z.
Proof.
  assert (H1 : [("A", qz 1); ("B", qz 3)] <> []) by discriminate.
  assert (H2 : Dict.wf [("A", qz 1); ("B", qz 3)]).
  { unfold Dict.wf. simpl. constructor; [simpl; intuition discriminate|].
    constructor; [simpl; tauto|constructor]. }
  split; [exact H1|]. split; [exact H2|].
  exact (proj2 (proj2 (proj2
           (proj2 (C3_update_regrets (fun x => x) CFRRegretMinimizer.init "A")
                  [("A", qz 1); ("B", qz 3)] H1 H2)))).
Defined.

(** ** Strategy generator: the padding invariant *)


Lemma times_both_balanced (n : nat) (a b : Action) (acc : Seqs) :
  balanced acc ->
  balanced (times n (fun acc => append_doctor b (append_nurse a acc)) acc).
Proof.
  unfold times, balanced. intros H. induction n as [|n IH]; simpl; [exact H|].
  rewrite !length_app. simpl. lia.
Qed.

Lemma critical_first_step_balanced (acc : Seqs) (p : Patient.t) :
  balanced acc -> balanced (critical_first_step acc p).
Proof.
  intros H. unfold critical_first_step.
  destruct (bool_decide (Patient.ptype p = Critical)); now apply times_both_balanced.
Qed.

Lemma both_step_balanced (acc : Seqs) (p : Patient.t) :
  balanced acc -> balanced (both_step acc p).
Proof. intros H. now apply times_both_balanced. Qed.

Lemma fold_balanced (step : Seqs -> Patient.t -> Seqs) (ps : list Patient.t) (acc : Seqs) :
  (forall acc p, balanced acc -> balanced (step acc p)) ->
  balanced acc -> balanced (fold_left step ps acc).
Proof.
  intros Hstep. revert acc. induction ps as [|p ps IH]; intros acc H; simpl; auto.
Qed.

Lemma pad_balanced (acc : Seqs) : balanced (pad acc).
Proof.
  unfold pad, balanced. cbn [fst snd]. rewrite !length_app, !repeat_length. lia.
Qed.

(** C6. For every roster and every catalog strategy, the generated nurse and
    doctor action sequences have the same length. *)
Theorem C6_sequences_equal_length (patients : list Patient.t) (name : string) :
  In name catalog ->
  exists nurse_actions doctor_actions,
    generate_action_sequences patients name = Some (nurse_actions, doctor_actions) /\
    length nurse_actions = length doctor_actions.
Proof.
  intros Hin.
  assert (Hb : balanced ([], [])) by reflexivity.
  assert (G : exists seqs, generate_action_sequences patients name = Some seqs /\
                           balanced seqs).
  { unfold catalog in Hin. simpl in Hin.
    destruct Hin as [<-|[<-|[<-|[<-|[<-|[<-|[]]]]]]];
      eexists; (split; [reflexivity|]).
    - apply fold_balanced; [apply critical_first_step_balanced|exact Hb].
    - apply fold_balanced; [apply both_step_balanced|exact Hb].
    - apply pad_balanced.
    - apply fold_balanced; [apply both_step_balanced|exact Hb].
    - apply pad_balanced.
    - apply pad_balanced. }
  destruct G as ([n d] & E & B). exists n, d. split; [exact E|exact B].
Qed.

Lemma C6_sequences_equal_length_witness :
  In "NURSE_TRIAGE_DOCTOR_TREAT" catalog /\
  exists nurse_actions doctor_actions,
    generate_action_sequences
      [Patient.new 1 Critical (qz 30) (PATHWAYS Critical) 0 0 0 [] 0 false;
       Patient.new 2 Minor (qz 70) (PATHWAYS Minor) 0 0 0 [] 0 false]
      "NURSE_TRIAGE_DOCTOR_TREAT" = Some (nurse_actions, doctor_actions) /\
    length nurse_actions = length doctor_actions.
Proof.
  assert (H : In "NURSE_TRIAGE_DOCTOR_TREAT" catalog).
  { unfold catalog. simpl. tauto. }
  split; [exact H|]. apply (C6_sequences_equal_length _ _ H).
Defined.

(** ** Plan compiler: what the primary generation emits *)

Lemma treats_some (strategy : string) (p : Patient.t) (room : string) :
  nurse_treats strategy p room || doctor_treats strategy p room = true.
Proof.
  unfold nurse_treats, doctor_treats.
  destruct (String.eqb strategy "DOCTOR_CRITICAL_NURSE_OTHERS").
  - now destruct (bool_decide (Patient.ptype p = Critical)).
  - destruct (String.eqb strategy "NURSE_TRIAGE_DOCTOR_TREAT"); [|reflexivity].
    now destruct (String.eqb room "TRIAGE").
Qed.

Lemma room_step_commands (strategy : string) (p : Patient.t) (a : Acc) (room : string) :
  let from := default "WAITING" (patient_locations a !! Patient.id p) in
  nurse_commands (room_step strategy p a room)
    = nurse_commands a ++ nurse_cmds_for strategy p room from /\
  doctor_commands (room_step strategy p a room)
    = doctor_commands a ++ doctor_cmds_for strategy p room from /\
  has_doctor_commands (room_step strategy p a room)
    = has_doctor_commands a || doctor_treats strategy p room.
Proof.
  intros from. subst from.
  unfold room_step, nurse_cmds_for, doctor_cmds_for, nurse_treats, doctor_treats.
  destruct (String.eqb strategy "DOCTOR_CRITICAL_NURSE_OTHERS") eqn:E1.
  { apply String.eqb_eq in E1. subst strategy. cbn [String.eqb Ascii.eqb Bool.eqb].
    destruct (bool_decide (Patient.ptype p = Critical)); cbn;
      rewrite ?app_nil_r, ?orb_true_r, ?orb_false_r; auto. }
  destruct (String.eqb strategy "NURSE_TRIAGE_DOCTOR_TREAT") eqn:E2.
  { destruct (String.eqb room "TRIAGE"); cbn;
      rewrite ?app_nil_r, ?orb_true_r, ?orb_false_r, <- ?app_assoc; auto. }
  destruct (String.eqb strategy "PARALLEL_CRITICAL") eqn:E3.
  { destruct (bool_decide (Patient.ptype p = Critical)); cbn;
      rewrite ?app_nil_r, ?orb_true_r, ?orb_false_r; auto. }
  destruct (String.eqb strategy "COOPERATIVE_ALL") eqn:E4.
  { cbn; rewrite ?app_nil_r, ?orb_true_r, ?orb_false_r; auto. }
  destruct (bool_decide (Patient.ptype p = Critical)); cbn [andb];
    [destruct (String.eqb room "TB" || String.eqb room "ICU")|]; cbn;
    rewrite ?app_nil_r, ?orb_true_r, ?orb_false_r; auto.
Qed.

Section Projection.
(** A view [view] of command lists that is compatible with appending and
    blind to LEAVE_PATIENT commands and to the [from_room] field. *)
Context {B : Type} (view : list Command.t -> list B).
Variable strategy : string.
Variables gn gd : Patient.t -> string -> list B.
Hypothesis view_app : forall l1 l2, view (l1 ++ l2) = view l1 ++ view l2.
Hypothesis view_leave : forall r i, view [Command.leave r i] = [].
Hypothesis view_nurse :
  forall p room from, view (nurse_cmds_for strategy p room from) = gn p room.
Hypothesis view_doctor :
  forall p room from, view (doctor_cmds_for strategy p room from) = gd p room.

Lemma rooms_fold_view (p : Patient.t) (rooms : list string) (a : Acc) :
  let a' := fold_left (room_step strategy p) rooms a in
  view (nurse_commands a') = view (nurse_commands a) ++ flat_map (gn p) rooms /\
  view (doctor_commands a') = view (doctor_commands a) ++ flat_map (gd p) rooms.
Proof.
  revert a. induction rooms as [|room rooms IH]; intros a; cbn [fold_left flat_map].
  - now rewrite !app_nil_r.
  - destruct (IH (room_step strategy p a room)) as (IHn & IHd).
    destruct (room_step_commands strategy p a room) as (En & Ed & _).
    cbv zeta in *. rewrite IHn, IHd, En, Ed, !view_app, view_nurse, view_doctor.
    now rewrite <- !app_assoc.
Qed.

Lemma patient_step_view (a : Acc) (p : Patient.t) :
  view (nurse_commands (patient_step strategy a p))
    = view (nurse_commands a) ++ flat_map (gn p) (Patient.pathway p) /\
  view (doctor_commands (patient_step strategy a p))
    = view (doctor_commands a) ++ flat_map (gd p) (Patient.pathway p).
Proof.
  unfold patient_step.
  destruct (rooms_fold_view p (Patient.pathway p) (set_has_doctor false a))
    as (En & Ed).
  cbv zeta in *. cbn [set_has_doctor nurse_commands doctor_commands] in En, Ed.
  match goal with |- context [if ?c then _ else _] => destruct c end.
  - cbn [doctor_leave nurse_commands doctor_commands].
    rewrite view_app, view_leave, app_nil_r. now split.
  - now split.
Qed.

Lemma patients_fold_view (ps : list Patient.t) (a : Acc) :
  let a' := fold_left (patient_step strategy) ps a in
  view (nurse_commands a')
    = view (nurse_commands a)
      ++ flat_map (fun p => flat_map (gn p) (Patient.pathway p)) ps /\
  view (doctor_commands a')
    = view (doctor_commands a)
      ++ flat_map (fun p => flat_map (gd p) (Patient.pathway p)) ps.
Proof.
  revert a. induction ps as [|p ps IH]; intros a; cbn [fold_left flat_map].
  - now rewrite !app_nil_r.
  - destruct (IH (patient_step strategy a p)) as (IHn & IHd).
    destruct (patient_step_view a p) as (En & Ed).
    cbv zeta in *. rewrite IHn, IHd, En, Ed. now rewrite <- !app_assoc.
Qed.

Hypothesis view_nil : view [] = [].

Lemma primary_view (ps : list Patient.t) :
  view (nurse_commands (primary_commands strategy ps))
    = flat_map (fun p => flat_map (gn p) (Patient.pathway p)) ps /\
  view (doctor_commands (primary_commands strategy ps))
    = flat_map (fun p => flat_map (gd p) (Patient.pathway p)) ps.
Proof.
  unfold primary_commands.
  match goal with |- context [fold_left _ ps ?a0] =>
    destruct (patients_fold_view ps a0) as (En & Ed) end.
  cbv zeta in *. cbn [nurse_commands doctor_commands] in En, Ed.
  rewrite view_nil in En, Ed. now split.
Qed.
End Projection.

Lemma treat_targets_app (pid : Z) (l1 l2 : list Command.t) :
  treat_targets pid (l1 ++ l2) = treat_targets pid l1 ++ treat_targets pid l2.
Proof. unfold treat_targets. now rewrite List.filter_app, map_app. Qed.

Lemma escort_treat_ids_app (l1 l2 : list Command.t) :
  escort_treat_ids (l1 ++ l2) = escort_treat_ids l1 ++ escort_treat_ids l2.
Proof. unfold escort_treat_ids. now rewrite List.filter_app, map_app. Qed.

Lemma treat_targets_nurse (strategy : string) (pid : Z) (p : Patient.t)
    (room from : string) :
  treat_targets pid (nurse_cmds_for strategy p room from)
  = if Z.eqb (Patient.id p) pid && nurse_treats strategy p room then [room] else [].
Proof.
  unfold nurse_cmds_for. destruct (nurse_treats strategy p room);
    [|now rewrite andb_false_r].
  rewrite andb_true_r.
  destruct (String.eqb strategy "NURSE_TRIAGE_DOCTOR_TREAT");
    unfold treat_targets, is_treat_for; cbn;
    now destruct (Z.eqb (Patient.id p) pid).
Qed.

Lemma treat_targets_doctor (strategy : string) (pid : Z) (p : Patient.t)
    (room from : string) :
  treat_targets pid (doctor_cmds_for strategy p room from)
  = if Z.eqb (Patient.id p) pid && doctor_treats strategy p room then [room] else [].
Proof.
  unfold doctor_cmds_for. destruct (doctor_treats strategy p room);
    [|now rewrite andb_false_r].
  rewrite andb_true_r. unfold treat_targets, is_treat_for; cbn.
  now destruct (Z.eqb (Patient.id p) pid).
Qed.

Lemma escort_treat_ids_nurse (strategy : string) (p : Patient.t) (room from : string) :
  escort_treat_ids (nurse_cmds_for strategy p room from)
  = if nurse_treats strategy p room then [Patient.id p; Patient.id p] else [].
Proof.
  unfold nurse_cmds_for. destruct (nurse_treats strategy p room); [|reflexivity].
  now destruct (String.eqb strategy "NURSE_TRIAGE_DOCTOR_TREAT").
Qed.

Lemma flat_map_guard {A} (b : bool) (f : A -> bool) (xs : list A) :
  flat_map (fun x => if b && f x then [x] else []) xs
  = if b then List.filter f xs else [].
Proof.
  destruct b; cbn [andb].
  - induction xs as [|x xs IH]; simpl; [reflexivity|].
    rewrite IH. now destruct (f x).
  - induction xs as [|x xs IH]; simpl; auto.
Qed.

Lemma flat_map_none {A B} (key : A -> Z) (k : Z) (h : A -> list B) (xs : list A) :
  ~ In k (map key xs) ->
  flat_map (fun x => if Z.eqb (key x) k then h x else []) xs = [].
Proof.
  induction xs as [|y ys IH]; simpl; [reflexivity|]. intros Hni.
  destruct (Z.eqb_spec (key y) k) as [Ey|Ey]; [tauto|]. simpl. apply IH. tauto.
Qed.

Lemma flat_map_select {A B} (key : A -> Z) (h : A -> list B) (xs : list A) (x0 : A) :
  List.NoDup (map key xs) -> In x0 xs ->
  flat_map (fun x => if Z.eqb (key x) (key x0) then h x else []) xs = h x0.
Proof.
  induction xs as [|x xs IH]; simpl; [tauto|].
  intros Hnd Hin. inversion Hnd as [|? ? Hni Hnd']; subst.
  destruct Hin as [->|Hin].
  - rewrite Z.eqb_refl, flat_map_none by assumption. apply app_nil_r.
  - destruct (Z.eqb_spec (key x) (key x0)) as [Ex|Ex].
    + exfalso. apply Hni. rewrite Ex. now apply in_map.
    + simpl. now apply IH.
Qed.

Lemma Covers_filter (f g : string -> bool) (path : list string) :
  (forall r, f r || g r = true) -> Covers path (List.filter f path) (List.filter g path).
Proof.
  intros H. induction path as [|r path IH]; simpl; [constructor|].
  specialize (H r). destruct (f r), (g r); try discriminate; now constructor.
Qed.

(** [sorted] only reorders. *)
Lemma insert_by_perm {A} (key : A -> Qc) (x : A) (l : list A) :
  Permutation (insert_by key x l) (x :: l).
Proof.
  induction l as [|y l IH]; simpl; [reflexivity|].
  destruct (Qcltb (key y) (key x)); [|reflexivity].
  rewrite IH. apply perm_swap.
Qed.

Lemma sorted_by_perm {A} (key : A -> Qc) (l : list A) :
  Permutation (sorted_by key l) l.
Proof.
  induction l as [|x l IH]; simpl; [reflexivity|].
  rewrite insert_by_perm. now constructor.
Qed.

Lemma ordered_roster_perm (info : Info) (ps : list Patient.t) :
  Permutation (ordered_roster info ps) ps.
Proof.
  unfold ordered_roster.
  match goal with |- context [if ?c then _ else _] => destruct c end;
    [apply sorted_by_perm|reflexivity].
Qed.

Lemma catalog_get (strategy : string) :
  In strategy catalog -> exists info, Dict.get STRATEGIES strategy = Some info.
Proof.
  unfold catalog. simpl.
  intros [<-|[<-|[<-|[<-|[<-|[<-|[]]]]]]]; eexists; reflexivity.
Qed.

(** The primary strategy-specific generation, without the repair pass,
    covers every patient of a roster with distinct ids: the TREAT commands
    of the two lists for a patient hold one entry per pathway location, in
    pathway order. *)
Lemma primary_coverage (patients : list Patient.t) (strategy : string) :
  In strategy catalog ->
  List.NoDup (map Patient.id patients) ->
  exists a,
    primary_for strategy patients = Some a /\
    forall p, In p patients ->
      Covers (Patient.pathway p)
             (treat_targets (Patient.id p) (nurse_commands a))
             (treat_targets (Patient.id p) (doctor_commands a)).
Proof.
  intros Hcat Hnd. destruct (catalog_get strategy Hcat) as (info & Hinfo).
  unfold primary_for. rewrite Hinfo. eexists. split; [reflexivity|].
  intros p Hp.
  pose proof (ordered_roster_perm info patients) as Hperm.
  set (roster := ordered_roster info patients) in *.
  assert (Hnd' : List.NoDup (map Patient.id roster)).
  { eapply Permutation_NoDup; [|exact Hnd].
    apply Permutation_map, Permutation_sym, Hperm. }
  assert (Hp' : In p roster).
  { eapply Permutation_in; [apply Permutation_sym, Hperm|exact Hp]. }
  destruct (primary_view (treat_targets (Patient.id p)) strategy
              (fun q room => if Z.eqb (Patient.id q) (Patient.id p)
                                && nurse_treats strategy q room then [room] else [])
              (fun q room => if Z.eqb (Patient.id q) (Patient.id p)
                                && doctor_treats strategy q room then [room] else [])
              (treat_targets_app _) (fun _ _ => eq_refl)
              (fun q room from => treat_targets_nurse strategy _ q room from)
              (fun q room from => treat_targets_doctor strategy _ q room from)
              eq_refl roster) as (En & Ed).
  rewrite En, Ed.
  assert (Sel : forall f : string -> Patient.t -> string -> bool,
             flat_map (fun q => flat_map
                         (fun room => if Z.eqb (Patient.id q) (Patient.id p)
                                         && f strategy q room then [room] else [])
                         (Patient.pathway q)) roster
             = List.filter (f strategy p) (Patient.pathway p)).
  { intros f.
    rewrite <- (flat_map_select Patient.id
                  (fun q => List.filter (f strategy q) (Patient.pathway q))
                  roster p Hnd' Hp').
    apply flat_map_ext. intros q. apply flat_map_guard. }
  rewrite (Sel nurse_treats), (Sel doctor_treats).
  apply Covers_filter. intros r. apply treats_some.
Qed.

(** ** Plan compiler: the verification pass *)

Lemma nurse_covered_spec (cmds : list Command.t) (i : Z) :
  i ∈ nurse_covered cmds <-> (0 < i)%Z /\ In i (escort_treat_ids cmds).
Proof.
  unfold nurse_covered, escort_treat_ids.
  rewrite elem_of_list_to_set, list_elem_of_In, !in_map_iff. split.
  - intros (c & <- & Hc). apply list_elem_of_In, list_elem_of_filter in Hc.
    destruct Hc as ((Ha & Hpos) & Hc). split; [exact Hpos|].
    exists c. split; [reflexivity|]. apply filter_In.
    split; [now apply list_elem_of_In|]. unfold is_escort_or_treat.
    destruct Ha as [-> | ->]; reflexivity.
  - intros (Hpos & c & <- & Hc). apply filter_In in Hc as (Hc & Ha).
    exists c. split; [reflexivity|]. apply list_elem_of_In, list_elem_of_filter.
    split; [|now apply list_elem_of_In]. split; [|exact Hpos].
    unfold is_escort_or_treat in Ha. apply orb_true_iff in Ha.
    destruct Ha as [Ha|Ha]; apply String.eqb_eq in Ha; auto.
Qed.

Lemma escort_treat_ids_doctor (strategy : string) (p : Patient.t) (room from : string) :
  escort_treat_ids (doctor_cmds_for strategy p room from)
  = if doctor_treats strategy p room then [Patient.id p; Patient.id p] else [].
Proof. unfold doctor_cmds_for. now destruct (doctor_treats strategy p room). Qed.

Lemma primary_nurse_ids (strategy : string) (roster : list Patient.t) (i : Z) :
  In i (escort_treat_ids (nurse_commands (primary_commands strategy roster))) <->
  exists q, In q roster /\ Patient.id q = i /\
            exists room, In room (Patient.pathway q) /\
                         nurse_treats strategy q room = true.
Proof.
  destruct (primary_view escort_treat_ids strategy
              (fun q room => if nurse_treats strategy q room
                             then [Patient.id q; Patient.id q] else [])
              (fun q room => if doctor_treats strategy q room
                             then [Patient.id q; Patient.id q] else [])
              escort_treat_ids_app (fun _ _ => eq_refl)
              (escort_treat_ids_nurse strategy)
              (escort_treat_ids_doctor strategy)
              eq_refl roster) as (En & _).
  rewrite En, in_flat_map. split.
  - intros (q & Hq & Hi). apply in_flat_map in Hi as (room & Hroom & Hi).
    exists q. split; [exact Hq|].
    destruct (nurse_treats strategy q room) eqn:E; [|destruct Hi].
    split; [|now exists room]. simpl in Hi. tauto.
  - intros (q & Hq & <- & room & Hroom & E). exists q. split; [exact Hq|].
    apply in_flat_map. exists room. split; [exact Hroom|]. rewrite E. now left.
Qed.

Lemma NoDup_key_inj {A} (key : A -> Z) (xs : list A) (x y : A) :
  List.NoDup (map key xs) -> In x xs -> In y xs -> key x = key y -> x = y.
Proof.
  induction xs as [|z xs IH]; simpl; [tauto|].
  intros Hnd Hx Hy E. inversion Hnd as [|? ? Hni Hnd']; subst.
  destruct Hx as [->|Hx], Hy as [->|Hy]; auto.
  - exfalso. apply Hni. rewrite E. now apply in_map.
  - exfalso. apply Hni. rewrite <- E. now apply in_map.
Qed.

(** The patients the verification pass misses are those whose pathway
    steps all went to the doctor. *)
Lemma missed_by_spec (strategy : string) (ps : list Patient.t) (i : Z) :
  In strategy catalog ->
  List.NoDup (map Patient.id ps) ->
  Forall (fun p => (0 < Patient.id p)%Z) ps ->
  i ∈ missed_by strategy ps <->
  exists p, In p ps /\ Patient.id p = i /\
            forall room, In room (Patient.pathway p) ->
                         nurse_treats strategy p room = false.
Proof.
  intros Hcat Hnd Hpos. destruct (catalog_get strategy Hcat) as (info & Hinfo).
  unfold missed_by. rewrite Hinfo. cbv zeta.
  pose proof (ordered_roster_perm info ps) as Hperm.
  set (roster := ordered_roster info ps) in *.
  unfold missing_patients, all_patient_ids.
  rewrite elem_of_difference, elem_of_list_to_set, list_elem_of_In, in_map_iff.
  rewrite nurse_covered_spec, primary_nurse_ids.
  assert (Hmem : forall q, In q roster <-> In q ps).
  { intros q. split; apply Permutation_in; [exact Hperm|apply Permutation_sym, Hperm]. }
  rewrite List.Forall_forall in Hpos. split.
  - intros ((p & <- & Hp) & Hnot). apply Hmem in Hp. exists p.
    split; [exact Hp|]. split; [reflexivity|]. intros room Hroom.
    destruct (nurse_treats strategy p room) eqn:E; [|reflexivity].
    exfalso. apply Hnot. split; [now apply Hpos|].
    exists p. split; [now apply Hmem|]. split; [reflexivity|]. now exists room.
  - intros (p & Hp & <- & Hall). split.
    + exists p. split; [reflexivity|now apply Hmem].
    + intros (_ & q & Hq & Eq & room & Hroom & E). apply Hmem in Hq.
      assert (q = p) by (eapply NoDup_key_inj; eauto). subst q.
      rewrite (Hall room Hroom) in E. discriminate.
Qed.

(** C5 (as the code has it).  For a roster of patients with distinct
    positive ids and non-empty pathways, the set of patients the
    verification pass computes as missed is empty under PARALLEL_CRITICAL,
    SEQUENTIAL_SEVERITY, COOPERATIVE_ALL and NEAREST_FIRST; under
    DOCTOR_CRITICAL_NURSE_OTHERS it is exactly the set of Critical patients;
    under NURSE_TRIAGE_DOCTOR_TREAT it is exactly the set of patients whose
    pathway has no TRIAGE step. *)
Theorem C5_missed_patients (ps : list Patient.t) :
  List.NoDup (map Patient.id ps) ->
  Forall (fun p => (0 < Patient.id p)%Z /\ Patient.pathway p <> []) ps ->
  (forall strategy,
      In strategy ["PARALLEL_CRITICAL"; "SEQUENTIAL_SEVERITY";
                   "COOPERATIVE_ALL"; "NEAREST_FIRST"] ->
      missed_by strategy ps = ∅) /\
  (forall i, i ∈ missed_by "DOCTOR_CRITICAL_NURSE_OTHERS" ps <->
             exists p, In p ps /\ Patient.id p = i /\ Patient.ptype p = Critical) /\
  (forall i, i ∈ missed_by "NURSE_TRIAGE_DOCTOR_TREAT" ps <->
             exists p, In p ps /\ Patient.id p = i /\
                       ~ In "TRIAGE" (Patient.pathway p)).
Proof.
  intros Hnd Hall.
  assert (Hpos : Forall (fun p => (0 < Patient.id p)%Z) ps).
  { eapply List.Forall_impl; [|exact Hall]. now intros p (H & _). }
  rewrite List.Forall_forall in Hall.
  split; [|split].
  - intros strategy Hs. apply elem_of_equiv_empty_L. intros i Hi.
    assert (Hcat : In strategy catalog).
    { unfold catalog. simpl in *. tauto. }
    apply (missed_by_spec strategy ps i Hcat Hnd Hpos) in Hi
      as (p & Hp & _ & Hfalse).
    destruct (Hall p Hp) as (_ & Hne).
    destruct (Patient.pathway p) as [|room rest] eqn:E; [congruence|].
    specialize (Hfalse room (or_introl eq_refl)).
    simpl in Hs. destruct Hs as [<-|[<-|[<-|[<-|[]]]]]; discriminate Hfalse.
  - intros i. rewrite missed_by_spec; [|unfold catalog; simpl; tauto|exact Hnd|exact Hpos].
    split; intros (p & Hp & Ei & H); exists p; (split; [exact Hp|split; [exact Ei|]]).
    + destruct (Hall p Hp) as (_ & Hne).
      destruct (Patient.pathway p) as [|room rest] eqn:E; [congruence|].
      specialize (H room (or_introl eq_refl)). unfold nurse_treats in H. cbn in H.
      apply negb_false_iff, bool_decide_eq_true in H. exact H.
    + intros room _. unfold nurse_treats. cbn.
      apply negb_false_iff, bool_decide_eq_true. exact H.
  - intros i. rewrite missed_by_spec; [|unfold catalog; simpl; tauto|exact Hnd|exact Hpos].
    split; intros (p & Hp & Ei & H); exists p; (split; [exact Hp|split; [exact Ei|]]).
    + intros Hin. specialize (H _ Hin). discriminate H.
    + intros room Hroom. unfold nurse_treats. cbn.
      apply String.eqb_neq. intros ->. tauto.
Qed.

Lemma C5_missed_patients_witness :
  let ps := [Patient.new 1 Critical (qz 30) (PATHWAYS Critical) 0 0 0 [] 0 false;
             Patient.new 2 Minor (qz 70) (PATHWAYS Minor) 0 0 0 [] 0 false] in
  List.NoDup (map Patient.id ps) /\
  Forall (fun p => (0 < Patient.id p)%Z /\ Patient.pathway p <> []) ps /\
  missed_by "COOPERATIVE_ALL" ps = ∅.
Proof.
  intros ps.
  assert (H1 : List.NoDup (map Patient.id ps)).
  { simpl. constructor; [simpl; intuition discriminate|].
    constructor; [simpl; tauto|constructor]. }
  assert (H2 : Forall (fun p => (0 < Patient.id p)%Z /\ Patient.pathway p <> []) ps).
  { repeat constructor; discriminate. }
  split; [exact H1|]. split; [exact H2|].
  apply (proj1 (C5_missed_patients ps H1 H2)). simpl. tauto.
Defined.

(** C5 as stated fails: for a single Critical patient under
    DOCTOR_CRITICAL_NURSE_OTHERS the primary generation gives the nurse no
    command, the verification pass reports the patient as missed, and the
    fallback ESCORT and TREAT commands are synthesized for the nurse. *)
Lemma C5_repair_fires_counterexample :
  let p := Patient.new 1 Critical (qz 30) (PATHWAYS Critical) 0 0 0 [] (qz 25) true in
  In "DOCTOR_CRITICAL_NURSE_OTHERS" catalog /\
  elements (missed_by "DOCTOR_CRITICAL_NURSE_OTHERS" [p]) = [1%Z] /\
  option_map fst (_generate_unity_commands [p] "DOCTOR_CRITICAL_NURSE_OTHERS")
  = Some [Command.escort "TRIAGE" 1 "WAITING"; Command.treat "TRIAGE" 1;
          Command.escort "TB" 1 "WAITING"; Command.treat "TB" 1;
          Command.escort "ICU" 1 "WAITING"; Command.treat "ICU" 1].
Proof.
  split; [unfold catalog; simpl; tauto|]. split; vm_compute; reflexivity.
Qed.

(** ** Plan compiler: coverage of the returned lists *)

Lemma treat_targets_fallback (roster : list Patient.t) (pid i : Z) :
  treat_targets pid (fallback_for roster i)
  = if Z.eqb i pid
    then match List.find (fun p => bool_decide (Patient.id p = i)) roster with
         | Some q => Patient.pathway q
         | None => []
         end
    else [].
Proof.
  unfold fallback_for.
  destruct (List.find _ roster) as [q|]; [|now destruct (Z.eqb i pid)].
  induction (Patient.pathway q) as [|room path IH]; [now destruct (Z.eqb i pid)|].
  cbn [flat_map].
  rewrite treat_targets_app, IH. unfold treat_targets, is_treat_for. cbn.
  now destruct (Z.eqb i pid).
Qed.

Lemma treat_targets_flat_map {A} (pid : Z) (f : A -> list Command.t) (xs : list A) :
  treat_targets pid (flat_map f xs) = flat_map (fun x => treat_targets pid (f x)) xs.
Proof.
  induction xs as [|x xs IH]; [reflexivity|]. cbn [flat_map].
  now rewrite treat_targets_app, IH.
Qed.

Lemma treat_targets_ensure_nonempty (pid : Z) (cmds : list Command.t) :
  treat_targets pid (ensure_nonempty cmds) = treat_targets pid cmds.
Proof. now destruct cmds. Qed.

Lemma treat_targets_no_ids (pid : Z) (cmds : list Command.t) :
  ~ In pid (escort_treat_ids cmds) -> treat_targets pid cmds = [].
Proof.
  unfold treat_targets, escort_treat_ids, is_treat_for, is_escort_or_treat.
  induction cmds as [|c cmds IH]; [reflexivity|]. cbn [List.filter].
  destruct (String.eqb (Command.action c) "TREAT") eqn:Et.
  - rewrite orb_true_r. cbn [map andb]. intros Hni.
    destruct (Z.eqb_spec (Command.patient_id c) pid) as [E|E].
    + exfalso. apply Hni. now left.
    + apply IH. intros H. apply Hni. now right.
  - cbn [andb]. intros Hni. apply IH. intros H. apply Hni.
    destruct (String.eqb (Command.action c) "ESCORT" || false); [now right|exact H].
Qed.

Lemma find_by_id (roster : list Patient.t) (p : Patient.t) :
  List.NoDup (map Patient.id roster) -> In p roster ->
  List.find (fun q => bool_decide (Patient.id q = Patient.id p)) roster = Some p.
Proof.
  induction roster as [|q roster IH]; [intros _ []|]. cbn [map List.find].
  intros Hnd Hin. inversion Hnd as [|? ? Hni Hnd']; subst.
  destruct Hin as [->|Hin]; [now rewrite bool_decide_eq_true_2|].
  rewrite bool_decide_eq_false_2; [now apply IH|].
  intros E. apply Hni. rewrite E. now apply in_map.
Qed.

Lemma Covers_nurse_all (path d : list string) :
  Covers path [] d -> Covers path path d.
Proof.
  intros H. remember [] as n eqn:En.
  induction H as [|r path n d _ _|r path n d _ IH|r path n d _ _];
    [constructor|discriminate En| |discriminate En].
  apply Covers_both. now apply IH.
Qed.

(** With the repair pass: the lists that [_generate_unity_commands]
    returns cover every patient of a roster with distinct positive ids.
    For a patient the verification pass reports as missed the nurse's list
    had no TREAT command, and the fallback commands give it the whole
    pathway; the other patients keep their commands. *)
Lemma returned_coverage (patients : list Patient.t) (strategy : string) :
  In strategy catalog ->
  List.NoDup (map Patient.id patients) ->
  Forall (fun p => (0 < Patient.id p)%Z) patients ->
  exists nurse doctor,
    _generate_unity_commands patients strategy = Some (nurse, doctor) /\
    forall p, In p patients ->
      Covers (Patient.pathway p)
             (treat_targets (Patient.id p) nurse)
             (treat_targets (Patient.id p) doctor).
Proof.
  intros Hcat Hnd Hpos.
  destruct (primary_coverage patients strategy Hcat Hnd) as (a & Ha & Hcov).
  destruct (catalog_get strategy Hcat) as (info & Hinfo).
  unfold primary_for in Ha. rewrite Hinfo in Ha. injection Ha as <-.
  unfold _generate_unity_commands. rewrite Hinfo. cbv zeta.
  pose proof (ordered_roster_perm info patients) as Hperm.
  set (roster := ordered_roster info patients) in *.
  set (nc := nurse_commands (primary_commands strategy roster)) in *.
  eexists _, _. split; [reflexivity|]. intros p Hp.
  specialize (Hcov p Hp).
  assert (Hnd' : List.NoDup (map Patient.id roster)).
  { eapply Permutation_NoDup; [|exact Hnd].
    apply Permutation_map, Permutation_sym, Hperm. }
  assert (Hp' : In p roster).
  { eapply Permutation_in; [apply Permutation_sym, Hperm|exact Hp]. }
  rewrite !treat_targets_ensure_nonempty. unfold repair.
  rewrite treat_targets_app, treat_targets_flat_map.
  rewrite (flat_map_ext _
             (fun i => if Z.eqb i (Patient.id p)
                       then match List.find (fun q => bool_decide (Patient.id q = i))
                                            roster with
                            | Some q => Patient.pathway q
                            | None => []
                            end
                       else []))
    by (intros i; apply treat_targets_fallback).
  destruct (decide (Patient.id p ∈ missing_patients roster nc)) as [Hmiss|Hmiss].
  - rewrite (flat_map_select (fun i : Z => i)
               (fun i => match List.find (fun q => bool_decide (Patient.id q = i))
                                         roster with
                         | Some q => Patient.pathway q
                         | None => []
                         end)
               (elements (missing_patients roster nc)) (Patient.id p)).
    + rewrite (find_by_id roster p Hnd' Hp').
      rewrite treat_targets_no_ids in Hcov |- *.
      * now apply Covers_nurse_all.
      * intros Hin. unfold missing_patients in Hmiss.
        apply elem_of_difference in Hmiss as (_ & Hnot). apply Hnot.
        apply nurse_covered_spec. split; [|exact Hin].
        exact (proj1 (List.Forall_forall _ _) Hpos p Hp).
      * intros Hin. unfold missing_patients in Hmiss.
        apply elem_of_difference in Hmiss as (_ & Hnot). apply Hnot.
        apply nurse_covered_spec. split; [|exact Hin].
        exact (proj1 (List.Forall_forall _ _) Hpos p Hp).
    + rewrite map_id. apply NoDup_ListNoDup, NoDup_elements.
    + apply list_elem_of_In, elem_of_elements, Hmiss.
  - rewrite (flat_map_none (fun i : Z => i)).
    + now rewrite app_nil_r.
    + rewrite map_id. intros Hin. apply Hmiss.
      now apply elem_of_elements, list_elem_of_In.
Qed.

(** C4. For every catalog strategy and every roster of patients with
    distinct ids, the primary strategy-specific generation, without the
    repair pass, covers every patient: the TREAT commands of the two lists
    for a patient hold one entry per pathway location, in pathway order.
    When the ids are positive, as [spawn_patient] and [create_scenario]
    number them, the two command lists that [_generate_unity_commands]
    returns, after the repair pass and the pass that keeps the lists
    non-empty, cover every patient in the same way. *)
Theorem C4_coverage (patients : list Patient.t) (strategy : string) :
  In strategy catalog ->
  List.NoDup (map Patient.id patients) ->
  (exists a,
     primary_for strategy patients = Some a /\
     forall p, In p patients ->
       Covers (Patient.pathway p)
              (treat_targets (Patient.id p) (nurse_commands a))
              (treat_targets (Patient.id p) (doctor_commands a))) /\
  (Forall (fun p => (0 < Patient.id p)%Z) patients ->
   exists nurse doctor,
     _generate_unity_commands patients strategy = Some (nurse, doctor) /\
     forall p, In p patients ->
       Covers (Patient.pathway p)
              (treat_targets (Patient.id p) nurse)
              (treat_targets (Patient.id p) doctor)).
Proof.
  intros Hcat Hnd. split.
  - exact (primary_coverage patients strategy Hcat Hnd).
  - exact (returned_coverage patients strategy Hcat Hnd).
Qed.

Lemma C4_coverage_witness :
  let ps := [Patient.new 1 Critical (qz 30) (PATHWAYS Critical) 0 0 0 [] 0 false;
             Patient.new 2 Minor (qz 70) (PATHWAYS Minor) 0 0 0 [] 0 false] in
  In "DOCTOR_CRITICAL_NURSE_OTHERS" catalog /\
  List.NoDup (map Patient.id ps) /\
  Forall (fun p => (0 < Patient.id p)%Z) ps /\
  (exists a,
     primary_for "DOCTOR_CRITICAL_NURSE_OTHERS" ps = Some a /\
     forall p, In p ps ->
       Covers (Patient.pathway p)
              (treat_targets (Patient.id p) (nurse_commands a))
              (treat_targets (Patient.id p) (doctor_commands a))) /\
  exists nurse doctor,
    _generate_unity_commands ps "DOCTOR_CRITICAL_NURSE_OTHERS" = Some (nurse, doctor) /\
    forall p, In p ps ->
      Covers (Patient.pathway p)
             (treat_targets (Patient.id p) nurse)
             (treat_targets (Patient.id p) doctor).
Proof.
  intros ps.
  assert (H1 : In "DOCTOR_CRITICAL_NURSE_OTHERS" catalog).
  { unfold catalog. simpl. tauto. }
  assert (H2 : List.NoDup (map Patient.id ps)).
  { simpl. constructor; [simpl; intuition discriminate|].
    constructor; [simpl; tauto|constructor]. }
  assert (H3 : Forall (fun p => (0 < Patient.id p)%Z) ps).
  { constructor; [cbn; lia|]. constructor; [cbn; lia|constructor]. }
  split; [exact H1|]. split; [exact H2|]. split; [exact H3|].
  split.
  - exact (proj1 (C4_coverage ps "DOCTOR_CRITICAL_NURSE_OTHERS" H1 H2)).
  - exact (proj2 (C4_coverage ps "DOCTOR_CRITICAL_NURSE_OTHERS" H1 H2) H3).
Defined.

Lemma Covers_nurse_length (path n d : list string) :
  Covers path n d -> (length n <= length path)%nat.
Proof. induction 1; cbn [length]; lia. Qed.

(** The ids must be positive for the returned lists: the verification pass
    counts only commands with a positive patient id, so a patient with id 0
    is reported as missed although the nurse has its commands, and the
    fallback commands repeat its pathway in the nurse's list. *)
Lemma coverage_needs_positive_ids :
  let p := Patient.new 0 Minor (qz 70) (PATHWAYS Minor) 0 0 0 [] 0 false in
  exists nurse doctor,
    _generate_unity_commands [p] "SEQUENTIAL_SEVERITY" = Some (nurse, doctor) /\
    treat_targets 0 nurse = Patient.pathway p ++ Patient.pathway p /\
    ~ Covers (Patient.pathway p) (treat_targets 0 nurse) (treat_targets 0 doctor).
Proof.
  intros p. eexists _, _. split; [reflexivity|].
  split; [vm_compute; reflexivity|].
  intros H. apply Covers_nurse_length in H. vm_compute in H. lia.
Qed.

(** ** The store monad *)

Lemma bind_ok {A B} (m : M A) (f : A -> M B) (st st' : Store) (a : A) :
  m st = Ok a st' -> bind m f st = f a st'.
Proof. intros H. unfold bind. now rewrite H. Qed.

Lemma bind_raise {A B} (m : M A) (f : A -> M B) (st st' : Store) (e : exn) :
  m st = Raise e st' -> bind m f st = Raise e st'.
Proof. intros H. unfold bind. now rewrite H. Qed.

Lemma get_patient_run (st : Store) (r : ref) (p : Patient.t) :
  patient_objs st !! r = Some p -> get_patient r st = Ok p st.
Proof. intros H. unfold get_patient. now rewrite H. Qed.

Lemma put_patient_run (st : Store) (r : ref) (p p' : Patient.t) :
  patient_objs st !! r = Some p -> put_patient r p' st = Ok tt (upd_patient st r p').
Proof. intros H. unfold put_patient. now rewrite H. Qed.

Lemma modify_patient_run (st : Store) (r : ref) (p : Patient.t)
    (f : Patient.t -> Patient.t) :
  patient_objs st !! r = Some p ->
  modify_patient r f st = Ok tt (upd_patient st r (f p)).
Proof.
  intros H. unfold modify_patient.
  rewrite (bind_ok _ _ _ _ _ (get_patient_run st r p H)).
  now apply put_patient_run with p.
Qed.

Lemma get_state_run (st : Store) (r : ref) (s : GameState.t) :
  state_objs st !! r = Some s -> get_state r st = Ok s st.
Proof. intros H. unfold get_state. now rewrite H. Qed.

Lemma put_state_run (st : Store) (r : ref) (s s' : GameState.t) :
  state_objs st !! r = Some s -> put_state r s' st = Ok tt (upd_state st r s').
Proof. intros H. unfold put_state. now rewrite H. Qed.

Lemma modify_state_run (st : Store) (r : ref) (s : GameState.t)
    (f : GameState.t -> GameState.t) :
  state_objs st !! r = Some s ->
  modify_state r f st = Ok tt (upd_state st r (f s)).
Proof.
  intros H. unfold modify_state.
  rewrite (bind_ok _ _ _ _ _ (get_state_run st r s H)).
  now apply put_state_run with s.
Qed.

Lemma get_patient_raise (st : Store) (r : ref) :
  patient_objs st !! r = None -> get_patient r st = Raise InvalidRef st.
Proof. intros H. unfold get_patient. now rewrite H. Qed.

Lemma get_state_raise (st : Store) (r : ref) :
  state_objs st !! r = None -> get_state r st = Raise InvalidRef st.
Proof. intros H. unfold get_state. now rewrite H. Qed.

Lemma upd_patient_lookup (st : Store) (r : ref) (p p' : Patient.t) :
  patient_objs st !! r = Some p -> patient_objs (upd_patient st r p') !! r = Some p'.
Proof.
  intros H. unfold upd_patient. cbn [patient_objs].
  apply list_lookup_insert_eq. eapply lookup_lt_Some, H.
Qed.

Lemma upd_patient_lookup_ne (st : Store) (r r' : ref) (p' : Patient.t) :
  r <> r' -> patient_objs (upd_patient st r p') !! r' = patient_objs st !! r'.
Proof. intros H. unfold upd_patient. cbn [patient_objs]. now apply list_lookup_insert_ne. Qed.

Lemma upd_state_lookup (st : Store) (r : ref) (s s' : GameState.t) :
  state_objs st !! r = Some s -> state_objs (upd_state st r s') !! r = Some s'.
Proof.
  intros H. unfold upd_state. cbn [state_objs].
  apply list_lookup_insert_eq. eapply lookup_lt_Some, H.
Qed.

Lemma upd_state_lookup_ne (st : Store) (r r' : ref) (s' : GameState.t) :
  r <> r' -> state_objs (upd_state st r s') !! r' = state_objs st !! r'.
Proof. intros H. unfold upd_state. cbn [state_objs]. now apply list_lookup_insert_ne. Qed.

(** *** Hoare rules *)

Section HoareRules.
Context {A B : Type}.

Lemma hoare_ret (P : Store -> Prop) (a : A) (Q : A -> Store -> Prop)
    (E : exn -> Store -> Prop) :
  (forall st, P st -> Q a st) -> hoare P (ret a) Q E.
Proof. intros H st HP. now apply H. Qed.

Lemma hoare_raise (P : Store -> Prop) (e : exn) (Q : A -> Store -> Prop)
    (E : exn -> Store -> Prop) :
  (forall st, P st -> E e st) -> hoare P (raise e) Q E.
Proof. intros H st HP. now apply H. Qed.

Lemma hoare_bind (P : Store -> Prop) (m : M A) (f : A -> M B)
    (R : A -> Store -> Prop) (Q : B -> Store -> Prop) (E : exn -> Store -> Prop) :
  hoare P m R E -> (forall a, hoare (R a) (f a) Q E) -> hoare P (bind m f) Q E.
Proof.
  intros Hm Hf st HP. specialize (Hm st HP). unfold bind.
  destruct (m st) as [a st'|e st']; [now apply Hf|exact Hm].
Qed.

Lemma hoare_conseq (P P' : Store -> Prop) (m : M A)
    (Q Q' : A -> Store -> Prop) (E E' : exn -> Store -> Prop) :
  hoare P' m Q' E' ->
  (forall st, P st -> P' st) ->
  (forall a st, Q' a st -> Q a st) ->
  (forall e st, E' e st -> E e st) ->
  hoare P m Q E.
Proof.
  intros H HP HQ HE st Hst. specialize (H st (HP st Hst)).
  destruct (m st); auto.
Qed.

Lemma hoare_pure (F : Prop) (P : Store -> Prop) (m : M A)
    (Q : A -> Store -> Prop) (E : exn -> Store -> Prop) :
  (F -> hoare P m Q E) -> hoare (fun st => F /\ P st) m Q E.
Proof. intros H st (HF & HP). now apply H. Qed.

End HoareRules.

(** A [for] loop with an invariant on the accumulator and the store. *)
Lemma hoare_foldM {A B} (f : B -> A -> M B) (I : B -> Store -> Prop)
      (E : exn -> Store -> Prop) (G : A -> Prop) (xs : list A) (b : B) :
    (forall b x, G x -> hoare (I b) (f b x) I E) ->
    Forall G xs ->
    hoare (I b) (foldM f xs b) I E.
  Proof.
    intros Hf HG. revert b. induction HG as [|x xs Hx _ IH]; intros b; cbn [foldM].
    - intros st H. exact H.
    - eapply hoare_bind; [apply Hf, Hx|]. intros b'. apply IH.
  Qed.

  (** A comprehension: the store invariant is kept and every element of
      the result satisfies the element postcondition. *)
Lemma hoare_mapM {A B} (f : A -> M B) (I : Store -> Prop) (R : B -> Prop)
      (E : exn -> Store -> Prop) (G : A -> Prop) (xs : list A) :
    (forall x, G x -> hoare I (f x) (fun y st => I st /\ R y) E) ->
    Forall G xs ->
    hoare I (mapM f xs)
          (fun ys st => I st /\ Forall R ys /\ length ys = length xs) E.
  Proof.
    intros Hf HG. induction HG as [|x xs Hx _ IH]; cbn [mapM].
    - intros st H. cbn. repeat split; [exact H|constructor].
    - eapply hoare_bind; [apply Hf, Hx|]. intros y.
      apply (hoare_conseq _ (fun st => R y /\ I st) _ _
               (fun ys st => I st /\ Forall R ys /\ length ys = length (x :: xs)) _ E);
        [|tauto|auto|auto].
      apply hoare_pure. intros HR.
      eapply hoare_bind; [apply IH|]. intros ys st (HI & HRs & Hlen). cbn.
      split; [exact HI|]. split; [now constructor|]. now rewrite Hlen.
  Qed.

Lemma hoare_filterM {A} (c : A -> M bool) (I : Store -> Prop)
    (E : exn -> Store -> Prop) (G : A -> Prop) (xs : list A) :
  (forall x, G x -> hoare I (c x) (fun _ st => I st) E) ->
  Forall G xs ->
  hoare I (filterM c xs) (fun ys st => I st /\ sublist ys xs) E.
Proof.
  intros Hc HG. induction HG as [|x xs Hx _ IH]; cbn [filterM].
  - intros st H. cbn. split; [exact H|constructor].
  - eapply hoare_bind; [apply Hc, Hx|]. intros b. cbv beta.
    eapply hoare_bind; [apply IH|]. intros ys st (HI & Hsub). cbn.
    split; [exact HI|].
    destruct b; [now apply sublist_skip|now apply sublist_cons].
Qed.

(** ** The orchestrator on an empty roster *)

Import DynamicRegretAnalyzer.

(** C9. When no scenario exists or the roster is empty, [analyze_and_plan]
    returns the IDLE assignment with empty nurse and doctor command lists
    and expected reward 0; the analyzer it returns, learner included, and
    the store are the ones it was called with. *)
Theorem C9_idle_plan (sqrt : Qc -> Qc) (A : DynamicRegretAnalyzer.t)
    (rng : nat -> RoundDraws) (st : Store) :
  current_state A = None \/
  (exists state s, current_state A = Some state /\
                   state_objs st !! state = Some s /\ GameState.patients s = []) ->
  exists r,
    analyze_and_plan sqrt A rng st = Ok (A, r) st /\
    strategy r = "IDLE" /\ nurse_plan r = [] /\ doctor_plan r = [] /\
    expected_reward r = 0 /\
    learning_stats r = CFRRegretMinimizer.get_statistics (cfr A).
Proof.
  intros H. exists (idle_result A). unfold analyze_and_plan.
  destruct H as [-> | (state & s & -> & Hs & Hp)].
  - repeat split.
  - rewrite (bind_ok _ _ _ _ _ (get_state_run st state s Hs)), Hp. repeat split.
Qed.

Lemma C9_idle_plan_witness :
  current_state DynamicRegretAnalyzer.init = None /\
  exists r,
    analyze_and_plan (fun x => x) DynamicRegretAnalyzer.init
                     (fun _ => {| normal := fun _ => 0; uniform := 0 |}) empty_store
    = Ok (DynamicRegretAnalyzer.init, r) empty_store /\
    strategy r = "IDLE" /\ nurse_plan r = [] /\ doctor_plan r = [] /\
    expected_reward r = 0 /\
    learning_stats r = CFRRegretMinimizer.get_statistics (cfr DynamicRegretAnalyzer.init).
Proof.
  split; [reflexivity|].
  apply (C9_idle_plan (fun x => x) DynamicRegretAnalyzer.init
           (fun _ => {| normal := fun _ => 0; uniform := 0 |}) empty_store).
  left. reflexivity.
Defined.

(** ** The patient invariant *)

Lemma patient_ok_intro (p : Patient.t) :
  0 <= Patient.health p -> Patient.health p <= qz 100 ->
  (0 <= Patient.current_step p)%Z ->
  (Patient.current_step p <= Z.of_nat (length (Patient.pathway p)))%Z ->
  patient_ok p.
Proof.
  intros H1 H2 H3 H4. unfold patient_ok. repeat (split; [assumption|]).
  unfold Patient.is_complete. rewrite Z.leb_le. lia.
Qed.

Lemma ok_set_waiting_time (p : Patient.t) (w : Qc) :
  patient_ok p -> patient_ok (Patient.set_waiting_time p w).
Proof. intros H. exact H. Qed.

Lemma ok_set_being_treated_by (p : Patient.t) (l : list Agent) :
  patient_ok p -> patient_ok (Patient.set_being_treated_by p l).
Proof. intros H. exact H. Qed.

Lemma ok_clone (p : Patient.t) : patient_ok p -> patient_ok (Patient.clone p).
Proof. intros H. exact H. Qed.

Lemma ok_wait_health (p : Patient.t) (x : Qc) :
  patient_ok p -> x <= 0 ->
  patient_ok (Patient.set_health p (pymax 0 (Patient.health p + x))).
Proof.
  intros (H1 & H2 & H3 & H4 & _) Hx. apply patient_ok_intro; cbn; try assumption.
  - apply pymax_lower.
  - destruct (pymax_cases 0 (Patient.health p + x)) as [-> | ->].
    + apply Qcleb_le. reflexivity.
    + eapply Qcle_trans; [|exact H2].
      rewrite <- (Qcplus_0_r (Patient.health p)) at 2.
      now apply Qcplus_le_mono_l.
Qed.

Lemma not_complete_lt (p : Patient.t) :
  Patient.is_complete p = false ->
  (Patient.current_step p < Z.of_nat (length (Patient.pathway p)))%Z.
Proof. unfold Patient.is_complete. rewrite Z.leb_gt. tauto. Qed.

Lemma ok_treated (p : Patient.t) (healing : Qc) :
  patient_ok p -> 0 <= healing -> Patient.is_complete p = false ->
  patient_ok
    (Patient.set_current_step
       (Patient.set_health p (pymin (qz 100) (Patient.health p + healing)))
       (Patient.current_step p + 1)).
Proof.
  intros (H1 & H2 & H3 & H4 & _) Hh Hc. apply not_complete_lt in Hc.
  apply patient_ok_intro; cbn; try lia.
  - apply pymin_lower; [apply Qcleb_le; reflexivity|].
    now apply Qcplus_nonneg_nonneg.
  - apply pymin_upper.
Qed.

Lemma ok_step (p : Patient.t) :
  patient_ok p -> Patient.is_complete p = false ->
  patient_ok (Patient.set_current_step p (Patient.current_step p + 1)).
Proof.
  intros (H1 & H2 & H3 & H4 & _) Hc. apply not_complete_lt in Hc.
  apply patient_ok_intro; cbn; try assumption; lia.
Qed.

Lemma ok_new (i : Z) (ty : PType) (dl : Qc) (dr : bool) :
  patient_ok (Patient.new i ty (INITIAL_HEALTH ty) (PATHWAYS ty) 0 0 0 [] dl dr).
Proof.
  apply patient_ok_intro; cbn; try lia;
    destruct ty; apply Qcleb_le; reflexivity.
Qed.

Lemma next_room_some_not_complete (p : Patient.t) (room : string) :
  Patient.next_room p = Some (Some room) -> Patient.is_complete p = false.
Proof.
  unfold Patient.next_room. destruct (Patient.is_complete p); [discriminate|reflexivity].
Qed.

(** *** Physical constants are non-negative *)

Lemma effectiveness_nonneg (room : string) :
  0 <= Dict.get_or ROOM_EFFECTIVENESS room (qfrac 2 10).
Proof.
  unfold Dict.get_or, ROOM_EFFECTIVENESS. cbn [Dict.get].
  repeat match goal with
         | |- context [String.eqb room ?s] => destruct (String.eqb room s)
         end; apply Qcleb_le; reflexivity.
Qed.

Lemma treatment_time_pos (room : string) :
  0 < Dict.get_or ROOM_TREATMENT_TIME room (qz 10).
Proof.
  unfold Dict.get_or, ROOM_TREATMENT_TIME. cbn [Dict.get].
  repeat match goal with
         | |- context [String.eqb room ?s] => destruct (String.eqb room s)
         end; apply Qcltb_lt; reflexivity.
Qed.

Lemma healing_nonneg (agent : Agent) (cooperative : bool) (room : string) (duration : Qc) :
  0 <= duration ->
  0 <= (if cooperative
        then (if bool_decide (agent = doctor)
              then DOCTOR_HEALING_POWER else NURSE_HEALING_POWER) * COOPERATIVE_BONUS
        else (if bool_decide (agent = doctor)
              then DOCTOR_HEALING_POWER else NURSE_HEALING_POWER))
       * Dict.get_or ROOM_EFFECTIVENESS room (qfrac 2 10)
       * (duration / Dict.get_or ROOM_TREATMENT_TIME room (qz 10)).
Proof.
  intros Hd. apply Qcmult_nonneg_nonneg; [apply Qcmult_nonneg_nonneg|].
  - destruct cooperative, (bool_decide (agent = doctor)); apply Qcleb_le; reflexivity.
  - apply effectiveness_nonneg.
  - apply Qcdiv_nonneg; [exact Hd|apply treatment_time_pos].
Qed.

Lemma waiting_penalty_nonpos (ty : PType) (time_delta : Qc) :
  0 <= time_delta -> WAITING_PENALTY ty * time_delta <= 0.
Proof.
  intros H. rewrite <- (Qcmult_0_l time_delta).
  apply Qcmult_le_mono_nonneg_r; [exact H|].
  destruct ty; apply Qcleb_le; reflexivity.
Qed.

(** *** Invariant preservation in the store monad *)

Section Preserves.
Context (I : Store -> Prop).

Lemma preserves_ret {A} (a : A) : preserves I (ret a).
Proof. intros st H. exact H. Qed.

Lemma preserves_raise {A} (e : exn) : preserves I (@raise A e).
Proof. intros st H. exact H. Qed.

Lemma preserves_get_patient (r : ref) : preserves I (get_patient r).
Proof. intros st H. unfold get_patient. now destruct (patient_objs st !! r). Qed.

Lemma preserves_get_state (r : ref) : preserves I (get_state r).
Proof. intros st H. unfold get_state. now destruct (state_objs st !! r). Qed.
End Preserves.

Lemma preserves_bind {A B} (I : Store -> Prop) (m : M A) (f : A -> M B) :
  preserves I m -> (forall a, preserves I (f a)) -> preserves I (bind m f).
Proof.
  intros Hm Hf st H. specialize (Hm st H). unfold bind.
  destruct (m st) as [a st'|e st']; [now apply Hf|exact Hm].
Qed.

Lemma preserves_foldM {A B} (I : Store -> Prop) (f : B -> A -> M B) (xs : list A) (b : B) :
  (forall b x, preserves I (f b x)) -> preserves I (foldM f xs b).
Proof.
  intros Hf. revert b. induction xs as [|x xs IH]; intros b; cbn [foldM].
  - apply preserves_ret.
  - apply preserves_bind; [apply Hf|]. intros b'. apply IH.
Qed.

Lemma preserves_mapM {A B} (I : Store -> Prop) (f : A -> M B) (xs : list A) :
  (forall x, preserves I (f x)) -> preserves I (mapM f xs).
Proof.
  intros Hf. induction xs as [|x xs IH]; cbn [mapM].
  - apply preserves_ret.
  - apply preserves_bind; [apply Hf|]. intros y.
    apply preserves_bind; [apply IH|]. intros ys. apply preserves_ret.
Qed.

Lemma preserves_filterM {A} (I : Store -> Prop) (c : A -> M bool) (xs : list A) :
  (forall x, preserves I (c x)) -> preserves I (filterM c xs).
Proof.
  intros Hc. induction xs as [|x xs IH]; cbn [filterM].
  - apply preserves_ret.
  - apply preserves_bind; [apply Hc|]. intros b.
    apply preserves_bind; [apply IH|]. intros ys. apply preserves_ret.
Qed.

Lemma preserves_try_except {A} (I : Store -> Prop) (m : M A) (dflt : A) :
  preserves I m -> preserves I (try_except m dflt).
Proof.
  intros Hm st H. specialize (Hm st H). unfold try_except. now destruct (m st).
Qed.

Lemma all_ok_upd_patient (st : Store) (r : ref) (p : Patient.t) :
  all_ok st -> patient_ok p -> all_ok (upd_patient st r p).
Proof.
  unfold all_ok, upd_patient. cbn [patient_objs]. intros H Hp.
  apply List.Forall_forall. intros x Hx. apply list_elem_of_In in Hx.
  apply list_elem_of_lookup in Hx as (i & Hi).
  destruct (decide (r = i)) as [->|Hne].
  - destruct (decide (i < length (patient_objs st))%nat) as [Hlt|Hge].
    + rewrite list_lookup_insert_eq in Hi by exact Hlt. now injection Hi as <-.
    + rewrite list_insert_ge in Hi by lia. apply lookup_lt_Some in Hi. lia.
  - rewrite list_lookup_insert_ne in Hi by exact Hne.
    rewrite List.Forall_forall in H. apply H, list_elem_of_In.
    apply list_elem_of_lookup. now exists i.
Qed.

Lemma all_ok_lookup (st : Store) (r : ref) (p : Patient.t) :
  all_ok st -> patient_objs st !! r = Some p -> patient_ok p.
Proof.
  unfold all_ok. rewrite List.Forall_forall. intros H Hr.
  apply H, list_elem_of_In, list_elem_of_lookup. now exists r.
Qed.

Lemma ok_put_patient (r : ref) (p : Patient.t) :
  patient_ok p -> preserves all_ok (put_patient r p).
Proof.
  intros Hp st H. unfold put_patient.
  destruct (patient_objs st !! r); [|exact H]. now apply all_ok_upd_patient.
Qed.

Lemma ok_new_patient (p : Patient.t) :
  patient_ok p -> preserves all_ok (new_patient p).
Proof.
  intros Hp st H. unfold new_patient, all_ok in *. cbn.
  apply Forall_app. split; [exact H|]. now constructor.
Qed.

Lemma ok_modify_patient (r : ref) (f : Patient.t -> Patient.t) :
  (forall p, patient_ok p -> patient_ok (f p)) -> preserves all_ok (modify_patient r f).
Proof.
  intros Hf st H. unfold modify_patient, bind, get_patient.
  destruct (patient_objs st !! r) as [p|] eqn:E; [|exact H].
  rewrite (put_patient_run st r p _ E). cbn.
  apply all_ok_upd_patient; [exact H|]. apply Hf. eapply all_ok_lookup; eauto.
Qed.

Lemma ok_put_state (r : ref) (s : GameState.t) : preserves all_ok (put_state r s).
Proof. intros st H. unfold put_state. now destruct (state_objs st !! r). Qed.

Lemma ok_new_state (s : GameState.t) : preserves all_ok (new_state s).
Proof. intros st H. exact H. Qed.

Lemma ok_modify_state (r : ref) (f : GameState.t -> GameState.t) :
  preserves all_ok (modify_state r f).
Proof.
  unfold modify_state. apply preserves_bind; [apply preserves_get_state|].
  intros s. apply ok_put_state.
Qed.

(** *** The simulator keeps the patient invariant *)

Import GameSimulator.

Lemma read_next_room_run (st : Store) (r : ref) (p : Patient.t) (room : option string) :
  patient_objs st !! r = Some p -> Patient.next_room p = Some room ->
  read_next_room r st = Ok room st.
Proof.
  intros H Hn. unfold read_next_room.
  rewrite (bind_ok _ _ _ _ _ (get_patient_run st r p H)). now rewrite Hn.
Qed.

Lemma read_next_room_store (r : ref) (st : Store) :
  store_of (read_next_room r st) = st.
Proof.
  unfold read_next_room, bind, get_patient.
  destruct (patient_objs st !! r) as [p|]; [|reflexivity].
  now destruct (Patient.next_room p).
Qed.

Lemma preserves_read_next_room (I : Store -> Prop) (r : ref) :
  preserves I (read_next_room r).
Proof. intros st H. now rewrite read_next_room_store. Qed.

Lemma ok_waiting_step (time_delta penalty : Qc) (r : ref) :
  0 <= time_delta -> preserves all_ok (waiting_step time_delta penalty r).
Proof.
  intros Hd. unfold waiting_step.
  apply preserves_bind; [apply preserves_get_patient|]. intros patient.
  destruct (Patient.being_treated_by patient); [|apply preserves_ret].
  apply preserves_bind; [apply ok_modify_patient; intros p; apply ok_set_waiting_time|].
  intros _. apply preserves_bind; [|intros _; apply preserves_ret].
  apply ok_modify_patient. intros p Hp.
  apply ok_wait_health; [exact Hp|now apply waiting_penalty_nonpos].
Qed.

Lemma ok_apply_waiting_penalties (state : ref) (time_delta : Qc) :
  0 <= time_delta -> preserves all_ok (apply_waiting_penalties state time_delta).
Proof.
  intros Hd. unfold apply_waiting_penalties.
  apply preserves_bind; [apply preserves_get_state|]. intros s.
  apply preserves_bind; [apply preserves_foldM; intros; now apply ok_waiting_step|].
  intros penalty. apply preserves_bind; [apply ok_modify_state|].
  intros _. apply preserves_ret.
Qed.

Lemma ok_treat_patient (state patient : ref) (agent : Agent) (duration : Qc)
    (cooperative : bool) :
  0 <= duration ->
  preserves all_ok (treat_patient state patient agent duration cooperative).
Proof.
  intros Hd st H. unfold treat_patient.
  destruct (patient_objs st !! patient) as [p|] eqn:E.
  - pose proof (all_ok_lookup st patient p H E) as Hp.
    destruct (Patient.next_room p) as [[room|]|] eqn:En.
    + rewrite (bind_ok _ _ _ _ _ (read_next_room_run st patient p _ E En)).
      pose proof (healing_nonneg agent cooperative room duration Hd) as Hh.
      set (healing := _ * _ * _) in *.
      rewrite (bind_ok _ _ _ _ _ (modify_patient_run st patient p _ E)).
      pose proof (upd_patient_lookup st patient p
                    (Patient.set_health p (pymin (qz 100) (Patient.health p + healing))) E)
        as E1.
      rewrite (bind_ok _ _ _ _ _ (modify_patient_run _ patient _ _ E1)).
      match goal with |- all_ok (store_of (?m ?st2)) =>
        assert (H2 : all_ok st2); [|revert H2; generalize st2; change (preserves all_ok m)]
      end.
      * apply all_ok_upd_patient.
        -- apply all_ok_upd_patient; [exact H|].
           destruct Hp as (H1 & H2 & H3 & H4 & H5).
           apply patient_ok_intro; cbn; try assumption.
           ++ apply pymin_lower; [apply Qcleb_le; reflexivity|].
              now apply Qcplus_nonneg_nonneg.
           ++ apply pymin_upper.
        -- apply (ok_treated p healing Hp Hh).
           eapply next_room_some_not_complete, En.
      * apply preserves_bind; [apply preserves_get_patient|]. intros p'.
        apply preserves_bind.
        -- destruct (Patient.is_complete p'); [|apply preserves_ret].
           apply preserves_bind; [apply ok_modify_state|]. intros _.
           apply preserves_ret.
        -- intros reward. apply preserves_bind; [apply ok_modify_state|].
           intros _. apply preserves_ret.
    + now rewrite (bind_ok _ _ _ _ _ (read_next_room_run st patient p _ E En)).
    + unfold read_next_room.
      rewrite (bind_raise _ _ st st IndexError); [exact H|].
      rewrite (bind_ok _ _ _ _ _ (get_patient_run st patient p E)). now rewrite En.
  - unfold read_next_room.
    rewrite (bind_raise _ _ st st InvalidRef); [exact H|].
    apply bind_raise. now apply get_patient_raise.
Qed.

Lemma ok_remove_agent (agent : Agent) (r : ref) : preserves all_ok (remove_agent agent r).
Proof.
  intros st H. unfold remove_agent, bind, get_patient.
  destruct (patient_objs st !! r) as [p|] eqn:E; [|exact H].
  destruct (list_remove _ _); [|exact H].
  rewrite (put_patient_run st r p _ E). cbn.
  apply all_ok_upd_patient; [exact H|].
  apply ok_set_being_treated_by. eapply all_ok_lookup; eauto.
Qed.

Lemma ok_execute_agent_action (sqrt : Qc -> Qc) (positions : Dict.t (Qc * Qc))
    (state : ref) (agent : Agent) (action : Action) (metrics : Metrics.t) :
  preserves all_ok (_execute_agent_action sqrt positions state agent action metrics).
Proof.
  unfold _execute_agent_action. destruct action as [k|].
  - apply preserves_bind; [apply preserves_get_state|]. intros s.
    destruct (_ <? _)%Z; [|apply preserves_ret].
    destruct (py_index _ _) as [patient|]; [|apply preserves_raise].
    apply preserves_bind; [apply preserves_read_next_room|].
    intros [[|a room]|]; try apply preserves_ret.
    apply preserves_bind; [apply preserves_get_patient|]. intros p.
    apply preserves_bind; [apply ok_modify_state|]. intros _.
    apply preserves_bind;
      [apply ok_modify_patient; intros q; apply ok_set_being_treated_by|].
    intros _. apply preserves_bind.
    + apply ok_treat_patient. apply Qclt_le_weak, treatment_time_pos.
    + intros reward. apply preserves_bind; [apply ok_remove_agent|].
      intros _. apply preserves_ret.
  - apply preserves_bind; [apply preserves_get_state|]. intros s.
    apply preserves_bind; [apply ok_put_state|]. intros _. apply preserves_ret.
Qed.

Lemma ok_remove_from_roster (state p : ref) : preserves all_ok (remove_from_roster state p).
Proof.
  unfold remove_from_roster.
  apply preserves_bind; [apply preserves_get_state|]. intros s.
  apply preserves_bind; [apply preserves_get_patient|]. intros target.
  apply preserves_bind.
  - apply preserves_mapM. intros r.
    apply preserves_bind; [apply preserves_get_patient|]. intros x. apply preserves_ret.
  - intros objs. destruct (list_remove _ _); [apply ok_put_state|apply preserves_raise].
Qed.

Lemma ok_agent_turn (sqrt : Qc -> Qc) (positions : Dict.t (Qc * Qc))
    (state : ref) (agent : Agent) (actions : list Action) (v : nat * Metrics.t) :
  preserves all_ok (agent_turn sqrt positions state agent actions v).
Proof.
  unfold agent_turn. destruct v as [idx metrics].
  apply preserves_bind; [apply preserves_get_state|]. intros s.
  destruct (_ && _); [|apply preserves_ret].
  destruct (actions !! idx); [|apply preserves_raise].
  apply preserves_bind; [apply ok_execute_agent_action|]. intros rm.
  apply preserves_ret.
Qed.

Lemma preserves_health_filter (I : Store -> Prop) (f : Patient.t -> bool) (rs : list ref) :
  preserves I (filterM (fun r => p <- get_patient r ;; ret (f p)) rs).
Proof.
  apply preserves_filterM. intros r.
  apply preserves_bind; [apply preserves_get_patient|]. intros p. apply preserves_ret.
Qed.

Lemma ok_tick (sqrt : Qc -> Qc) (positions : Dict.t (Qc * Qc)) (state : ref)
    (nurse_actions doctor_actions : list Action) (v : LoopVars) :
  preserves all_ok (tick sqrt positions state nurse_actions doctor_actions v).
Proof.
  unfold tick.
  apply preserves_bind.
  { apply ok_apply_waiting_penalties. apply Qcleb_le. reflexivity. }
  intros penalty. apply preserves_bind; [apply preserves_get_state|]. intros s.
  apply preserves_bind; [apply preserves_health_filter|]. intros dead.
  apply preserves_bind.
  { apply preserves_foldM. intros m p.
    apply preserves_bind; [apply ok_modify_state|]. intros _.
    apply preserves_bind; [apply ok_remove_from_roster|]. intros _.
    apply preserves_ret. }
  intros m. apply preserves_bind; [apply ok_agent_turn|]. intros nt.
  apply preserves_bind; [apply ok_agent_turn|]. intros dt.
  apply preserves_bind; [apply preserves_get_state|]. intros s'.
  apply preserves_bind; [apply preserves_health_filter|]. intros completed.
  apply preserves_bind.
  { apply preserves_foldM. intros m' p.
    apply preserves_bind; [apply ok_remove_from_roster|]. intros _.
    apply preserves_ret. }
  intros m'. apply preserves_bind; [apply ok_modify_state|]. intros _.
  apply preserves_ret.
Qed.

Lemma ok_simulate_loop (sqrt : Qc -> Qc) (positions : Dict.t (Qc * Qc)) (fuel : nat)
    (state : ref) (nurse_actions doctor_actions : list Action) (simulation_time : Qc)
    (v : LoopVars) :
  preserves all_ok
    (simulate_loop sqrt positions fuel state nurse_actions doctor_actions
                   simulation_time v).
Proof.
  revert v. induction fuel as [|fuel IH]; intros v; cbn [simulate_loop];
    (apply preserves_bind; [apply preserves_get_state|]); intros s;
    destruct (loop_guard s simulation_time); try apply preserves_ret.
  apply preserves_bind; [apply ok_tick|]. intros v'. apply IH.
Qed.

Lemma ok_clone_state (state : ref) : preserves all_ok (clone_state state).
Proof.
  unfold clone_state.
  apply preserves_bind; [apply preserves_get_state|]. intros s.
  apply preserves_bind; [|intros ps; apply ok_new_state].
  apply preserves_mapM. intros r st H. unfold bind, get_patient.
  destruct (patient_objs st !! r) as [p|] eqn:E; [|exact H].
  apply ok_new_patient; [|exact H]. apply ok_clone. eapply all_ok_lookup; eauto.
Qed.

Lemma ok_simulate_action_sequence (sqrt : Qc -> Qc) (positions : Dict.t (Qc * Qc))
    (initial_state : ref) (nurse_actions doctor_actions : list Action)
    (simulation_time : Qc) :
  preserves all_ok
    (simulate_action_sequence sqrt positions initial_state nurse_actions
                              doctor_actions simulation_time).
Proof.
  unfold simulate_action_sequence.
  apply preserves_bind; [apply ok_clone_state|]. intros state.
  apply preserves_bind; [apply preserves_get_state|]. intros s.
  apply preserves_bind; [apply ok_simulate_loop|]. intros v. apply preserves_ret.
Qed.

Lemma ok_create_scenario (patient_types : list PType) :
  preserves all_ok (create_scenario patient_types).
Proof.
  unfold create_scenario.
  apply preserves_bind; [apply ok_new_state|]. intros state.
  apply preserves_bind; [|intros; apply preserves_ret].
  apply preserves_foldM. intros i ptype.
  apply preserves_bind; [apply ok_new_patient, ok_new|]. intros r.
  apply preserves_bind; [apply ok_modify_state|]. intros _. apply preserves_ret.
Qed.

(** *** The analyzer's roster operations keep the patient invariant *)

Lemma ok_spawn_patient (A : DynamicRegretAnalyzer.t) (ptype : PType) :
  preserves all_ok (spawn_patient A ptype).
Proof.
  unfold spawn_patient.
  apply preserves_bind; [apply ok_new_patient, ok_new|]. intros patient.
  apply preserves_bind.
  { destruct (current_state A); [apply preserves_ret|apply ok_new_state]. }
  intros state. apply preserves_bind; [apply ok_modify_state|]. intros _.
  apply preserves_ret.
Qed.

Lemma ok_step_loop (patient_id : Z) (roster : list ref) :
  preserves all_ok (step_loop patient_id roster).
Proof.
  induction roster as [|r rest IH]; cbn [step_loop]; [apply preserves_ret|].
  intros st H. destruct (patient_objs st !! r) as [p|] eqn:E.
  - rewrite (bind_ok _ _ _ _ _ (get_patient_run st r p E)).
    destruct (bool_decide (Patient.id p = patient_id)); [|now apply IH].
    destruct (Patient.is_complete p) eqn:Ec.
    + rewrite (bind_ok (ret tt) _ st st tt eq_refl).
      rewrite (bind_ok _ _ _ _ _ (get_patient_run st r p E)). exact H.
    + rewrite (bind_ok _ _ _ _ _ (modify_patient_run st r p _ E)).
      pose proof (upd_patient_lookup st r p
                    (Patient.set_current_step p (Patient.current_step p + 1)) E) as E1.
      rewrite (bind_ok _ _ _ _ _ (get_patient_run _ r _ E1)). cbn.
      apply all_ok_upd_patient; [exact H|].
      apply ok_step; [eapply all_ok_lookup; eauto|exact Ec].
  - rewrite (bind_raise _ _ st st InvalidRef); [exact H|]. now apply get_patient_raise.
Qed.

Lemma ok_step_patient (A : DynamicRegretAnalyzer.t) (patient_id : Z) :
  preserves all_ok (step_patient A patient_id).
Proof.
  unfold step_patient. apply preserves_try_except.
  destruct (current_state A); [|apply preserves_ret].
  apply preserves_bind; [apply preserves_get_state|]. intros s. apply ok_step_loop.
Qed.

Lemma ok_remove_patient (A : DynamicRegretAnalyzer.t) (patient_id : Z) :
  preserves all_ok (remove_patient A patient_id).
Proof.
  unfold remove_patient. apply preserves_try_except.
  destruct (current_state A); [|apply preserves_ret].
  apply preserves_bind; [apply preserves_get_state|]. intros s.
  apply preserves_bind; [|intros kept; apply ok_modify_state].
  apply preserves_filterM. intros r0.
  apply preserves_bind; [apply preserves_get_patient|]. intros p. apply preserves_ret.
Qed.

Lemma reachable_all_ok (st : Store) : reachable_store st -> all_ok st.
Proof.
  induction 1.
  - constructor.
  - now apply ok_create_scenario.
  - now apply ok_spawn_patient.
  - now apply ok_step_patient.
  - now apply ok_remove_patient.
  - now apply ok_clone_state.
  - now apply ok_apply_waiting_penalties.
  - now apply ok_treat_patient.
  - now apply ok_execute_agent_action.
  - now apply ok_tick.
  - now apply ok_simulate_action_sequence.
Qed.

(** C8. Every patient object of every store reachable through spawning,
    simulation (waiting penalties, treatment, whole ticks and runs) and the
    step-complete operation has its health in [0, 100] and its step index
    in [0, len(pathway)], and is complete exactly when the step index
    equals the pathway length. *)
Theorem C8_patient_invariant (st : Store) (r : ref) (p : Patient.t) :
  reachable_store st ->
  patient_objs st !! r = Some p ->
  (0 <= Patient.health p /\ Patient.health p <= qz 100) /\
  ((0 <= Patient.current_step p)%Z /\
   (Patient.current_step p <= Z.of_nat (length (Patient.pathway p)))%Z) /\
  (Patient.is_complete p = true <->
   Patient.current_step p = Z.of_nat (length (Patient.pathway p))).
Proof.
  intros Hr Hp. apply reachable_all_ok in Hr.
  destruct (all_ok_lookup st r p Hr Hp) as (H1 & H2 & H3 & H4 & H5).
  repeat split; try assumption; apply H5.
Qed.

Lemma C8_patient_invariant_witness :
  let st := store_of (apply_waiting_penalties 0%nat 1
              (store_of (DynamicRegretAnalyzer.spawn_patient
                           DynamicRegretAnalyzer.init Critical empty_store))) in
  reachable_store st /\
  exists p, patient_objs st !! 0%nat = Some p /\
    (0 <= Patient.health p /\ Patient.health p <= qz 100) /\
    ((0 <= Patient.current_step p)%Z /\
     (Patient.current_step p <= Z.of_nat (length (Patient.pathway p)))%Z) /\
    (Patient.is_complete p = true <->
     Patient.current_step p = Z.of_nat (length (Patient.pathway p))).
Proof.
  intros st.
  assert (Hr : reachable_store st).
  { apply reach_waiting; [apply reach_spawn, reach_empty|].
    apply Qcleb_le. reflexivity. }
  split; [exact Hr|].
  destruct (patient_objs st !! 0%nat) as [p|] eqn:E.
  - exists p. split; [reflexivity|]. exact (C8_patient_invariant st 0%nat p Hr E).
  - exfalso. vm_compute in E. discriminate E.
Defined.

(** ** Dispatch of a TREAT_PATIENT token *)

Lemma treat_patient_run (st : Store) (state r : ref) (agent : Agent) (duration : Qc)
    (cooperative : bool) (p : Patient.t) (room : string) (s : GameState.t) :
  patient_objs st !! r = Some p ->
  Patient.next_room p = Some (Some room) ->
  state_objs st !! state = Some s ->
  exists reward s',
    treat_patient state r agent duration cooperative st
    = Ok reward
         {| patient_objs :=
              <[r := treated p (healing_of agent cooperative room duration)]>
                (patient_objs st);
            state_objs := <[state := s']> (state_objs st) |} /\
    GameState.patients s' = GameState.patients s /\
    GameState.current_time s' = GameState.current_time s /\
    GameState.nurse_busy_until s' = GameState.nurse_busy_until s /\
    GameState.doctor_busy_until s' = GameState.doctor_busy_until s.
Proof.
  intros E En Es. unfold treat_patient.
  rewrite (bind_ok _ _ _ _ _ (read_next_room_run st r p _ E En)).
  fold (healing_of agent cooperative room duration).
  set (healing := healing_of agent cooperative room duration).
  rewrite (bind_ok _ _ _ _ _ (modify_patient_run st r p _ E)).
  pose proof (upd_patient_lookup st r p
                (Patient.set_health p (pymin (qz 100) (Patient.health p + healing))) E)
    as E1.
  rewrite (bind_ok _ _ _ _ _ (modify_patient_run _ r _ _ E1)).
  set (st2 := upd_patient (upd_patient st r _) r _).
  assert (E2 : patient_objs st2 !! r = Some (treated p healing)).
  { unfold st2. eapply upd_patient_lookup, E1. }
  assert (Es2 : state_objs st2 !! state = Some s) by exact Es.
  assert (Hobjs : patient_objs st2 = <[r := treated p healing]> (patient_objs st)).
  { unfold st2, upd_patient. cbn [patient_objs]. apply list_insert_insert_eq. }
  rewrite (bind_ok _ _ _ _ _ (get_patient_run st2 r _ E2)).
  destruct (Patient.is_complete (treated p healing)).
  - rewrite (bind_ok _ _ st2
               (upd_state st2 state
                  (GameState.set_completed_patients s
                     (GameState.completed_patients s + 1)))
               (healing + COMPLETION_REWARD (Patient.ptype (treated p healing)))).
    2:{ now rewrite (bind_ok _ _ _ _ _ (modify_state_run st2 state s _ Es2)). }
    pose proof (upd_state_lookup st2 state s
                  (GameState.set_completed_patients s
                     (GameState.completed_patients s + 1)) Es2) as Es3.
    rewrite (bind_ok _ _ _ _ _ (modify_state_run _ state _ _ Es3)).
    eexists _, _. split.
    + unfold ret, upd_state. cbn [patient_objs state_objs].
      rewrite Hobjs, list_insert_insert_eq. reflexivity.
    + repeat split.
  - rewrite (bind_ok (ret healing) _ st2 st2 healing eq_refl).
    rewrite (bind_ok _ _ _ _ _ (modify_state_run st2 state s _ Es2)).
    eexists _, _. split.
    + unfold ret, upd_state. cbn [patient_objs state_objs].
      rewrite Hobjs. reflexivity.
    + repeat split.
Qed.

Lemma list_remove_last (agent : Agent) (l : list Agent) :
  exists l', list_remove (fun a => bool_decide (a = agent)) (l ++ [agent]) = Some l'.
Proof.
  induction l as [|a l (l' & IH)]; cbn [app list_remove].
  - rewrite bool_decide_eq_true_2 by reflexivity. now eexists.
  - destruct (bool_decide (a = agent)); [now eexists|]. rewrite IH. now eexists.
Qed.

Lemma py_index_nonneg {A} (xs : list A) (i : Z) :
  (0 <= i)%Z -> py_index xs i = xs !! Z.to_nat i.
Proof. intros H. unfold py_index. apply Z.leb_le in H. now rewrite H. Qed.

Lemma next_room_complete (p : Patient.t) :
  Patient.is_complete p = true -> Patient.next_room p = Some None.
Proof. intros H. unfold Patient.next_room. now rewrite H. Qed.

(** A TREAT_PATIENT token with a valid target: the run of
    [_execute_agent_action] and the store it leaves. *)
Lemma execute_treat_run_at (sqrt : Qc -> Qc) (positions : Dict.t (Qc * Qc)) (st : Store)
    (state : ref) (agent : Agent) (k : Z) (metrics : Metrics.t) (s : GameState.t)
    (r : ref) (p : Patient.t) (room : string) :
  state_objs st !! state = Some s ->
  (k - 1 <? Z.of_nat (length (GameState.patients s)))%Z = true ->
  py_index (GameState.patients s) (k - 1) = Some r ->
  patient_objs st !! r = Some p ->
  Patient.next_room p = Some (Some room) -> room <> "" ->
  exists reward metrics' p' s',
    _execute_agent_action sqrt positions state agent (TREAT_PATIENT k) metrics st
    = Ok (reward, metrics')
         {| patient_objs := <[r := p']> (patient_objs st);
            state_objs := <[state := s']> (state_objs st) |} /\
    Patient.current_step p' = (Patient.current_step p + 1)%Z /\
    Patient.id p' = Patient.id p /\
    Patient.pathway p' = Patient.pathway p /\
    (patient_ok p -> patient_ok p') /\
    GameState.patients s' = GameState.patients s /\
    GameState.current_time s' = GameState.current_time s.
Proof.
  intros Es Hlt Hr E En Hroom. unfold _execute_agent_action.
  rewrite (bind_ok _ _ _ _ _ (get_state_run st state s Es)).
  rewrite Hlt, Hr.
  rewrite (bind_ok _ _ _ _ _ (read_next_room_run st r p _ E En)).
  destruct room as [|a room']; [congruence|]. set (room := String a room') in *.
  rewrite (bind_ok _ _ _ _ _ (get_patient_run st r p E)).
  set (coop := (0 <? Z.of_nat (length (Patient.being_treated_by p)))%Z).
  rewrite (bind_ok _ _ _ _ _ (modify_state_run st state s _ Es)).
  set (s1 := GameState.set_busy_pos s agent _ room).
  assert (E1 : patient_objs (upd_state st state s1) !! r = Some p) by exact E.
  rewrite (bind_ok _ _ _ _ _ (modify_patient_run _ r p _ E1)).
  set (p1 := Patient.set_being_treated_by p (Patient.being_treated_by p ++ [agent])).
  set (st2 := upd_patient (upd_state st state s1) r p1).
  assert (E2 : patient_objs st2 !! r = Some p1) by (eapply upd_patient_lookup, E1).
  assert (Es2 : state_objs st2 !! state = Some s1) by (eapply upd_state_lookup, Es).
  assert (En1 : Patient.next_room p1 = Some (Some room)) by exact En.
  destruct (treat_patient_run st2 state r agent
              (Dict.get_or ROOM_TREATMENT_TIME room (qz 10)) coop p1 room s1 E2 En1 Es2)
    as (reward & s' & Hrun & Hs1 & Hs2 & _).
  rewrite (bind_ok _ _ _ _ _ Hrun).
  set (p3 := treated p1 _) in *.
  set (st3 := {| patient_objs := <[r:=p3]> (patient_objs st2);
                 state_objs := <[state:=s']> (state_objs st2) |}).
  assert (E3 : patient_objs st3 !! r = Some p3).
  { unfold st3. cbn [patient_objs]. apply list_lookup_insert_eq.
    eapply lookup_lt_Some, E2. }
  destruct (list_remove_last agent (Patient.being_treated_by p)) as (l' & Hl).
  assert (Hrem : remove_agent agent r st3
                 = Ok tt (upd_patient st3 r (Patient.set_being_treated_by p3 l'))).
  { unfold remove_agent.
    rewrite (bind_ok _ _ _ _ _ (get_patient_run st3 r p3 E3)).
    change (Patient.being_treated_by p3) with (Patient.being_treated_by p ++ [agent]).
    rewrite Hl. now apply put_patient_run with p3. }
  rewrite (bind_ok _ _ _ _ _ Hrem).
  eexists reward, _, (Patient.set_being_treated_by p3 l'), s'.
  split; [|split; [reflexivity|split; [reflexivity|split; [reflexivity|split]]]].
  - unfold ret, upd_patient, st3, st2, upd_patient, upd_state.
    cbn [patient_objs state_objs].
    now rewrite !list_insert_insert_eq.
  - intros Hp. apply ok_set_being_treated_by. unfold p3.
    apply ok_treated.
    + exact Hp.
    + apply healing_nonneg, Qclt_le_weak, treatment_time_pos.
    + eapply next_room_some_not_complete, En.
  - split; [rewrite Hs1|rewrite Hs2]; unfold s1; now destruct agent.
Qed.

Lemma execute_treat_run (sqrt : Qc -> Qc) (positions : Dict.t (Qc * Qc)) (st : Store)
    (state : ref) (agent : Agent) (k : Z) (metrics : Metrics.t) (s : GameState.t)
    (r : ref) (p : Patient.t) (room : string) :
  (1 <= k)%Z ->
  state_objs st !! state = Some s ->
  GameState.patients s !! Z.to_nat (k - 1) = Some r ->
  patient_objs st !! r = Some p ->
  Patient.next_room p = Some (Some room) -> room <> "" ->
  exists reward metrics' p' s',
    _execute_agent_action sqrt positions state agent (TREAT_PATIENT k) metrics st
    = Ok (reward, metrics')
         {| patient_objs := <[r := p']> (patient_objs st);
            state_objs := <[state := s']> (state_objs st) |} /\
    Patient.current_step p' = (Patient.current_step p + 1)%Z /\
    Patient.id p' = Patient.id p /\
    Patient.pathway p' = Patient.pathway p /\
    (patient_ok p -> patient_ok p') /\
    GameState.patients s' = GameState.patients s /\
    GameState.current_time s' = GameState.current_time s.
Proof.
  intros Hk Es Hr. apply execute_treat_run_at; [exact Es| |].
  - apply Z.ltb_lt. apply lookup_lt_Some in Hr. lia.
  - now rewrite py_index_nonneg by lia.
Qed.

(** A TREAT_PATIENT token without a valid target does nothing. *)
Lemma execute_treat_noop (sqrt : Qc -> Qc) (positions : Dict.t (Qc * Qc)) (st : Store)
    (state : ref) (agent : Agent) (k : Z) (metrics : Metrics.t) (s : GameState.t) :
  (1 <= k)%Z ->
  state_objs st !! state = Some s ->
  GameState.patients s !! Z.to_nat (k - 1) = None \/
  (exists r p, GameState.patients s !! Z.to_nat (k - 1) = Some r /\
               patient_objs st !! r = Some p /\ Patient.is_complete p = true) ->
  _execute_agent_action sqrt positions state agent (TREAT_PATIENT k) metrics st
  = Ok (0, metrics) st.
Proof.
  intros Hk Es H. unfold _execute_agent_action.
  rewrite (bind_ok _ _ _ _ _ (get_state_run st state s Es)).
  destruct H as [Hnone | (r & p & Hr & E & Hc)].
  - apply lookup_ge_None in Hnone.
    assert (Hge : (k - 1 <? Z.of_nat (length (GameState.patients s)))%Z = false).
    { apply Z.ltb_ge. lia. }
    now rewrite Hge.
  - assert (Hlt : (k - 1 <? Z.of_nat (length (GameState.patients s)))%Z = true).
    { apply Z.ltb_lt. apply lookup_lt_Some in Hr. lia. }
    rewrite Hlt, py_index_nonneg, Hr by lia.
    now rewrite (bind_ok _ _ _ _ _
                   (read_next_room_run st r p _ E (next_room_complete p Hc))).
Qed.

(** *** The tokens the generator emits *)

Section Tokens.
Variable patients : list Patient.t.

Lemma good_append_nurse (a : Action) (acc : Seqs) :
  token_of patients a -> good_seqs patients acc -> good_seqs patients (append_nurse a acc).
Proof.
  intros Ha (Hn & Hd). split; [|exact Hd]. cbn.
  apply Forall_app. split; [exact Hn|now constructor].
Qed.

Lemma good_append_doctor (a : Action) (acc : Seqs) :
  token_of patients a -> good_seqs patients acc -> good_seqs patients (append_doctor a acc).
Proof.
  intros Ha (Hn & Hd). split; [exact Hn|]. cbn.
  apply Forall_app. split; [exact Hd|now constructor].
Qed.

Lemma good_times (n : nat) (body : Seqs -> Seqs) (acc : Seqs) :
  (forall acc, good_seqs patients acc -> good_seqs patients (body acc)) ->
  good_seqs patients acc -> good_seqs patients (times n body acc).
Proof. intros Hb H. unfold times. induction n; simpl; auto. Qed.

Lemma good_pad (acc : Seqs) : good_seqs patients acc -> good_seqs patients (pad acc).
Proof.
  intros (Hn & Hd). unfold pad. split; cbn; apply Forall_app; (split; [assumption|]);
    apply List.Forall_forall; intros a Ha; apply repeat_spec in Ha; now left.
Qed.

Lemma token_treat (p : Patient.t) : In p patients -> token_of patients (treat p).
Proof. intros H. right. now exists p. Qed.

Lemma token_wait : token_of patients WAIT.
Proof. now left. Qed.

Lemma good_fold (step : Seqs -> Patient.t -> Seqs) (ps : list Patient.t) (acc : Seqs) :
  (forall acc p, In p patients -> good_seqs patients acc -> good_seqs patients (step acc p)) ->
  (forall p, In p ps -> In p patients) ->
  good_seqs patients acc -> good_seqs patients (fold_left step ps acc).
Proof.
  intros Hstep. revert acc. induction ps as [|p ps IH]; intros acc Hsub H; simpl; auto.
  apply IH; [intros; apply Hsub; now right|].
  apply Hstep; [apply Hsub; now left|exact H].
Qed.

Lemma good_critical_first_step (acc : Seqs) (p : Patient.t) :
  In p patients -> good_seqs patients acc -> good_seqs patients (critical_first_step acc p).
Proof.
  intros Hp H. unfold critical_first_step.
  destruct (bool_decide _); apply good_times; try exact H; intros acc' H';
    apply good_append_doctor, good_append_nurse;
    auto using token_treat, token_wait.
Qed.

Lemma good_both_step (acc : Seqs) (p : Patient.t) :
  In p patients -> good_seqs patients acc -> good_seqs patients (both_step acc p).
Proof.
  intros Hp H. unfold both_step. apply good_times; [|exact H]. intros acc' H'.
  apply good_append_doctor, good_append_nurse; auto using token_treat.
Qed.

Lemma good_split_by_type_step (acc : Seqs) (p : Patient.t) :
  In p patients -> good_seqs patients acc -> good_seqs patients (split_by_type_step acc p).
Proof.
  intros Hp H. unfold split_by_type_step.
  destruct (bool_decide _); apply good_times; try exact H; intros acc' H';
    [apply good_append_doctor|apply good_append_nurse]; auto using token_treat.
Qed.

Lemma good_role_based_step (acc : Seqs) (p : Patient.t) :
  In p patients -> good_seqs patients acc -> good_seqs patients (role_based_step acc p).
Proof.
  intros Hp H. unfold role_based_step. apply good_times.
  - intros acc' H'. apply good_append_doctor; auto using token_treat.
  - apply good_append_nurse; auto using token_treat.
Qed.

Lemma good_distance_fold (ps : list Patient.t) (i : nat) (acc : Seqs) :
  (forall p, In p ps -> In p patients) ->
  good_seqs patients acc -> good_seqs patients (snd (fold_left distance_step ps (i, acc))).
Proof.
  revert i acc. induction ps as [|p ps IH]; intros i acc Hsub H; cbn [fold_left];
    [exact H|].
  unfold distance_step at 2. apply IH; [intros; apply Hsub; now right|].
  assert (Hp : In p patients) by (apply Hsub; now left).
  destruct (i mod 2 =? 0)%nat; apply good_times; try exact H; intros acc' H';
    [apply good_append_nurse|apply good_append_doctor]; auto using token_treat.
Qed.

Lemma generated_tokens (name : string) (seqs : Seqs) :
  generate_action_sequences patients name = Some seqs -> good_seqs patients seqs.
Proof.
  unfold generate_action_sequences.
  destruct (Dict.get STRATEGIES name) as [info|]; [|discriminate].
  intros [= <-].
  assert (H0 : good_seqs patients ([], [])) by (split; constructor).
  assert (Hsorted : forall p, In p (sorted_by neg_urgency patients) -> In p patients).
  { intros p. apply Permutation_in, sorted_by_perm. }
  repeat match goal with
         | |- context [if ?c then _ else _] => destruct c
         end.
  - apply good_fold; auto using good_critical_first_step.
  - apply good_fold; auto using good_both_step.
  - apply good_pad, good_fold; auto using good_split_by_type_step.
  - apply good_fold; auto using good_both_step.
  - apply good_pad, good_distance_fold; auto.
  - apply good_pad, good_fold; auto using good_role_based_step.
  - exact H0.
Qed.
End Tokens.

(** C10. A token TREAT_PATIENT_k with k >= 1 is dispatched by roster
    position: when position k-1 of the current patient list holds no
    patient, or a patient whose pathway is complete, the action returns
    reward 0 and leaves the store (patients, agent positions, busy-until
    times) as it was; otherwise the patient at position k-1 advances one
    step, whatever its id, and no other patient object changes.  The
    generator only emits WAIT and tokens whose k is the id of a roster
    patient, and position id-1 is the patient's own position i exactly
    when id = i+1. *)
Theorem C10_treat_dispatch (sqrt : Qc -> Qc) (positions : Dict.t (Qc * Qc))
    (st : Store) (state : ref) (agent : Agent) (k : Z) (metrics : Metrics.t)
    (s : GameState.t) :
  (1 <= k)%Z ->
  state_objs st !! state = Some s ->
  (GameState.patients s !! Z.to_nat (k - 1) = None \/
   (exists r p, GameState.patients s !! Z.to_nat (k - 1) = Some r /\
                patient_objs st !! r = Some p /\ Patient.is_complete p = true) ->
   _execute_agent_action sqrt positions state agent (TREAT_PATIENT k) metrics st
   = Ok (0, metrics) st) /\
  (forall r p room,
      GameState.patients s !! Z.to_nat (k - 1) = Some r ->
      patient_objs st !! r = Some p ->
      Patient.next_room p = Some (Some room) -> room <> "" ->
      exists reward metrics' st',
        _execute_agent_action sqrt positions state agent (TREAT_PATIENT k) metrics st
        = Ok (reward, metrics') st' /\
        (exists p', patient_objs st' !! r = Some p' /\
                    Patient.current_step p' = (Patient.current_step p + 1)%Z) /\
        (forall r', r' <> r -> patient_objs st' !! r' = patient_objs st !! r')) /\
  (forall patients name seqs a,
      generate_action_sequences patients name = Some seqs ->
      In a (fst seqs ++ snd seqs) -> token_of patients a) /\
  (forall (i : nat) (id : Z),
      (1 <= id)%Z -> Z.to_nat (id - 1) = i <-> id = (Z.of_nat i + 1)%Z).
Proof.
  intros Hk Es. split; [|split; [|split]].
  - now apply execute_treat_noop.
  - intros r p room Hr E En Hroom.
    destruct (execute_treat_run sqrt positions st state agent k metrics s r p room
                Hk Es Hr E En Hroom)
      as (reward & metrics' & p' & s' & Hrun & Hstep & _).
    eexists reward, metrics', _. split; [exact Hrun|]. cbn [patient_objs]. split.
    + exists p'. split; [|exact Hstep].
      apply list_lookup_insert_eq. eapply lookup_lt_Some, E.
    + intros r' Hne. apply list_lookup_insert_ne. congruence.
  - intros patients name seqs a Hgen Ha.
    destruct (generated_tokens patients name seqs Hgen) as (Hn & Hd).
    rewrite List.Forall_forall in Hn, Hd.
    apply in_app_or in Ha as [Ha|Ha]; auto.
  - intros i id Hid. lia.
Qed.

Lemma C10_treat_dispatch_witness :
  let st := store_of (DynamicRegretAnalyzer.spawn_patient
                        DynamicRegretAnalyzer.init Minor empty_store) in
  let s := GameState.set_patients GameState.default [0%nat] in
  (1 <= 1)%Z /\
  state_objs st !! 0%nat = Some s /\
  exists reward metrics' st',
    _execute_agent_action (fun x => x) ROOM_POSITIONS 0%nat nurse (TREAT_PATIENT 1)
                          Metrics.zero st
    = Ok (reward, metrics') st' /\
    (exists p', patient_objs st' !! 0%nat = Some p' /\
                Patient.current_step p' = (0 + 1)%Z) /\
    (forall r', r' <> 0%nat -> patient_objs st' !! r' = patient_objs st !! r').
Proof.
  intros st s.
  assert (H1 : (1 <= 1)%Z) by lia.
  assert (H2 : state_objs st !! 0%nat = Some s) by reflexivity.
  split; [exact H1|]. split; [exact H2|].
  refine (proj1 (proj2 (C10_treat_dispatch (fun x => x) ROOM_POSITIONS st 0%nat nurse 1
                          Metrics.zero s H1 H2))
            0%nat
            (Patient.new 1 Minor (INITIAL_HEALTH Minor) (PATHWAYS Minor) 0 0 0 []
                         (qz 30) false)
            "TRIAGE" _ _ _ _); try reflexivity.
  discriminate.
Defined.

(** ** The simulation invariant *)

Lemma sublist_forall {A} (P : A -> Prop) (l k : list A) :
  sublist l k -> Forall P k -> Forall P l.
Proof.
  induction 1 as [|x l k _ IH|x l k _ IH]; intros H; [constructor| |];
    inversion H; subst; [constructor|]; auto.
Qed.

Lemma sublist_map {A B} (f : A -> B) (l k : list A) :
  sublist l k -> sublist (map f l) (map f k).
Proof. induction 1; simpl; now constructor. Qed.

Lemma sublist_ListNoDup {A} (l k : list A) :
  sublist l k -> List.NoDup k -> List.NoDup l.
Proof.
  intros Hs Hk. apply NoDup_ListNoDup. eapply sublist_NoDup; [|exact Hs].
  now apply NoDup_ListNoDup.
Qed.

Section SimInvariant.
Variable st0 : Store.
Variable state : ref.
Variable ids : list Z.
Variable TOT : Prop.

Local Abbreviation n0 := (length (patient_objs st0)).
Local Abbreviation J := (sim_inv st0 state ids TOT).
Local Abbreviation EX := (sim_exc st0 state ids TOT).
Local Abbreviation valid r := (n0 <= r < length ids)%nat.

Lemma extends_upd_patient (st : Store) (r : ref) (p : Patient.t) :
  extends st0 st -> (n0 <= r)%nat -> extends st0 (upd_patient st r p).
Proof.
  intros ((ps & Hp) & Hs) Hr. split; [|exact Hs]. unfold upd_patient. cbn.
  exists (<[(r - n0)%nat := p]> ps). rewrite Hp. now apply insert_app_r_alt.
Qed.

Lemma extends_upd_state (st : Store) (r : ref) (s : GameState.t) :
  extends st0 st -> (length (state_objs st0) <= r)%nat -> extends st0 (upd_state st r s).
Proof.
  intros (Hp & (ss & Hs)) Hr. split; [exact Hp|]. unfold upd_state. cbn.
  exists (<[(r - length (state_objs st0))%nat := s]> ss). rewrite Hs.
  now apply insert_app_r_alt.
Qed.

Lemma sim_inv_lookup_state (t : Qc) (st : Store) :
  J t st -> exists s, state_objs st !! state = Some s /\ roster_fact st0 ids TOT t s.
Proof. now intros (_ & _ & _ & H & _). Qed.

Lemma sim_inv_valid (t : Qc) (st : Store) (r : ref) :
  J t st -> valid r ->
  exists p, patient_objs st !! r = Some p /\ Patient.id p = id_at ids r /\
            (TOT -> patient_ok p).
Proof.
  intros (_ & Hids & _ & _ & Hok) Hr.
  assert (Hlen : length (patient_objs st) = length ids).
  { now rewrite <- Hids, length_fmap. }
  destruct (lookup_lt_is_Some_2 (patient_objs st) r) as (p & Hp); [lia|].
  exists p. split; [exact Hp|]. split.
  - unfold id_at. now rewrite <- Hids, list_lookup_fmap, Hp.
  - intros HT. eapply all_ok_lookup; eauto.
Qed.

Lemma sim_inv_upd_patient (t : Qc) (st : Store) (r : ref) (p p' : Patient.t) :
  J t st -> valid r -> patient_objs st !! r = Some p ->
  Patient.id p' = Patient.id p -> (patient_ok p -> patient_ok p') ->
  J t (upd_patient st r p').
Proof.
  intros (Hext & Hids & Hm & Hs & Hok) Hr Hp Hid Hpok.
  assert (Hix : ids !! r = Some (Patient.id p)).
  { rewrite <- Hids, list_lookup_fmap, Hp. reflexivity. }
  split; [apply extends_upd_patient; [exact Hext|lia]|].
  split; [|split; [exact Hm|split; [exact Hs|]]].
  - unfold upd_patient. cbn [patient_objs]. rewrite list_fmap_insert, Hid, Hids.
    apply list_insert_id. exact Hix.
  - intros HT. apply all_ok_upd_patient; [now apply Hok|].
    apply Hpok. eapply all_ok_lookup; eauto.
Qed.

Lemma sim_inv_upd_state (t t' : Qc) (st : Store) (s' : GameState.t) :
  J t st -> roster_fact st0 ids TOT t' s' -> J t' (upd_state st state s').
Proof.
  intros (Hext & Hids & Hm & (s & Hs & _) & Hok) Hf.
  split; [now apply extends_upd_state|].
  split; [exact Hids|split; [exact Hm|split; [|exact Hok]]].
  exists s'. split; [|exact Hf]. eapply upd_state_lookup, Hs.
Qed.

(** *** Primitive triples *)

Lemma sim_get_state (t : Qc) :
  hoare (J t) (get_state state) (fun s st => J t st /\ state_objs st !! state = Some s
                                             /\ roster_fact st0 ids TOT t s) EX.
Proof.
  intros st HJ. destruct (sim_inv_lookup_state t st HJ) as (s & Hs & Hf).
  rewrite (get_state_run st state s Hs). auto.
Qed.

Lemma sim_put_state (t t' : Qc) (s' : GameState.t) :
  roster_fact st0 ids TOT t' s' ->
  hoare (J t) (put_state state s') (fun _ st => J t' st) EX.
Proof.
  intros Hf st HJ. destruct (sim_inv_lookup_state t st HJ) as (s & Hs & _).
  rewrite (put_state_run st state s s' Hs). eapply sim_inv_upd_state; eauto.
Qed.

Lemma sim_modify_state (t t' : Qc) (f : GameState.t -> GameState.t) :
  (forall s, roster_fact st0 ids TOT t s -> roster_fact st0 ids TOT t' (f s)) ->
  hoare (J t) (modify_state state f) (fun _ st => J t' st) EX.
Proof.
  intros Hf st HJ. destruct (sim_inv_lookup_state t st HJ) as (s & Hs & Hfact).
  rewrite (modify_state_run st state s f Hs). eapply sim_inv_upd_state; eauto.
Qed.

Lemma sim_get_patient (t : Qc) (r : ref) :
  valid r ->
  hoare (J t) (get_patient r)
        (fun p st => J t st /\ patient_objs st !! r = Some p /\
                     Patient.id p = id_at ids r /\ (TOT -> patient_ok p)) EX.
Proof.
  intros Hr st HJ. destruct (sim_inv_valid t st r HJ Hr) as (p & Hp & Hid & Hok).
  rewrite (get_patient_run st r p Hp). auto.
Qed.

Lemma sim_modify_patient (t : Qc) (r : ref) (f : Patient.t -> Patient.t) :
  valid r ->
  (forall p, Patient.id (f p) = Patient.id p) ->
  (forall p, patient_ok p -> patient_ok (f p)) ->
  hoare (J t) (modify_patient r f) (fun _ st => J t st) EX.
Proof.
  intros Hr Hid Hok st HJ. destruct (sim_inv_valid t st r HJ Hr) as (p & Hp & _).
  rewrite (modify_patient_run st r p f Hp). eapply sim_inv_upd_patient; eauto.
Qed.

Lemma roster_fact_same (t : Qc) (s s' : GameState.t) :
  GameState.patients s' = GameState.patients s ->
  GameState.current_time s' = GameState.current_time s ->
  roster_fact st0 ids TOT t s -> roster_fact st0 ids TOT t s'.
Proof. unfold roster_fact. intros -> ->. tauto. Qed.

Lemma roster_fact_sublist (t : Qc) (s : GameState.t) (l : list ref) :
  sublist l (GameState.patients s) ->
  roster_fact st0 ids TOT t s -> roster_fact st0 ids TOT t (GameState.set_patients s l).
Proof.
  intros Hsub (Hv & Ht & Hnd). split; [|split; [exact Ht|]]; cbn.
  - eapply sublist_forall; eauto.
  - intros HT. eapply sublist_ListNoDup; [apply sublist_map, Hsub|now apply Hnd].
Qed.
End SimInvariant.

(** *** Auxiliary facts for the simulation triples *)

Lemma hoare_pre {A} (P P' : Store -> Prop) (m : M A) (Q : A -> Store -> Prop)
    (E : exn -> Store -> Prop) :
  hoare P' m Q E -> (forall st, P st -> P' st) -> hoare P m Q E.
Proof. intros H HP st Hst. apply H, HP, Hst. Qed.

Lemma hoare_post {A} (P : Store -> Prop) (m : M A) (Q Q' : A -> Store -> Prop)
    (E : exn -> Store -> Prop) :
  hoare P m Q' E -> (forall a st, Q' a st -> Q a st) -> hoare P m Q E.
Proof.
  intros H HQ st Hst. specialize (H st Hst). destruct (m st); auto.
Qed.

Lemma next_room_total (p : Patient.t) :
  patient_ok p -> exists room, Patient.next_room p = Some room.
Proof.
  intros (_ & _ & H0 & _ & _). unfold Patient.next_room.
  destruct (Patient.is_complete p) eqn:Ec; [now eexists|].
  apply not_complete_lt in Ec. rewrite py_index_nonneg by exact H0.
  destruct (lookup_lt_is_Some_2 (Patient.pathway p) (Z.to_nat (Patient.current_step p)))
    as (room & Hr); [lia|].
  rewrite Hr. now eexists.
Qed.

Lemma list_remove_Some {A} (eqb : A -> bool) (xs ys : list A) :
  list_remove eqb xs = Some ys ->
  exists l1 x l2, xs = l1 ++ x :: l2 /\ ys = l1 ++ l2 /\ eqb x = true /\
                  Forall (fun y => eqb y = false) l1.
Proof.
  revert ys. induction xs as [|y xs IH]; intros ys; cbn [list_remove]; [discriminate|].
  destruct (eqb y) eqn:Ey.
  - intros [= <-]. exists [], y, xs. repeat split; auto.
  - destruct (list_remove eqb xs) as [rest|]; [|discriminate].
    intros [= <-]. destruct (IH rest eq_refl) as (l1 & x & l2 & -> & -> & Hx & Hl1).
    exists (y :: l1), x, l2. repeat split; auto.
Qed.

Lemma list_remove_None {A} (eqb : A -> bool) (xs : list A) :
  list_remove eqb xs = None -> Forall (fun y => eqb y = false) xs.
Proof.
  induction xs as [|y xs IH]; cbn [list_remove]; [constructor|].
  destruct (eqb y) eqn:Ey; [discriminate|].
  destruct (list_remove eqb xs); [discriminate|]. intros _. constructor; auto.
Qed.

Lemma list_remove_sublist {A} (eqb : A -> bool) (xs ys : list A) :
  list_remove eqb xs = Some ys -> sublist ys xs.
Proof.
  intros H. apply list_remove_Some in H as (l1 & x & l2 & -> & -> & _).
  apply sublist_app; [reflexivity|]. now apply sublist_cons.
Qed.

(** The comprehension that pairs every roster reference with its object. *)
Lemma roster_objects_run (st : Store) (rs : list ref) :
  Forall (fun r => is_Some (patient_objs st !! r)) rs ->
  exists objs,
    mapM (fun r => x <- get_patient r ;; ret (r, x)) rs st = Ok objs st /\
    map fst objs = rs /\
    Forall (fun rx => patient_objs st !! fst rx = Some (snd rx)) objs.
Proof.
  induction 1 as [|r rs (p & Hp) _ (objs & Hrun & Hfst & Hall)]; cbn [mapM].
  - exists []. repeat split; constructor.
  - exists ((r, p) :: objs).
    rewrite (bind_ok _ _ st st (r, p)).
    2:{ now rewrite (bind_ok _ _ _ _ _ (get_patient_run st r p Hp)). }
    rewrite (bind_ok _ _ _ _ _ Hrun). split; [reflexivity|]. split.
    + simpl. now rewrite Hfst.
    + now constructor.
Qed.

Lemma Qcle_ceiling (x : Qc) : x <= qz (Qceiling x).
Proof. unfold Qcle, qz. cbn. apply Qle_ceiling. Qed.

(** *** Triples of the simulator's operations *)

Section SimTriples.
Variable st0 : Store.
Variable state : ref.
Variable ids : list Z.
Variable TOT : Prop.

Local Abbreviation n0 := (length (patient_objs st0)).
Local Abbreviation J := (sim_inv st0 state ids TOT).
Local Abbreviation EX := (sim_exc st0 state ids TOT).
Local Abbreviation valid r := (n0 <= r < length ids)%nat.
Local Abbreviation fact := (roster_fact st0 ids TOT).

Lemma sim_exc_intro (t : Qc) (e : exn) (st : Store) : J t st -> ~ TOT -> EX e st.
Proof. intros H HT. split; [now exists t|exact HT]. Qed.

Lemma sim_get_state_pure (t : Qc) :
  hoare (J t) (get_state state) (fun s st => J t st /\ fact t s) EX.
Proof.
  eapply hoare_post; [apply sim_get_state|]. intros s st (H1 & _ & H2). now split.
Qed.

Lemma sim_get_patient_pure (t : Qc) (r : ref) :
  valid r ->
  hoare (J t) (get_patient r)
        (fun p st => J t st /\ (Patient.id p = id_at ids r /\ (TOT -> patient_ok p))) EX.
Proof.
  intros Hr. eapply hoare_post; [now apply sim_get_patient|].
  intros p st (H1 & _ & H2). now split.
Qed.

(** Reading a valid patient leaves the store as it is. *)
Lemma sim_read_patient {A} (t : Qc) (r : ref) (X : Store -> Prop) (k : Patient.t -> A) :
  valid r ->
  hoare (fun st => J t st /\ X st) (p <- get_patient r ;; ret (k p))
        (fun _ st => J t st /\ X st) EX.
Proof.
  intros Hr st (HJ & HX). destruct (sim_inv_valid st0 state ids TOT t st r HJ Hr)
    as (p & Hp & _).
  rewrite (bind_ok _ _ _ _ _ (get_patient_run st r p Hp)). cbn. now split.
Qed.

Lemma sim_waiting_step (t time_delta penalty : Qc) (r : ref) :
  valid r -> 0 <= time_delta ->
  hoare (J t) (waiting_step time_delta penalty r) (fun _ st => J t st) EX.
Proof.
  intros Hr Hd. unfold waiting_step.
  eapply hoare_bind; [now apply sim_get_patient_pure|]. intros patient.
  eapply hoare_pre; [|intros st H; exact (proj1 H)].
  destruct (Patient.being_treated_by patient); [|apply hoare_ret; auto].
  eapply hoare_bind.
  { apply sim_modify_patient; [exact Hr|reflexivity|]. intros p. apply ok_set_waiting_time. }
  intros ?. eapply hoare_bind.
  { apply sim_modify_patient; [exact Hr|reflexivity|]. intros p Hp.
    apply ok_wait_health; [exact Hp|now apply waiting_penalty_nonpos]. }
  intros ?. apply hoare_ret; auto.
Qed.

Lemma sim_apply_waiting_penalties (t time_delta : Qc) :
  0 <= time_delta ->
  hoare (J t) (apply_waiting_penalties state time_delta) (fun _ st => J t st) EX.
Proof.
  intros Hd. unfold apply_waiting_penalties.
  eapply hoare_bind; [apply sim_get_state_pure|]. intros s.
  eapply hoare_pre with (P' := fun st => fact t s /\ J t st); [|tauto].
  apply hoare_pure. intros (Hv & _ & _).
  eapply hoare_bind.
  { apply (hoare_foldM _ (fun _ st => J t st) EX (fun r => valid r)); [|exact Hv].
    intros b r Hr. now apply sim_waiting_step. }
  intros penalty. eapply hoare_bind.
  { apply sim_modify_state. intros s'. now apply roster_fact_same. }
  intros ?. apply hoare_ret. auto.
Qed.

Lemma sim_read_next_room (t : Qc) (r : ref) (X : Store -> Prop) :
  valid r ->
  hoare (fun st => J t st /\ X st) (read_next_room r)
        (fun room st => (J t st /\ X st) /\
                        exists p, patient_objs st !! r = Some p /\
                                  Patient.next_room p = Some room)
        EX.
Proof.
  intros Hr st (HJ & HX).
  destruct (sim_inv_valid st0 state ids TOT t st r HJ Hr) as (p & Hp & _ & Hok).
  destruct (Patient.next_room p) as [room|] eqn:En.
  - rewrite (read_next_room_run st r p room Hp En). split; [now split|]. now exists p.
  - unfold read_next_room.
    rewrite (bind_ok _ _ _ _ _ (get_patient_run st r p Hp)), En.
    apply sim_exc_intro with t; [exact HJ|]. intros HT.
    destruct (next_room_total p (Hok HT)) as (room & Hroom). congruence.
Qed.

Lemma id_at_lookup (t : Qc) (st : Store) (r : ref) (p : Patient.t) :
  J t st -> patient_objs st !! r = Some p -> id_at ids r = Patient.id p.
Proof.
  intros (_ & Hids & _) Hp. unfold id_at. now rewrite <- Hids, list_lookup_fmap, Hp.
Qed.

Lemma sim_remove_from_roster (t : Qc) (p : ref) (rest : list ref) :
  valid p ->
  hoare (fun st => J t st /\
                   (TOT -> roster_sat state
                             (fun l => In p l /\ sublist rest l /\ ~ In p rest) st))
        (remove_from_roster state p)
        (fun _ st => J t st /\ (TOT -> roster_sat state (sublist rest) st))
        EX.
Proof.
  intros Hp st (HJ & HT).
  destruct (sim_inv_lookup_state st0 state ids TOT t st HJ) as (s & Hs & Hf).
  pose proof Hf as (Hv & Ht & Hnd).
  destruct (sim_inv_valid st0 state ids TOT t st p HJ Hp) as (target & Hpt & Hidt & _).
  unfold remove_from_roster.
  rewrite (bind_ok _ _ _ _ _ (get_state_run st state s Hs)).
  rewrite (bind_ok _ _ _ _ _ (get_patient_run st p target Hpt)).
  destruct (roster_objects_run st (GameState.patients s)) as (objs & Hrun & Hfst & Hobjs).
  { eapply List.Forall_impl; [|exact Hv]. intros r Hr.
    destruct (sim_inv_valid st0 state ids TOT t st r HJ Hr) as (x & Hx & _).
    now exists x. }
  rewrite (bind_ok _ _ _ _ _ Hrun).
  set (eqb := fun rx : ref * Patient.t =>
                bool_decide (fst rx = p) || bool_decide (snd rx = target)).
  destruct (list_remove eqb objs) as [objs'|] eqn:Er.
  - rewrite (put_state_run st state s _ Hs).
    assert (Hsub : sublist (map fst objs') (GameState.patients s)).
    { rewrite <- Hfst. apply sublist_map. eapply list_remove_sublist, Er. }
    split.
    + eapply sim_inv_upd_state; [exact HJ|]. now apply roster_fact_sublist.
    + intros HTOT. destruct (HT HTOT) as (s2 & Hs2 & Hin & Hrest & Hnin).
      assert (s2 = s) by congruence. subst s2.
      exists (GameState.set_patients s (map fst objs')).
      split; [eapply upd_state_lookup, Hs|]. cbn.
      apply list_remove_Some in Er as (l1 & x & l2 & -> & -> & Hx & _).
      rewrite List.Forall_forall in Hobjs.
      assert (Hxl : patient_objs st !! fst x = Some (snd x)).
      { apply Hobjs. apply in_or_app. right. now left. }
      assert (Hxin : In (fst x) (GameState.patients s)).
      { rewrite <- Hfst. apply in_map. apply in_or_app. right. now left. }
      assert (Hfx : fst x = p).
      { unfold eqb in Hx. apply orb_true_iff in Hx as [Hx|Hx];
          apply bool_decide_eq_true in Hx; [exact Hx|].
        eapply (NoDup_key_inj (id_at ids) (GameState.patients s));
          [now apply Hnd|exact Hxin|exact Hin|].
        rewrite (id_at_lookup t st (fst x) (snd x) HJ Hxl), Hx.
        symmetry. eapply id_at_lookup; eauto. }
      rewrite map_app in Hfst. cbn [map] in Hfst. rewrite Hfx in Hfst.
      rewrite <- Hfst in Hrest. rewrite map_app.
      apply sublist_app_cons_r in Hrest as [Hrest|(r1 & r2 & -> & _)]; [exact Hrest|].
      exfalso. apply Hnin. apply in_or_app. right. now left.
  - apply sim_exc_intro with t; [exact HJ|]. intros HTOT.
    destruct (HT HTOT) as (s2 & Hs2 & Hin & _).
    assert (s2 = s) by congruence. subst s2.
    apply list_remove_None in Er. rewrite List.Forall_forall in Er.
    rewrite <- Hfst in Hin. apply in_map_iff in Hin as (x & Hx & Hxin).
    specialize (Er x Hxin). unfold eqb in Er.
    rewrite bool_decide_eq_true_2 in Er by exact Hx. discriminate Er.
Qed.

Lemma sim_modify_state_sat (t : Qc) (f : GameState.t -> GameState.t)
    (R : list ref -> Prop) :
  (forall s, GameState.patients (f s) = GameState.patients s /\
             GameState.current_time (f s) = GameState.current_time s) ->
  hoare (fun st => J t st /\ (TOT -> roster_sat state R st))
        (modify_state state f)
        (fun _ st => J t st /\ (TOT -> roster_sat state R st)) EX.
Proof.
  intros Hf st (HJ & HT).
  destruct (sim_inv_lookup_state st0 state ids TOT t st HJ) as (s & Hs & Hfact).
  rewrite (modify_state_run st state s f Hs). destruct (Hf s) as (Hp & Ht). split.
  - eapply sim_inv_upd_state; [exact HJ|]. now apply (roster_fact_same _ _ _ _ s).
  - intros HTOT. destruct (HT HTOT) as (s2 & Hs2 & HR).
    assert (s2 = s) by congruence. subst s2.
    exists (f s). split; [eapply upd_state_lookup, Hs|]. now rewrite Hp.
Qed.

(** The two removal loops of a tick: every listed patient leaves the
    roster. *)
Lemma sim_removal_loop (t : Qc) (f : Metrics.t -> ref -> M Metrics.t)
    (xs : list ref) (m : Metrics.t) :
  (forall m p rest, valid p ->
      hoare (fun st => J t st /\
                       (TOT -> roster_sat state
                                 (fun l => In p l /\ sublist rest l /\ ~ In p rest) st))
            (f m p)
            (fun _ st => J t st /\ (TOT -> roster_sat state (sublist rest) st)) EX) ->
  Forall (fun r => valid r) xs -> (TOT -> List.NoDup xs) ->
  hoare (fun st => J t st /\ (TOT -> roster_sat state (sublist xs) st))
        (foldM f xs m) (fun _ st => J t st) EX.
Proof.
  intros Hf Hv. revert m. induction Hv as [|x xs Hx Hv IH]; intros m Hnd; cbn [foldM].
  - apply hoare_ret. tauto.
  - eapply hoare_bind.
    + eapply hoare_pre; [apply (Hf m x xs Hx)|]. intros st (HJ & HT).
      split; [exact HJ|]. intros HTOT. destruct (HT HTOT) as (s & Hs & Hsub).
      exists s. split; [exact Hs|].
      apply sublist_cons_l in Hsub as (k1 & k2 & Hk & Hsub2).
      split; [rewrite Hk; apply in_or_app; right; now left|]. split.
      * rewrite Hk. apply sublist_inserts_l. now apply sublist_cons.
      * specialize (Hnd HTOT). now inversion Hnd.
    + intros m'. apply IH. intros HTOT. specialize (Hnd HTOT). now inversion Hnd.
Qed.

Lemma sim_dead_body (t : Qc) (m : Metrics.t) (p : ref) (rest : list ref) :
  valid p ->
  hoare (fun st => J t st /\
                   (TOT -> roster_sat state
                             (fun l => In p l /\ sublist rest l /\ ~ In p rest) st))
        (modify_state state
           (fun s => GameState.set_total_penalty s (GameState.total_penalty s - qz 50)) ;;;
         remove_from_roster state p ;;;
         ret (Metrics.add_penalty m (qz 50)))
        (fun _ st => J t st /\ (TOT -> roster_sat state (sublist rest) st)) EX.
Proof.
  intros Hp. eapply hoare_bind; [apply sim_modify_state_sat; now intros s|].
  intros ?. eapply hoare_bind; [now apply sim_remove_from_roster|].
  intros ?. apply hoare_ret. auto.
Qed.

Lemma sim_completed_body (t : Qc) (m : Metrics.t) (p : ref) (rest : list ref) :
  valid p ->
  hoare (fun st => J t st /\
                   (TOT -> roster_sat state
                             (fun l => In p l /\ sublist rest l /\ ~ In p rest) st))
        (remove_from_roster state p ;;; ret (Metrics.add_completed m))
        (fun _ st => J t st /\ (TOT -> roster_sat state (sublist rest) st)) EX.
Proof.
  intros Hp. eapply hoare_bind; [now apply sim_remove_from_roster|].
  intros ?. apply hoare_ret. auto.
Qed.

(** Selecting roster patients by a condition on their objects, then
    running a removal loop over the selection. *)
Lemma sim_select_and_remove {B} (t : Qc) (c : Patient.t -> bool)
    (f : Metrics.t -> ref -> M Metrics.t) (m : Metrics.t)
    (k : Metrics.t -> M B) (Q : B -> Store -> Prop) :
  (forall m p rest, valid p ->
      hoare (fun st => J t st /\
                       (TOT -> roster_sat state
                                 (fun l => In p l /\ sublist rest l /\ ~ In p rest) st))
            (f m p)
            (fun _ st => J t st /\ (TOT -> roster_sat state (sublist rest) st)) EX) ->
  (forall m', hoare (J t) (k m') Q EX) ->
  hoare (J t)
        (s <- get_state state ;;
         xs <- filterM (fun r => p <- get_patient r ;; ret (c p)) (GameState.patients s) ;;
         m' <- foldM f xs m ;;
         k m')
        Q EX.
Proof.
  intros Hf Hk. eapply hoare_bind; [apply sim_get_state|]. intros s.
  eapply hoare_pre
    with (P' := fun st => fact t s /\ (J t st /\ state_objs st !! state = Some s));
    [|tauto].
  apply hoare_pure. intros (Hv & _ & Hnd).
  eapply hoare_bind.
  { apply (hoare_filterM _ (fun st => J t st /\ state_objs st !! state = Some s) EX
             (fun r => valid r)); [|exact Hv].
    intros r Hr. now apply sim_read_patient. }
  intros xs.
  eapply hoare_pre
    with (P' := fun st => sublist xs (GameState.patients s) /\
                          (J t st /\ state_objs st !! state = Some s));
    [|tauto].
  apply hoare_pure. intros Hsub.
  eapply hoare_bind; [|exact Hk].
  eapply hoare_pre; [apply (sim_removal_loop t f xs m Hf)|].
  - eapply sublist_forall; eauto.
  - intros HTOT. eapply (NoDup_map_inv (id_at ids)).
    eapply sublist_ListNoDup; [apply sublist_map, Hsub|now apply Hnd].
  - intros st (HJ & Hs). split; [exact HJ|]. intros _. now exists s.
Qed.

Lemma sim_execute_agent_action (sqrt : Qc -> Qc) (positions : Dict.t (Qc * Qc))
    (t : Qc) (agent : Agent) (action : Action) (metrics : Metrics.t) :
  (TOT -> front_token action) ->
  hoare (J t) (_execute_agent_action sqrt positions state agent action metrics)
        (fun _ st => J t st) EX.
Proof.
  intros Hfront. destruct action as [k|].
  - intros st HJ.
    destruct (sim_inv_lookup_state st0 state ids TOT t st HJ) as (s & Hs & Hf).
    pose proof Hf as (Hv & Ht & Hnd).
    destruct (k - 1 <? Z.of_nat (length (GameState.patients s)))%Z eqn:Hlt.
    2:{ unfold _execute_agent_action.
        rewrite (bind_ok _ _ _ _ _ (get_state_run st state s Hs)), Hlt. exact HJ. }
    destruct (py_index (GameState.patients s) (k - 1)) as [r|] eqn:Hidx.
    2:{ unfold _execute_agent_action.
        rewrite (bind_ok _ _ _ _ _ (get_state_run st state s Hs)), Hlt, Hidx.
        apply sim_exc_intro with t; [exact HJ|]. intros HTOT.
        specialize (Hfront HTOT). cbn in Hfront.
        rewrite py_index_nonneg in Hidx by lia.
        apply lookup_ge_None in Hidx. apply Z.ltb_lt in Hlt. lia. }
    assert (Hr : valid r).
    { rewrite List.Forall_forall in Hv. apply Hv.
      unfold py_index in Hidx.
      destruct (0 <=? k - 1)%Z;
        [|destruct (0 <=? k - 1 + Z.of_nat (length (GameState.patients s)))%Z;
          [|discriminate]];
        apply list_elem_of_In, list_elem_of_lookup; eauto. }
    destruct (sim_inv_valid st0 state ids TOT t st r HJ Hr) as (p & Hp & Hid & Hok).
    destruct (Patient.next_room p) as [[room|]|] eqn:En.
    + destruct (decide (room = "")) as [->|Hroom].
      * unfold _execute_agent_action.
        rewrite (bind_ok _ _ _ _ _ (get_state_run st state s Hs)), Hlt, Hidx.
        rewrite (bind_ok _ _ _ _ _ (read_next_room_run st r p _ Hp En)). exact HJ.
      * destruct (execute_treat_run_at sqrt positions st state agent k metrics s r p
                    room Hs Hlt Hidx Hp En Hroom)
          as (reward & metrics' & p' & s' & Hrun & _ & Hid' & _ & Hok' & Hps & Hts).
        rewrite Hrun.
        change (J t (upd_state (upd_patient st r p') state s')).
        eapply sim_inv_upd_state.
        -- eapply sim_inv_upd_patient; eauto.
        -- now apply (roster_fact_same _ _ _ _ s).
    + unfold _execute_agent_action.
      rewrite (bind_ok _ _ _ _ _ (get_state_run st state s Hs)), Hlt, Hidx.
      rewrite (bind_ok _ _ _ _ _ (read_next_room_run st r p _ Hp En)). exact HJ.
    + unfold _execute_agent_action.
      rewrite (bind_ok _ _ _ _ _ (get_state_run st state s Hs)), Hlt, Hidx.
      unfold read_next_room.
      rewrite (bind_raise _ _ st st IndexError).
      2:{ now rewrite (bind_ok _ _ _ _ _ (get_patient_run st r p Hp)), En. }
      apply sim_exc_intro with t; [exact HJ|]. intros HTOT.
      destruct (next_room_total p (Hok HTOT)) as (room & Hroom). congruence.
  - unfold _execute_agent_action.
    eapply hoare_bind; [apply sim_get_state_pure|]. intros s.
    eapply hoare_pre with (P' := fun st => fact t s /\ J t st); [|tauto].
    apply hoare_pure. intros Hf.
    eapply hoare_bind.
    { apply (sim_put_state st0 state ids TOT t t).
      apply (roster_fact_same _ _ _ _ s); [| |exact Hf]; now destruct agent. }
    intros ?. apply hoare_ret. auto.
Qed.

Lemma sim_agent_turn (sqrt : Qc -> Qc) (positions : Dict.t (Qc * Qc)) (t : Qc)
    (agent : Agent) (actions : list Action) (v : nat * Metrics.t) :
  (TOT -> Forall front_token actions) ->
  hoare (J t) (agent_turn sqrt positions state agent actions v)
        (fun _ st => J t st) EX.
Proof.
  intros Hfront. unfold agent_turn. destruct v as [idx metrics].
  eapply hoare_bind; [apply sim_get_state_pure|]. intros s.
  eapply hoare_pre; [|intros st H; exact (proj1 H)].
  destruct (Qcleb _ _); cbn [andb]; [|apply hoare_ret; auto].
  destruct (bool_decide (idx < length actions)%nat) eqn:Hidx; [|apply hoare_ret; auto].
  apply bool_decide_eq_true in Hidx.
  destruct (lookup_lt_is_Some_2 actions idx Hidx) as (action & Ha). rewrite Ha.
  eapply hoare_bind.
  - apply sim_execute_agent_action. intros HTOT. specialize (Hfront HTOT).
    rewrite List.Forall_forall in Hfront. apply Hfront.
    apply list_elem_of_In, list_elem_of_lookup. eauto.
  - intros rm. apply hoare_ret. auto.
Qed.

Lemma sim_tick (sqrt : Qc -> Qc) (positions : Dict.t (Qc * Qc)) (t : Qc)
    (nurse_actions doctor_actions : list Action) (v : LoopVars) :
  (TOT -> Forall front_token nurse_actions) ->
  (TOT -> Forall front_token doctor_actions) ->
  hoare (J t) (tick sqrt positions state nurse_actions doctor_actions v)
        (fun _ st => J (t + 1) st) EX.
Proof.
  intros Hn Hd. unfold tick. cbv zeta.
  eapply hoare_bind.
  { apply sim_apply_waiting_penalties. apply Qcleb_le. reflexivity. }
  intros penalty.
  apply sim_select_and_remove.
  { intros m p rest Hp. now apply sim_dead_body. }
  intros m. eapply hoare_bind; [now apply sim_agent_turn|]. intros nt.
  eapply hoare_bind; [now apply sim_agent_turn|]. intros dt.
  apply sim_select_and_remove.
  { intros m' p rest Hp. now apply sim_completed_body. }
  intros m'. eapply hoare_bind.
  { apply (sim_modify_state st0 state ids TOT t (t + 1)).
    intros s (Hv & Ht & Hnd). split; [exact Hv|]. split; [|exact Hnd].
    cbn. now rewrite Ht. }
  intros ?. apply hoare_ret. auto.
Qed.
End SimTriples.
(** *** The simulation loop, the clone and the whole run *)

Section SimLoop.
Variable st0 : Store.
Variable state : ref.
Variable ids : list Z.
Variable TOT : Prop.
Variable sqrt : Qc -> Qc.
Variable positions : Dict.t (Qc * Qc).
Variable nurse_actions doctor_actions : list Action.
Variable simulation_time : Qc.
Hypothesis nurse_front : TOT -> Forall front_token nurse_actions.
Hypothesis doctor_front : TOT -> Forall front_token doctor_actions.

Local Abbreviation J := (sim_inv st0 state ids TOT).
Local Abbreviation EX := (sim_exc st0 state ids TOT).

Lemma sim_simulate_loop (fuel : nat) (t : Qc) (v : LoopVars) :
  hoare (J t)
        (simulate_loop sqrt positions fuel state nurse_actions doctor_actions
                       simulation_time v)
        (fun _ st => exists t', J t' st) EX.
Proof.
  revert t v. induction fuel as [|fuel IH]; intros t v; cbn [simulate_loop].
  - eapply hoare_bind; [apply sim_get_state_pure|]. intros s.
    destruct (loop_guard s simulation_time); apply hoare_ret; intros st (H & _);
      now exists t.
  - eapply hoare_bind; [apply sim_get_state_pure|]. intros s.
    eapply hoare_pre; [|intros st H; exact (proj1 H)].
    destruct (loop_guard s simulation_time).
    + eapply hoare_bind; [now apply sim_tick|]. intros v'. apply IH.
    + apply hoare_ret. intros st H. now exists t.
Qed.

(** The bound [ticks_bound] is enough: with more fuel the loop does the
    same, so the bounded loop is the [while] loop of the source. *)
Lemma simulate_loop_fuel (fuel extra : nat) (t : Qc) (v : LoopVars) (st : Store) :
  J t st -> simulation_time <= t + qz (Z.of_nat fuel) ->
  simulate_loop sqrt positions (fuel + extra) state nurse_actions doctor_actions
                simulation_time v st =
  simulate_loop sqrt positions fuel state nurse_actions doctor_actions
                simulation_time v st.
Proof.
  revert t v st. induction fuel as [|fuel IH]; intros t v st HJ Hle.
  - destruct (sim_inv_lookup_state st0 state ids TOT t st HJ) as (s & Hs & _ & Ht & _).
    assert (Hg : loop_guard s simulation_time = false).
    { unfold loop_guard. rewrite Ht.
      replace (Qcltb t simulation_time) with false; [reflexivity|].
      symmetry. apply Qcltb_ge. change (qz (Z.of_nat 0)) with (qz 0) in Hle.
      rewrite qz_0, Qcplus_0_r in Hle. exact Hle. }
    destruct extra; cbn [Nat.add simulate_loop];
      rewrite !(bind_ok _ _ _ _ _ (get_state_run st state s Hs)), Hg; reflexivity.
  - cbn [Nat.add simulate_loop].
    destruct (sim_inv_lookup_state st0 state ids TOT t st HJ) as (s & Hs & _).
    rewrite !(bind_ok _ _ _ _ _ (get_state_run st state s Hs)).
    destruct (loop_guard s simulation_time); [|reflexivity].
    pose proof (sim_tick st0 state ids TOT sqrt positions t nurse_actions
                  doctor_actions v nurse_front doctor_front st HJ) as Htick.
    unfold bind at 1 2.
    destruct (tick sqrt positions state nurse_actions doctor_actions v st)
      as [v' st'|e st']; [|reflexivity].
    apply (IH (t + 1)); [exact Htick|].
    rewrite Nat2Z.inj_succ in Hle. unfold Z.succ in Hle.
    unfold qz in *. rewrite Z2Qc_inj_add in Hle.
    rewrite <- Qcplus_assoc, (Qcplus_comm 1). exact Hle.
Qed.
End SimLoop.

(** [GameState.clone] *)
Lemma clone_loop_frame (roster : list ref) (st : Store) :
  match mapM (fun r => p <- get_patient r ;; new_patient (Patient.clone p)) roster st with
  | Ok ps st' =>
      exists news, patient_objs st' = patient_objs st ++ news /\
                   state_objs st' = state_objs st /\
                   length news = length roster /\
                   ps = seq (length (patient_objs st)) (length roster)
  | Raise e st' =>
      exists news, patient_objs st' = patient_objs st ++ news /\
                   state_objs st' = state_objs st
  end.
Proof.
  revert st. induction roster as [|r roster IH]; intros st; cbn [mapM].
  - exists []. cbn. now rewrite app_nil_r.
  - unfold bind at 1. unfold bind at 1. unfold get_patient at 1.
    destruct (patient_objs st !! r) as [p|].
    2:{ exists []. now rewrite app_nil_r. }
    cbn [new_patient].
    set (st1 := {| patient_objs := patient_objs st ++ [Patient.clone p];
                   state_objs := state_objs st |}).
    change (new_patient (Patient.clone p) st) with (Ok (length (patient_objs st)) st1).
    cbv iota beta. unfold bind at 1.
    specialize (IH st1).
    destruct (mapM _ roster st1) as [ps st'|e st'].
    + destruct IH as (news & Hp & Hs & Hlen & Hps). cbn.
      exists (Patient.clone p :: news). subst st1. cbn in *.
      rewrite Hp, <- app_assoc. split; [reflexivity|]. split; [exact Hs|].
      split; [now rewrite Hlen|]. rewrite Hps, length_app. cbn.
      now rewrite Nat.add_1_r.
    + destruct IH as (news & Hp & Hs). exists (Patient.clone p :: news).
      subst st1. cbn in *. now rewrite Hp, <- app_assoc.
Qed.

Lemma clone_loop_run (roster : list ref) (objs : list Patient.t) (st : Store) :
  Forall2 (fun r p => patient_objs st !! r = Some p) roster objs ->
  mapM (fun r => p <- get_patient r ;; new_patient (Patient.clone p)) roster st =
  Ok (seq (length (patient_objs st)) (length roster))
     {| patient_objs := patient_objs st ++ map Patient.clone objs;
        state_objs := state_objs st |}.
Proof.
  revert objs st. induction roster as [|r roster IH]; intros objs st H.
  - inversion H; subst. cbn. rewrite app_nil_r. now destruct st.
  - inversion H as [|? p ? objs' Hp Hrest]; subst. cbn [mapM].
    set (st1 := {| patient_objs := patient_objs st ++ [Patient.clone p];
                   state_objs := state_objs st |}).
    rewrite (bind_ok _ _ st st1 (length (patient_objs st))).
    2:{ now rewrite (bind_ok _ _ _ _ _ (get_patient_run st r p Hp)). }
    assert (Hrest1 : Forall2 (fun r p => patient_objs st1 !! r = Some p) roster objs').
    { eapply Forall2_impl; [exact Hrest|]. intros r' p' Hr'. subst st1. cbn.
      now apply lookup_app_l_Some. }
    rewrite (bind_ok _ _ _ _ _ (IH objs' st1 Hrest1)).
    subst st1. cbn. rewrite length_app, <- app_assoc. cbn.
    now rewrite Nat.add_1_r.
Qed.

Lemma clone_state_frame (initial : ref) (st : Store) :
  match clone_state initial st with
  | Ok state st' =>
      exists s news,
        state_objs st !! initial = Some s /\
        state = length (state_objs st) /\
        patient_objs st' = patient_objs st ++ news /\
        length news = length (GameState.patients s) /\
        state_objs st' =
          state_objs st ++
            [GameState.set_patients s
               (seq (length (patient_objs st)) (length (GameState.patients s)))]
  | Raise e st' => extends st st'
  end.
Proof.
  unfold clone_state, bind at 1, get_state at 1.
  destruct (state_objs st !! initial) as [s|] eqn:Hs.
  2:{ split; exists []; now rewrite app_nil_r. }
  unfold bind at 1.
  pose proof (clone_loop_frame (GameState.patients s) st) as H.
  destruct (mapM _ (GameState.patients s) st) as [ps st'|e st'].
  - destruct H as (news & Hp & Hst & Hlen & Hps). exists s, news. cbn.
    rewrite Hst, Hps. auto.
  - destruct H as (news & Hp & Hst). split; [now exists news|].
    exists []. now rewrite app_nil_r.
Qed.

Lemma clone_state_run (initial : ref) (st : Store) (s : GameState.t)
    (objs : list Patient.t) :
  state_objs st !! initial = Some s ->
  Forall2 (fun r p => patient_objs st !! r = Some p) (GameState.patients s) objs ->
  clone_state initial st =
  Ok (length (state_objs st))
     {| patient_objs := patient_objs st ++ map Patient.clone objs;
        state_objs :=
          state_objs st ++
            [GameState.set_patients s
               (seq (length (patient_objs st)) (length (GameState.patients s)))] |}.
Proof.
  intros Hs Hobjs. unfold clone_state.
  rewrite (bind_ok _ _ _ _ _ (get_state_run st initial s Hs)).
  rewrite (bind_ok _ _ _ _ _ (clone_loop_run _ _ st Hobjs)). reflexivity.
Qed.
(** *** The invariant holds once the clone exists *)

Lemma id_at_news (l news : list Patient.t) :
  map (id_at (Patient.id <$> (l ++ news))) (seq (length l) (length news)) =
  map Patient.id news.
Proof.
  apply list_eq. intros i.
  change (map (id_at (Patient.id <$> (l ++ news))) (seq (length l) (length news)))
    with (id_at (Patient.id <$> (l ++ news)) <$> seq (length l) (length news)).
  change (map Patient.id news) with (Patient.id <$> news).
  rewrite !list_lookup_fmap.
  destruct (decide (i < length news)%nat) as [Hi|Hi].
  - rewrite lookup_seq_lt by exact Hi. cbn. unfold id_at.
    rewrite list_lookup_fmap, lookup_app_r by lia.
    replace (length l + i - length l)%nat with i by lia.
    destruct (news !! i) as [p|] eqn:E; [reflexivity|].
    apply lookup_ge_None in E. lia.
  - rewrite lookup_seq_ge by lia. rewrite (lookup_ge_None_2 news) by lia. reflexivity.
Qed.

Lemma roster_objs_ok (st : Store) (state : ref) (s : GameState.t)
    (objs : list Patient.t) :
  roster_objs st state s objs -> all_ok st -> Forall patient_ok objs.
Proof.
  intros (_ & H) Hok. induction H as [|r p rs ps Hp _ IH]; constructor; [|exact IH].
  eapply all_ok_lookup; eauto.
Qed.

Lemma clone_establishes (st0 : Store) (initial : ref) (TOT : Prop) :
  (TOT -> roster_ready st0 initial) ->
  match clone_state initial st0 with
  | Ok state st => exists ids t, sim_inv st0 state ids TOT t st
  | Raise e st => extends st0 st /\ ~ TOT
  end.
Proof.
  intros Hready. pose proof (clone_state_frame initial st0) as H.
  destruct (clone_state initial st0) as [state st|e st] eqn:Hrun.
  - destruct H as (s & news & Hs & -> & Hp & Hlen & Hst).
    assert (Hnews : TOT -> exists objs,
               roster_objs st0 initial s objs /\ List.NoDup (map Patient.id objs) /\
               all_ok st0 /\ news = map Patient.clone objs).
    { intros HT. destruct (Hready HT) as (s' & objs & (Hs' & Hobjs) & Hnd & Hok).
      assert (s' = s) by congruence. subst s'.
      exists objs. split; [now split|]. split; [exact Hnd|]. split; [exact Hok|].
      rewrite (clone_state_run initial st0 s objs Hs Hobjs) in Hrun.
      injection Hrun as Hst'. rewrite <- Hst' in Hp. cbn in Hp.
      now apply app_inv_head in Hp. }
    exists (Patient.id <$> patient_objs st), (GameState.current_time s).
    split; [split; [now exists news|eexists; exact Hst]|].
    split; [reflexivity|]. split; [lia|]. split.
    + eexists. split.
      { rewrite Hst. apply list_lookup_middle. reflexivity. }
      split; [|split; [reflexivity|]].
      * apply List.Forall_forall. intros r Hr. apply in_seq in Hr. cbn in Hr.
        cbn [GameState.patients GameState.set_patients].
        rewrite length_fmap, Hp, length_app. lia.
      * intros HT. destruct (Hnews HT) as (objs & _ & Hnd & _ & ->).
        cbn [GameState.patients GameState.set_patients].
        rewrite Hp, <- Hlen, id_at_news.
        rewrite List.map_map. exact Hnd.
    + intros HT. destruct (Hnews HT) as (objs & Hobjs & _ & Hok & ->).
      unfold all_ok. rewrite Hp. apply Forall_app. split; [exact Hok|].
      apply Forall_map. eapply List.Forall_impl; [|eapply roster_objs_ok; eauto].
      intros p. apply ok_clone.
  - split; [exact H|]. intros HT.
    destruct (Hready HT) as (s & objs & (Hs & Hobjs) & _).
    rewrite (clone_state_run initial st0 s objs Hs Hobjs) in Hrun. discriminate Hrun.
Qed.

(** A whole simulation run keeps every object of the caller's store, and
    on a ready state it raises no exception. *)
Lemma sim_simulate_action_sequence (sqrt : Qc -> Qc) (positions : Dict.t (Qc * Qc))
    (st0 : Store) (initial : ref) (nurse_actions doctor_actions : list Action)
    (simulation_time : Qc) (TOT : Prop) :
  (TOT -> roster_ready st0 initial) ->
  (TOT -> Forall front_token nurse_actions) ->
  (TOT -> Forall front_token doctor_actions) ->
  match simulate_action_sequence sqrt positions initial nurse_actions doctor_actions
                                 simulation_time st0 with
  | Ok sm st => exists ids t, sim_inv st0 (fst sm) ids TOT t st
  | Raise e st => extends st0 st /\ ~ TOT
  end.
Proof.
  intros Hready Hn Hd. unfold simulate_action_sequence. unfold bind at 1.
  pose proof (clone_establishes st0 initial TOT Hready) as Hc.
  destruct (clone_state initial st0) as [state st|e st]; [|exact Hc].
  destruct Hc as (ids & t & HJ).
  pose proof (sim_get_state_pure st0 state ids TOT t st HJ) as Hg.
  unfold bind at 1. destruct (get_state state st) as [s st1|e st1].
  2:{ destruct Hg as ((t' & HJ') & HT). split; [apply HJ'|exact HT]. }
  destruct Hg as (HJ1 & _).
  pose proof (fun v => sim_simulate_loop st0 state ids TOT sqrt positions nurse_actions
                         doctor_actions simulation_time Hn Hd
                         (ticks_bound s simulation_time) t v st1 HJ1) as Hl.
  unfold bind at 1.
  match goal with
  | |- context [simulate_loop ?x1 ?x2 ?x3 ?x4 ?x5 ?x6 ?x7 ?v st1] =>
      specialize (Hl v);
      destruct (simulate_loop x1 x2 x3 x4 x5 x6 x7 v st1) as [v' st2|e st2]
  end.
  - destruct Hl as (t' & HJ'). now exists ids, t'.
  - destruct Hl as ((t' & HJ') & HT). split; [apply HJ'|exact HT].
Qed.

Lemma extends_lookup_patient (st st' : Store) (r : ref) (p : Patient.t) :
  extends st st' -> patient_objs st !! r = Some p -> patient_objs st' !! r = Some p.
Proof. intros ((ps & ->) & _) H. now apply lookup_app_l_Some. Qed.

Lemma extends_lookup_state (st st' : Store) (r : ref) (s : GameState.t) :
  extends st st' -> state_objs st !! r = Some s -> state_objs st' !! r = Some s.
Proof. intros (_ & (ss & ->)) H. now apply lookup_app_l_Some. Qed.

Lemma extends_refl (st : Store) : extends st st.
Proof. split; exists []; now rewrite app_nil_r. Qed.

Lemma extends_trans (st1 st2 st3 : Store) :
  extends st1 st2 -> extends st2 st3 -> extends st1 st3.
Proof.
  intros ((p1 & Hp1) & (s1 & Hs1)) ((p2 & Hp2) & (s2 & Hs2)). split.
  - exists (p1 ++ p2). now rewrite Hp2, Hp1, app_assoc.
  - exists (s1 ++ s2). now rewrite Hs2, Hs1, app_assoc.
Qed.

(** C7. A simulation run changes no object of the caller's store: every
    state object (the passed-in state with its patient list, agent
    positions, busy-until times, clock and totals) and every patient object
    (all fields) that exists before the call is the same after it, whether
    the run returns or raises.  The state the run returns is a new object,
    and its roster refers to new patient objects only: what the run mutates
    is the clone it made on entry. *)
Theorem C7_simulation_frame (sqrt : Qc -> Qc) (positions : Dict.t (Qc * Qc))
    (initial_state : ref) (nurse_actions doctor_actions : list Action)
    (simulation_time : Qc) (st : Store) :
  let outcome := simulate_action_sequence sqrt positions initial_state nurse_actions
                   doctor_actions simulation_time st in
  (forall r s, state_objs st !! r = Some s ->
               state_objs (store_of outcome) !! r = Some s) /\
  (forall r p, patient_objs st !! r = Some p ->
               patient_objs (store_of outcome) !! r = Some p) /\
  match outcome with
  | Ok final st' =>
      state_objs st !! fst final = None /\
      exists s', state_objs st' !! fst final = Some s' /\
                 Forall (fun r => patient_objs st !! r = None) (GameState.patients s')
  | Raise _ _ => True
  end.
Proof.
  intros outcome.
  pose proof (sim_simulate_action_sequence sqrt positions st initial_state
                nurse_actions doctor_actions simulation_time False
                (fun F => False_ind _ F) (fun F => False_ind _ F)
                (fun F => False_ind _ F)) as H.
  fold outcome in H.
  assert (Hext : extends st (store_of outcome)).
  { destruct outcome as [sm st'|e st']; cbn.
    - destruct H as (ids & t & Hext & _). exact Hext.
    - exact (proj1 H). }
  split; [intros r s; now apply extends_lookup_state|].
  split; [intros r p; now apply extends_lookup_patient|].
  destruct outcome as [sm st'|e st']; [|exact I].
  destruct H as (ids & t & _ & _ & Hfresh & (s' & Hs' & Hvalid & _) & _).
  split; [now apply lookup_ge_None|].
  exists s'. split; [exact Hs'|].
  eapply List.Forall_impl; [|exact Hvalid].
  intros r Hr. cbv beta in Hr. apply lookup_ge_None. lia.
Qed.
(** ** The plan: the learning rounds return, and the final selection *)

Lemma argmax_from_first_max (rest pre mid : Dict.t Qc) (best : string) (bv : Qc) :
  Forall (fun kv => snd kv < bv) pre ->
  Forall (fun kv => snd kv <= bv) mid ->
  first_max (pre ++ (best, bv) :: mid ++ rest) (argmax_from best bv rest).
Proof.
  revert pre mid best bv.
  induction rest as [|[k v] rest IH]; intros pre mid best bv Hpre Hmid; cbn [argmax_from].
  - exists pre, bv, mid. rewrite app_nil_r. auto.
  - destruct (Qcltb bv v) eqn:E.
    + apply Qcltb_lt in E.
      replace (pre ++ (best, bv) :: mid ++ (k, v) :: rest)
        with ((pre ++ (best, bv) :: mid) ++ (k, v) :: [] ++ rest)
        by (now rewrite <- app_assoc).
      apply IH; [|constructor].
      apply Forall_app. split.
      * eapply List.Forall_impl; [|exact Hpre]. intros kv H. cbv beta in *.
        eapply Qclt_trans; [exact H|exact E].
      * constructor; [exact E|].
        eapply List.Forall_impl; [|exact Hmid]. intros kv H. cbv beta in *.
        eapply Qcle_lt_trans; [exact H|exact E].
    + apply Qcltb_ge in E.
      replace (pre ++ (best, bv) :: mid ++ (k, v) :: rest)
        with (pre ++ (best, bv) :: (mid ++ [(k, v)]) ++ rest)
        by (now rewrite <- app_assoc).
      apply IH; [exact Hpre|]. apply Forall_app. split; [exact Hmid|].
      constructor; [exact E|constructor].
Qed.

(** [max(d, key=d.get)] is the first key with a maximal value. *)
Lemma argmax_first_max (d : Dict.t Qc) :
  d <> [] -> exists k, argmax d = Some k /\ first_max d k.
Proof.
  destruct d as [|[k v] rest]; [congruence|]. intros _. eexists. split; [reflexivity|].
  apply (argmax_from_first_max rest [] [] k v); constructor.
Qed.

Lemma first_max_In (d : Dict.t Qc) (k : string) : first_max d k -> In k (Dict.keys d).
Proof.
  intros (pre & p & post & -> & _). unfold Dict.keys. rewrite map_app.
  apply in_or_app. right. now left.
Qed.

Lemma choice_Some (items : Dict.t Qc) (u : Qc) :
  items <> [] -> exists s, choice items u = Some s /\ In s (Dict.keys items).
Proof.
  revert u. induction items as [|[s p] rest IH]; intros u; [congruence|]. intros _.
  cbn [choice]. destruct rest as [|kv rest'] eqn:E.
  - exists s. split; [reflexivity|now left].
  - rewrite <- E in *. destruct (Qcltb u p).
    + exists s. split; [reflexivity|now left].
    + destruct (IH (u - p)) as (s' & Hs' & Hin); [subst rest; discriminate|].
      exists s'. split; [exact Hs'|now right].
Qed.

(** A learning round on an evaluation of the catalog raises nothing. *)
Lemma learning_round_Some (sqrt : Qc -> Qc) (L : CFRRegretMinimizer.t)
    (values : Dict.t Qc) (u : Qc) :
  Dict.keys values = catalog ->
  exists L', DynamicRegretAnalyzer.learning_round sqrt L values u = Some L'.
Proof.
  intros Hk. unfold DynamicRegretAnalyzer.learning_round. rewrite Hk.
  rewrite (get_strategy_probabilities_spec L catalog catalog_nodup).
  set (L1 := set_regret_sum L _).
  unfold select_strategy.
  rewrite (get_strategy_probabilities_spec L1 catalog catalog_nodup).
  set (L2 := set_regret_sum L1 _).
  destruct (policy_of_distribution L1 catalog catalog_nonempty) as (Hkeys & _).
  destruct (choice_Some (policy_of L1 catalog) u) as (sel & Hsel & Hin).
  { intros H. rewrite H in Hkeys. now apply catalog_nonempty. }
  rewrite Hsel. rewrite Hkeys, <- Hk in Hin.
  destruct (Dict.get values sel) as [v|] eqn:G; [now eexists|].
  apply dict_get_None in G. contradiction.
Qed.

Lemma read_roster_run (st : Store) (state : ref) (s : GameState.t)
    (objs : list Patient.t) :
  roster_objs st state s objs -> read_roster state st = Ok objs st.
Proof.
  intros (Hs & Hobjs). unfold read_roster.
  rewrite (bind_ok _ _ _ _ _ (get_state_run st state s Hs)).
  induction Hobjs as [|r p rs ps Hp _ IH]; [reflexivity|]. cbn [mapM].
  rewrite (bind_ok _ _ _ _ _ (get_patient_run st r p Hp)).
  now rewrite (bind_ok _ _ _ _ _ IH).
Qed.

Lemma roster_objs_extends (st st' : Store) (state : ref) (s : GameState.t)
    (objs : list Patient.t) :
  extends st st' -> roster_objs st state s objs -> roster_objs st' state s objs.
Proof.
  intros Hext (Hs & Hobjs). split; [eapply extends_lookup_state; eauto|].
  eapply Forall2_impl; [exact Hobjs|]. intros r p. now apply extends_lookup_patient.
Qed.

Lemma generate_catalog (patients : list Patient.t) (name : string) :
  In name catalog ->
  exists seqs, generate_action_sequences patients name = Some seqs.
Proof.
  intros H. destruct (catalog_get name H) as (info & Hinfo).
  unfold generate_action_sequences. rewrite Hinfo. now eexists.
Qed.

Lemma token_front (patients : list Patient.t) (a : Action) :
  Forall (fun p => (1 <= Patient.id p)%Z) patients ->
  token_of patients a -> front_token a.
Proof.
  intros Hid [->|(p & Hp & ->)]; [exact I|]. cbn.
  rewrite List.Forall_forall in Hid. now apply Hid.
Qed.

Lemma qz_succ (n : nat) : qz (Z.of_nat (S n)) = qz (Z.of_nat n) + 1.
Proof.
  rewrite Nat2Z.inj_succ. unfold Z.succ, qz. now rewrite Z2Qc_inj_add.
Qed.

Section PlanReturns.
Variable sqrt : Qc -> Qc.
Variable state : ref.
Variable s : GameState.t.
Variable objs : list Patient.t.
Variable st0 : Store.
Hypothesis roster0 : roster_objs st0 state s objs.
Hypothesis ids_nodup : List.NoDup (map Patient.id objs).
Hypothesis ids_front : Forall (fun p => (1 <= Patient.id p)%Z) objs.

Local Abbreviation W := (world st0).
Local Abbreviation never := (fun (_ : exn) (_ : Store) => False).

Lemma simulation_run_returns (A : DynamicRegretAnalyzer.t) (name : string)
    (total : Qc) :
  In name catalog ->
  hoare W (DynamicRegretAnalyzer.simulation_run sqrt A state name total)
        (fun _ st => W st) never.
Proof.
  intros Hname st (Hext0 & Hok). unfold DynamicRegretAnalyzer.simulation_run.
  pose proof (roster_objs_extends st0 st state s objs Hext0 roster0) as Hobjs.
  rewrite (bind_ok _ _ _ _ _ (read_roster_run st state s objs Hobjs)).
  destruct (generate_catalog objs name Hname) as ([n d] & Hgen). rewrite Hgen.
  destruct (generated_tokens objs name (n, d) Hgen) as (Hn & Hd). cbn [fst snd] in Hn, Hd.
  assert (Hready : True -> roster_ready st state).
  { intros _. exists s, objs. auto. }
  assert (Hn' : True -> Forall front_token n).
  { intros _. eapply List.Forall_impl; [|exact Hn]. intros a. now apply token_front. }
  assert (Hd' : True -> Forall front_token d).
  { intros _. eapply List.Forall_impl; [|exact Hd]. intros a. now apply token_front. }
  pose proof (sim_simulate_action_sequence sqrt (DynamicRegretAnalyzer.room_positions A)
                st state n d (qz 100) True Hready Hn' Hd') as H.
  unfold bind at 1.
  destruct (simulate_action_sequence _ _ state n d (qz 100) st) as [fm st'|e st'].
  - destruct H as (ids & t & Hext & _ & _ & _ & Hok'). cbn.
    split; [eapply extends_trans; eauto|auto].
  - destruct H as (_ & HF). now apply HF.
Qed.

Lemma evaluate_loop_returns (A : DynamicRegretAnalyzer.t) (n : nat)
    (normal : string -> Qc) (rest : list string) (values : Dict.t Qc) :
  (forall name, In name rest -> In name catalog) ->
  List.NoDup (Dict.keys values ++ rest) ->
  hoare W
        (foldM (fun strategy_values strategy_name =>
                  total_reward <-
                    foldM (fun total _ =>
                             DynamicRegretAnalyzer.simulation_run sqrt A state
                               strategy_name total)
                          (seq 0 n) 0 ;;
                  let avg_value := total_reward / qz (Z.of_nat n) in
                  ret (Dict.set strategy_values strategy_name
                         (avg_value +
                          (0 + DynamicRegretAnalyzer.noise_scale A * normal strategy_name))))
               rest values)
        (fun values' st => W st /\ Dict.keys values' = Dict.keys values ++ rest)
        never.
Proof.
  revert values. induction rest as [|name rest IH]; intros values Hcat Hnd; cbn [foldM].
  - apply hoare_ret. intros st H. now rewrite app_nil_r.
  - assert (Hfresh : ~ In name (Dict.keys values)).
    { apply List.NoDup_remove_2 in Hnd. intros H. apply Hnd, in_or_app. now left. }
    eapply hoare_bind
      with (R := fun values' st =>
                   Dict.keys values' = Dict.keys values ++ [name] /\ W st).
    + eapply hoare_bind.
      * apply (hoare_foldM _ (fun _ st => W st) never (fun _ => True)).
        -- intros b x _. apply simulation_run_returns. apply Hcat. now left.
        -- apply List.Forall_forall. auto.
      * intros total. apply hoare_ret. intros st H. split; [|exact H].
        rewrite dict_set_absent by exact Hfresh. unfold Dict.keys.
        now rewrite map_app.
    + intros values'. apply hoare_pure. intros Hk.
      eapply hoare_post.
      * apply IH.
        -- intros name' H. apply Hcat. now right.
        -- rewrite Hk, <- app_assoc. exact Hnd.
      * intros v st (HW & Hk'). split; [exact HW|].
        now rewrite Hk', Hk, <- app_assoc.
Qed.

Lemma evaluate_returns (A : DynamicRegretAnalyzer.t) (n : nat) (normal : string -> Qc) :
  hoare W (DynamicRegretAnalyzer.evaluate_all_strategies sqrt A state n normal)
        (fun values st => W st /\ Dict.keys values = catalog) never.
Proof.
  unfold DynamicRegretAnalyzer.evaluate_all_strategies.
  eapply hoare_post.
  - apply evaluate_loop_returns; [auto|]. cbn [Dict.keys map app]. apply catalog_nodup.
  - intros v st H. exact H.
Qed.

Lemma plan_round_returns (rng : nat -> RoundDraws)
    (acc : DynamicRegretAnalyzer.t * Dict.t Qc) (iteration : nat) :
  reachable_learner sqrt (DynamicRegretAnalyzer.cfr (fst acc)) ->
  hoare W (DynamicRegretAnalyzer.plan_round sqrt state rng acc iteration)
        (fun acc' st =>
           W st /\
           reachable_learner sqrt (DynamicRegretAnalyzer.cfr (fst acc')) /\
           iteration_history (DynamicRegretAnalyzer.cfr (fst acc')) <> [] /\
           Dict.keys (snd acc') = catalog /\
           pysum (Dict.values (strategy_sum (DynamicRegretAnalyzer.cfr (fst acc')))) =
           pysum (Dict.values (strategy_sum (DynamicRegretAnalyzer.cfr (fst acc)))) + 1)
        never.
Proof.
  intros Hreach. unfold DynamicRegretAnalyzer.plan_round.
  eapply hoare_bind
    with (R := fun values st => Dict.keys values = catalog /\ W st).
  - eapply hoare_post; [apply evaluate_returns|]. intros v st (H1 & H2). now split.
  - intros values. apply hoare_pure. intros Hk.
    destruct (learning_round_Some sqrt (DynamicRegretAnalyzer.cfr (fst acc)) values
                (uniform (rng iteration)) Hk) as (L' & HL').
    rewrite HL'. apply hoare_ret. intros st HW. cbn [fst snd].
    split; [exact HW|]. split; [|split; [|split; [exact Hk|]]].
    + cbn. eapply reachable_round; eauto.
    + cbn. eapply learning_round_strategy_sum; eauto.
    + cbn. eapply learning_round_ok; eauto. now apply (reachable_strategy_sum_ok sqrt).
Qed.

Lemma plan_rounds_return (rng : nat -> RoundDraws) (rounds : list nat)
    (acc : DynamicRegretAnalyzer.t * Dict.t Qc) :
  reachable_learner sqrt (DynamicRegretAnalyzer.cfr (fst acc)) ->
  hoare W (foldM (DynamicRegretAnalyzer.plan_round sqrt state rng) rounds acc)
        (fun acc' st =>
           W st /\
           reachable_learner sqrt (DynamicRegretAnalyzer.cfr (fst acc')) /\
           pysum (Dict.values (strategy_sum (DynamicRegretAnalyzer.cfr (fst acc')))) =
           pysum (Dict.values (strategy_sum (DynamicRegretAnalyzer.cfr (fst acc))))
           + qz (Z.of_nat (length rounds)) /\
           (rounds <> [] ->
            iteration_history (DynamicRegretAnalyzer.cfr (fst acc')) <> [] /\
            Dict.keys (snd acc') = catalog))
        never.
Proof.
  revert acc. induction rounds as [|i rounds IH]; intros acc Hreach; cbn [foldM].
  - apply hoare_ret. intros st HW. split; [exact HW|]. split; [exact Hreach|].
    split; [|congruence].
    change (qz (Z.of_nat (length (@nil nat)))) with (qz 0). now rewrite qz_0, Qcplus_0_r.
  - eapply hoare_bind
      with (R := fun acc' st =>
                   (reachable_learner sqrt (DynamicRegretAnalyzer.cfr (fst acc')) /\
                    iteration_history (DynamicRegretAnalyzer.cfr (fst acc')) <> [] /\
                    Dict.keys (snd acc') = catalog /\
                    pysum (Dict.values
                             (strategy_sum (DynamicRegretAnalyzer.cfr (fst acc')))) =
                    pysum (Dict.values
                             (strategy_sum (DynamicRegretAnalyzer.cfr (fst acc)))) + 1)
                   /\ W st).
    + eapply hoare_post; [apply plan_round_returns; exact Hreach|].
      intros a st (H1 & H2 & H3 & H4 & H5).
      split; [split; [exact H2|split; [exact H3|split; [exact H4|exact H5]]]|exact H1].
    + intros acc'. apply hoare_pure. intros (Hr & Hh & Hk & Hm).
      destruct rounds as [|j rounds'].
      * cbn [foldM]. apply hoare_ret. intros st HW.
        split; [exact HW|]. split; [exact Hr|]. split; [|intros _; now split].
        rewrite Hm. cbn [length]. rewrite qz_succ. change (qz (Z.of_nat 0)) with (qz 0).
        now rewrite qz_0, Qcplus_0_l.
      * eapply hoare_post; [apply IH; exact Hr|].
        intros a st (HW & Hr' & Hm' & Hrest). split; [exact HW|]. split; [exact Hr'|].
        split; [|intros _; apply Hrest; discriminate].
        rewrite Hm', Hm.
        change (length (i :: j :: rounds')) with (S (length (j :: rounds'))).
        rewrite qz_succ.
        rewrite <- Qcplus_assoc, (Qcplus_comm 1). reflexivity.
Qed.
End PlanReturns.

Lemma generate_unity_catalog (patients : list Patient.t) (strategy : string) :
  In strategy catalog ->
  exists cmds, _generate_unity_commands patients strategy = Some cmds.
Proof.
  intros H. destruct (catalog_get strategy H) as (info & Hinfo).
  unfold _generate_unity_commands. rewrite Hinfo. now eexists.
Qed.

(** On a ready scenario and a reachable learner, the twenty rounds and the
    final selection raise nothing; the strategy of the result is the first
    one, in the order of the average policy, with a maximal average
    probability. *)
Lemma plan_for_returns (sqrt : Qc -> Qc) (A : DynamicRegretAnalyzer.t) (state : ref)
    (s : GameState.t) (objs : list Patient.t) (rng : nat -> RoundDraws) (st : Store) :
  List.NoDup (map Patient.id objs) ->
  Forall (fun p => (1 <= Patient.id p)%Z) objs ->
  roster_objs st state s objs -> all_ok st ->
  reachable_learner sqrt (DynamicRegretAnalyzer.cfr A) ->
  exists A' r st',
    DynamicRegretAnalyzer.plan_for sqrt A state rng st = Ok (A', r) st' /\
    world st st' /\
    reachable_learner sqrt (DynamicRegretAnalyzer.cfr A') /\
    pysum (Dict.values (strategy_sum (DynamicRegretAnalyzer.cfr A'))) =
    pysum (Dict.values (strategy_sum (DynamicRegretAnalyzer.cfr A))) + qz 20 /\
    distribution_over catalog (get_average_strategy (DynamicRegretAnalyzer.cfr A')) /\
    first_max (get_average_strategy (DynamicRegretAnalyzer.cfr A'))
              (DynamicRegretAnalyzer.strategy r).
Proof.
  intros Hnd Hfront Hobjs Hok Hreach. unfold DynamicRegretAnalyzer.plan_for.
  pose proof (plan_rounds_return sqrt state s objs st Hobjs Hnd Hfront rng
                (seq 0 DynamicRegretAnalyzer.NUM_CFR_ITERATIONS) (A, []) Hreach st
                (conj (extends_refl st) Hok))
    as H.
  unfold bind at 1.
  destruct (foldM (DynamicRegretAnalyzer.plan_round sqrt state rng)
                  (seq 0 DynamicRegretAnalyzer.NUM_CFR_ITERATIONS) (A, []) st)
    as [[A' values] st1|e st1]; [|contradiction].
  destruct H as (HW1 & Hr1 & Hm & Hrest). cbn [fst snd] in *.
  change (qz (Z.of_nat (length (seq 0 DynamicRegretAnalyzer.NUM_CFR_ITERATIONS))))
    with (qz 20) in Hm.
  destruct Hrest as (Hh & Hk); [discriminate|].
  destruct (average_strategy_distribution _ (reachable_strategy_sum_ok sqrt _ Hr1))
    as [(Hnil & _)|(_ & Hdist)]; [contradiction|].
  assert (Hne : get_average_strategy (DynamicRegretAnalyzer.cfr A') <> []).
  { intros E. destruct Hdist as (Hkeys & _). rewrite E in Hkeys.
    now apply catalog_nonempty. }
  destruct (argmax_first_max _ Hne) as (k & Hk1 & Hfm).
  assert (Hbest : DynamicRegretAnalyzer.best_strategy_of
                    (DynamicRegretAnalyzer.cfr A') values = Some k).
  { unfold DynamicRegretAnalyzer.best_strategy_of.
    destruct (get_average_strategy (DynamicRegretAnalyzer.cfr A')); [congruence|exact Hk1]. }
  rewrite Hbest.
  assert (Hcat : In k catalog).
  { destruct Hdist as (Hkeys & _). rewrite <- Hkeys. now apply first_max_In. }
  destruct (catalog_get k Hcat) as (info & Hinfo). rewrite Hinfo.
  rewrite (bind_ok _ _ _ _ _
             (read_roster_run st1 state s objs
                (roster_objs_extends st st1 state s objs (proj1 HW1) Hobjs))).
  destruct (generate_unity_catalog objs k Hcat) as ([nc dc] & Hgen). rewrite Hgen.
  eexists _, _, _. split; [reflexivity|]. cbn [DynamicRegretAnalyzer.strategy].
  split; [exact HW1|]. split; [exact Hr1|]. split; [exact Hm|]. split; assumption.
Qed.
(** ** The strategy a plan returns *)

Lemma analyze_and_plan_returns (sqrt : Qc -> Qc) (A : DynamicRegretAnalyzer.t)
    (rng : nat -> RoundDraws) (st : Store) :
  plan_ready A st ->
  reachable_learner sqrt (DynamicRegretAnalyzer.cfr A) ->
  exists A' r st',
    DynamicRegretAnalyzer.analyze_and_plan sqrt A rng st = Ok (A', r) st' /\
    world st st' /\
    reachable_learner sqrt (DynamicRegretAnalyzer.cfr A') /\
    pysum (Dict.values (strategy_sum (DynamicRegretAnalyzer.cfr A'))) =
    pysum (Dict.values (strategy_sum (DynamicRegretAnalyzer.cfr A))) + qz 20 /\
    distribution_over catalog (get_average_strategy (DynamicRegretAnalyzer.cfr A')) /\
    first_max (get_average_strategy (DynamicRegretAnalyzer.cfr A'))
              (DynamicRegretAnalyzer.strategy r).
Proof.
  intros (state & s & objs & Hcur & Hobjs & Hne & Hnd & Hfront & Hok) Hreach.
  unfold DynamicRegretAnalyzer.analyze_and_plan. rewrite Hcur.
  rewrite (bind_ok _ _ _ _ _ (get_state_run st state s (proj1 Hobjs))).
  destruct (plan_for_returns sqrt A state s objs rng st Hnd Hfront Hobjs Hok Hreach)
    as (A' & r & st' & Hrun & Hrest).
  destruct (GameState.patients s) as [|r0 roster] eqn:Eroster.
  { destruct Hobjs as (_ & H). rewrite Eroster in H. inversion H. congruence. }
  exists A', r, st'. split; [exact Hrun|exact Hrest].
Qed.

(** C1 (amended). On a non-empty roster (patients with distinct ids from 1
    up, all satisfying the data invariant) and a reachable learner, a plan
    returns a result; its twenty learning rounds add 20 to the mass of the
    probability accumulator; the average policy is then a probability
    distribution over the catalog, and the strategy of the result has the
    highest average probability.  Among strategies that tie at that
    probability the first one in the order of the average policy, which is
    the order of the catalog, is returned: its probability is strictly
    greater than that of every earlier strategy.  The latest-round values
    play no part in the selection. *)
Theorem C1_returned_strategy (sqrt : Qc -> Qc) (A : DynamicRegretAnalyzer.t)
    (rng : nat -> RoundDraws) (st : Store) :
  plan_ready A st ->
  reachable_learner sqrt (DynamicRegretAnalyzer.cfr A) ->
  exists A' r st',
    DynamicRegretAnalyzer.analyze_and_plan sqrt A rng st = Ok (A', r) st' /\
    let avg := get_average_strategy (DynamicRegretAnalyzer.cfr A') in
    pysum (Dict.values (strategy_sum (DynamicRegretAnalyzer.cfr A'))) =
    pysum (Dict.values (strategy_sum (DynamicRegretAnalyzer.cfr A))) + qz 20 /\
    distribution_over catalog avg /\
    first_max avg (DynamicRegretAnalyzer.strategy r).
Proof.
  intros Hready Hreach.
  destruct (analyze_and_plan_returns sqrt A rng st Hready Hreach)
    as (A' & r & st' & Hrun & _ & _ & Hm & Hdist & Hfm).
  exists A', r, st'. split; [exact Hrun|]. cbv zeta. auto.
Qed.

Lemma C1_returned_strategy_witness :
  let A1 := {| DynamicRegretAnalyzer.cfr := CFRRegretMinimizer.init;
               DynamicRegretAnalyzer.patient_counter := 1;
               DynamicRegretAnalyzer.current_state := Some 0%nat;
               DynamicRegretAnalyzer.room_positions := ROOM_POSITIONS |} in
  let A2 := {| DynamicRegretAnalyzer.cfr := CFRRegretMinimizer.init;
               DynamicRegretAnalyzer.patient_counter := 2;
               DynamicRegretAnalyzer.current_state := Some 0%nat;
               DynamicRegretAnalyzer.room_positions := ROOM_POSITIONS |} in
  let st := store_of (DynamicRegretAnalyzer.spawn_patient A1 Minor
              (store_of (DynamicRegretAnalyzer.spawn_patient
                           DynamicRegretAnalyzer.init Critical empty_store))) in
  plan_ready A2 st /\
  reachable_learner sqrt_approx (DynamicRegretAnalyzer.cfr A2) /\
  exists A' r st',
    DynamicRegretAnalyzer.analyze_and_plan sqrt_approx A2 tie_draws st = Ok (A', r) st' /\
    let avg := get_average_strategy (DynamicRegretAnalyzer.cfr A') in
    pysum (Dict.values (strategy_sum (DynamicRegretAnalyzer.cfr A'))) =
    pysum (Dict.values (strategy_sum (DynamicRegretAnalyzer.cfr A2))) + qz 20 /\
    distribution_over catalog avg /\
    first_max avg (DynamicRegretAnalyzer.strategy r).
Proof.
  intros A1 A2 st.
  assert (Hready : plan_ready A2 st).
  { exists 0%nat, (GameState.set_patients GameState.default [0%nat; 1%nat]),
      [Patient.new 1 Critical (INITIAL_HEALTH Critical) (PATHWAYS Critical) 0 0 0 []
                   (qz 25) true;
       Patient.new 2 Minor (INITIAL_HEALTH Minor) (PATHWAYS Minor) 0 0 0 []
                   (qz 30) false].
    split; [reflexivity|]. split.
    { split; [reflexivity|]. repeat constructor. }
    split; [discriminate|]. split.
    { simpl. constructor; [simpl; intuition discriminate|].
      constructor; [simpl; tauto|constructor]. }
    split.
    { repeat constructor; simpl; lia. }
    apply reachable_all_ok. apply reach_spawn, reach_spawn, reach_empty. }
  assert (Hreach : reachable_learner sqrt_approx (DynamicRegretAnalyzer.cfr A2)).
  { apply reachable_init. }
  split; [exact Hready|]. split; [exact Hreach|].
  exact (C1_returned_strategy sqrt_approx A2 tie_draws st Hready Hreach).
Defined.

(** C1 as stated fails in its tie-break.  One Critical patient is spawned
    and a plan is asked for.  For this roster PARALLEL_CRITICAL,
    SEQUENTIAL_SEVERITY and COOPERATIVE_ALL generate the same two action
    sequences (both agents treat patient 1 three times), so their simulated
    values are equal, and far above those of the other three strategies.
    With all normal deviates 0 except the one of COOPERATIVE_ALL in the last
    round, which is 1, the three strategies tie at the highest average
    probability, COOPERATIVE_ALL has the highest latest-round value of all
    strategies, strictly above that of PARALLEL_CRITICAL, and the plan
    returns PARALLEL_CRITICAL, the first of the tied strategies in the order
    of the catalog. *)
Lemma C1_tie_break_counterexample :
  exists A' r st',
    tie_run empty_store = Ok (A', r) st' /\
    DynamicRegretAnalyzer.strategy r = "PARALLEL_CRITICAL" /\
    (let avg := get_average_strategy (DynamicRegretAnalyzer.cfr A') in
     Dict.get_or avg "COOPERATIVE_ALL" 0 = Dict.get_or avg "PARALLEL_CRITICAL" 0 /\
     Forall (fun kv => snd kv <= Dict.get_or avg "PARALLEL_CRITICAL" 0) avg) /\
    exists values,
      DynamicRegretAnalyzer.all_strategy_values r = Some values /\
      Dict.get_or values "PARALLEL_CRITICAL" 0 < Dict.get_or values "COOPERATIVE_ALL" 0 /\
      Forall (fun kv => snd kv <= Dict.get_or values "COOPERATIVE_ALL" 0) values.
Proof.
  pose (check := fun o : Outcome (DynamicRegretAnalyzer.t * DynamicRegretAnalyzer.PlanResult) =>
          match o with
          | Ok (A', r) _ =>
              let avg := get_average_strategy (DynamicRegretAnalyzer.cfr A') in
              String.eqb (DynamicRegretAnalyzer.strategy r) "PARALLEL_CRITICAL"
              && (Qc_eq_bool (Dict.get_or avg "COOPERATIVE_ALL" 0)
                             (Dict.get_or avg "PARALLEL_CRITICAL" 0)
                  && (forallb (fun kv => Qcleb (snd kv)
                                           (Dict.get_or avg "PARALLEL_CRITICAL" 0)) avg
                      && match DynamicRegretAnalyzer.all_strategy_values r with
                         | Some values =>
                             Qcltb (Dict.get_or values "PARALLEL_CRITICAL" 0)
                                   (Dict.get_or values "COOPERATIVE_ALL" 0)
                             && forallb (fun kv =>
                                           Qcleb (snd kv)
                                             (Dict.get_or values "COOPERATIVE_ALL" 0))
                                        values
                         | None => false
                         end))
          | Raise _ _ => false
          end).
  assert (Hc : check (tie_run empty_store) = true) by (vm_compute; reflexivity).
  destruct (tie_run empty_store) as [[A' r] st'|e st']; [|discriminate Hc].
  exists A', r, st'. split; [reflexivity|]. subst check. cbv beta iota zeta in Hc.
  apply andb_prop in Hc as (H1 & Hc). apply andb_prop in Hc as (H2 & Hc).
  apply andb_prop in Hc as (H3 & Hc).
  destruct (DynamicRegretAnalyzer.all_strategy_values r) as [values|]; [|discriminate Hc].
  apply andb_prop in Hc as (H4 & H5).
  split; [now apply String.eqb_eq|]. split.
  - split; [now apply Qc_eq_bool_correct|].
    apply List.Forall_forall. intros kv Hkv. apply Qcleb_le.
    rewrite forallb_forall in H3. now apply H3.
  - exists values. split; [reflexivity|]. split; [now apply Qcltb_lt|].
    apply List.Forall_forall. intros kv Hkv. apply Qcleb_le.
    rewrite forallb_forall in H5. now apply H5.
Qed.
(* ================================================================== *)
(** * Further properties of the learner *)

(** [update_regrets] in closed form. *)
Lemma update_regrets_effect (sqrt : Qc -> Qc) (L : CFRRegretMinimizer.t)
    (values : Dict.t Qc) (selected : string) :
  values <> [] -> Dict.wf values ->
  let policy := policy_of L (Dict.keys values) in
  let V := pysum (map (fun kv => Dict.get_or policy (fst kv) 0 * snd kv) values) in
  let L' := update_regrets sqrt L values selected in
  (forall s v, In (s, v) values -> regret_of L' s = regret_of L s + (v - V)) /\
  (forall s, ~ In s (Dict.keys values) -> regret_of L' s = regret_of L s) /\
  cumulative_regret L' = cumulative_regret L + (best_value_of values - V) /\
  regret_history L' = regret_history L ++ [cumulative_regret L'] /\
  length (distance_to_optimal_history L') = S (length (distance_to_optimal_history L)) /\
  total_iterations L' = (total_iterations L + 1)%Z /\
  iteration_history L' = iteration_history L /\
  strategy_sum L' = strategy_sum L.
Proof.
  intros Hne Hwf policy V L'.
  assert (Hnd : List.NoDup (Dict.keys values)) by exact Hwf.
  subst policy V L'. unfold update_regrets.
  destruct values as [|kv0 values0] eqn:Ev; [congruence|]. rewrite <- Ev in *.
  clear Ev kv0 values0.
  rewrite (get_strategy_probabilities_spec L _ Hnd).
  set (L1 := set_regret_sum L _).
  rewrite (node_value_of_items _ _ Hwf).
  set (V := pysum _).
  destruct (regret_fold V values L1 Hwf) as (Hin & Hout & Hfr).
  set (L2 := fold_left (regret_step V) values L1) in *.
  rewrite (get_strategy_probabilities_spec L2 _ Hnd).
  destruct Hfr as (Hss & Hih & Hrh & Hcr & Hdh & Hti & _).
  cbn [regret_sum regret_history cumulative_regret total_iterations set_regret_sum
       distance_to_optimal_history iteration_history strategy_sum].
  split; [|split; [|split; [|split; [|split; [|split; [|split]]]]]].
  - intros s v Hsv. unfold regret_of at 1. cbn [regret_sum set_regret_sum].
    rewrite dict_get_or_fold_touch.
    change (Dict.get_or (regret_sum L2) s 0) with (regret_of L2 s).
    rewrite (Hin s v Hsv). unfold L1. now rewrite regret_of_touched.
  - intros s Hs. unfold regret_of at 1. cbn [regret_sum set_regret_sum].
    rewrite dict_get_or_fold_touch.
    change (Dict.get_or (regret_sum L2) s 0) with (regret_of L2 s).
    rewrite (Hout s Hs). unfold L1. now rewrite regret_of_touched.
  - now rewrite Hcr.
  - now rewrite Hrh.
  - rewrite length_app, Hdh. cbn. lia.
  - now rewrite Hti.
  - exact Hih.
  - exact Hss.
Qed.

(** What the reads [self.regret_sum[s]] of a query leave in the
    defaultdict: an entry 0 for every queried strategy that had none, after
    the old entries and in the order of the query. *)
Lemma fold_touch_closed (ks : list string) :
  forall d : Dict.t Qc,
    List.NoDup ks ->
    fold_left (Dict.touch 0) ks d
    = d ++ map (fun s => (s, 0))
               (List.filter (fun s => match Dict.get d s with
                                      | Some _ => false
                                      | None => true
                                      end) ks).
Proof.
  induction ks as [|k ks IH]; intros d Hnd; cbn [fold_left List.filter map].
  - now rewrite app_nil_r.
  - inversion Hnd as [|? ? Hk Hnd']; subst. rewrite (IH _ Hnd').
    unfold Dict.touch. destruct (Dict.get d k) eqn:G; [reflexivity|].
    cbn [map]. rewrite <- app_assoc. cbn [app]. do 3 f_equal.
    apply filter_ext_in. intros s Hs. rewrite dict_get_app_absent.
    destruct (Dict.get d s); [reflexivity|].
    destruct (String.eqb_spec s k) as [->|_]; [contradiction|reflexivity].
Qed.

Lemma filter_none {A} (f : A -> bool) (l : list A) :
  (forall x, In x l -> f x = false) -> List.filter f l = [].
Proof.
  induction l as [|x l IH]; intros H; [reflexivity|]. cbn [List.filter].
  rewrite (H x (or_introl eq_refl)). apply IH. intros y Hy. apply H. now right.
Qed.

(** X3. What asking for the policy does to the learner.  The reads of the
    defaultdict insert an entry 0 for every queried strategy that had none,
    after the old entries and in query order; these entries are visible in
    [regret_by_strategy] of the statistics.  Nothing else changes: every
    regret reads as before and every other field of the learner is the
    same.  A second query returns the same policy and changes nothing. *)
Theorem X3_policy_query_effect (L : CFRRegretMinimizer.t) (strategies : list string) :
  List.NoDup strategies ->
  let L1 := fst (get_strategy_probabilities L strategies) in
  regret_by_strategy (get_statistics L1)
  = regret_by_strategy (get_statistics L)
    ++ map (fun s => (s, 0))
           (List.filter (fun s => match Dict.get (regret_sum L) s with
                                  | Some _ => false
                                  | None => true
                                  end) strategies) /\
  (forall s, regret_of L1 s = regret_of L s) /\
  learner_frame L L1 /\
  strategy_values L1 = strategy_values L /\
  get_strategy_probabilities L1 strategies
  = (L1, snd (get_strategy_probabilities L strategies)).
Proof.
  intros Hnd L1. subst L1.
  pose proof (get_strategy_probabilities_frame L strategies) as Hfr.
  rewrite (get_strategy_probabilities_spec L strategies Hnd) in *. cbn [fst snd] in *.
  assert (Hreg : forall s,
             regret_of (set_regret_sum L (fold_left (Dict.touch 0) strategies
                                            (regret_sum L))) s = regret_of L s).
  { intros s. apply regret_of_touched. }
  pose proof (fold_touch_closed strategies (regret_sum L) Hnd) as Hclosed.
  split; [exact Hclosed|]. split; [exact Hreg|]. split; [exact Hfr|].
  split; [reflexivity|].
  rewrite (get_strategy_probabilities_spec _ strategies Hnd). f_equal.
  - cbn [regret_sum set_regret_sum].
    set (d1 := fold_left (Dict.touch 0) strategies (regret_sum L)) in *.
    rewrite (fold_touch_closed strategies d1 Hnd), filter_none.
    + cbn [map]. rewrite app_nil_r. reflexivity.
    + intros s Hs. destruct (Dict.get d1 s) eqn:G; [reflexivity|]. exfalso.
      apply dict_get_None in G. apply G. rewrite Hclosed.
      unfold Dict.keys. rewrite map_app, map_map. cbn [fst]. rewrite map_id.
      apply in_or_app.
      destruct (Dict.get (regret_sum L) s) eqn:G0.
      * left. destruct (in_dec string_dec s (map fst (regret_sum L))) as [H|H];
          [exact H|]. apply dict_get_None in H. congruence.
      * right. apply filter_In. split; [exact Hs|]. now rewrite G0.
  - unfold policy_of, positive_part.
    rewrite (map_ext _ (fun s => (s, pymax 0 (regret_of L s))));
      [reflexivity|]. intros s. now rewrite Hreg.
Qed.

Lemma X3_policy_query_effect_witness :
  List.NoDup catalog /\
  let L1 := fst (get_strategy_probabilities CFRRegretMinimizer.init catalog) in
  regret_by_strategy (get_statistics L1)
  = regret_by_strategy (get_statistics CFRRegretMinimizer.init)
    ++ map (fun s => (s, 0))
           (List.filter (fun s => match Dict.get (regret_sum CFRRegretMinimizer.init) s with
                                  | Some _ => false
                                  | None => true
                                  end) catalog) /\
  (forall s, regret_of L1 s = regret_of CFRRegretMinimizer.init s) /\
  learner_frame CFRRegretMinimizer.init L1 /\
  strategy_values L1 = strategy_values CFRRegretMinimizer.init /\
  get_strategy_probabilities L1 catalog
  = (L1, snd (get_strategy_probabilities CFRRegretMinimizer.init catalog)).
Proof.
  split; [exact catalog_nodup|].
  exact (X3_policy_query_effect CFRRegretMinimizer.init catalog catalog_nodup).
Defined.

(** Inverse-CDF sampling with a draw below the total mass picks an entry
    of positive probability. *)
Lemma choice_positive (items : Dict.t Qc) (u : Qc) :
  Forall (Qcle 0) (Dict.values items) ->
  0 <= u -> u < pysum (Dict.values items) ->
  exists s p, choice items u = Some s /\ In (s, p) items /\ 0 < p.
Proof.
  revert u. induction items as [|[s p] rest IH]; intros u Hnn Hu Hlt.
  - exfalso. change (Dict.values (@nil (string * Qc))) with (@nil Qc) in Hlt.
    rewrite pysum_nil in Hlt. exact (Qclt_not_le _ _ Hlt Hu).
  - cbn [Dict.values map snd] in Hnn, Hlt. rewrite pysum_cons in Hlt.
    inversion Hnn as [|? ? Hp Hrest]; subst.
    cbn [choice]. destruct rest as [|kv rest'] eqn:E.
    + exists s, p. split; [reflexivity|]. split; [now left|].
      cbn [Dict.values map] in Hlt. rewrite pysum_nil, Qcplus_0_r in Hlt.
      exact (Qcle_lt_trans _ _ _ Hu Hlt).
    + rewrite <- E in *. destruct (Qcltb u p) eqn:Eu.
      * apply Qcltb_lt in Eu. exists s, p. split; [reflexivity|].
        split; [now left|]. exact (Qcle_lt_trans _ _ _ Hu Eu).
      * apply Qcltb_ge in Eu.
        destruct (IH (u - p)) as (s' & p' & Hc & Hin & Hpos).
        -- exact Hrest.
        -- unfold Qcminus. apply -> Qcle_minus_iff. exact Eu.
        -- apply (Qcplus_lt_mono_r _ _ p).
           replace (u - p + p) with u by ring.
           now rewrite Qcplus_comm.
        -- exists s', p'. split; [exact Hc|]. split; [now right|exact Hpos].
Qed.

(** X4. [select_strategy] returns one of the strategies it is given, and,
    for a uniform draw in [0, 1), one that has a positive probability under
    the current regret-matching policy. *)
Theorem X4_select_strategy_support (L : CFRRegretMinimizer.t) (strategies : list string)
    (u : Qc) :
  strategies <> [] -> List.NoDup strategies ->
  exists s,
    snd (select_strategy L strategies u) = Some s /\
    In s strategies /\
    (0 <= u -> u < 1 ->
     0 < Dict.get_or (snd (get_strategy_probabilities L strategies)) s 0).
Proof.
  intros Hne Hnd. unfold select_strategy.
  rewrite (get_strategy_probabilities_spec L strategies Hnd). cbn [snd].
  destruct (policy_of_distribution L strategies Hne) as (Hkeys & Hpos & Hsum).
  destruct (choice_Some (policy_of L strategies) u) as (s & Hs & Hin).
  { intros E. rewrite E in Hkeys. cbn in Hkeys. congruence. }
  exists s. split; [exact Hs|]. split; [now rewrite <- Hkeys|].
  intros Hu0 Hu1.
  destruct (choice_positive (policy_of L strategies) u Hpos Hu0) as (s' & p & Hs' & Hin' & Hp).
  { now rewrite Hsum. }
  assert (s' = s) by congruence. subst s'.
  unfold Dict.get_or. rewrite (dict_get_In (policy_of L strategies) s p); [exact Hp| |exact Hin'].
  unfold Dict.wf. now rewrite Hkeys.
Qed.

Lemma X4_select_strategy_support_witness :
  catalog <> [] /\ List.NoDup catalog /\
  exists s,
    snd (select_strategy CFRRegretMinimizer.init catalog (qfrac 1 2)) = Some s /\
    In s catalog /\
    (0 <= qfrac 1 2 -> qfrac 1 2 < 1 ->
     0 < Dict.get_or (snd (get_strategy_probabilities CFRRegretMinimizer.init catalog)) s 0).
Proof.
  split; [exact catalog_nonempty|]. split; [exact catalog_nodup|].
  exact (X4_select_strategy_support CFRRegretMinimizer.init catalog (qfrac 1 2)
           catalog_nonempty catalog_nodup).
Defined.

(** One learning round: what it does to the histories and the counter. *)
Lemma learning_round_histories (sqrt : Qc -> Qc) (L L' : CFRRegretMinimizer.t)
    (values : Dict.t Qc) (u : Qc) :
  Dict.keys values = catalog ->
  DynamicRegretAnalyzer.learning_round sqrt L values u = Some L' ->
  total_iterations L' = (total_iterations L + 1)%Z /\
  length (regret_history L') = S (length (regret_history L)) /\
  length (distance_to_optimal_history L') = S (length (distance_to_optimal_history L)) /\
  map iteration (iteration_history L') =
  map iteration (iteration_history L) ++ [(total_iterations L + 1)%Z].
Proof.
  intros Hk. unfold DynamicRegretAnalyzer.learning_round. rewrite Hk.
  pose proof (get_strategy_probabilities_frame L catalog) as F1.
  destruct (get_strategy_probabilities L catalog) as [L1 probs]. cbn [fst] in F1.
  unfold select_strategy.
  pose proof (get_strategy_probabilities_frame L1 catalog) as F2.
  destruct (get_strategy_probabilities L1 catalog) as [L2 probs2]. cbn [fst] in F2.
  destruct (choice probs2 u) as [sel|]; [|discriminate].
  destruct (Dict.get values sel) as [v|]; [|discriminate].
  intros [= <-].
  assert (Hne : values <> []).
  { intros E. rewrite E in Hk. now apply catalog_nonempty. }
  assert (Hwf : Dict.wf values).
  { unfold Dict.wf. rewrite Hk. apply catalog_nodup. }
  destruct (update_regrets_effect sqrt L2 values sel Hne Hwf)
    as (_ & _ & _ & Hrh & Hdh & Hti & Hih & _).
  destruct (learner_frame_trans _ _ _ F1 F2) as (_ & Eih & Erh & _ & Edh & Eti & _).
  cbn [total_iterations regret_history distance_to_optimal_history iteration_history
       record_iteration].
  rewrite Hti, Eti. split; [reflexivity|].
  split; [rewrite Hrh, length_app, Erh; cbn; lia|].
  split; [rewrite Hdh, Edh; reflexivity|].
  rewrite map_app, Hih, Eih. reflexivity.
Qed.

(** X5. In every learner state the orchestrator can reach, the histories
    are in step: after n learning rounds the iteration counter is n, the
    regret history, the distance history and the iteration history have n
    entries each, and the recorded iterations are numbered 1 to n. *)
Theorem X5_histories_in_step (sqrt : Qc -> Qc) (L : CFRRegretMinimizer.t) :
  reachable_learner sqrt L ->
  let n := length (iteration_history L) in
  total_iterations L = Z.of_nat n /\
  length (regret_history L) = n /\
  length (distance_to_optimal_history L) = n /\
  map iteration (iteration_history L) = map Z.of_nat (seq 1 n).
Proof.
  induction 1 as [|L L' values u _ IH Hk Hround]; cbv zeta in *.
  - repeat split.
  - destruct IH as (I1 & I2 & I3 & I4).
    destruct (learning_round_histories sqrt L L' values u Hk Hround)
      as (H1 & H2 & H3 & H4).
    assert (Hlen : length (iteration_history L') = S (length (iteration_history L))).
    { rewrite <- (length_map iteration), H4, length_app, length_map. cbn. lia. }
    rewrite Hlen. split; [rewrite H1, I1; lia|]. split; [now rewrite H2, I2|].
    split; [now rewrite H3, I3|].
    rewrite H4, I4, I1, seq_S, map_app. cbn [map Nat.add]. do 2 f_equal. lia.
Qed.

Lemma X5_histories_in_step_witness :
  let values := map (fun s => (s, qz 1)) catalog in
  let L := default CFRRegretMinimizer.init
             (DynamicRegretAnalyzer.learning_round sqrt_approx CFRRegretMinimizer.init
                values 0) in
  reachable_learner sqrt_approx L /\
  let n := length (iteration_history L) in
  total_iterations L = Z.of_nat n /\
  length (regret_history L) = n /\
  length (distance_to_optimal_history L) = n /\
  map iteration (iteration_history L) = map Z.of_nat (seq 1 n).
Proof.
  intros values L.
  assert (Hr : reachable_learner sqrt_approx L).
  { unfold L.
    destruct (DynamicRegretAnalyzer.learning_round sqrt_approx CFRRegretMinimizer.init
                values 0) as [L'|] eqn:E.
    - cbn [default]. eapply reachable_round; [apply reachable_init| |exact E].
      reflexivity.
    - apply reachable_init. }
  split; [exact Hr|]. exact (X5_histories_in_step sqrt_approx L Hr).
Defined.

(* ================================================================== *)
(** * Further properties of the data model *)

(** X6. [next_room] on a patient that satisfies the data invariant: it is
    [None] exactly when the pathway is complete, and otherwise the pathway
    entry at the current step; the subscript never fails. *)
Theorem X6_next_room_spec (p : Patient.t) :
  patient_ok p ->
  (Patient.is_complete p = true /\ Patient.next_room p = Some None) \/
  (Patient.is_complete p = false /\
   exists room,
     Patient.next_room p = Some (Some room) /\
     Patient.pathway p !! Z.to_nat (Patient.current_step p) = Some room).
Proof.
  intros (_ & _ & H0 & _ & _). unfold Patient.next_room.
  destruct (Patient.is_complete p) eqn:Ec; [left; now split|]. right.
  split; [reflexivity|].
  apply not_complete_lt in Ec. rewrite py_index_nonneg by exact H0.
  destruct (lookup_lt_is_Some_2 (Patient.pathway p) (Z.to_nat (Patient.current_step p)))
    as (room & Hr); [lia|].
  rewrite Hr. now exists room.
Qed.

Lemma X6_next_room_spec_witness :
  let p := Patient.new 1 Critical (INITIAL_HEALTH Critical) (PATHWAYS Critical)
             1 0 0 [] 0 false in
  patient_ok p /\
  ((Patient.is_complete p = true /\ Patient.next_room p = Some None) \/
   (Patient.is_complete p = false /\
    exists room,
      Patient.next_room p = Some (Some room) /\
      Patient.pathway p !! Z.to_nat (Patient.current_step p) = Some room)).
Proof.
  intros p.
  assert (H : patient_ok p).
  { apply patient_ok_intro; cbn; try lia; apply Qcleb_le; reflexivity. }
  split; [exact H|]. exact (X6_next_room_spec p H).
Defined.

(** X7. The urgency of a patient that satisfies the data invariant lies
    between 0 and the weight of its type, hence between 0 and 3. *)
Theorem X7_urgency_range (p : Patient.t) :
  patient_ok p -> 0 <= Patient.urgency p /\ Patient.urgency p <= qz 3.
Proof.
  intros (Hh0 & Hh1 & _). unfold Patient.urgency.
  set (w := match Patient.ptype p with
            | Critical => qz 3 | Moderate => qz 2 | Minor => qz 1 end).
  assert (Hw0 : 0 <= w).
  { unfold w. destruct (Patient.ptype p); apply Qcleb_le; reflexivity. }
  assert (Hw3 : w <= qz 3).
  { unfold w. destruct (Patient.ptype p); apply Qcleb_le; reflexivity. }
  assert (H100 : 0 < qz 100) by (apply Qcltb_lt; reflexivity).
  assert (Hu0 : 0 <= (qz 100 - Patient.health p) / qz 100).
  { apply Qcdiv_nonneg; [|exact H100]. unfold Qcminus.
    apply -> Qcle_minus_iff. exact Hh1. }
  assert (Hu1 : (qz 100 - Patient.health p) / qz 100 <= 1).
  { rewrite <- (Qcdiv_self (qz 100) H100). unfold Qcdiv.
    apply Qcmult_le_compat_r; [|apply Qclt_le_weak, Qcinv_pos, H100].
    apply Qcle_minus_iff.
    replace (qz 100 + - (qz 100 - Patient.health p)) with (Patient.health p) by ring.
    exact Hh0. }
  split.
  - now apply Qcmult_nonneg_nonneg.
  - eapply Qcle_trans with (w * 1).
    + rewrite !(Qcmult_comm w). now apply Qcmult_le_compat_r.
    + now rewrite Qcmult_1_r.
Qed.

Lemma X7_urgency_range_witness :
  let p := Patient.new 1 Critical (INITIAL_HEALTH Critical) (PATHWAYS Critical)
             0 0 0 [] 0 false in
  patient_ok p /\ 0 <= Patient.urgency p /\ Patient.urgency p <= qz 3.
Proof.
  intros p.
  assert (H : patient_ok p) by apply ok_new.
  split; [exact H|]. exact (X7_urgency_range p H).
Defined.

(** X8. [room_distance] is symmetric, whatever the room table holds and
    also for rooms that are not in it. *)
Theorem X8_room_distance_symmetric (sqrt : Qc -> Qc) (positions : Dict.t (Qc * Qc))
    (r1 r2 : string) :
  room_distance sqrt positions r1 r2 = room_distance sqrt positions r2 r1.
Proof.
  unfold room_distance. cbv zeta. f_equal. cbn [Qcpower]. ring.
Qed.

(** X9. [Patient.clone] is faithful: the constructor runs [__post_init__]
    again on the copy, and this changes nothing, so the clone of a
    constructed patient equals it field by field, and cloning a clone gives
    the same patient. *)
Theorem X9_clone_is_faithful (id : Z) (ptype : PType) (health : Qc)
    (pathway : list string) (current_step : Z) (arrival_time waiting_time : Qc)
    (being_treated_by : list Agent) (deadline : Qc) (doctor_required : bool)
    (p : Patient.t) :
  Patient.clone (Patient.new id ptype health pathway current_step arrival_time
                             waiting_time being_treated_by deadline doctor_required)
  = Patient.new id ptype health pathway current_step arrival_time
                waiting_time being_treated_by deadline doctor_required /\
  Patient.clone (Patient.clone p) = Patient.clone p.
Proof.
  assert (Hd : forall (ty : PType) (d : Qc),
             (let d' := if bool_decide (d = 0)
                        then match ty with
                             | Critical => qz 25 | Moderate => qz 45 | Minor => qz 30
                             end
                        else d in
              (if bool_decide (d' = 0)
               then match ty with
                    | Critical => qz 25 | Moderate => qz 45 | Minor => qz 30
                    end
               else d') = d')).
  { intros ty d. cbv zeta. destruct (bool_decide (d = 0)) eqn:E.
    - destruct ty; reflexivity.
    - now rewrite E. }
  assert (Hr : forall (ty : PType) (b : bool),
             (let b' := if b then true else bool_decide (ty = Critical) in
              (if b' then true else bool_decide (ty = Critical)) = b')).
  { intros ty b. cbv zeta. destruct b; [reflexivity|].
    now destruct (bool_decide (ty = Critical)). }
  split.
  - unfold Patient.clone, Patient.new. cbn. f_equal; [apply Hd|apply Hr].
  - unfold Patient.clone, Patient.new. cbn. f_equal; [apply Hd|apply Hr].
Qed.
(* ================================================================== *)
(** * Further properties of the simulator *)






Lemma ceiling_to_nat_upper (d : Qc) : d <= qz (Z.of_nat (Z.to_nat (Qceiling d))).
Proof.
  eapply Qcle_trans; [apply Qcle_ceiling|].
  unfold qz. apply (proj1 (Z2Qc_inj_le _ _)). lia.
Qed.

Lemma ticks_bound_enough (s : GameState.t) (simulation_time : Qc) :
  simulation_time <=
  GameState.current_time s + qz (Z.of_nat (ticks_bound s simulation_time)).
Proof.
  unfold ticks_bound.
  pose proof (ceiling_to_nat_upper (simulation_time - GameState.current_time s)) as H.
  assert (E : Qceiling (this simulation_time - this (GameState.current_time s))%Q
              = Qceiling (this (simulation_time - GameState.current_time s))).
  { apply Qceiling_comp. unfold Qcminus, Qcplus, Qcopp, Q2Qc. cbn [this].
    rewrite !Qred_correct. reflexivity. }
  rewrite E.
  remember (qz (Z.of_nat (Z.to_nat
                            (Qceiling (this (simulation_time - GameState.current_time s))))))
    as q eqn:Eq. clear Eq.
  apply Qcle_minus_iff in H. apply Qcle_minus_iff.
  replace (GameState.current_time s + q + - simulation_time)
    with (q + - (simulation_time - GameState.current_time s)) by ring.
  exact H.
Qed.

(** The bound of the embedded loop.  The clock of this development is an
    exact number, so every tick advances it by exactly 1; on such a clock
    the loop stops within [ticks_bound] iterations, and allowing it any
    number of further iterations gives the same outcome.  In double
    precision this is so as long as adding 1.0 changes the clock, that is
    below 2^53. *)
Lemma loop_bound_suffices (sqrt : Qc -> Qc) (positions : Dict.t (Qc * Qc))
    (extra : nat) (initial_state : ref) (nurse_actions doctor_actions : list Action)
    (simulation_time : Qc) (st : Store) :
  simulate_with_fuel sqrt positions extra initial_state nurse_actions doctor_actions
                     simulation_time st
  = simulate_action_sequence sqrt positions initial_state nurse_actions doctor_actions
                             simulation_time st.
Proof.
  unfold simulate_with_fuel, simulate_action_sequence. unfold bind at 1 4.
  pose proof (clone_establishes st initial_state False (fun F => False_ind _ F)) as Hc.
  destruct (clone_state initial_state st) as [state st1|e st1]; [|reflexivity].
  destruct Hc as (ids & t & HJ).
  destruct (sim_inv_lookup_state st state ids False t st1 HJ) as (s & Hs & _ & Ht & _).
  rewrite !(bind_ok _ _ _ _ _ (get_state_run st1 state s Hs)).
  unfold bind.
  rewrite (simulate_loop_fuel st state ids False sqrt positions nurse_actions
             doctor_actions simulation_time
             (fun F => False_ind _ F) (fun F => False_ind _ F)
             (ticks_bound s simulation_time) extra t _ st1 HJ);
    [reflexivity|].
  rewrite <- Ht. apply ticks_bound_enough.
Qed.

Section LoopExit.
Variable st0 : Store.
Variable state : ref.
Variable ids : list Z.
Variable sqrt : Qc -> Qc.
Variable positions : Dict.t (Qc * Qc).
Variable nurse_actions doctor_actions : list Action.
Variable simulation_time : Qc.

Lemma sim_loop_exit (fuel : nat) (t : Qc) (v : LoopVars) (st : Store) :
  sim_inv st0 state ids False t st ->
  simulation_time <= t + qz (Z.of_nat fuel) ->
  match simulate_loop sqrt positions fuel state nurse_actions doctor_actions
                      simulation_time v st with
  | Ok _ st' =>
      exists s', state_objs st' !! state = Some s' /\
                 loop_guard s' simulation_time = false
  | Raise _ _ => True
  end.
Proof.
  revert t v st. induction fuel as [|fuel IH]; intros t v st HJ Hle.
  - destruct (sim_inv_lookup_state st0 state ids False t st HJ) as (s & Hs & _ & Ht & _).
    assert (Hg : loop_guard s simulation_time = false).
    { unfold loop_guard. rewrite Ht.
      replace (Qcltb t simulation_time) with false; [reflexivity|].
      symmetry. apply Qcltb_ge. change (qz (Z.of_nat 0)) with (qz 0) in Hle.
      rewrite qz_0, Qcplus_0_r in Hle. exact Hle. }
    cbn [simulate_loop].
    rewrite (bind_ok _ _ _ _ _ (get_state_run st state s Hs)), Hg. cbn. now exists s.
  - cbn [simulate_loop].
    destruct (sim_inv_lookup_state st0 state ids False t st HJ) as (s & Hs & _).
    rewrite (bind_ok _ _ _ _ _ (get_state_run st state s Hs)).
    destruct (loop_guard s simulation_time) eqn:Hg; [|cbn; now exists s].
    pose proof (sim_tick st0 state ids False sqrt positions t nurse_actions
                  doctor_actions v (fun F => False_ind _ F) (fun F => False_ind _ F)
                  st HJ) as Htick.
    unfold bind at 1.
    destruct (tick sqrt positions state nurse_actions doctor_actions v st)
      as [v' st'|e st']; [|exact I].
    apply (IH (t + 1)); [exact Htick|].
    rewrite qz_succ in Hle.
    rewrite <- Qcplus_assoc, (Qcplus_comm 1). exact Hle.
Qed.
End LoopExit.

(** X12. When a simulation run returns, the clock of the final state has
    reached [simulation_time] or its roster is empty: the loop is left only
    through its guard. *)
Theorem X12_simulation_runs_to_the_end (sqrt : Qc -> Qc) (positions : Dict.t (Qc * Qc))
    (initial_state : ref) (nurse_actions doctor_actions : list Action)
    (simulation_time : Qc) (st : Store) :
  match simulate_action_sequence sqrt positions initial_state nurse_actions
                                 doctor_actions simulation_time st with
  | Ok final st' =>
      exists s', state_objs st' !! fst final = Some s' /\
                 (simulation_time <= GameState.current_time s' \/
                  GameState.patients s' = [])
  | Raise _ _ => True
  end.
Proof.
  unfold simulate_action_sequence. unfold bind at 1.
  pose proof (clone_establishes st initial_state False (fun F => False_ind _ F)) as Hc.
  destruct (clone_state initial_state st) as [state st1|e st1]; [|exact I].
  destruct Hc as (ids & t & HJ).
  destruct (sim_inv_lookup_state st state ids False t st1 HJ) as (s & Hs & _ & Ht & _).
  rewrite (bind_ok _ _ _ _ _ (get_state_run st1 state s Hs)).
  unfold bind at 1.
  match goal with
  | |- context [simulate_loop ?x1 ?x2 ?x3 ?x4 ?x5 ?x6 ?x7 ?v st1] =>
      pose proof (sim_loop_exit st state ids sqrt positions nurse_actions doctor_actions
                    simulation_time (ticks_bound s simulation_time) t v st1 HJ) as Hl;
      destruct (simulate_loop x1 x2 x3 x4 x5 x6 x7 v st1) as [v' st2|e st2]
  end; [|exact I].
  destruct Hl as (s' & Hs' & Hg).
  { rewrite <- Ht. apply ticks_bound_enough. }
  cbn. exists s'. split; [exact Hs'|].
  unfold loop_guard in Hg. apply andb_false_iff in Hg as [Hg|Hg].
  - left. now apply Qcltb_ge.
  - right. apply negb_false_iff, bool_decide_eq_true in Hg. exact Hg.
Qed.
(** *** No treatment is ever cooperative *)

Lemma preserves_hoare {A} (I : Store -> Prop) (m : M A) :
  preserves I m -> hoare I m (fun _ st => I st) (fun _ _ => True).
Proof.
  intros H st HI. specialize (H st HI). destruct (m st); [exact H|exact Logic.I].
Qed.

Lemma idle_lookup (st : Store) (r : ref) (p : Patient.t) :
  idle st -> patient_objs st !! r = Some p -> Patient.being_treated_by p = [].
Proof.
  unfold idle. rewrite List.Forall_forall. intros H Hr.
  apply H, list_elem_of_In, list_elem_of_lookup. now exists r.
Qed.

Lemma idle_upd_patient (st : Store) (r : ref) (p : Patient.t) :
  idle st -> Patient.being_treated_by p = [] -> idle (upd_patient st r p).
Proof.
  unfold idle, upd_patient. cbn [patient_objs]. intros H Hp.
  apply List.Forall_forall. intros x Hx. apply list_elem_of_In in Hx.
  apply list_elem_of_lookup in Hx as (i & Hi).
  destruct (decide (i = r)) as [->|Hne].
  - destruct (decide (r < length (patient_objs st))%nat) as [Hlt|Hge].
    + rewrite list_lookup_insert_eq in Hi by exact Hlt. now injection Hi as <-.
    + rewrite list_insert_ge in Hi by lia. eapply idle_lookup; eauto.
  - rewrite list_lookup_insert_ne in Hi by congruence. eapply idle_lookup; eauto.
Qed.

Lemma idle_modify_patient (r : ref) (f : Patient.t -> Patient.t) :
  (forall p, Patient.being_treated_by (f p) = Patient.being_treated_by p) ->
  preserves idle (modify_patient r f).
Proof.
  intros Hf st H. unfold modify_patient, bind, get_patient.
  destruct (patient_objs st !! r) as [p|] eqn:E; [|exact H].
  rewrite (put_patient_run st r p _ E). cbn.
  apply idle_upd_patient; [exact H|]. rewrite Hf. eapply idle_lookup; eauto.
Qed.

Lemma idle_put_state (r : ref) (s : GameState.t) : preserves idle (put_state r s).
Proof. intros st H. unfold put_state. now destruct (state_objs st !! r). Qed.

Lemma idle_modify_state (r : ref) (f : GameState.t -> GameState.t) :
  preserves idle (modify_state r f).
Proof.
  unfold modify_state. apply preserves_bind; [apply preserves_get_state|].
  intros s. apply idle_put_state.
Qed.

Lemma idle_waiting_step (time_delta penalty : Qc) (r : ref) :
  preserves idle (waiting_step time_delta penalty r).
Proof.
  unfold waiting_step.
  apply preserves_bind; [apply preserves_get_patient|]. intros patient.
  destruct (Patient.being_treated_by patient); [|apply preserves_ret].
  apply preserves_bind; [now apply idle_modify_patient|].
  intros _. apply preserves_bind; [|intros _; apply preserves_ret].
  now apply idle_modify_patient.
Qed.

Lemma idle_apply_waiting_penalties (state : ref) (time_delta : Qc) :
  preserves idle (apply_waiting_penalties state time_delta).
Proof.
  unfold apply_waiting_penalties.
  apply preserves_bind; [apply preserves_get_state|]. intros s.
  apply preserves_bind; [apply preserves_foldM; intros; apply idle_waiting_step|].
  intros penalty. apply preserves_bind; [apply idle_modify_state|].
  intros _. apply preserves_ret.
Qed.

Lemma idle_remove_from_roster (state p : ref) :
  preserves idle (remove_from_roster state p).
Proof.
  unfold remove_from_roster.
  apply preserves_bind; [apply preserves_get_state|]. intros s.
  apply preserves_bind; [apply preserves_get_patient|]. intros target.
  apply preserves_bind.
  - apply preserves_mapM. intros r.
    apply preserves_bind; [apply preserves_get_patient|]. intros x. apply preserves_ret.
  - intros objs. destruct (list_remove _ objs); [apply idle_put_state|apply preserves_raise].
Qed.

Lemma idle_clone_state (state : ref) : preserves idle (clone_state state).
Proof.
  unfold clone_state.
  apply preserves_bind; [apply preserves_get_state|]. intros s.
  apply preserves_bind.
  - apply preserves_mapM. intros r st H. unfold bind, get_patient.
    destruct (patient_objs st !! r) as [p|] eqn:E; [|exact H].
    unfold new_patient, idle in *. cbn. apply Forall_app. split; [exact H|].
    constructor; [|constructor]. cbn. eapply idle_lookup; eauto.
  - intros ps st H. exact H.
Qed.

(** A TREAT_PATIENT token with a valid target, on a patient nobody is
    treating: the treatment is not cooperative, the metrics are returned as
    they are, and the patient is left with nobody treating it. *)
Lemma execute_treat_idle (sqrt : Qc -> Qc) (positions : Dict.t (Qc * Qc)) (st : Store)
    (state : ref) (agent : Agent) (k : Z) (metrics : Metrics.t) (s : GameState.t)
    (r : ref) (p : Patient.t) (room : string) :
  state_objs st !! state = Some s ->
  (k - 1 <? Z.of_nat (length (GameState.patients s)))%Z = true ->
  py_index (GameState.patients s) (k - 1) = Some r ->
  patient_objs st !! r = Some p ->
  Patient.next_room p = Some (Some room) -> room <> "" ->
  Patient.being_treated_by p = [] ->
  exists reward p' s',
    _execute_agent_action sqrt positions state agent (TREAT_PATIENT k) metrics st
    = Ok (reward, metrics)
         {| patient_objs := <[r := p']> (patient_objs st);
            state_objs := <[state := s']> (state_objs st) |} /\
    Patient.being_treated_by p' = [].
Proof.
  intros Es Hlt Hr E En Hroom Hb. unfold _execute_agent_action.
  rewrite (bind_ok _ _ _ _ _ (get_state_run st state s Es)).
  rewrite Hlt, Hr.
  rewrite (bind_ok _ _ _ _ _ (read_next_room_run st r p _ E En)).
  destruct room as [|a room']; [congruence|]. set (room := String a room') in *.
  rewrite (bind_ok _ _ _ _ _ (get_patient_run st r p E)).
  rewrite Hb. cbn [length Z.of_nat Z.ltb Z.compare].
  rewrite (bind_ok _ _ _ _ _ (modify_state_run st state s _ Es)).
  set (s1 := GameState.set_busy_pos s agent _ room).
  assert (E1 : patient_objs (upd_state st state s1) !! r = Some p) by exact E.
  rewrite (bind_ok _ _ _ _ _ (modify_patient_run _ r p _ E1)).
  set (p1 := Patient.set_being_treated_by p (Patient.being_treated_by p ++ [agent])).
  set (st2 := upd_patient (upd_state st state s1) r p1).
  assert (E2 : patient_objs st2 !! r = Some p1) by (eapply upd_patient_lookup, E1).
  assert (Es2 : state_objs st2 !! state = Some s1) by (eapply upd_state_lookup, Es).
  assert (En1 : Patient.next_room p1 = Some (Some room)) by exact En.
  destruct (treat_patient_run st2 state r agent
              (Dict.get_or ROOM_TREATMENT_TIME room (qz 10)) false p1 room s1 E2 En1 Es2)
    as (reward & s' & Hrun & _).
  rewrite (bind_ok _ _ _ _ _ Hrun).
  set (p3 := treated p1 _) in *.
  set (st3 := {| patient_objs := <[r:=p3]> (patient_objs st2);
                 state_objs := <[state:=s']> (state_objs st2) |}).
  assert (E3 : patient_objs st3 !! r = Some p3).
  { unfold st3. cbn [patient_objs]. apply list_lookup_insert_eq.
    eapply lookup_lt_Some, E2. }
  assert (Hrem : remove_agent agent r st3
                 = Ok tt (upd_patient st3 r (Patient.set_being_treated_by p3 []))).
  { unfold remove_agent.
    rewrite (bind_ok _ _ _ _ _ (get_patient_run st3 r p3 E3)).
    change (Patient.being_treated_by p3) with (Patient.being_treated_by p ++ [agent]).
    rewrite Hb. cbn [app list_remove].
    rewrite bool_decide_eq_true_2 by reflexivity. now apply put_patient_run with p3. }
  rewrite (bind_ok _ _ _ _ _ Hrem).
  exists reward, (Patient.set_being_treated_by p3 []), s'.
  split; [|reflexivity].
  unfold ret, upd_patient, st3, st2, upd_patient, upd_state.
  cbn [patient_objs state_objs].
  now rewrite !list_insert_insert_eq.
Qed.

Section Idle.
Variable sqrt : Qc -> Qc.
Variable positions : Dict.t (Qc * Qc).
Variable state : ref.

Local Abbreviation any := (fun (_ : exn) (_ : Store) => True).
Local Abbreviation coop := Metrics.cooperation_events.

Lemma idle_execute_agent_action (agent : Agent) (action : Action) (metrics : Metrics.t) :
  hoare idle (_execute_agent_action sqrt positions state agent action metrics)
        (fun rm st => idle st /\ coop (snd rm) = coop metrics) any.
Proof.
  intros st Hidle. destruct action as [k|].
  - destruct (state_objs st !! state) as [s|] eqn:Es.
    2:{ unfold _execute_agent_action, bind, get_state. now rewrite Es. }
    destruct (k - 1 <? Z.of_nat (length (GameState.patients s)))%Z eqn:Hlt.
    2:{ unfold _execute_agent_action.
        rewrite (bind_ok _ _ _ _ _ (get_state_run st state s Es)), Hlt. now split. }
    destruct (py_index (GameState.patients s) (k - 1)) as [r|] eqn:Hidx.
    2:{ unfold _execute_agent_action.
        rewrite (bind_ok _ _ _ _ _ (get_state_run st state s Es)), Hlt, Hidx.
        exact I. }
    destruct (patient_objs st !! r) as [p|] eqn:Ep.
    2:{ unfold _execute_agent_action.
        rewrite (bind_ok _ _ _ _ _ (get_state_run st state s Es)), Hlt, Hidx.
        unfold bind at 1. unfold read_next_room, bind, get_patient. now rewrite Ep. }
    destruct (Patient.next_room p) as [[room|]|] eqn:En.
    + destruct (decide (room = "")) as [->|Hroom].
      * unfold _execute_agent_action.
        rewrite (bind_ok _ _ _ _ _ (get_state_run st state s Es)), Hlt, Hidx.
        rewrite (bind_ok _ _ _ _ _ (read_next_room_run st r p _ Ep En)). now split.
      * destruct (execute_treat_idle sqrt positions st state agent k metrics s r p room
                    Es Hlt Hidx Ep En Hroom (idle_lookup st r p Hidle Ep))
          as (reward & p' & s' & Hrun & Hb).
        rewrite Hrun. split; [|reflexivity].
        change (idle (upd_state (upd_patient st r p') state s')).
        now apply (idle_upd_patient st r p').
    + unfold _execute_agent_action.
      rewrite (bind_ok _ _ _ _ _ (get_state_run st state s Es)), Hlt, Hidx.
      rewrite (bind_ok _ _ _ _ _ (read_next_room_run st r p _ Ep En)). now split.
    + unfold _execute_agent_action.
      rewrite (bind_ok _ _ _ _ _ (get_state_run st state s Es)), Hlt, Hidx.
      unfold bind at 1. unfold read_next_room.
      rewrite (bind_ok _ _ _ _ _ (get_patient_run st r p Ep)), En. exact I.
  - unfold _execute_agent_action.
    destruct (state_objs st !! state) as [s|] eqn:Es.
    2:{ unfold bind, get_state. now rewrite Es. }
    rewrite (bind_ok _ _ _ _ _ (get_state_run st state s Es)).
    rewrite (bind_ok _ _ _ _ _ (put_state_run st state s _ Es)). now split.
Qed.

Lemma idle_agent_turn (agent : Agent) (actions : list Action) (v : nat * Metrics.t) :
  hoare idle (agent_turn sqrt positions state agent actions v)
        (fun r st => idle st /\ coop (snd r) = coop (snd v)) any.
Proof.
  unfold agent_turn. destruct v as [idx metrics].
  eapply hoare_bind; [apply preserves_hoare, preserves_get_state|]. intros s.
  destruct (_ && _); [|apply hoare_ret; now split].
  destruct (actions !! idx) as [action|]; [|now apply hoare_raise].
  eapply hoare_bind; [apply idle_execute_agent_action|]. intros rm.
  apply hoare_ret. intros st (H1 & H2). now split.
Qed.

Lemma idle_removal_loop (c : Z) (body : Metrics.t -> ref -> M Metrics.t)
    (xs : list ref) (m : Metrics.t) :
  (forall m p, hoare (fun st => idle st /\ coop m = c) (body m p)
                     (fun m' st => idle st /\ coop m' = c) any) ->
  hoare (fun st => idle st /\ coop m = c) (foldM body xs m)
        (fun m' st => idle st /\ coop m' = c) any.
Proof.
  intros Hbody.
  apply (hoare_foldM body (fun m st => idle st /\ coop m = c) any (fun _ => True)).
  - intros b x _. apply Hbody.
  - apply List.Forall_forall. auto.
Qed.

Lemma idle_tick (nurse_actions doctor_actions : list Action) (v : LoopVars) :
  hoare idle (tick sqrt positions state nurse_actions doctor_actions v)
        (fun v' st => idle st /\ coop (metrics v') = coop (metrics v)) any.
Proof.
  unfold tick. cbv zeta.
  eapply hoare_bind; [apply preserves_hoare, idle_apply_waiting_penalties|].
  intros penalty.
  eapply hoare_bind; [apply preserves_hoare, preserves_get_state|]. intros s.
  eapply hoare_bind.
  { apply preserves_hoare, preserves_filterM. intros r.
    apply preserves_bind; [apply preserves_get_patient|]. intros p. apply preserves_ret. }
  intros dead.
  eapply hoare_bind.
  { eapply hoare_pre;
      [apply (idle_removal_loop (coop (metrics v)))|intros st H; now split].
    intros m p. eapply hoare_pre with (P' := fun st => coop m = coop (metrics v) /\ idle st);
      [|tauto].
    apply hoare_pure. intros Hm.
    eapply hoare_bind; [apply preserves_hoare, idle_modify_state|]. intros ?.
    eapply hoare_bind; [apply preserves_hoare, idle_remove_from_roster|]. intros ?.
    apply hoare_ret. intros st H. now split. }
  intros m1.
  eapply hoare_pre with (P' := fun st => coop m1 = coop (metrics v) /\ idle st); [|tauto].
  apply hoare_pure. intros Hm1.
  eapply hoare_bind; [apply idle_agent_turn|]. intros nt.
  eapply hoare_pre with (P' := fun st => coop (snd nt) = coop m1 /\ idle st); [|tauto].
  apply hoare_pure. cbn [snd]. intros Hnt.
  eapply hoare_bind; [apply idle_agent_turn|]. intros dt.
  eapply hoare_pre with (P' := fun st => coop (snd dt) = coop (snd nt) /\ idle st);
    [|tauto].
  apply hoare_pure. cbn [snd]. intros Hdt.
  eapply hoare_bind; [apply preserves_hoare, preserves_get_state|]. intros s2.
  eapply hoare_bind.
  { apply preserves_hoare, preserves_filterM. intros r.
    apply preserves_bind; [apply preserves_get_patient|]. intros p. apply preserves_ret. }
  intros completed.
  eapply hoare_bind.
  { eapply hoare_pre;
      [apply (idle_removal_loop (coop (metrics v)))|
       intros st H; split; [exact H|congruence]].
    intros m p. eapply hoare_pre with (P' := fun st => coop m = coop (metrics v) /\ idle st);
      [|tauto].
    apply hoare_pure. intros Hm.
    eapply hoare_bind; [apply preserves_hoare, idle_remove_from_roster|]. intros ?.
    apply hoare_ret. intros st H. now split. }
  intros m2.
  eapply hoare_pre with (P' := fun st => coop m2 = coop (metrics v) /\ idle st); [|tauto].
  apply hoare_pure. intros Hm2.
  eapply hoare_bind; [apply preserves_hoare, idle_modify_state|]. intros ?.
  apply hoare_ret. intros st H. now split.
Qed.

Lemma idle_simulate_loop (nurse_actions doctor_actions : list Action)
    (simulation_time : Qc) (fuel : nat) (v : LoopVars) :
  hoare idle
        (simulate_loop sqrt positions fuel state nurse_actions doctor_actions
                       simulation_time v)
        (fun v' st => idle st /\ coop (metrics v') = coop (metrics v)) any.
Proof.
  revert v. induction fuel as [|fuel IH]; intros v; cbn [simulate_loop].
  - eapply hoare_bind; [apply preserves_hoare, preserves_get_state|]. intros s.
    destruct (loop_guard s simulation_time); apply hoare_ret; intros st H; now split.
  - eapply hoare_bind; [apply preserves_hoare, preserves_get_state|]. intros s.
    destruct (loop_guard s simulation_time); [|apply hoare_ret; intros st H; now split].
    eapply hoare_bind; [apply idle_tick|]. intros v'.
    eapply hoare_pre
      with (P' := fun st => coop (metrics v') = coop (metrics v) /\ idle st); [|tauto].
    apply hoare_pure. intros Hv.
    eapply hoare_post; [apply IH|]. intros v'' st (H1 & H2). split; [exact H1|congruence].
Qed.
End Idle.

(** X13. In the simulator no treatment is ever cooperative.  An agent is
    entered in [being_treated_by] just before [treat_patient] and taken out
    right after it, so on a state whose patients are treated by nobody the
    test [len(patient.being_treated_by) > 0] is false at every action: the
    run counts 0 cooperation events (and never applies COOPERATIVE_BONUS),
    and it leaves every patient object treated by nobody. *)
Theorem X13_no_cooperation (sqrt : Qc -> Qc) (positions : Dict.t (Qc * Qc))
    (initial_state : ref) (nurse_actions doctor_actions : list Action)
    (simulation_time : Qc) (st : Store) :
  idle st ->
  match simulate_action_sequence sqrt positions initial_state nurse_actions
                                 doctor_actions simulation_time st with
  | Ok final st' => idle st' /\ Metrics.cooperation_events (snd final) = 0%Z
  | Raise _ _ => True
  end.
Proof.
  intros Hidle.
  assert (H : hoare idle
                (simulate_action_sequence sqrt positions initial_state nurse_actions
                                          doctor_actions simulation_time)
                (fun final st' => idle st' /\
                                  Metrics.cooperation_events (snd final) = 0%Z)
                (fun _ _ => True)).
  { unfold simulate_action_sequence.
    eapply hoare_bind; [apply preserves_hoare, idle_clone_state|]. intros state.
    eapply hoare_bind; [apply preserves_hoare, preserves_get_state|]. intros s.
    eapply hoare_bind; [apply idle_simulate_loop|]. intros v.
    apply hoare_ret. intros st' (H1 & H2). split; [exact H1|exact H2]. }
  exact (H st Hidle).
Qed.

Lemma X13_no_cooperation_witness :
  let actions := [TREAT_PATIENT 1; TREAT_PATIENT 1; TREAT_PATIENT 1] in
  idle ward2_store /\
  match simulate_action_sequence sqrt_approx ROOM_POSITIONS 0%nat actions actions
                                 (qz 100) ward2_store with
  | Ok final st' => idle st' /\ Metrics.cooperation_events (snd final) = 0%Z
  | Raise _ _ => True
  end.
Proof.
  intros actions.
  assert (H : idle ward2_store).
  { unfold idle. apply List.Forall_forall. intros p Hp.
    change (patient_objs ward2_store)
      with [Patient.new 1 Critical (INITIAL_HEALTH Critical) (PATHWAYS Critical)
                        0 0 0 [] (qz 25) true;
            Patient.new 2 Minor (INITIAL_HEALTH Minor) (PATHWAYS Minor)
                        0 0 0 [] (qz 30) false] in Hp.
    destruct Hp as [<-|[<-|[]]]; reflexivity. }
  split; [exact H|].
  exact (X13_no_cooperation sqrt_approx ROOM_POSITIONS 0%nat actions actions (qz 100)
           ward2_store H).
Defined.
(* ================================================================== *)
(** * Further properties of the strategy generator and the plan compiler *)

(** X14. The generator addresses roster patients only: for every catalog
    strategy the two action lists hold nothing but WAIT tokens and
    TREAT_PATIENT tokens that carry the id of a patient on the roster. *)
Theorem X14_generated_tokens (patients : list Patient.t) (name : string) :
  In name catalog ->
  exists nurse_actions doctor_actions,
    generate_action_sequences patients name = Some (nurse_actions, doctor_actions) /\
    Forall (token_of patients) nurse_actions /\
    Forall (token_of patients) doctor_actions.
Proof.
  intros Hname. destruct (generate_catalog patients name Hname) as ([n d] & Hgen).
  exists n, d. split; [exact Hgen|]. exact (generated_tokens patients name (n, d) Hgen).
Qed.

Lemma X14_generated_tokens_witness :
  let patients := [Patient.new 1 Critical (qz 30) (PATHWAYS Critical) 0 0 0 [] 0 false;
                   Patient.new 2 Minor (qz 70) (PATHWAYS Minor) 0 0 0 [] 0 false] in
  In "NEAREST_FIRST" catalog /\
  exists nurse_actions doctor_actions,
    generate_action_sequences patients "NEAREST_FIRST"
    = Some (nurse_actions, doctor_actions) /\
    Forall (token_of patients) nurse_actions /\
    Forall (token_of patients) doctor_actions.
Proof.
  intros patients.
  assert (H : In "NEAREST_FIRST" catalog) by (unfold catalog; simpl; tauto).
  split; [exact H|]. exact (X14_generated_tokens patients "NEAREST_FIRST" H).
Defined.

Lemma escort_treat_ids_In (cmds : list Command.t) (i : Z) :
  In i (escort_treat_ids cmds) <->
  exists c, In c cmds /\ is_escort_or_treat c = true /\ Command.patient_id c = i.
Proof.
  unfold escort_treat_ids. rewrite in_map_iff. split.
  - intros (c & <- & Hc). apply filter_In in Hc as (Hc & Ha). now exists c.
  - intros (c & Hc & Ha & <-). exists c. split; [reflexivity|]. now apply filter_In.
Qed.

Lemma ensure_nonempty_ne (cmds : list Command.t) : ensure_nonempty cmds <> [].
Proof. destruct cmds; discriminate. Qed.

Lemma ensure_nonempty_ids (cmds : list Command.t) (i : Z) :
  In i (escort_treat_ids cmds) -> In i (escort_treat_ids (ensure_nonempty cmds)).
Proof. destruct cmds; [intros []|exact (fun H => H)]. Qed.

(** X16. The commands sent to Unity: for every catalog strategy and every
    roster of patients with positive ids and non-empty pathways, neither
    command list is empty, and after the repair pass the nurse's list holds
    an ESCORT or TREAT command for every patient of the roster. *)
Theorem X16_unity_commands (patients : list Patient.t) (strategy : string) :
  In strategy catalog ->
  Forall (fun p => (0 < Patient.id p)%Z /\ Patient.pathway p <> []) patients ->
  exists nurse_commands doctor_commands,
    _generate_unity_commands patients strategy = Some (nurse_commands, doctor_commands) /\
    nurse_commands <> [] /\ doctor_commands <> [] /\
    forall p, In p patients -> In (Patient.id p) (escort_treat_ids nurse_commands).
Proof.
  intros Hcat Hall. destruct (catalog_get strategy Hcat) as (info & Hinfo).
  unfold _generate_unity_commands. rewrite Hinfo. cbv zeta.
  eexists _, _. split; [reflexivity|].
  split; [apply ensure_nonempty_ne|]. split; [apply ensure_nonempty_ne|].
  intros p Hp. apply ensure_nonempty_ids.
  pose proof (ordered_roster_perm info patients) as Hperm.
  set (roster := ordered_roster info patients) in *.
  set (ncmds := nurse_commands (primary_commands strategy roster)).
  assert (Hp' : In p roster).
  { eapply Permutation_in; [apply Permutation_sym, Hperm|exact Hp]. }
  assert (Hall' : forall q, In q roster ->
                            (0 < Patient.id q)%Z /\ Patient.pathway q <> []).
  { intros q Hq. rewrite List.Forall_forall in Hall. apply Hall.
    eapply Permutation_in; [exact Hperm|exact Hq]. }
  unfold repair. apply escort_treat_ids_In.
  destruct (decide (Patient.id p ∈ nurse_covered ncmds)) as [Hcov|Hmiss].
  - apply nurse_covered_spec in Hcov as (_ & Hin).
    apply escort_treat_ids_In in Hin as (c & Hc & Ha & Hi).
    exists c. split; [apply in_or_app; now left|now split].
  - assert (Hm : Patient.id p ∈ missing_patients roster ncmds).
    { unfold missing_patients, all_patient_ids. apply elem_of_difference.
      split; [|exact Hmiss]. apply elem_of_list_to_set, list_elem_of_In.
      now apply in_map. }
    destruct (List.find (fun q => bool_decide (Patient.id q = Patient.id p)) roster)
      as [q|] eqn:Ef.
    2:{ exfalso. pose proof (find_none _ _ Ef p Hp') as Hf. cbv beta in Hf.
        rewrite bool_decide_eq_true_2 in Hf by reflexivity. discriminate Hf. }
    pose proof Ef as Ef'. apply find_some in Ef' as (Hq & Eq).
    destruct (Hall' q Hq) as (_ & Hpath).
    destruct (Patient.pathway q) as [|room rest] eqn:Epath; [congruence|].
    exists (Command.escort room (Patient.id p) "WAITING").
    split; [|split; reflexivity].
    apply in_or_app. right. apply in_flat_map.
    exists (Patient.id p). split.
    + apply list_elem_of_In, elem_of_elements. exact Hm.
    + unfold fallback_for. rewrite Ef, Epath. cbn. now left.
Qed.

Lemma X16_unity_commands_witness :
  let patients := [Patient.new 1 Critical (qz 30) (PATHWAYS Critical) 0 0 0 [] 0 false;
                   Patient.new 2 Minor (qz 70) (PATHWAYS Minor) 0 0 0 [] 0 false] in
  In "DOCTOR_CRITICAL_NURSE_OTHERS" catalog /\
  Forall (fun p => (0 < Patient.id p)%Z /\ Patient.pathway p <> []) patients /\
  exists nurse_commands doctor_commands,
    _generate_unity_commands patients "DOCTOR_CRITICAL_NURSE_OTHERS"
    = Some (nurse_commands, doctor_commands) /\
    nurse_commands <> [] /\ doctor_commands <> [] /\
    forall p, In p patients -> In (Patient.id p) (escort_treat_ids nurse_commands).
Proof.
  intros patients.
  assert (H1 : In "DOCTOR_CRITICAL_NURSE_OTHERS" catalog)
    by (unfold catalog; simpl; tauto).
  assert (H2 : Forall (fun p => (0 < Patient.id p)%Z /\ Patient.pathway p <> [])
                      patients).
  { repeat constructor; discriminate. }
  split; [exact H1|]. split; [exact H2|].
  exact (X16_unity_commands patients "DOCTOR_CRITICAL_NURSE_OTHERS" H1 H2).
Defined.
(* ================================================================== *)
(** * Further properties of the Unity connection *)

Lemma id_of_lookup (st : Store) (r : ref) (p : Patient.t) :
  patient_objs st !! r = Some p -> id_of st r = Patient.id p.
Proof. intros H. unfold id_of. now rewrite H. Qed.

Lemma id_of_app (st : Store) (ps : list Patient.t) (states : list GameState.t) (r : ref) :
  is_Some (patient_objs st !! r) ->
  id_of {| patient_objs := patient_objs st ++ ps; state_objs := states |} r = id_of st r.
Proof.
  intros (p & Hp). unfold id_of. cbn [patient_objs].
  now rewrite (lookup_app_l_Some _ _ _ _ Hp), Hp.
Qed.

Lemma id_of_upd_patient (st : Store) (r r' : ref) (p p' : Patient.t) :
  patient_objs st !! r = Some p -> Patient.id p' = Patient.id p ->
  id_of (upd_patient st r p') r' = id_of st r'.
Proof.
  intros Hp Hid. unfold id_of, upd_patient. cbn [patient_objs].
  destruct (decide (r' = r)) as [->|Hne].
  - rewrite list_lookup_insert_eq by (eapply lookup_lt_Some, Hp).
    rewrite Hp. cbn. exact Hid.
  - now rewrite list_lookup_insert_ne by congruence.
Qed.

Lemma id_of_extends (st st' : Store) (r : ref) :
  extends st st' -> is_Some (patient_objs st !! r) -> id_of st' r = id_of st r.
Proof.
  intros Hext (p & Hp). unfold id_of.
  now rewrite (extends_lookup_patient st st' r p Hext Hp), Hp.
Qed.

Lemma roster_wf_objs (A : DynamicRegretAnalyzer.t) (st : Store) (roster : list ref) :
  roster_wf A st roster ->
  exists objs,
    Forall2 (fun r p => patient_objs st !! r = Some p) roster objs /\
    map Patient.id objs = map (id_of st) roster.
Proof.
  intros (Hsome & _). induction Hsome as [|r roster (p & Hp) _ (objs & H1 & H2)].
  - exists []. split; constructor.
  - exists (p :: objs). split; [now constructor|].
    cbn [map]. now rewrite H2, (id_of_lookup st r p Hp).
Qed.

(** A scenario with a non-empty roster is ready for a plan. *)
Lemma scenario_plan_ready (A : DynamicRegretAnalyzer.t) (st : Store) (state : ref)
    (s : GameState.t) :
  scenario_ok A st ->
  DynamicRegretAnalyzer.current_state A = Some state ->
  state_objs st !! state = Some s -> GameState.patients s <> [] ->
  plan_ready A st.
Proof.
  intros (Hok & _ & Hsc) Hcur Hs Hne. rewrite Hcur in Hsc.
  destruct Hsc as (s' & Hs' & Hwf). assert (s' = s) by congruence. subst s'.
  destruct (roster_wf_objs A st _ Hwf) as (objs & Hobjs & Hids).
  destruct Hwf as (_ & Hnd & Hrange).
  exists state, s, objs. split; [exact Hcur|]. split; [now split|].
  split.
  { intros E. subst objs. inversion Hobjs as [E'|]. now rewrite <- E' in Hne. }
  split; [now rewrite Hids|]. split; [|exact Hok].
  apply List.Forall_forall. intros p Hp.
  assert (Hin : In (Patient.id p) (map (id_of st) (GameState.patients s))).
  { rewrite <- Hids. now apply in_map. }
  apply in_map_iff in Hin as (r & Hr & Hin). rewrite List.Forall_forall in Hrange.
  specialize (Hrange r Hin). lia.
Qed.

(** *** [spawn_patient] *)

Lemma spawn_patient_run (A : DynamicRegretAnalyzer.t) (ptype : PType) (st : Store) :
  scenario_ok A st ->
  exists A' st' state s',
    DynamicRegretAnalyzer.spawn_patient A ptype st
    = Ok (A', length (patient_objs st)) st' /\
    DynamicRegretAnalyzer.cfr A' = DynamicRegretAnalyzer.cfr A /\
    DynamicRegretAnalyzer.patient_counter A'
    = (DynamicRegretAnalyzer.patient_counter A + 1)%Z /\
    DynamicRegretAnalyzer.room_positions A' = DynamicRegretAnalyzer.room_positions A /\
    DynamicRegretAnalyzer.current_state A' = Some state /\
    (forall old, DynamicRegretAnalyzer.current_state A = Some old -> state = old) /\
    patient_objs st' =
      patient_objs st ++
        [Patient.new (DynamicRegretAnalyzer.patient_counter A + 1) ptype
                     (INITIAL_HEALTH ptype) (PATHWAYS ptype) 0 0 0 []
                     (match ptype with
                      | Critical => qz 25 | Moderate => qz 45 | Minor => qz 30
                      end)
                     (bool_decide (ptype = Critical))] /\
    state_objs st' !! state = Some s' /\
    GameState.patients s' = roster_of A st ++ [length (patient_objs st)] /\
    scenario_ok A' st'.
Proof.
  intros (Hok & Hc0 & Hsc). unfold DynamicRegretAnalyzer.spawn_patient. cbv zeta.
  set (p := Patient.new _ ptype _ _ 0 0 0 [] _ _).
  set (st1 := {| patient_objs := patient_objs st ++ [p]; state_objs := state_objs st |}).
  rewrite (bind_ok _ _ st st1 (length (patient_objs st)) eq_refl).
  assert (Hok1 : all_ok st1).
  { unfold all_ok, st1. cbn. apply Forall_app. split; [exact Hok|].
    constructor; [apply ok_new|constructor]. }
  assert (Hnew : id_of st1 (length (patient_objs st))
                 = (DynamicRegretAnalyzer.patient_counter A + 1)%Z).
  { unfold id_of, st1. cbn [patient_objs].
    rewrite lookup_app_r by lia. now rewrite Nat.sub_diag. }
  assert (Hwf : forall roster A',
             DynamicRegretAnalyzer.patient_counter A'
             = (DynamicRegretAnalyzer.patient_counter A + 1)%Z ->
             roster_wf A st roster -> forall states,
             roster_wf A' {| patient_objs := patient_objs st1; state_objs := states |}
                       (roster ++ [length (patient_objs st)])).
  { intros roster A' HA' (Hsome & Hnd & Hrange) states.
    assert (Hold : forall r, In r roster ->
                     id_of {| patient_objs := patient_objs st1; state_objs := states |} r
                     = id_of st r).
    { intros r Hr. rewrite List.Forall_forall in Hsome.
      apply (id_of_app st [p] states r). now apply Hsome. }
    assert (Hnew' : id_of {| patient_objs := patient_objs st1; state_objs := states |}
                          (length (patient_objs st))
                    = (DynamicRegretAnalyzer.patient_counter A + 1)%Z) by exact Hnew.
    split; [|split].
    - apply Forall_app. split.
      + eapply List.Forall_impl; [|exact Hsome]. intros r (q & Hq).
        exists q. cbn. now apply lookup_app_l_Some.
      + constructor; [|constructor]. exists p. cbn.
        rewrite lookup_app_r by lia. now rewrite Nat.sub_diag.
    - rewrite map_app. cbn [map]. rewrite Hnew', (map_ext_in _ _ _ Hold).
      apply NoDup_ListNoDup, NoDup_app.
      split; [now apply NoDup_ListNoDup|]. split; [|apply NoDup_singleton].
      intros i Hi Hi'. apply list_elem_of_In in Hi, Hi'.
      destruct Hi' as [<-|[]]. apply in_map_iff in Hi as (r & Hr & Hin).
      rewrite List.Forall_forall in Hrange. specialize (Hrange r Hin). lia.
    - apply Forall_app. split.
      + apply List.Forall_forall. intros r Hr. rewrite (Hold r Hr), HA'.
        rewrite List.Forall_forall in Hrange. specialize (Hrange r Hr). lia.
      + constructor; [|constructor]. rewrite Hnew', HA'. lia. }
  unfold roster_of.
  destruct (DynamicRegretAnalyzer.current_state A) as [state|] eqn:Hcur.
  - destruct Hsc as (s & Hs & Hroster). rewrite Hs.
    rewrite (bind_ok _ _ st1 st1 state eq_refl).
    assert (Hs1 : state_objs st1 !! state = Some s) by exact Hs.
    rewrite (bind_ok _ _ _ _ _ (modify_state_run st1 state s _ Hs1)).
    eexists _, _, state, _. split; [reflexivity|]. cbn.
    split; [reflexivity|]. split; [reflexivity|]. split; [reflexivity|].
    split; [reflexivity|]. split; [now intros old [= <-]|]. split; [reflexivity|].
    split; [apply list_lookup_insert_eq; eapply lookup_lt_Some, Hs|].
    split; [reflexivity|]. split; [exact Hok1|]. split; [cbn; lia|].
    eexists. split; [apply list_lookup_insert_eq; eapply lookup_lt_Some, Hs|].
    cbn [GameState.patients GameState.set_patients].
    apply (Hwf (GameState.patients s)); [reflexivity|exact Hroster].
  - set (state := length (state_objs st)).
    set (st2 := {| patient_objs := patient_objs st1;
                   state_objs := state_objs st1 ++ [GameState.default] |}).
    rewrite (bind_ok _ _ st1 st2 state eq_refl).
    assert (Hs2 : state_objs st2 !! state = Some GameState.default).
    { unfold st2, state, st1. cbn. rewrite lookup_app_r by lia.
      now rewrite Nat.sub_diag. }
    rewrite (bind_ok _ _ _ _ _ (modify_state_run st2 state _ _ Hs2)).
    eexists _, _, state, _. split; [reflexivity|]. cbn.
    split; [reflexivity|]. split; [reflexivity|]. split; [reflexivity|].
    split; [reflexivity|]. split; [intros old [=]|]. split; [reflexivity|].
    split; [apply list_lookup_insert_eq; eapply lookup_lt_Some, Hs2|].
    split; [reflexivity|]. split; [exact Hok1|]. split; [cbn; lia|].
    eexists. split; [apply list_lookup_insert_eq; eapply lookup_lt_Some, Hs2|].
    cbn [GameState.patients GameState.set_patients GameState.default].
    apply (Hwf []); [reflexivity|]. split; [constructor|]. split; constructor.
Qed.

Lemma ward2_scenario_ok : scenario_ok ward2_analyzer ward2_store.
Proof.
  split; [apply reachable_all_ok, reach_spawn, reach_spawn, reach_empty|].
  split; [cbn; lia|].
  exists (GameState.set_patients GameState.default [0%nat; 1%nat]).
  split; [reflexivity|]. split; [|split].
  - constructor; [now eexists|]. constructor; [now eexists|constructor].
  - change (map (id_of ward2_store) [0%nat; 1%nat]) with [1%Z; 2%Z].
    constructor; [simpl; intuition discriminate|].
    constructor; [simpl; tauto|constructor].
  - constructor; [cbn; lia|]. constructor; [cbn; lia|constructor].
Qed.

Lemma spawn_patient_effect (A : DynamicRegretAnalyzer.t) (ptype : PType) (st : Store) :
  scenario_ok A st ->
  exists A' r st',
    DynamicRegretAnalyzer.spawn_patient A ptype st = Ok (A', r) st' /\
    patient_objs st !! r = None /\
    DynamicRegretAnalyzer.patient_counter A'
    = (DynamicRegretAnalyzer.patient_counter A + 1)%Z /\
    patient_objs st' =
      patient_objs st ++
        [Patient.new (DynamicRegretAnalyzer.patient_counter A + 1) ptype
                     (INITIAL_HEALTH ptype) (PATHWAYS ptype) 0 0 0 []
                     (match ptype with
                      | Critical => qz 25 | Moderate => qz 45 | Minor => qz 30
                      end)
                     (bool_decide (ptype = Critical))] /\
    roster_of A' st' = roster_of A st ++ [r] /\
    scenario_ok A' st'.
Proof.
  intros Hok.
  destruct (spawn_patient_run A ptype st Hok)
    as (A' & st' & state & s' & Hrun & _ & Hc & _ & Hcur & _ & Hobjs & Hs' & Hroster & Hok').
  exists A', (length (patient_objs st)), st'. split; [exact Hrun|].
  split; [now apply lookup_ge_None|]. split; [exact Hc|]. split; [exact Hobjs|].
  split; [|exact Hok']. unfold roster_of at 1. now rewrite Hcur, Hs'.
Qed.

(** X17. [spawn_patient] on an analyzer that satisfies the scenario
    invariant: it raises nothing, the new patient is a new object that gets
    the next id (the counter plus one) and the constants of its type, it is
    appended to the roster (of a new scenario if there was none), no
    existing patient object changes, and the invariant holds again. *)
Theorem X17_spawn_patient (A : DynamicRegretAnalyzer.t) (ptype : PType) (st : Store) :
  scenario_ok A st ->
  exists A' r st',
    DynamicRegretAnalyzer.spawn_patient A ptype st = Ok (A', r) st' /\
    patient_objs st !! r = None /\
    DynamicRegretAnalyzer.patient_counter A'
    = (DynamicRegretAnalyzer.patient_counter A + 1)%Z /\
    patient_objs st' =
      patient_objs st ++
        [Patient.new (DynamicRegretAnalyzer.patient_counter A + 1) ptype
                     (INITIAL_HEALTH ptype) (PATHWAYS ptype) 0 0 0 []
                     (match ptype with
                      | Critical => qz 25 | Moderate => qz 45 | Minor => qz 30
                      end)
                     (bool_decide (ptype = Critical))] /\
    roster_of A' st' = roster_of A st ++ [r] /\
    scenario_ok A' st'.
Proof. exact (spawn_patient_effect A ptype st). Qed.

Lemma X17_spawn_patient_witness :
  scenario_ok ward2_analyzer ward2_store /\
  exists A' r st',
    DynamicRegretAnalyzer.spawn_patient ward2_analyzer Moderate ward2_store
    = Ok (A', r) st' /\
    patient_objs ward2_store !! r = None /\
    DynamicRegretAnalyzer.patient_counter A'
    = (DynamicRegretAnalyzer.patient_counter ward2_analyzer + 1)%Z /\
    patient_objs st' =
      patient_objs ward2_store ++
        [Patient.new (DynamicRegretAnalyzer.patient_counter ward2_analyzer + 1) Moderate
                     (INITIAL_HEALTH Moderate) (PATHWAYS Moderate) 0 0 0 []
                     (qz 45) (bool_decide (Moderate = Critical))] /\
    roster_of A' st' = roster_of ward2_analyzer ward2_store ++ [r] /\
    scenario_ok A' st'.
Proof.
  split; [exact ward2_scenario_ok|].
  exact (X17_spawn_patient ward2_analyzer Moderate ward2_store ward2_scenario_ok).
Defined.

(** *** [step_patient] *)

Lemma upd_patient_same (st : Store) (r : ref) (p : Patient.t) :
  patient_objs st !! r = Some p -> upd_patient st r p = st.
Proof.
  intros H. unfold upd_patient. rewrite (list_insert_id _ _ _ H). now destruct st.
Qed.

Lemma step_loop_run (patient_id : Z) (roster : list ref) (st : Store) :
  Forall (fun r => is_Some (patient_objs st !! r)) roster ->
  match List.find (fun r => bool_decide (id_of st r = patient_id)) roster with
  | None => DynamicRegretAnalyzer.step_loop patient_id roster st = Ok false st
  | Some r =>
      exists p, patient_objs st !! r = Some p /\
                DynamicRegretAnalyzer.step_loop patient_id roster st
                = Ok (Patient.is_complete (stepped p)) (upd_patient st r (stepped p))
  end.
Proof.
  induction 1 as [|r roster (p & Hp) _ IH]; [reflexivity|].
  cbn [List.find DynamicRegretAnalyzer.step_loop].
  rewrite (bind_ok _ _ _ _ _ (get_patient_run st r p Hp)).
  rewrite (id_of_lookup st r p Hp).
  destruct (bool_decide (Patient.id p = patient_id)); [|exact IH].
  exists p. split; [exact Hp|]. unfold stepped.
  destruct (Patient.is_complete p) eqn:Ec.
  - rewrite (bind_ok (ret tt) _ st st tt eq_refl).
    rewrite (bind_ok _ _ _ _ _ (get_patient_run st r p Hp)).
    now rewrite Ec, (upd_patient_same st r p Hp).
  - rewrite (bind_ok _ _ _ _ _ (modify_patient_run st r p _ Hp)).
    pose proof (upd_patient_lookup st r p
                  (Patient.set_current_step p (Patient.current_step p + 1)) Hp) as Hp'.
    now rewrite (bind_ok _ _ _ _ _ (get_patient_run _ r _ Hp')).
Qed.

Lemma stepped_id (p : Patient.t) : Patient.id (stepped p) = Patient.id p.
Proof. unfold stepped. now destruct (Patient.is_complete p). Qed.

Lemma roster_wf_upd_patient (A : DynamicRegretAnalyzer.t) (st : Store) (r : ref)
    (p p' : Patient.t) (roster : list ref) :
  patient_objs st !! r = Some p -> Patient.id p' = Patient.id p ->
  roster_wf A st roster -> roster_wf A (upd_patient st r p') roster.
Proof.
  intros Hp Hid (Hsome & Hnd & Hrange).
  assert (Hsame : forall r', id_of (upd_patient st r p') r' = id_of st r').
  { intros r'. eapply id_of_upd_patient; eauto. }
  split; [|split].
  - eapply List.Forall_impl; [|exact Hsome]. intros r' (q & Hq).
    unfold upd_patient. cbn [patient_objs].
    destruct (decide (r' = r)) as [->|Hne].
    + exists p'. apply list_lookup_insert_eq. eapply lookup_lt_Some, Hp.
    + exists q. now rewrite list_lookup_insert_ne by congruence.
  - now rewrite (map_ext _ _ Hsame).
  - eapply List.Forall_impl; [|exact Hrange]. intros r' Hr'. cbv beta.
    now rewrite Hsame.
Qed.

Lemma step_patient_effect (A : DynamicRegretAnalyzer.t) (patient_id : Z) (st : Store) :
  scenario_ok A st ->
  exists b st',
    DynamicRegretAnalyzer.step_patient A patient_id st = Ok b st' /\
    scenario_ok A st' /\
    match List.find (fun r => bool_decide (id_of st r = patient_id)) (roster_of A st) with
    | None => b = false /\ st' = st
    | Some r =>
        exists p, patient_objs st !! r = Some p /\
                  b = Patient.is_complete (stepped p) /\
                  st' = upd_patient st r (stepped p)
    end.
Proof.
  intros Hsc. pose proof Hsc as (Hok & Hc0 & Hcur).
  unfold DynamicRegretAnalyzer.step_patient, try_except, roster_of.
  destruct (DynamicRegretAnalyzer.current_state A) as [state|] eqn:Ecur.
  2:{ exists false, st. split; [reflexivity|]. split; [exact Hsc|now split]. }
  destruct Hcur as (s & Hs & Hwf). rewrite Hs.
  rewrite (bind_ok _ _ _ _ _ (get_state_run st state s Hs)).
  pose proof (step_loop_run patient_id (GameState.patients s) st (proj1 Hwf)) as Hrun.
  destruct (List.find _ (GameState.patients s)) as [r|].
  - destruct Hrun as (p & Hp & Hrun). rewrite Hrun.
    eexists _, _. split; [reflexivity|]. split; [|now exists p].
    split; [|split; [exact Hc0|]].
    + apply all_ok_upd_patient; [exact Hok|]. unfold stepped.
      pose proof (all_ok_lookup st r p Hok Hp) as Hpok.
      destruct (Patient.is_complete p) eqn:Ec; [exact Hpok|]. now apply ok_step.
    + rewrite Ecur. exists s. split; [exact Hs|].
      eapply roster_wf_upd_patient; eauto using stepped_id.
  - rewrite Hrun. exists false, st. split; [reflexivity|]. split; [exact Hsc|now split].
Qed.

(** X18. [step_patient] on an analyzer that satisfies the scenario
    invariant: it changes the first roster patient that has the given id and
    nothing else.  A patient whose pathway is not complete advances by one
    step, a complete one is left as it is, and the result tells whether the
    patient is complete afterwards; without such a patient the result is
    False and the store is unchanged.  The invariant holds again. *)
Theorem X18_step_patient (A : DynamicRegretAnalyzer.t) (patient_id : Z) (st : Store) :
  scenario_ok A st ->
  exists b st',
    DynamicRegretAnalyzer.step_patient A patient_id st = Ok b st' /\
    scenario_ok A st' /\
    match List.find (fun r => bool_decide (id_of st r = patient_id)) (roster_of A st) with
    | None => b = false /\ st' = st
    | Some r =>
        exists p, patient_objs st !! r = Some p /\
                  b = Patient.is_complete (stepped p) /\
                  st' = upd_patient st r (stepped p)
    end.
Proof. exact (step_patient_effect A patient_id st). Qed.

(** *** [remove_patient] *)

Lemma filter_ids_run (patient_id : Z) (roster : list ref) (st : Store) :
  Forall (fun r => is_Some (patient_objs st !! r)) roster ->
  filterM (fun r => p <- get_patient r ;;
                    ret (negb (bool_decide (Patient.id p = patient_id)))) roster st
  = Ok (List.filter (fun r => negb (bool_decide (id_of st r = patient_id))) roster) st.
Proof.
  induction 1 as [|r roster (p & Hp) _ IH]; [reflexivity|].
  cbn [filterM List.filter].
  rewrite (bind_ok _ _ st st (negb (bool_decide (Patient.id p = patient_id)))).
  2:{ now rewrite (bind_ok _ _ _ _ _ (get_patient_run st r p Hp)). }
  rewrite (bind_ok _ _ _ _ _ IH). now rewrite (id_of_lookup st r p Hp).
Qed.

Lemma filter_idem {X} (f : X -> bool) (l : list X) :
  List.filter f (List.filter f l) = List.filter f l.
Proof.
  induction l as [|x l IH]; [reflexivity|]. cbn [List.filter].
  destruct (f x) eqn:E; [|exact IH]. cbn [List.filter]. now rewrite E, IH.
Qed.

Lemma NoDup_map_filter {X Y} (g : X -> Y) (f : X -> bool) (l : list X) :
  List.NoDup (map g l) -> List.NoDup (map g (List.filter f l)).
Proof.
  induction l as [|x l IH]; [trivial|]. cbn [map List.filter]. intros Hnd.
  inversion Hnd as [|? ? Hx Hl]; subst.
  destruct (f x); [|now apply IH]. cbn [map]. constructor; [|now apply IH].
  intros Hin. apply Hx. apply in_map_iff in Hin as (y & <- & Hy).
  apply in_map. now apply filter_In in Hy.
Qed.

Lemma roster_wf_filter (A : DynamicRegretAnalyzer.t) (st : Store) (f : ref -> bool)
    (roster : list ref) :
  roster_wf A st roster -> roster_wf A st (List.filter f roster).
Proof.
  intros (H1 & H2 & H3). split; [|split].
  - apply List.Forall_forall. intros r Hr. apply filter_In in Hr as (Hr & _).
    exact (proj1 (List.Forall_forall _ _) H1 r Hr).
  - now apply NoDup_map_filter.
  - apply List.Forall_forall. intros r Hr. apply filter_In in Hr as (Hr & _).
    exact (proj1 (List.Forall_forall _ _) H3 r Hr).
Qed.

Lemma remove_patient_run (A : DynamicRegretAnalyzer.t) (patient_id : Z) (st : Store)
    (state : ref) (s : GameState.t) :
  DynamicRegretAnalyzer.current_state A = Some state ->
  state_objs st !! state = Some s ->
  Forall (fun r => is_Some (patient_objs st !! r)) (GameState.patients s) ->
  DynamicRegretAnalyzer.remove_patient A patient_id st
  = Ok tt (upd_state st state
             (GameState.set_patients s
                (List.filter (fun r => negb (bool_decide (id_of st r = patient_id)))
                             (GameState.patients s)))).
Proof.
  intros Hcur Hs Hsome. unfold DynamicRegretAnalyzer.remove_patient, try_except.
  rewrite Hcur.
  rewrite (bind_ok _ _ _ _ _ (get_state_run st state s Hs)).
  rewrite (bind_ok _ _ _ _ _ (filter_ids_run patient_id _ st Hsome)).
  now rewrite (modify_state_run st state s _ Hs).
Qed.

Lemma upd_state_twice (st : Store) (r : ref) (s s' : GameState.t) :
  upd_state (upd_state st r s) r s' = upd_state st r s'.
Proof. unfold upd_state. cbn. now rewrite list_insert_insert_eq. Qed.

Lemma remove_patient_effect (A : DynamicRegretAnalyzer.t) (patient_id : Z) (st : Store) :
  scenario_ok A st ->
  exists st',
    DynamicRegretAnalyzer.remove_patient A patient_id st = Ok tt st' /\
    scenario_ok A st' /\
    patient_objs st' = patient_objs st /\
    roster_of A st'
    = List.filter (fun r => negb (bool_decide (id_of st r = patient_id))) (roster_of A st) /\
    ~ In patient_id (map (id_of st') (roster_of A st')) /\
    DynamicRegretAnalyzer.remove_patient A patient_id st' = Ok tt st'.
Proof.
  intros Hsc. pose proof Hsc as (Hok & Hc0 & Hcur). unfold roster_of.
  destruct (DynamicRegretAnalyzer.current_state A) as [state|] eqn:Ecur.
  2:{ exists st. unfold DynamicRegretAnalyzer.remove_patient, try_except.
      rewrite Ecur. split; [reflexivity|]. split; [exact Hsc|].
      split; [reflexivity|]. split; [reflexivity|]. split; [|reflexivity].
      intros []. }
  destruct Hcur as (s & Hs & Hwf).
  set (kept := List.filter (fun r => negb (bool_decide (id_of st r = patient_id)))
                           (GameState.patients s)).
  set (s' := GameState.set_patients s kept).
  set (st' := upd_state st state s').
  assert (Hs' : state_objs st' !! state = Some s') by exact (upd_state_lookup st state s s' Hs).
  assert (Hwf' : roster_wf A st' (GameState.patients s')).
  { change (roster_wf A st kept). now apply roster_wf_filter. }
  exists st'. split; [exact (remove_patient_run A patient_id st state s Ecur Hs (proj1 Hwf))|].
  split.
  { split; [exact Hok|]. split; [exact Hc0|]. rewrite Ecur. now exists s'. }
  split; [reflexivity|]. rewrite Hs', Hs. split; [reflexivity|]. split.
  - change (~ In patient_id (map (id_of st) kept)). intros Hin.
    apply in_map_iff in Hin as (r & Hr & Hin). apply filter_In in Hin as (_ & Hf).
    rewrite Hr in Hf. now rewrite bool_decide_eq_true_2 in Hf.
  - rewrite (remove_patient_run A patient_id st' state s' Ecur Hs' (proj1 Hwf')).
    f_equal. subst st'. rewrite upd_state_twice. f_equal.
    change (GameState.set_patients s' (List.filter
              (fun r => negb (bool_decide (id_of st r = patient_id))) kept) = s').
    subst kept. rewrite filter_idem. reflexivity.
Qed.

(** X19. [remove_patient] on an analyzer that satisfies the scenario
    invariant: it raises nothing, the roster is the old one without the
    patients that have the given id, in the old order; no patient object
    changes; afterwards no roster patient has that id, the invariant holds
    again, and removing the same id once more changes nothing. *)
Theorem X19_remove_patient (A : DynamicRegretAnalyzer.t) (patient_id : Z) (st : Store) :
  scenario_ok A st ->
  exists st',
    DynamicRegretAnalyzer.remove_patient A patient_id st = Ok tt st' /\
    scenario_ok A st' /\
    patient_objs st' = patient_objs st /\
    roster_of A st'
    = List.filter (fun r => negb (bool_decide (id_of st r = patient_id))) (roster_of A st) /\
    ~ In patient_id (map (id_of st') (roster_of A st')) /\
    DynamicRegretAnalyzer.remove_patient A patient_id st' = Ok tt st'.
Proof. exact (remove_patient_effect A patient_id st). Qed.

Lemma X18_step_patient_witness :
  scenario_ok ward2_analyzer ward2_store /\
  exists b st',
    DynamicRegretAnalyzer.step_patient ward2_analyzer 1 ward2_store = Ok b st' /\
    scenario_ok ward2_analyzer st' /\
    match List.find (fun r => bool_decide (id_of ward2_store r = 1%Z))
                    (roster_of ward2_analyzer ward2_store) with
    | None => b = false /\ st' = ward2_store
    | Some r =>
        exists p, patient_objs ward2_store !! r = Some p /\
                  b = Patient.is_complete (stepped p) /\
                  st' = upd_patient ward2_store r (stepped p)
    end.
Proof.
  exact (conj ward2_scenario_ok
              (X18_step_patient ward2_analyzer 1 ward2_store ward2_scenario_ok)).
Defined.

Lemma X19_remove_patient_witness :
  scenario_ok ward2_analyzer ward2_store /\
  exists st',
    DynamicRegretAnalyzer.remove_patient ward2_analyzer 2 ward2_store = Ok tt st' /\
    scenario_ok ward2_analyzer st' /\
    patient_objs st' = patient_objs ward2_store /\
    roster_of ward2_analyzer st'
    = List.filter (fun r => negb (bool_decide (id_of ward2_store r = 2%Z)))
                  (roster_of ward2_analyzer ward2_store) /\
    ~ In 2%Z (map (id_of st') (roster_of ward2_analyzer st')) /\
    DynamicRegretAnalyzer.remove_patient ward2_analyzer 2 st' = Ok tt st'.
Proof.
  exact (conj ward2_scenario_ok
              (X19_remove_patient ward2_analyzer 2 ward2_store ward2_scenario_ok)).
Defined.

(** *** A plan keeps the scenario *)

Lemma same_scenario_refl (A : DynamicRegretAnalyzer.t) : same_scenario A A.
Proof. now repeat split. Qed.

Lemma hoare_const {X} (F : Prop) (m : M X) :
  hoare (fun _ => F) m (fun _ _ => F) (fun _ _ => True).
Proof. intros st HF. now destruct (m st). Qed.

Lemma plan_round_same (sqrt : Qc -> Qc) (A : DynamicRegretAnalyzer.t) (state : ref)
    (rng : nat -> RoundDraws) (acc : DynamicRegretAnalyzer.t * Dict.t Qc) (i : nat) :
  hoare (fun _ => same_scenario A (fst acc))
        (DynamicRegretAnalyzer.plan_round sqrt state rng acc i)
        (fun acc' _ => same_scenario A (fst acc')) (fun _ _ => True).
Proof.
  unfold DynamicRegretAnalyzer.plan_round.
  eapply hoare_bind; [apply hoare_const|]. intros values. cbv beta.
  destruct (DynamicRegretAnalyzer.learning_round _ _ _ _) as [L|].
  - apply hoare_ret. intros _ H. exact H.
  - now apply hoare_raise.
Qed.

Lemma plan_for_same (sqrt : Qc -> Qc) (A : DynamicRegretAnalyzer.t) (state : ref)
    (rng : nat -> RoundDraws) :
  hoare (fun _ => True) (DynamicRegretAnalyzer.plan_for sqrt A state rng)
        (fun ar _ => same_scenario A (fst ar)) (fun _ _ => True).
Proof.
  unfold DynamicRegretAnalyzer.plan_for.
  eapply hoare_bind with (R := fun acc _ => same_scenario A (fst acc)).
  - eapply hoare_pre.
    + apply (hoare_foldM (DynamicRegretAnalyzer.plan_round sqrt state rng)
               (fun acc _ => same_scenario A (fst acc)) (fun _ _ => True)
               (fun _ => True)).
      * intros b x _. apply plan_round_same.
      * apply List.Forall_forall. trivial.
    + intros st _. apply same_scenario_refl.
  - intros acc. cbv beta zeta.
    destruct (DynamicRegretAnalyzer.best_strategy_of _ _) as [best|];
      [|now apply hoare_raise].
    destruct (Dict.get _ best) as [info|]; [|now apply hoare_raise].
    eapply hoare_bind; [apply hoare_const|]. intros roster. cbv beta.
    destruct (PlanCompiler._generate_unity_commands roster best) as [[nc dc]|];
      [|now apply hoare_raise].
    apply hoare_ret. intros _ H. exact H.
Qed.

Lemma analyze_and_plan_same (sqrt : Qc -> Qc) (A : DynamicRegretAnalyzer.t)
    (rng : nat -> RoundDraws) (st : Store) :
  match DynamicRegretAnalyzer.analyze_and_plan sqrt A rng st with
  | Ok ar _ => same_scenario A (fst ar)
  | Raise _ _ => True
  end.
Proof.
  unfold DynamicRegretAnalyzer.analyze_and_plan.
  destruct (DynamicRegretAnalyzer.current_state A) as [state|];
    [|apply same_scenario_refl].
  unfold bind at 1. destruct (get_state state st) as [s st1|e st1]; [|exact I].
  destruct (GameState.patients s); [apply same_scenario_refl|].
  now apply (plan_for_same sqrt A state rng st1).
Qed.

Lemma scenario_ok_world (A A' : DynamicRegretAnalyzer.t) (st st' : Store) :
  scenario_ok A st -> world st st' -> same_scenario A A' ->
  scenario_ok A' st' /\ roster_of A' st' = roster_of A st.
Proof.
  intros (_ & Hc0 & Hcur) (Hext & Hok') (Hc & Hs & _). unfold roster_of.
  rewrite Hs. split.
  - split; [exact Hok'|]. split; [now rewrite Hc|]. rewrite Hs.
    destruct (DynamicRegretAnalyzer.current_state A) as [state|]; [|exact I].
    destruct Hcur as (s & Hst & Hsome & Hnd & Hrange).
    exists s. split; [eapply extends_lookup_state; eauto|].
    assert (Hids : map (id_of st') (GameState.patients s)
                   = map (id_of st) (GameState.patients s)).
    { apply map_ext_in. intros r Hr. apply id_of_extends; [exact Hext|].
      exact (proj1 (List.Forall_forall _ _) Hsome r Hr). }
    split; [|split].
    + eapply List.Forall_impl; [|exact Hsome]. intros r (p & Hp). exists p.
      eapply extends_lookup_patient; eauto.
    + now rewrite Hids.
    + apply List.Forall_forall. intros r Hr.
      pose proof (proj1 (List.Forall_forall _ _) Hrange r Hr) as H. cbv beta in H.
      rewrite Hc, (id_of_extends st st' r Hext); [exact H|].
      exact (proj1 (List.Forall_forall _ _) Hsome r Hr).
  - destruct (DynamicRegretAnalyzer.current_state A) as [state|]; [|reflexivity].
    destruct Hcur as (s & Hst & _).
    now rewrite (extends_lookup_state st st' state s Hext Hst), Hst.
Qed.

(** A plan on an analyzer that satisfies the scenario invariant. *)
Lemma analyze_and_plan_total (sqrt : Qc -> Qc) (A : DynamicRegretAnalyzer.t)
    (rng : nat -> RoundDraws) (st : Store) :
  scenario_ok A st -> reachable_learner sqrt (DynamicRegretAnalyzer.cfr A) ->
  exists A' r st',
    DynamicRegretAnalyzer.analyze_and_plan sqrt A rng st = Ok (A', r) st' /\
    world st st' /\ same_scenario A A' /\
    reachable_learner sqrt (DynamicRegretAnalyzer.cfr A') /\
    (roster_of A st = [] ->
       A' = A /\ st' = st /\ DynamicRegretAnalyzer.strategy r = "IDLE") /\
    (roster_of A st <> [] ->
       In (DynamicRegretAnalyzer.strategy r) catalog /\
       first_max (get_average_strategy (DynamicRegretAnalyzer.cfr A'))
                 (DynamicRegretAnalyzer.strategy r)).
Proof.
  intros Hsc Hreach. pose proof Hsc as (Hok & _ & Hcur).
  assert (Hidle : forall st0, roster_of A st0 = roster_of A st -> roster_of A st = [] ->
            DynamicRegretAnalyzer.analyze_and_plan sqrt A rng st
            = Ok (A, DynamicRegretAnalyzer.idle_result A) st ->
            exists A' r st',
              DynamicRegretAnalyzer.analyze_and_plan sqrt A rng st = Ok (A', r) st' /\
              world st st' /\ same_scenario A A' /\
              reachable_learner sqrt (DynamicRegretAnalyzer.cfr A') /\
              (roster_of A st = [] ->
                 A' = A /\ st' = st /\ DynamicRegretAnalyzer.strategy r = "IDLE") /\
              (roster_of A st <> [] ->
                 In (DynamicRegretAnalyzer.strategy r) catalog /\
                 first_max (get_average_strategy (DynamicRegretAnalyzer.cfr A'))
                           (DynamicRegretAnalyzer.strategy r))).
  { intros _ _ Hnil Hrun. exists A, (DynamicRegretAnalyzer.idle_result A), st.
    split; [exact Hrun|]. split; [split; [apply extends_refl|exact Hok]|].
    split; [apply same_scenario_refl|]. split; [exact Hreach|].
    split; [intros _; now repeat split|]. intros Hne. now destruct Hne. }
  destruct (DynamicRegretAnalyzer.current_state A) as [state|] eqn:Ecur.
  2:{ apply (Hidle st eq_refl); [unfold roster_of; now rewrite Ecur|].
      unfold DynamicRegretAnalyzer.analyze_and_plan. now rewrite Ecur. }
  destruct Hcur as (s & Hs & Hwf).
  assert (Hros : roster_of A st = GameState.patients s).
  { unfold roster_of. now rewrite Ecur, Hs. }
  destruct (GameState.patients s) as [|r0 roster] eqn:Eroster.
  { apply (Hidle st eq_refl); [exact Hros|].
    unfold DynamicRegretAnalyzer.analyze_and_plan. rewrite Ecur.
    rewrite (bind_ok _ _ _ _ _ (get_state_run st state s Hs)). now rewrite Eroster. }
  assert (Hready : plan_ready A st).
  { apply (scenario_plan_ready A st state s Hsc Ecur Hs). now rewrite Eroster. }
  destruct (analyze_and_plan_returns sqrt A rng st Hready Hreach)
    as (A' & r & st' & Hrun & HW & Hreach' & _ & Hdist & Hfm).
  exists A', r, st'. split; [exact Hrun|]. split; [exact HW|].
  pose proof (analyze_and_plan_same sqrt A rng st) as Hsame. rewrite Hrun in Hsame.
  split; [exact Hsame|]. split; [exact Hreach'|]. rewrite Hros. split; [discriminate|].
  intros _. split; [|exact Hfm].
  apply first_max_In in Hfm. destruct Hdist as (Hkeys & _). now rewrite Hkeys in Hfm.
Qed.

(** *** The worlds the connection can reach *)

Lemma reachable_world_inv (sqrt : Qc -> Qc) (A : DynamicRegretAnalyzer.t) (st : Store) :
  reachable_world sqrt A st ->
  scenario_ok A st /\ reachable_learner sqrt (DynamicRegretAnalyzer.cfr A).
Proof.
  induction 1 as [|A st ptype A' r st' _ (Hsc & Hl) Hrun
                  |A st patient_id _ (Hsc & Hl)
                  |A st patient_id _ (Hsc & Hl)
                  |A st rng A' result st' _ (Hsc & Hl) Hrun
                  |A st room_coords _ (Hsc & Hl)
                  |A st _ ((Hok & _) & Hl)
                  |A st _ ((Hok & _) & _)].
  - split; [|apply reachable_init]. split; [constructor|]. split; [cbn; lia|exact I].
  - destruct (spawn_patient_run A ptype st Hsc)
      as (A2 & st2 & state & s' & Hrun2 & Hcfr & _ & _ & _ & _ & _ & _ & _ & Hsc2).
    rewrite Hrun in Hrun2. injection Hrun2 as -> _ ->.
    split; [exact Hsc2|]. now rewrite Hcfr.
  - destruct (step_patient_effect A patient_id st Hsc) as (b & st' & -> & Hsc' & _).
    now split.
  - destruct (remove_patient_effect A patient_id st Hsc) as (st' & -> & Hsc' & _).
    now split.
  - destruct (analyze_and_plan_total sqrt A rng st Hsc Hl)
      as (A2 & r2 & st2 & Hrun2 & HW & Hsame & Hl2 & _).
    rewrite Hrun in Hrun2. injection Hrun2 as -> _ ->.
    split; [|exact Hl2]. exact (proj1 (scenario_ok_world A A2 st st2 Hsc HW Hsame)).
  - split; [exact Hsc|exact Hl].
  - split; [|exact Hl]. split; [exact Hok|]. split; [cbn; lia|exact I].
  - split; [|apply reachable_init]. split; [exact Hok|]. split; [cbn; lia|exact I].
Qed.

Lemma ward2_reachable (sqrt : Qc -> Qc) : reachable_world sqrt ward2_analyzer ward2_store.
Proof.
  eapply (world_spawn sqrt _ _ Minor).
  - eapply (world_spawn sqrt _ _ Critical); [apply world_init|reflexivity].
  - reflexivity.
Qed.

(** X20. The invariant of the Unity connection.  In every world that
    spawning, stepping and removing patients, planning, setting rooms and
    the two resets produce from a fresh analyzer, the roster refers to
    existing patient objects with distinct ids between 1 and the patient
    counter, every patient object satisfies the data invariant (health in
    [0, 100], step between 0 and the pathway length), and the learner is one
    that learning rounds on the catalog produce. *)
Theorem X20_reachable_world_invariant (sqrt : Qc -> Qc)
    (A : DynamicRegretAnalyzer.t) (st : Store) :
  reachable_world sqrt A st ->
  all_ok st /\
  Forall (fun r => is_Some (patient_objs st !! r)) (roster_of A st) /\
  List.NoDup (map (id_of st) (roster_of A st)) /\
  Forall (fun r => (1 <= id_of st r <= DynamicRegretAnalyzer.patient_counter A)%Z)
         (roster_of A st) /\
  reachable_learner sqrt (DynamicRegretAnalyzer.cfr A).
Proof.
  intros H. destruct (reachable_world_inv sqrt A st H) as ((Hok & _ & Hcur) & Hl).
  split; [exact Hok|]. unfold roster_of.
  destruct (DynamicRegretAnalyzer.current_state A) as [state|].
  - destruct Hcur as (s & -> & H1 & H2 & H3). auto.
  - repeat split; try constructor. exact Hl.
Qed.

Lemma X20_reachable_world_invariant_witness :
  reachable_world sqrt_approx ward2_analyzer ward2_store /\
  all_ok ward2_store /\
  Forall (fun r => is_Some (patient_objs ward2_store !! r))
         (roster_of ward2_analyzer ward2_store) /\
  List.NoDup (map (id_of ward2_store) (roster_of ward2_analyzer ward2_store)) /\
  Forall (fun r => (1 <= id_of ward2_store r
                    <= DynamicRegretAnalyzer.patient_counter ward2_analyzer)%Z)
         (roster_of ward2_analyzer ward2_store) /\
  reachable_learner sqrt_approx (DynamicRegretAnalyzer.cfr ward2_analyzer).
Proof.
  exact (conj (ward2_reachable sqrt_approx)
              (X20_reachable_world_invariant sqrt_approx ward2_analyzer ward2_store
                 (ward2_reachable sqrt_approx))).
Defined.



(** *** The queue status *)

Lemma queue_entry_ok (p : Patient.t) :
  patient_ok p ->
  exists e,
    DynamicRegretAnalyzer.queue_entry p = Some e /\
    DynamicRegretAnalyzer.q_id e = Patient.id p /\
    (0 <= DynamicRegretAnalyzer.q_steps_remaining e
     <= DynamicRegretAnalyzer.q_pathway_length e)%Z /\
    (DynamicRegretAnalyzer.q_next_room e = None <->
     DynamicRegretAnalyzer.q_steps_remaining e = 0%Z) /\
    (Patient.is_complete p = true <-> DynamicRegretAnalyzer.q_steps_remaining e = 0%Z).
Proof.
  intros Hok. pose proof Hok as (_ & _ & H0 & H1 & Hc).
  unfold DynamicRegretAnalyzer.queue_entry, Patient.next_room.
  destruct (Patient.is_complete p) eqn:Ec.
  - eexists. split; [reflexivity|]. cbn. pose proof (proj1 Hc eq_refl) as E.
    split; [reflexivity|]. split; [lia|]. split; split; intros _; try reflexivity; lia.
  - pose proof Ec as Hlt. apply not_complete_lt in Hlt.
    rewrite py_index_nonneg by exact H0.
    destruct (lookup_lt_is_Some_2 (Patient.pathway p) (Z.to_nat (Patient.current_step p)))
      as (room & Hr); [lia|].
    rewrite Hr. eexists. split; [reflexivity|]. cbn.
    split; [reflexivity|]. split; [lia|]. split; split; intros H; try discriminate H; lia.
Qed.

Lemma entries_run (patients : list Patient.t)
    (entries : list DynamicRegretAnalyzer.QueueEntry) (st : Store) :
  Forall2 (fun p e => DynamicRegretAnalyzer.queue_entry p = Some e) patients entries ->
  mapM (fun p => match DynamicRegretAnalyzer.queue_entry p with
                 | Some e => ret e
                 | None => raise IndexError
                 end) patients st
  = Ok entries st.
Proof.
  induction 1 as [|p e ps es Hp _ IH]; [reflexivity|]. cbn [mapM].
  rewrite Hp. rewrite (bind_ok (ret e) _ st st e eq_refl).
  now rewrite (bind_ok _ _ _ _ _ IH).
Qed.

(** The entries of the queue status, one per roster patient. *)
Lemma get_queue_status_run (A : DynamicRegretAnalyzer.t) (st : Store) :
  scenario_ok A st ->
  exists entries,
    DynamicRegretAnalyzer.get_queue_status A st
    = Ok (Z.of_nat (length entries), entries) st /\
    Forall2 (fun r e => exists p, patient_objs st !! r = Some p /\ patient_ok p /\
                                  DynamicRegretAnalyzer.queue_entry p = Some e)
            (roster_of A st) entries.
Proof.
  intros (Hok & _ & Hcur). unfold DynamicRegretAnalyzer.get_queue_status, roster_of.
  destruct (DynamicRegretAnalyzer.current_state A) as [state|].
  2:{ exists []. split; [reflexivity|constructor]. }
  destruct Hcur as (s & Hs & Hsome & _). rewrite Hs.
  assert (H : exists objs entries,
             Forall2 (fun r p => patient_objs st !! r = Some p) (GameState.patients s) objs /\
             Forall2 (fun p e => DynamicRegretAnalyzer.queue_entry p = Some e) objs entries /\
             Forall2 (fun r e => exists p, patient_objs st !! r = Some p /\ patient_ok p /\
                                           DynamicRegretAnalyzer.queue_entry p = Some e)
                     (GameState.patients s) entries).
  { induction Hsome as [|r roster (p & Hp) _ (objs & entries & H1 & H2 & H3)].
    - exists [], []. repeat split; constructor.
    - pose proof (all_ok_lookup st r p Hok Hp) as Hpok.
      destruct (queue_entry_ok p Hpok) as (e & He & _).
      exists (p :: objs), (e :: entries).
      split; [now constructor|]. split; [now constructor|].
      constructor; [now exists p|exact H3]. }
  destruct H as (objs & entries & H1 & H2 & H3). exists entries.
  split; [|exact H3].
  rewrite (bind_ok _ _ _ _ _ (read_roster_run st state s objs (conj Hs H1))).
  rewrite (bind_ok _ _ _ _ _ (entries_run objs entries st H2)).
  unfold ret. do 3 f_equal.
  rewrite (Forall2_length _ _ _ H2). reflexivity.
Qed.

Lemma entries_ids (st : Store) (roster : list ref)
    (entries : list DynamicRegretAnalyzer.QueueEntry) :
  Forall2 (fun r e => exists p, patient_objs st !! r = Some p /\ patient_ok p /\
                                DynamicRegretAnalyzer.queue_entry p = Some e)
          roster entries ->
  map DynamicRegretAnalyzer.q_id entries = map (id_of st) roster.
Proof.
  induction 1 as [|r e rs es (p & Hp & Hok & He) _ IH]; [reflexivity|].
  cbn [map]. rewrite IH, (id_of_lookup st r p Hp).
  destruct (queue_entry_ok p Hok) as (e' & He' & Hid & _).
  assert (e' = e) by congruence. subst e'. now rewrite Hid.
Qed.

(** X22. [get_queue_status] on an analyzer that satisfies the scenario
    invariant: it raises nothing (the subscript of [next_room] never
    fails) and changes nothing; the queue size is the number of entries,
    the entries carry the ids of the roster patients in roster order, the
    number of remaining steps of every entry is between 0 and the pathway
    length, and an entry has no next room exactly when no step remains. *)
Theorem X22_queue_status (A : DynamicRegretAnalyzer.t) (st : Store) :
  scenario_ok A st ->
  exists entries,
    DynamicRegretAnalyzer.get_queue_status A st
    = Ok (Z.of_nat (length entries), entries) st /\
    map DynamicRegretAnalyzer.q_id entries = map (id_of st) (roster_of A st) /\
    Forall (fun e =>
              (0 <= DynamicRegretAnalyzer.q_steps_remaining e
               <= DynamicRegretAnalyzer.q_pathway_length e)%Z /\
              (DynamicRegretAnalyzer.q_next_room e = None <->
               DynamicRegretAnalyzer.q_steps_remaining e = 0%Z))
           entries.
Proof.
  intros Hsc. destruct (get_queue_status_run A st Hsc) as (entries & Hrun & H).
  exists entries. split; [exact Hrun|]. split; [exact (entries_ids st _ _ H)|].
  clear Hrun. induction H as [|r e rs es (p & _ & Hok & He) _ IH]; constructor; [|exact IH].
  destruct (queue_entry_ok p Hok) as (e' & He' & _ & H1 & H2 & _).
  assert (e' = e) by congruence. subst e'. now split.
Qed.

Lemma X22_queue_status_witness :
  scenario_ok ward2_analyzer ward2_store /\
  exists entries,
    DynamicRegretAnalyzer.get_queue_status ward2_analyzer ward2_store
    = Ok (Z.of_nat (length entries), entries) ward2_store /\
    map DynamicRegretAnalyzer.q_id entries
    = map (id_of ward2_store) (roster_of ward2_analyzer ward2_store) /\
    Forall (fun e =>
              (0 <= DynamicRegretAnalyzer.q_steps_remaining e
               <= DynamicRegretAnalyzer.q_pathway_length e)%Z /\
              (DynamicRegretAnalyzer.q_next_room e = None <->
               DynamicRegretAnalyzer.q_steps_remaining e = 0%Z))
           entries.
Proof.
  exact (conj ward2_scenario_ok
              (X22_queue_status ward2_analyzer ward2_store ward2_scenario_ok)).
Defined.

(** *** The endpoints *)

Lemma NoDup_map_eq {X Y} (f : X -> Y) (l : list X) (x y : X) :
  List.NoDup (map f l) -> In x l -> In y l -> f x = f y -> x = y.
Proof.
  induction l as [|z l IH]; [intros _ []|]. cbn [map]. intros Hnd Hx Hy E.
  inversion Hnd as [|? ? Hz Hl]; subst.
  destruct Hx as [->|Hx], Hy as [->|Hy]; [reflexivity| | |now apply IH].
  - exfalso. apply Hz. rewrite E. now apply in_map.
  - exfalso. apply Hz. rewrite <- E. now apply in_map.
Qed.

Lemma roster_of_upd_patient (A : DynamicRegretAnalyzer.t) (st : Store) (r : ref)
    (p : Patient.t) :
  roster_of A (upd_patient st r p) = roster_of A st.
Proof. reflexivity. Qed.

Lemma entry_of_roster (st : Store) (roster : list ref)
    (entries : list DynamicRegretAnalyzer.QueueEntry) (e : DynamicRegretAnalyzer.QueueEntry) :
  Forall2 (fun r e => exists p, patient_objs st !! r = Some p /\ patient_ok p /\
                                DynamicRegretAnalyzer.queue_entry p = Some e)
          roster entries ->
  In e entries ->
  exists r p, In r roster /\ patient_objs st !! r = Some p /\ patient_ok p /\
              DynamicRegretAnalyzer.queue_entry p = Some e.
Proof.
  induction 1 as [|r e' rs es (p & Hp) _ IH]; [intros []|].
  intros [->|Hin].
  - exists r, p. split; [now left|exact Hp].
  - destruct (IH Hin) as (r' & p' & Hr' & H'). exists r', p'. split; [now right|exact H'].
Qed.

Lemma complete_step_effect (A : DynamicRegretAnalyzer.t) (patient_id : Z) (st : Store) :
  scenario_ok A st ->
  exists b entries st',
    App.complete_step A (Some patient_id) st
    = Ok (App.Success {| App.patient_complete := b;
                         App.step_queue_status := (Z.of_nat (length entries), entries) |})
         st' /\
    scenario_ok A st' /\
    map DynamicRegretAnalyzer.q_id entries = map (id_of st') (roster_of A st') /\
    Forall (fun e => DynamicRegretAnalyzer.q_id e = patient_id ->
                     (0 < DynamicRegretAnalyzer.q_steps_remaining e)%Z) entries /\
    (b = true -> ~ In patient_id (map DynamicRegretAnalyzer.q_id entries)) /\
    (b = false -> roster_of A st' = roster_of A st) /\
    (~ In patient_id (map (id_of st) (roster_of A st)) -> b = false /\ st' = st).
Proof.
  intros Hsc. unfold App.complete_step.
  destruct (step_patient_effect A patient_id st Hsc) as (b & st1 & Hstep & Hsc1 & Hfind).
  rewrite (bind_ok _ _ _ _ _ Hstep).
  assert (Hnot : ~ In patient_id (map (id_of st) (roster_of A st)) -> b = false /\ st1 = st).
  { intros Hnin.
    destruct (List.find _ (roster_of A st)) as [r|] eqn:Ef; [|exact Hfind].
    exfalso. apply Hnin. apply find_some in Ef as (Hin & Hid).
    apply bool_decide_eq_true_1 in Hid. rewrite <- Hid. now apply in_map. }
  destruct b.
  - destruct (remove_patient_effect A patient_id st1 Hsc1)
      as (st2 & Hrem & Hsc2 & _ & _ & Hgone & _).
    rewrite (bind_ok _ _ _ _ _ Hrem).
    destruct (get_queue_status_run A st2 Hsc2) as (entries & Hq & Hent).
    rewrite (bind_ok _ _ _ _ _ Hq).
    exists true, entries, st2. split; [reflexivity|]. split; [exact Hsc2|].
    pose proof (entries_ids st2 _ _ Hent) as Hids.
    split; [exact Hids|]. split; [|split; [|split]].
    + apply List.Forall_forall. intros e He Hid. exfalso. apply Hgone.
      rewrite <- Hids, <- Hid. now apply in_map.
    + intros _. now rewrite Hids.
    + discriminate.
    + intros Hnin. now destruct (Hnot Hnin).
  - rewrite (bind_ok (ret tt) _ st1 st1 tt eq_refl).
    destruct (get_queue_status_run A st1 Hsc1) as (entries & Hq & Hent).
    rewrite (bind_ok _ _ _ _ _ Hq).
    exists false, entries, st1. split; [reflexivity|]. split; [exact Hsc1|].
    pose proof (entries_ids st1 _ _ Hent) as Hids.
    split; [exact Hids|].
    assert (Hros : roster_of A st1 = roster_of A st).
    { destruct (List.find _ (roster_of A st)) as [r|].
      - destruct Hfind as (p & _ & _ & ->). apply roster_of_upd_patient.
      - now destruct Hfind as (_ & ->). }
    split; [|split; [discriminate|split; [intros _; exact Hros|exact Hnot]]].
    apply List.Forall_forall. intros e He Hid.
    destruct (entry_of_roster st1 _ _ e Hent He) as (r' & p' & Hr' & Hp' & Hok' & He').
    destruct (queue_entry_ok p' Hok') as (e' & He2 & Hid' & Hrange & _ & Hc).
    assert (e' = e) by congruence. subst e'.
    enough (Patient.is_complete p' = false) as Hnc.
    { destruct (Z.eq_dec (DynamicRegretAnalyzer.q_steps_remaining e) 0%Z) as [E|E]; [|lia].
      apply Hc in E. congruence. }
    rewrite Hros in Hr'.
    destruct (List.find _ (roster_of A st)) as [r|] eqn:Ef.
    + destruct Hfind as (p & Hp & Hb & ->).
      apply find_some in Ef as (Hin & Hr). apply bool_decide_eq_true_1 in Hr.
      pose proof Hsc as (_ & _ & Hcur). unfold roster_of in Hin, Hr'.
      destruct (DynamicRegretAnalyzer.current_state A) as [state|]; [|destruct Hin].
      destruct Hcur as (s & Hs & _ & Hnd & _). rewrite Hs in Hin, Hr'.
      assert (r' = r).
      { apply (NoDup_map_eq (id_of st) (GameState.patients s)); [exact Hnd|exact Hr'|exact Hin|].
        rewrite Hr, <- Hid, Hid'.
        rewrite <- (id_of_lookup _ r' p' Hp').
        symmetry. exact (id_of_upd_patient st r r' p (stepped p) Hp (stepped_id p)). }
      subst r'. rewrite (upd_patient_lookup st r p (stepped p) Hp) in Hp'.
      injection Hp' as <-. now rewrite <- Hb.
    + destruct Hfind as (_ & ->).
      exfalso. pose proof (find_none _ _ Ef r' Hr') as Hf. cbv beta in Hf.
      rewrite bool_decide_eq_true_2 in Hf; [discriminate Hf|].
      now rewrite (id_of_lookup st r' p' Hp'), <- Hid', Hid.
Qed.

(** X23. The [/complete_step] endpoint on an analyzer that satisfies the
    scenario invariant, for a request that names a patient: it answers with
    success, and the invariant holds again.  The queue it reports is the
    roster after the step.  A patient reported complete is no longer in the
    queue; a patient with the given id that is still in the queue has at
    least one step left; when the patient is not reported complete the
    roster is the old one; and for an id that is not on the roster the
    answer is "not complete" and nothing changes. *)
Theorem X23_complete_step (A : DynamicRegretAnalyzer.t) (patient_id : Z) (st : Store) :
  scenario_ok A st ->
  exists b entries st',
    App.complete_step A (Some patient_id) st
    = Ok (App.Success {| App.patient_complete := b;
                         App.step_queue_status := (Z.of_nat (length entries), entries) |})
         st' /\
    scenario_ok A st' /\
    map DynamicRegretAnalyzer.q_id entries = map (id_of st') (roster_of A st') /\
    Forall (fun e => DynamicRegretAnalyzer.q_id e = patient_id ->
                     (0 < DynamicRegretAnalyzer.q_steps_remaining e)%Z) entries /\
    (b = true -> ~ In patient_id (map DynamicRegretAnalyzer.q_id entries)) /\
    (b = false -> roster_of A st' = roster_of A st) /\
    (~ In patient_id (map (id_of st) (roster_of A st)) -> b = false /\ st' = st).
Proof. exact (complete_step_effect A patient_id st). Qed.

Lemma X23_complete_step_witness :
  scenario_ok ward2_analyzer ward2_store /\
  exists b entries st',
    App.complete_step ward2_analyzer (Some 2%Z) ward2_store
    = Ok (App.Success {| App.patient_complete := b;
                         App.step_queue_status := (Z.of_nat (length entries), entries) |})
         st' /\
    scenario_ok ward2_analyzer st' /\
    map DynamicRegretAnalyzer.q_id entries
    = map (id_of st') (roster_of ward2_analyzer st') /\
    Forall (fun e => DynamicRegretAnalyzer.q_id e = 2%Z ->
                     (0 < DynamicRegretAnalyzer.q_steps_remaining e)%Z) entries /\
    (b = true -> ~ In 2%Z (map DynamicRegretAnalyzer.q_id entries)) /\
    (b = false -> roster_of ward2_analyzer st' = roster_of ward2_analyzer ward2_store) /\
    (~ In 2%Z (map (id_of ward2_store) (roster_of ward2_analyzer ward2_store)) ->
     b = false /\ st' = ward2_store).
Proof.
  exact (conj ward2_scenario_ok
              (X23_complete_step ward2_analyzer 2 ward2_store ward2_scenario_ok)).
Defined.





(** *** The rule-based parser *)

(** X25. [parse_patients_rules] never returns an empty list: it returns
    between one and four patients, at most one Critical and at most one
    Moderate one, in the order Critical, Moderate, Minor; the patient of a
    description with a critical keyword comes first; and a description that
    mentions "two" or "2" gives two patients whatever else it mentions. *)
Theorem X25_parse_patients_rules (desc_lower : string) :
  let types := map fst (App.parse_patients_rules desc_lower) in
  let count ty := length (List.filter (fun t => bool_decide (t = ty)) types) in
  (1 <= length types <= 4)%nat /\
  (count Critical <= 1)%nat /\ (count Moderate <= 1)%nat /\
  types = repeat Critical (count Critical) ++ repeat Moderate (count Moderate)
          ++ repeat Minor (count Minor) /\
  (existsb (fun kw => App.contains kw desc_lower) App.critical_keywords = true ->
   head types = Some Critical) /\
  (App.contains "two" desc_lower || App.contains "2" desc_lower = true ->
   length types = 2%nat).
Proof.
  unfold App.parse_patients_rules.
  destruct (App.contains "two" desc_lower || App.contains "2" desc_lower);
    destruct (App.contains "three" desc_lower || App.contains "3" desc_lower);
    destruct (App.contains "four" desc_lower || App.contains "4" desc_lower);
    destruct (existsb (fun kw => App.contains kw desc_lower) App.critical_keywords);
    destruct (existsb (fun kw => App.contains kw desc_lower) App.moderate_keywords);
    destruct (existsb (fun kw => App.contains kw desc_lower) App.minor_keywords);
    vm_compute; (split; [lia|]); (split; [lia|]); (split; [lia|]);
    (split; [reflexivity|]); split; intros H; try reflexivity; discriminate H.
Qed.

(** *** The room table *)

Lemma fold_set_get {V} (room_coords : Dict.t V) :
  forall (d : Dict.t V) (k : string),
    Dict.wf room_coords ->
    Dict.get (fold_left (fun d kv => Dict.set d (fst kv) (snd kv)) room_coords d) k
    = match Dict.get room_coords k with
      | Some v => Some v
      | None => Dict.get d k
      end.
Proof.
  induction room_coords as [|[k0 v0] rest IH]; intros d k Hwf; [reflexivity|].
  unfold Dict.wf in Hwf. cbn [Dict.keys map fst] in Hwf.
  inversion Hwf as [|? ? Hfresh Hwf']; subst.
  cbn [fold_left fst snd Dict.get]. rewrite (IH _ _ Hwf').
  destruct (String.eqb k k0) eqn:E.
  - apply String.eqb_eq in E. subst k0.
    rewrite (proj2 (dict_get_None rest k) Hfresh). apply dict_get_set_eq.
  - apply String.eqb_neq in E.
    destruct (Dict.get rest k); [reflexivity|]. apply dict_get_set_ne. congruence.
Qed.

(** X26. [set_rooms] updates the room table as a dictionary update does:
    a room named in the request (a dictionary, so no room is named twice)
    gets the position of the request, every other room keeps its position,
    and the learner, the patient counter and the scenario stay as they
    are. *)
Theorem X26_set_rooms (A : DynamicRegretAnalyzer.t) (room_coords : Dict.t (Qc * Qc))
    (room : string) :
  Dict.wf room_coords ->
  Dict.get (DynamicRegretAnalyzer.room_positions
              (DynamicRegretAnalyzer.set_rooms A room_coords)) room
  = match Dict.get room_coords room with
    | Some position => Some position
    | None => Dict.get (DynamicRegretAnalyzer.room_positions A) room
    end /\
  DynamicRegretAnalyzer.cfr (DynamicRegretAnalyzer.set_rooms A room_coords)
  = DynamicRegretAnalyzer.cfr A /\
  DynamicRegretAnalyzer.patient_counter (DynamicRegretAnalyzer.set_rooms A room_coords)
  = DynamicRegretAnalyzer.patient_counter A /\
  DynamicRegretAnalyzer.current_state (DynamicRegretAnalyzer.set_rooms A room_coords)
  = DynamicRegretAnalyzer.current_state A.
Proof.
  intros Hwf. split; [exact (fold_set_get room_coords _ room Hwf)|].
  now repeat split.
Qed.


Lemma X26_set_rooms_witness :
  Dict.wf [("ICU"%string, (qz 3, qz 4))] /\
  Dict.get (DynamicRegretAnalyzer.room_positions
              (DynamicRegretAnalyzer.set_rooms DynamicRegretAnalyzer.init
                 [("ICU"%string, (qz 3, qz 4))])) "LAB"
  = match Dict.get [("ICU"%string, (qz 3, qz 4))] "LAB" with
    | Some position => Some position
    | None => Dict.get (DynamicRegretAnalyzer.room_positions DynamicRegretAnalyzer.init)
                       "LAB"
    end /\
  DynamicRegretAnalyzer.cfr
    (DynamicRegretAnalyzer.set_rooms DynamicRegretAnalyzer.init
       [("ICU"%string, (qz 3, qz 4))])
  = DynamicRegretAnalyzer.cfr DynamicRegretAnalyzer.init /\
  DynamicRegretAnalyzer.patient_counter
    (DynamicRegretAnalyzer.set_rooms DynamicRegretAnalyzer.init
       [("ICU"%string, (qz 3, qz 4))])
  = DynamicRegretAnalyzer.patient_counter DynamicRegretAnalyzer.init /\
  DynamicRegretAnalyzer.current_state
    (DynamicRegretAnalyzer.set_rooms DynamicRegretAnalyzer.init
       [("ICU"%string, (qz 3, qz 4))])
  = DynamicRegretAnalyzer.current_state DynamicRegretAnalyzer.init.
Proof.
  assert (H : Dict.wf [("ICU"%string, (qz 3, qz 4))]).
  { unfold Dict.wf. cbn. constructor; [intros []|constructor]. }
  exact (conj H (X26_set_rooms DynamicRegretAnalyzer.init
                   [("ICU"%string, (qz 3, qz 4))] "LAB" H)).
Defined.

(** *** [create_scenario] *)

Lemma create_loop_run (state : ref) (types : list PType) :
  forall (i : Z) (st : Store) (s : GameState.t),
    state_objs st !! state = Some s ->
    foldM (fun i ptype =>
             r <- new_patient
                    (Patient.new (i + 1) ptype (INITIAL_HEALTH ptype) (PATHWAYS ptype)
                                 0 0 0 [] 0 false) ;;
             modify_state state
               (fun s => GameState.set_patients s (GameState.patients s ++ [r])) ;;;
             ret (i + 1)%Z)
          types i st
    = Ok (i + Z.of_nat (length types))%Z
         {| patient_objs :=
              patient_objs st ++
                imap (fun j ptype =>
                        Patient.new (i + Z.of_nat j + 1) ptype (INITIAL_HEALTH ptype)
                                    (PATHWAYS ptype) 0 0 0 [] 0 false) types;
            state_objs :=
              <[state := GameState.set_patients s
                           (GameState.patients s ++
                              seq (length (patient_objs st)) (length types))]>
                (state_objs st) |}.
Proof.
  induction types as [|ptype types IH]; intros i st s Hs.
  - cbn [foldM imap length seq]. unfold ret. f_equal; [lia|].
    rewrite !app_nil_r.
    replace (GameState.set_patients s (GameState.patients s)) with s by now destruct s.
    rewrite (list_insert_id _ _ _ Hs). now destruct st.
  - cbn [foldM].
    set (p := Patient.new (i + 1) ptype (INITIAL_HEALTH ptype) (PATHWAYS ptype)
                0 0 0 [] 0 false).
    set (st0 := {| patient_objs := patient_objs st ++ [p]; state_objs := state_objs st |}).
    set (s1 := GameState.set_patients s (GameState.patients s ++ [length (patient_objs st)])).
    rewrite (bind_ok _ _ st (upd_state st0 state s1) (i + 1)%Z).
    2:{ rewrite (bind_ok (new_patient p) _ st st0 (length (patient_objs st)) eq_refl).
        now rewrite (bind_ok _ _ _ _ _ (modify_state_run st0 state s _ Hs)). }
    rewrite (IH (i + 1)%Z (upd_state st0 state s1) s1 (upd_state_lookup st0 state s s1 Hs)).
    f_equal; [cbn [length]; lia|].
    unfold upd_state, st0, s1. cbn [patient_objs state_objs GameState.patients
                                    GameState.set_patients].
    rewrite list_insert_insert_eq, length_app, <- !app_assoc. cbn [length app imap].
    rewrite Nat.add_1_r. f_equal.
    f_equal. unfold p. f_equal; [f_equal; lia|].
    apply imap_ext. intros j ty _. cbn. f_equal. lia.
Qed.

(** The dataclass defaults followed by [__post_init__] give the patient
    that [spawn_patient] builds with explicit arguments. *)
Lemma new_defaults (i : Z) (ptype : PType) :
  Patient.new i ptype (INITIAL_HEALTH ptype) (PATHWAYS ptype) 0 0 0 [] 0 false
  = Patient.new i ptype (INITIAL_HEALTH ptype) (PATHWAYS ptype) 0 0 0 []
                (match ptype with
                 | Critical => qz 25 | Moderate => qz 45 | Minor => qz 30
                 end)
                (bool_decide (ptype = Critical)).
Proof. now destruct ptype. Qed.

Lemma imap_ids (types : list PType) (f : nat -> PType -> Patient.t) :
  (forall j ty, Patient.id (f j ty) = (Z.of_nat j + 1)%Z) ->
  map Patient.id (imap f types) = map (fun j => (Z.of_nat j + 1)%Z) (seq 0 (length types)).
Proof.
  intros Hf. apply list_eq. intros j.
  change (map Patient.id (imap f types)) with (Patient.id <$> imap f types).
  change (map (fun j => (Z.of_nat j + 1)%Z) (seq 0 (length types)))
    with ((fun j => (Z.of_nat j + 1)%Z) <$> seq 0 (length types)).
  rewrite !list_lookup_fmap, list_lookup_imap.
  destruct (types !! j) as [ty|] eqn:E.
  - rewrite lookup_seq_lt by (eapply lookup_lt_Some, E). cbn. now rewrite Hf.
  - rewrite lookup_seq_ge by (now apply lookup_ge_None). reflexivity.
Qed.

Lemma succ_ids_nodup (n : nat) :
  List.NoDup (map (fun j => (Z.of_nat j + 1)%Z) (seq 0 n)).
Proof.
  apply NoDup_ListNoDup, NoDup_fmap_2; [|apply NoDup_seq].
  intros x y H. lia.
Qed.

Lemma create_scenario_run (types : list PType) (st : Store) :
  GameSimulator.create_scenario types st
  = Ok (length (state_objs st))
       {| patient_objs :=
            patient_objs st ++
              imap (fun j ptype =>
                      Patient.new (Z.of_nat j + 1) ptype (INITIAL_HEALTH ptype)
                                  (PATHWAYS ptype) 0 0 0 []
                                  (match ptype with
                                   | Critical => qz 25 | Moderate => qz 45
                                   | Minor => qz 30
                                   end)
                                  (bool_decide (ptype = Critical))) types;
          state_objs :=
            state_objs st ++
              [GameState.set_patients GameState.default
                 (seq (length (patient_objs st)) (length types))] |}.
Proof.
  unfold GameSimulator.create_scenario.
  set (st1 := {| patient_objs := patient_objs st;
                 state_objs := state_objs st ++ [GameState.default] |}).
  rewrite (bind_ok (new_state GameState.default) _ st st1 (length (state_objs st)) eq_refl).
  assert (Hs : state_objs st1 !! length (state_objs st) = Some GameState.default).
  { apply list_lookup_middle. reflexivity. }
  rewrite (bind_ok _ _ _ _ _ (create_loop_run _ types 0%Z st1 GameState.default Hs)).
  unfold ret. f_equal. unfold st1. cbn [patient_objs state_objs GameState.patients
                                        GameState.default app].
  f_equal.
  - f_equal. apply imap_ext. intros j ty _. cbv beta.
    rewrite Z.add_0_l. apply new_defaults.
  - rewrite insert_app_r_alt by lia. now rewrite Nat.sub_diag.
Qed.

(** X27. [create_scenario] raises nothing and changes no existing object.
    It returns a new state object with the default clock, positions and
    totals, whose roster is one new patient object per given type, in
    order, with the ids 1, 2, ...; each patient is the one [spawn_patient]
    builds for that id and type (the defaults of the constructor give the
    same deadline and doctor requirement).  When every patient object of
    the store satisfies the data invariant, the new state is one the
    simulator can run on. *)
Theorem X27_create_scenario (types : list PType) (st : Store) :
  let state := length (state_objs st) in
  let objs :=
    imap (fun j ptype =>
            Patient.new (Z.of_nat j + 1) ptype (INITIAL_HEALTH ptype) (PATHWAYS ptype)
                        0 0 0 []
                        (match ptype with
                         | Critical => qz 25 | Moderate => qz 45 | Minor => qz 30
                         end)
                        (bool_decide (ptype = Critical))) types in
  let st' :=
    {| patient_objs := patient_objs st ++ objs;
       state_objs :=
         state_objs st ++
           [GameState.set_patients GameState.default
              (seq (length (patient_objs st)) (length types))] |} in
  GameSimulator.create_scenario types st = Ok state st' /\
  map Patient.id objs = map (fun j => (Z.of_nat j + 1)%Z) (seq 0 (length types)) /\
  map Patient.ptype objs = types /\
  (all_ok st -> roster_ready st' state).
Proof.
  intros state objs st'. split; [apply create_scenario_run|].
  assert (Hids : map Patient.id objs
                 = map (fun j => (Z.of_nat j + 1)%Z) (seq 0 (length types))).
  { apply imap_ids. reflexivity. }
  split; [exact Hids|]. split.
  { apply list_eq. intros j.
    change (map Patient.ptype objs) with (Patient.ptype <$> objs).
    unfold objs. rewrite list_lookup_fmap, list_lookup_imap.
    now destruct (types !! j). }
  intros Hok.
  exists (GameState.set_patients GameState.default
            (seq (length (patient_objs st)) (length types))), objs.
  split; [split|split].
  - apply list_lookup_middle. reflexivity.
  - cbn [GameState.patients GameState.set_patients].
    apply Forall2_same_length_lookup. split.
    + unfold objs. now rewrite length_seq, length_imap.
    + intros j r p Hr Hp. apply lookup_seq in Hr as (-> & _).
      unfold st'. cbn [patient_objs]. rewrite lookup_app_r by lia.
      now replace (length (patient_objs st) + j - length (patient_objs st))%nat
        with j by lia.
  - rewrite Hids. apply succ_ids_nodup.
  - unfold all_ok, st'. cbn [patient_objs]. apply Forall_app. split; [exact Hok|].
    apply Forall_lookup. intros j p Hp. unfold objs in Hp.
    rewrite list_lookup_imap in Hp. destruct (types !! j) as [ty|]; [|discriminate Hp].
    injection Hp as <-. apply ok_new.
Qed.

(** *** The evaluation of the catalog *)


